(* ===== verification/_CoqProject ===== *)
-Q . S2P
Prelude.v
Iox.v
Types.v
VectorMap.v
Serialization.v
TransportInfo.v
Udp.v
TcpSession.v
Tcp.v
PendingMessages.v
SegmentedMessages.v
Startup.v
Assembly.v
DataWriter.v
Gateway.v
Discovery.v
DiscoveryFailure.v
Coherence.v
Unlocked.v
Chunks.v
TransportForwarder.v
IoxToTransport.v
TransportToIox.v
Expiry.v
Traffic.v
EndToEnd.v
BufferTransfer.v
Bystanders.v
UdpEndToEnd.v
TcpEndToEnd.v
Introspection.v
GatewayApp.v
GatewayRun.v
Threads.v
PubSub.v
Goodbye.v
Forwarding.v
Lifecycle.v
