(* ===== verification/Prelude.v ===== *)
(** * p3com: a verification development

    p3com is a gateway between Eclipse iceoryx, which passes messages between
    the processes of one machine through shared memory, and other machines.
    This library models the gateway of [src/], its UDP and TCP transports and
    the functions by which applications query it, and proves what it does.

    ** The program and the files that model it

    Foundations.
    - [Prelude] (this file): the result type [Outcome], loops over a sequence,
      machine integers, bytes, [std::find].
    - [Iox]: what is used of iceoryx (vectors, strings, service hashes): class
      [Iox] with the documented behaviour [IoxSpec], instance [ref_iox].
    - [Types]: generic/config.hpp, generic/types.hpp, transport_type.hpp,
      utility/helper_functions.hpp.  [VectorMap]: utility/vector_map.hpp.
    - [Serialization]: generic/serialization.cpp, the two wire formats.

    Transports.
    - [TransportInfo]: transport/transport_info.cpp, the registry; class
      [TransportLayer] is what the gateway knows of a transport.
    - [Udp]: source/udp/, the broadcasts by which gateways find each other and
      the datagrams of user data; asio is class [Sockets].
    - [TcpSession], [Tcp]: source/tcp/, the framing of messages on a connection
      and the list of sessions; asio's stream sockets are class [TcpSockets].

    Messages.
    - [PendingMessages], [SegmentedMessages]: the managers of messages that are
      still being sent and of messages of which segments are missing.  [Expiry]:
      the check for late messages as the two critical sections it consists of,
      interleaved with the callbacks and the updates of the channels.
    - [DataWriter]: generic/data_writer.cpp, cutting a chunk into segments.
    - [Chunks]: what is read of a chunk's header, and the memory of chunks.
    - [TransportForwarder]: generic/transport_forwarder.cpp.

    The gateway.
    - [Discovery], [DiscoveryFailure]: generic/discovery.cpp, who needs which
      service and over which device; the second file follows the broadcasts
      that are repeated when transports fail during a broadcast.  [Coherence]:
      what sending leaves as it is, the cached device indices among it.
      [Unlocked]: what is read after the mutex that protects it was released,
      here and in source/tcp/tcp_transport.cpp.
    - [Gateway]: gateway/gateway.inl, the channels of one direction, used by
      [IoxToTransport] (gateway/iox_to_transport.cpp) and [TransportToIox]
      (gateway/transport_to_iox.cpp, generic/data_reader.cpp) through the
      classes [GatewayState] and [ChannelFunctions].  [Traffic], [Bystanders]:
      what one message does not change of the others; [BufferTransfer]: the
      transports that write into the chunks themselves.
    - [Startup]: gateway/cmd_line.cpp, gateway_config.cpp, the constructor of
      gateway_app.cpp, main.cpp.  [Assembly]: the constructors that [run] calls,
      which register the callbacks with the transports.  [GatewayApp]: the objects
      of [GatewayApp::run], its events and its shutdown.  [GatewayRun]: the states
      the running gateway reaches.  [Threads]: the same gateway with the critical
      sections of its threads interleaved.
    - [Introspection]: introspection/gw_introspection.cpp, the functions an
      application calls.

    Compositions.
    - [EndToEnd]: a message through any transport; [UdpEndToEnd] and
      [TcpEndToEnd]: the same down to the datagrams and to the bytes of the
      connection.
    - [PubSub]: from a publisher on one running gateway to a subscriber on another;
      [Forwarding]: through a third gateway between two networks; [Lifecycle]: from
      the command line to the last announcement; [Goodbye]: from there until the
      threads are joined.

    ** How the code is modelled

    A function that can end abnormally returns an [Outcome]: [Terminated] is a
    failed [iox::cxx::Expects] or an exception that leaves a [noexcept]
    function, [UndefinedBehaviour] a read or write outside an object.  State is
    passed explicitly.  Members of a component are a [Record] with the names of
    the source; the state a component shares with others is reached through a
    class ([NetWorld], [DiscoveryState], [GatewayState]), so that it is proved
    once and used inside the larger states of [TransportToIox] and
    [GatewayApp].  An operation of the source keeps its name; a prefix [t_],
    [u_] or [b_] tells the TCP and UDP objects apart.

    A thread that reacts to notifications or to completed asynchronous
    operations is a list of events, each handled by one function.  The events of
    the gateway ([GatewayApp.GatewayEvent]) are the period of the main loop, the
    notifications of its three waitsets (new ports, a message of a local publisher,
    a message to forward) and the five callbacks of the transports (discovery
    message, user data, buffer needed, buffer released, buffer sent); a state is
    reachable ([GatewayRun.reachable]) by any sequence of them from [initialize]
    on.  Where a mutex makes operations atomic, interleavings are sequences of whole
    operations ([PendingMessages.pending_step], [Tcp.tcp_run]); where it does
    not, the steps between synchronisation points are interleaved
    ([IoxToTransport.thread_step], [Expiry.expiry_step], [TcpSession.interleaving]).
    In particular [GatewayApp.handle] carries out an event as a whole, although the
    discovery manager releases its mutex before the channels are updated;
    [Threads.task_step] runs one critical section of it, and
    [Threads.uninterrupted_is_whole] relates the two.

    32- and 64-bit integers are [Z] with the wrap-around written out; sizes and
    positions in containers are [nat].  Iterators are positions.

    Third-party code is a parameter: iceoryx ([Iox], [IoxPosh], the answers in
    [Introspection]), asio ([Sockets], [TcpSockets]), [getopt_long] and the TOML
    parser (their results), the random device, the clock.  Theorems that need
    its documented behaviour take it as [IoxSpec] or as a hypothesis, and a
    witness applies each of them at a concrete instance.

    ** Fuel

    [DataWriter.header_loop] and [payload_loop] get one unit per byte, every
    round sends at least one byte.  [Discovery.failCallback] gets one unit more
    than there are transports; [DiscoveryFailure.failure_cascade_settles] shows that it is
    enough.  [IoxToTransport.wait_until_sent] and
    [SegmentedMessages.releaseAll_loop] recurse on what is still to be reported
    or removed; the wait returns [OutOfFuel] when the transports report too little.
    The check for late messages gets one unit more than there are messages.
    The loops of [Introspection] take the fuel as an argument, and
    [registration_wait_ends] gives a bound from the times at which the
    environment answers.

    ** What the theorems show

    - What a local publisher publishes on one gateway is published by the gateways
      of the subscribers exactly once, with the same header and payload, whatever
      else happens in between ([PubSub.publish_subscribe]), and also when a third
      gateway forwards it ([Forwarding.forwarded_across_networks]).  The parts of
      it: writing and receiving in any order of the segments ([EndToEnd],
      [UdpEndToEnd], [TcpEndToEnd]), and filling the chunks in place
      ([BufferTransfer.buffer_transfers_publish], which is the same as receiving a
      datagram, [BufferTransfer.buffer_transfer_is_receive]).
    - Every chunk is handed back once ([DataWriter], [PendingMessages],
      [SegmentedMessages], [Expiry.chunks_conserved_while_expiring]).
    - The running gateway has in both directions exactly the channels that are
      needed, its cached device indices are those it would compute now, and it handles
      every admissible event ([GatewayRun.gateway_follows_discovery]).  It starts with
      every transport that was asked for and can be used, and the callbacks in place
      ([Assembly.gateway_assembled]); it ends, after a goodbye on every transport that
      still works ([Lifecycle.gateway_lifecycle]), and nothing is announced after the
      goodbye while its threads run out ([Goodbye.goodbye_stays_last]).
    - Threads that update the channels at the same time leave every part in order,
      with the channels that were handed on last, in any interleaving
      ([Threads.interleaved_updates]); these may be those of an older computation
      ([Threads.update_lost]).
    - Messages go to the devices whose gateways subscribe, over a transport both
      sides have, and are not forwarded back ([Discovery],
      [TransportForwarder]); failing transports are disabled, announced and
      never used again ([TransportInfo], [DiscoveryFailure]).
    - Two gateways find each other over UDP and over TCP
      ([UdpEndToEnd.first_contact_over_udp], [TcpEndToEnd.first_contact_over_tcp]).
      Device indices of UDP and TCP lead back to the peer; there is one TCP
      session per peer; connecting and waiting for registrations ends ([Udp],
      [Tcp], [Introspection]).
    - Wire formats and framing round-trip, and malformed input is caught as far
      as it is ([Serialization], [TcpSession]).
    - Where the code goes wrong, a theorem says how: among others
      [IoxToTransport.pending_hand_back_undefined],
      [IoxToTransport.notification_outlives_subscriber],
      [Expiry.expired_release_outlives_publisher], [Threads.update_lost],
      [Unlocked.cached_indices_race], [Unlocked.send_races_close],
      [BufferTransfer.expired_buffer_released],
      [BufferTransfer.message_beyond_limit_undefined],
      [TransportToIox.segment_place_unchecked],
      [TransportForwarder.unpushed_chunk_undefined],
      [Discovery.stale_indices_after_termination], [Tcp.stale_tcp_index],
      [TcpSession.concurrent_sends_corrupt], [Udp.eleventh_device_lost],
      [Introspection.default_timeout_never_waits].
      The admissible events exclude what these describe: a forwarded chunk that was
      not pushed, a segment beyond its chunk, a channel update that would delete a
      subscriber with pending messages; and the termination message of another
      gateway, after which the invariant is weaker until the next announcement
      ([GatewayRun.gateway_survives_terminations], [Lifecycle]).

    ** Not modelled

    Logging, and functions that only format log messages; build files; the PCIe
    transport, which is not part of the repository (the theorems over class
    [TransportLayer] cover it as far as it keeps to the interface, including
    [willBePending] and the buffer callbacks).
    The lifetime of what a non-owning [function_ref] refers to: [deinitialize]
    leaves the update callback referring to a temporary.
    The configuration is the one without [__FREERTOS__].  Below the critical
    sections: containers are changed in one step, so what two threads do to one
    container within the same moment (the list of gateway publishers, which the
    update callback changes without the mutex of the discovery manager) is outside
    the models; file [Unlocked] has the cases in which one thread acts between two
    steps of another.  [initRuntime] of iceoryx is taken to succeed. *)

From coqutil Require Import Word.LittleEndianList Byte.
From stdpp Require Import base list gmap.

Open Scope Z_scope.

(** ** Outcomes

    A C++ function of the gateway ends in one of four ways: it returns, an
    [iox::cxx::Expects] fails and terminates the process, it executes an
    operation whose behaviour the language leaves undefined (a read or a write
    outside an object), or, for the recursive models only, the fuel of the
    model runs out.  Every theorem about a recursive model shows that the last
    case does not occur. *)
Inductive Outcome (A : Type) : Type :=
  | Ok (a : A)
  | Terminated
  | UndefinedBehaviour
  | OutOfFuel.
Arguments Ok {A} _.
Arguments Terminated {A}.
Arguments UndefinedBehaviour {A}.
Arguments OutOfFuel {A}.

#[export] Instance Outcome_ret : MRet Outcome := fun A a => Ok a.
#[export] Instance Outcome_bind : MBind Outcome := fun A B f m =>
  match m with
  | Ok a => f a
  | Terminated => Terminated
  | UndefinedBehaviour => UndefinedBehaviour
  | OutOfFuel => OutOfFuel
  end.

(** [iox::cxx::Expects(condition)]. *)
Definition Expects (condition : bool) : Outcome unit :=
  if condition then Ok tt else Terminated.

(** Reading through a pointer or iterator that must be valid. *)
Definition deref {A} (o : option A) : Outcome A :=
  match o with Some a => Ok a | None => UndefinedBehaviour end.

Lemma bind_Ok {A B} (m : Outcome A) (f : A → Outcome B) b :
  m ≫= f = Ok b ↔ ∃ a, m = Ok a ∧ f a = Ok b.
Proof. destruct m; split; naive_solver. Qed.

Lemma Expects_Ok c u : Expects c = Ok u ↔ c = true.
Proof. destruct c, u; naive_solver. Qed.

Lemma deref_Ok {A} (o : option A) a : deref o = Ok a ↔ o = Some a.
Proof. destruct o; naive_solver. Qed.

(** One step of a monadic computation whose first action is a value. *)
Ltac ostep := cbn [mbind mret Outcome_bind Outcome_ret Expects deref fst snd].

(** A range-based [for] whose body may change the state. *)
Fixpoint for_each {A S : Type} (body : A → S → Outcome S) (l : list A) (s : S) : Outcome S :=
  match l with
  | [] => Ok s
  | x :: l => s ← body x s; for_each body l s
  end.

Lemma for_each_app {A S} (body : A → S → Outcome S) l1 l2 s :
  for_each body (l1 ++ l2) s = (s ← for_each body l1 s; for_each body l2 s).
Proof.
  revert s. induction l1 as [|x l1 IH]; intros s; simpl; [done|].
  by destruct (body x s); simpl.
Qed.

(** What every iteration relates, the loop relates. *)
Lemma for_each_rel {A S} (R : S → S → Prop) `{!PreOrder R} (body : A → S → Outcome S) l s s' :
  (∀ x s s', body x s = Ok s' → R s s') → for_each body l s = Ok s' → R s s'.
Proof.
  intros Hbody. revert s. induction l as [|x l IH]; intros s; simpl; [by intros [= <-]|].
  intros (s1 & Hs1 & Hl)%bind_Ok. etransitivity; [by eapply Hbody|by apply IH].
Qed.

(** The facts that preserve a component's invariant. *)
Create HintDb p3com discriminated.

(** ** Machine integers *)

Definition wrap32 (z : Z) : Z := z mod 2 ^ 32.
Definition is_u32 (z : Z) : Prop := 0 ≤ z < 2 ^ 32.
Definition is_u64 (z : Z) : Prop := 0 ≤ z < 2 ^ 64.

#[export] Instance is_u32_dec z : Decision (is_u32 z).
Proof. unfold is_u32. apply _. Defined.
#[export] Instance is_u64_dec z : Decision (is_u64 z).
Proof. unfold is_u64. apply _. Defined.

Lemma wrap32_small z : is_u32 z → wrap32 z = z.
Proof. apply Z.mod_small. Qed.

Lemma wrap32_u32 z : is_u32 (wrap32 z).
Proof. unfold is_u32, wrap32. apply Z.mod_pos_bound. lia. Qed.

(** ** Bytes *)

Abbreviation bytes := (list Init.Byte.byte).

#[export] Instance byte_eq_dec : EqDecision Init.Byte.byte := Byte.byte_eq_dec.

Lemma le_combine_split_u32 z : is_u32 z → le_combine (le_split 4 z) = z.
Proof. intros H. rewrite le_combine_split. by apply Z.mod_small. Qed.

Lemma le_combine_split_u64 z : is_u64 z → le_combine (le_split 8 z) = z.
Proof. intros H. rewrite le_combine_split. by apply Z.mod_small. Qed.

(** ** Lists as C++ sequences

    [std::find] and [std::find_if] return an iterator; an iterator into a
    contiguous sequence is modelled by its distance from [begin()], so
    [end()] is the length. *)
Fixpoint find_if {A} (p : A → bool) (l : list A) : nat :=
  match l with
  | [] => 0%nat
  | x :: l => if p x then 0%nat else S (find_if p l)
  end.

Definition std_find {A} `{EqDecision A} (x : A) (l : list A) : nat :=
  find_if (fun y => bool_decide (y = x)) l.

Section find_if.
Context {A : Type}.
Implicit Types (p : A → bool) (l : list A).

Lemma find_if_le p l : (find_if p l ≤ length l)%nat.
Proof. induction l; simpl; [lia|]. destruct (p _); lia. Qed.

Lemma find_if_found p l :
  (find_if p l < length l)%nat →
  ∃ x, l !! find_if p l = Some x ∧ p x = true.
Proof.
  induction l as [|y l IH]; simpl; [lia|].
  destruct (p y) eqn:E; [by exists y|]. intros. apply IH. lia.
Qed.

Lemma find_if_end p l : find_if p l = length l ↔ ∀ x, x ∈ l → p x = false.
Proof.
  induction l as [|y l IH]; simpl.
  - split; [set_solver|done].
  - destruct (p y) eqn:E.
    + split; [done|]. intros H. rewrite (H y) in E; [done|set_solver].
    + rewrite Nat.succ_inj_wd, IH. set_solver.
Qed.

Lemma find_if_not_end p l :
  find_if p l ≠ length l ↔ ∃ x, x ∈ l ∧ p x = true.
Proof.
  split.
  - intros H. pose proof (find_if_le p l).
    destruct (find_if_found p l) as (x & Hx & Hp); [lia|].
    exists x. split; [|done]. by eapply list_elem_of_lookup_2.
  - intros (x & Hx & Hp) He. rewrite find_if_end in He.
    by rewrite (He x Hx) in Hp.
Qed.

Lemma find_if_first p l i x :
  l !! i = Some x → (i < find_if p l)%nat → p x = false.
Proof.
  revert i. induction l as [|y l IH]; intros i; simpl; [done|].
  destruct (p y) eqn:E; [lia|]. destruct i; simpl.
  - by intros [= ->].
  - intros. eapply IH; [done|lia].
Qed.

Lemma find_if_app p l1 l2 :
  find_if p (l1 ++ l2) =
    if decide (find_if p l1 = length l1) then (length l1 + find_if p l2)%nat
    else find_if p l1.
Proof.
  induction l1 as [|y l1 IH]; simpl; [done|].
  destruct (p y); simpl; [done|]. rewrite IH.
  repeat case_decide; lia.
Qed.
End find_if.

Section std_find.
Context `{EqDecision A}.
Implicit Types (x : A) (l : list A).

Lemma std_find_le x l : (std_find x l ≤ length l)%nat.
Proof. apply find_if_le. Qed.

Lemma std_find_end x l : std_find x l = length l ↔ x ∉ l.
Proof.
  unfold std_find. rewrite find_if_end. split.
  - intros H Hx. specialize (H x Hx). by case_bool_decide.
  - intros H y Hy. case_bool_decide; [congruence|done].
Qed.

Lemma std_find_lookup x l : (std_find x l < length l)%nat → l !! std_find x l = Some x.
Proof.
  intros H. destruct (find_if_found _ _ H) as (y & Hy & Hp).
  apply bool_decide_eq_true in Hp. by subst.
Qed.

Lemma std_find_lt x l : x ∈ l → (std_find x l < length l)%nat.
Proof.
  intros H. pose proof (std_find_le x l).
  destruct (decide (std_find x l = length l)) as [E|E]; [|lia].
  by apply std_find_end in E.
Qed.

Lemma std_find_nodup x l i : NoDup l → l !! i = Some x → std_find x l = i.
Proof.
  intros Hnd Hi. assert (x ∈ l) as Hx by (by eapply list_elem_of_lookup_2).
  eapply NoDup_lookup; [done| |done]. by apply std_find_lookup, std_find_lt.
Qed.
End std_find.
