(* ===== verification/Iox.v ===== *)
(** * Iox: what the gateway uses of Eclipse iceoryx

    iceoryx is not part of the repository, so its containers, strings and
    service hashes are an interface: a class [Iox] of the operations the gateway
    calls and a class [IoxSpec] of the documented behaviour the theorems rely
    on.  [ref_iox] is one implementation, used by the witnesses. *)

From stdpp Require Import base list gmap.
From S2P Require Import Prelude.

Open Scope Z_scope.

(** [capro::IdString_t], by its contents, and [capro::ServiceDescription], by
    the three identifiers it is constructed from; two descriptions are equal
    when their identifiers are. *)
Abbreviation IdString := bytes.

Record ServiceDescription := mkService {
  getServiceIDString : IdString;
  getInstanceIDString : IdString;
  getEventIDString : IdString
}.

#[export] Instance ServiceDescription_eq_dec : EqDecision ServiceDescription.
Proof. solve_decision. Defined.

(** [capro::ServiceDescription::ClassHash]: an array of 32-bit words. *)
Abbreviation ClassHash := (list Z).

(** A [void*] into shared memory, and the identifier of a port.  A publisher or
    subscriber object is identified by the port it owns. *)
Abbreviation Ptr := Z.
Abbreviation UniquePortId := Z.

Definition nullptr : Ptr := 0.

(** The calls on publishers and subscribers that hand a chunk back to
    iceoryx, in the order they are made. *)
Inductive IoxEvent :=
  | SubscriberRelease (subscriber : UniquePortId) (userPayload : Ptr)
  | PublisherRelease (publisher : UniquePortId) (userPayload : Ptr)
  | PublisherPublish (publisher : UniquePortId) (userPayload : Ptr).

#[export] Instance IoxEvent_eq_dec : EqDecision IoxEvent.
Proof. solve_decision. Defined.

(** The value of an [iox::cxx::vector] is the list of its elements; the
    capacity, a template argument in C++, is passed to the member that needs
    it.  [push_back] stands for [push_back] and [emplace_back], whose result
    is whether the element was added.  [string_unsafe_assign] is given the
    memory that starts at its pointer argument; [None] is its result [false]. *)
Class Iox := {
  push_back : ∀ {A : Type}, nat → list A → A → (list A * bool);
  vector_erase : ∀ {A : Type}, list A → nat → list A;
  IdString_capacity : nat;
  string_unsafe_assign : bytes → Outcome (option IdString);
  CLASS_HASH_ELEMENT_COUNT : nat;
  getClassHash : ServiceDescription → ClassHash
}.

Definition nul : Init.Byte.byte := Init.Byte.x00.

(** A string value that a null-terminated copy represents faithfully. *)
Definition valid_IdString `{Iox} (s : IdString) : Prop :=
  nul ∉ s ∧ (length s ≤ IdString_capacity)%nat.

Definition valid_ClassHash `{Iox} (h : ClassHash) : Prop :=
  length h = CLASS_HASH_ELEMENT_COUNT ∧ Forall is_u32 h.

Class IoxSpec `{Iox} : Prop := {
  push_back_room : ∀ A cap (v : list A) x,
    (length v < cap)%nat → push_back cap v x = (v ++ [x], true);
  push_back_full : ∀ A cap (v : list A) x,
    (cap ≤ length v)%nat → push_back cap v x = (v, false);
  vector_erase_at : ∀ A (v : list A) i,
    (i < length v)%nat → vector_erase v i = delete i v;
  string_unsafe_assign_fits : ∀ s rest,
    valid_IdString s → string_unsafe_assign (s ++ nul :: rest) = Ok (Some s);
  string_unsafe_assign_long : ∀ s rest,
    nul ∉ s → (IdString_capacity < length s)%nat →
    string_unsafe_assign (s ++ nul :: rest) = Ok None;
  getClassHash_valid : ∀ s, valid_ClassHash (getClassHash s);
  IdString_capacity_bound : Z.of_nat IdString_capacity < 2 ^ 16;
  CLASS_HASH_ELEMENT_COUNT_bound : Z.of_nat CLASS_HASH_ELEMENT_COUNT < 2 ^ 16
}.

#[export] Instance valid_IdString_dec `{Iox} s : Decision (valid_IdString s).
Proof. unfold valid_IdString. apply _. Defined.
#[export] Instance valid_ClassHash_dec `{Iox} h : Decision (valid_ClassHash h).
Proof. unfold valid_ClassHash. apply _. Defined.

Section push_back.
Context `{IoxSpec}.

Lemma push_back_spec {A} cap (v : list A) x :
  push_back cap v x =
    if decide (length v < cap)%nat then (v ++ [x], true) else (v, false).
Proof. case_decide; [by apply push_back_room|apply push_back_full; lia]. Qed.

Lemma push_back_true {A} cap (v v' : list A) x :
  push_back cap v x = (v', true) → (length v < cap)%nat ∧ v' = v ++ [x].
Proof. rewrite push_back_spec. case_decide; naive_solver. Qed.

Lemma push_back_false {A} cap (v v' : list A) x :
  push_back cap v x = (v', false) → (cap ≤ length v)%nat ∧ v' = v.
Proof. rewrite push_back_spec. case_decide; intros [=]; split; [lia|done]. Qed.

Lemma push_back_length {A} cap (v : list A) x :
  (length v ≤ cap)%nat → (length (push_back cap v x).1 ≤ cap)%nat.
Proof.
  intros. rewrite push_back_spec. case_decide; simpl; [|done].
  rewrite length_app. simpl. lia.
Qed.
End push_back.

(** ** A reference implementation *)

Definition ref_push_back {A} (cap : nat) (v : list A) (x : A) : list A * bool :=
  if decide (length v < cap)%nat then (v ++ [x], true) else (v, false).

Definition ref_vector_erase {A} (v : list A) (i : nat) : list A := delete i v.

Definition ref_capacity : nat := 100.

(** [strnlen] bounded by the capacity plus one; reading past the end of the
    memory object is undefined. *)
Fixpoint ref_strnlen (bound : nat) (m : bytes) : Outcome nat :=
  match bound, m with
  | O, _ => Ok 0%nat
  | S _, [] => UndefinedBehaviour
  | S bound, b :: m =>
      if bool_decide (b = nul) then Ok 0%nat else n ← ref_strnlen bound m; Ok (S n)
  end.

Definition ref_unsafe_assign (m : bytes) : Outcome (option IdString) :=
  n ← ref_strnlen (S ref_capacity) m;
  Ok (if (n <=? ref_capacity)%nat then Some (take n m) else None).

Definition ref_hash_string (s : IdString) : Z :=
  foldl (fun h b => wrap32 (31 * h + Byte.byte.unsigned b)) 7 s.

Definition ref_getClassHash (s : ServiceDescription) : ClassHash :=
  let a := ref_hash_string (getServiceIDString s) in
  let b := ref_hash_string (getInstanceIDString s) in
  let c := ref_hash_string (getEventIDString s) in
  [wrap32 a; wrap32 b; wrap32 c; wrap32 (a + b + c)].

Definition ref_iox : Iox := {|
  push_back := @ref_push_back;
  vector_erase := @ref_vector_erase;
  IdString_capacity := ref_capacity;
  string_unsafe_assign := ref_unsafe_assign;
  CLASS_HASH_ELEMENT_COUNT := 4;
  getClassHash := ref_getClassHash
|}.

Lemma ref_strnlen_nul bound s rest :
  nul ∉ s → ref_strnlen bound (s ++ nul :: rest) = Ok (Nat.min bound (length s)).
Proof.
  revert bound. induction s as [|b s IH]; intros [|bound] Hs; simpl; try done.
  rewrite bool_decide_false by set_solver.
  by rewrite IH by set_solver.
Qed.

Lemma ref_iox_spec : @IoxSpec ref_iox.
Proof.
  split; simpl.
  - intros A cap v x ?. unfold ref_push_back. by case_decide.
  - intros A cap v x ?. unfold ref_push_back. case_decide; [lia|done].
  - done.
  - intros s rest [Hn Hl]. unfold ref_unsafe_assign.
    rewrite ref_strnlen_nul by done. change (length s ≤ ref_capacity)%nat in Hl.
    rewrite Nat.min_r by lia. cbn -[Nat.leb].
    rewrite (proj2 (Nat.leb_le _ _)) by done.
    by rewrite take_app_length.
  - intros s rest Hn Hl. unfold ref_unsafe_assign.
    rewrite ref_strnlen_nul by done. change (ref_capacity < length s)%nat in Hl.
    rewrite Nat.min_l by lia. cbn -[Nat.leb].
    by rewrite (proj2 (Nat.leb_gt _ _)) by lia.
  - intros s. split; [done|]. repeat constructor; apply wrap32_u32.
  - done.
  - done.
Qed.
