(* ===== verification/Types.v ===== *)
(** * Types: configuration constants, wire and state types, helper functions

    include/p3com/generic/config.hpp, generic/types.hpp,
    transport/transport_type.hpp and utility/helper_functions.hpp, in the
    configuration without [__FREERTOS__]. *)

From Stdlib Require Import String.
From stdpp Require Import base list gmap.
From S2P Require Import Prelude.
From S2P Require Import Iox.

Open Scope Z_scope.

(** ** config.hpp *)

Definition DISCOVERY_PERIOD : Z := 200.
Definition LOSSY_TRANSPORT_DISCOVERY_PERIOD : Z := 500.
Definition MAX_TOPICS : nat := 32.
Definition TRANSPORT_TYPE_COUNT : nat := 4.
Definition MAX_DEVICE_COUNT : nat := 10.
Definition MAX_FORWARDED_SERVICES : nat := 8.
Definition USER_HEADER_ALIGNMENT : Z := 8.
Definition MAX_NETWORK_IFACE_COUNT : nat := 10.

(** ** transport_type.hpp

    A scoped enumeration has a fixed underlying type, so [type] can produce
    values that are not enumerators: [OTHER i]. *)
Inductive TransportType :=
  | PCIE
  | UDP
  | TCP
  | NONE
  | OTHER (i : Z).

#[export] Instance TransportType_eq_dec : EqDecision TransportType.
Proof. solve_decision. Defined.

Definition index (t : TransportType) : Z :=
  match t with PCIE => 1 | UDP => 2 | TCP => 3 | NONE => 4 | OTHER i => wrap32 i end.

Definition type (i : Z) : TransportType :=
  if i =? 1 then PCIE else if i =? 2 then UDP else if i =? 3 then TCP
  else if i =? 4 then NONE else OTHER i.

Lemma index_type i : is_u32 i → index (type i) = i.
Proof.
  intros Hi. unfold type.
  repeat (case_match; [by simpl; lia|]). by apply wrap32_small.
Qed.

(** The array has [TRANSPORT_TYPE_COUNT] elements and three initialisers, so
    the last one is a null pointer. *)
Definition TRANSPORT_TYPE_NAMES : list (option bytes) :=
  let str := String.list_byte_of_string in
  [Some (str "PCIE"); Some (str "UDP"); Some (str "TCP"); None]%string.

Definition LOSSY_TRANSPORT_TYPES : list TransportType := [UDP; TCP].

(** ** types.hpp

    [hash_t] is a 32-bit and [bitset_t] a 64-bit integer. *)
Abbreviation hash_t := Z.
Abbreviation bitset_t := Z.

(** The mutexes a message may refer to: [m_endpointsMutex] of the two
    gateways and [m_forwardedServiceSubscribersMutex]. *)
Inductive Mutex :=
  | Iceoryx2TransportEndpoints
  | Transport2IceoryxEndpoints
  | ForwardedServiceSubscribers.

#[export] Instance Mutex_eq_dec : EqDecision Mutex.
Proof. solve_decision. Defined.

Record DeviceIndex_t := mkDeviceIndex {
  di_type : TransportType;
  di_device : Z
}.

#[export] Instance DeviceIndex_eq_dec : EqDecision DeviceIndex_t.
Proof. solve_decision. Defined.

Record PubSubInfo_t := mkPubSubInfo {
  userSubscribers : list ServiceDescription;
  gatewayBitset : bitset_t;
  gatewayHash : hash_t;
  infoHash : hash_t;
  isTermination : bool
}.

#[export] Instance PubSubInfo_eq_dec : EqDecision PubSubInfo_t.
Proof. solve_decision. Defined.

Record IoxChunkDatagramHeader_t := mkHeader {
  serviceHash : ClassHash;
  messageHash : hash_t;
  submessageCount : Z;
  submessageOffset : Z;
  submessageSize : Z;
  userPayloadSize : Z;
  userPayloadAlignment : Z;
  userHeaderSize : Z
}.

#[export] Instance IoxChunkDatagramHeader_eq_dec : EqDecision IoxChunkDatagramHeader_t.
Proof. solve_decision. Defined.

(** ** helper_functions.hpp *)

Section helper_functions.
Context `{Iox}.

Definition containsElement {A} `{EqDecision A} (container : list A) (element : A) : bool :=
  negb (std_find element container =? length container)%nat.

(** The specialisation for a service vector and a class hash. *)
Definition containsElement_hash (container : list ServiceDescription) (element : ClassHash) : bool :=
  negb (find_if (fun s => bool_decide (getClassHash s = element)) container
        =? length container)%nat.

Definition deleteElement {A} `{EqDecision A} (container : list A) (element : A) : list A :=
  let it := std_find element container in
  if (it =? length container)%nat then container else vector_erase container it.

Definition deleteElements {A} `{EqDecision A} (a b : list A) : list A :=
  foldl deleteElement a b.

(** [cap] is the capacity of the destination. *)
Definition pushUnique {A} `{EqDecision A} (cap : nat) (a b : list A) : list A :=
  foldl (fun a elem =>
    if negb (containsElement a elem) then (push_back cap a elem).1 else a) a b.
End helper_functions.

(** [std::memcpy] of [n] bytes from [src + soff] to [dst + doff]. *)
Definition memcpy (dst : bytes) (doff : nat) (src : bytes) (soff n : nat) : Outcome bytes :=
  if decide (doff + n ≤ length dst ∧ soff + n ≤ length src)%nat
  then Ok (list_inserts doff (take n (drop soff src)) dst)
  else UndefinedBehaviour.

(** The NEON variant: the loop of the inline assembly copies 64 bytes per
    iteration and advances both pointers, which are in-out operands; the rest
    is copied with [std::memcpy] from where the pointers then stand. *)
Definition ITERATION_SIZE : nat := 64.

Fixpoint neon_memcpy_loop (iterations : nat) (dst : bytes) (doff : nat) (src : bytes)
    (soff : nat) : Outcome (bytes * nat * nat) :=
  match iterations with
  | O => Ok (dst, doff, soff)
  | S iterations =>
      dst ← memcpy dst doff src soff ITERATION_SIZE;
      neon_memcpy_loop iterations dst (doff + ITERATION_SIZE) src (soff + ITERATION_SIZE)
  end.

Definition neonMemcpy_neon (dst : bytes) (doff : nat) (src : bytes) (soff size : nat)
    : Outcome bytes :=
  '(dst, doff, soff) ←
    (if (ITERATION_SIZE <=? size)%nat
     then neon_memcpy_loop (size / ITERATION_SIZE) dst doff src soff
     else Ok (dst, doff, soff));
  let remainingSize := (size mod ITERATION_SIZE)%nat in
  if (remainingSize =? 0)%nat then Ok dst else memcpy dst doff src soff remainingSize.

(** The portable variant. *)
Definition neonMemcpy (dst : bytes) (doff : nat) (src : bytes) (soff size : nat)
    : Outcome bytes := memcpy dst doff src soff size.

(** ** Lemmas: container helpers *)

Section helper_lemmas.
Context `{IoxSpec} `{EqDecision A}.
Implicit Types (a b l : list A) (x y : A).

Lemma containsElement_true l x : containsElement l x = true ↔ x ∈ l.
Proof.
  unfold containsElement. rewrite negb_true_iff, Nat.eqb_neq.
  rewrite std_find_end. split; [|tauto]. intros Hx. by apply dec_stable.
Qed.

Lemma containsElement_false l x : containsElement l x = false ↔ x ∉ l.
Proof. rewrite <-containsElement_true. by destruct (containsElement l x). Qed.

Lemma containsElement_hash_true (l : list ServiceDescription) h :
  containsElement_hash l h = true ↔ ∃ s, s ∈ l ∧ getClassHash s = h.
Proof.
  unfold containsElement_hash. rewrite negb_true_iff, Nat.eqb_neq, find_if_not_end.
  by setoid_rewrite bool_decide_eq_true.
Qed.

(** [deleteElement] removes the first occurrence. *)
Lemma deleteElement_not_in l x : x ∉ l → deleteElement l x = l.
Proof.
  intros Hx. unfold deleteElement. apply std_find_end in Hx. by rewrite Hx, Nat.eqb_refl.
Qed.

Lemma deleteElement_in l x : x ∈ l → deleteElement l x = delete (std_find x l) l.
Proof.
  intros Hx. unfold deleteElement. pose proof (std_find_lt x l Hx).
  rewrite (proj2 (Nat.eqb_neq _ _)) by lia. by apply vector_erase_at.
Qed.

Lemma deleteElement_perm l x : x ∈ l → x :: deleteElement l x ≡ₚ l.
Proof.
  intros Hx. rewrite deleteElement_in by done. symmetry.
  by apply delete_Permutation, std_find_lookup, std_find_lt.
Qed.

Lemma deleteElement_NoDup l x : NoDup l → NoDup (deleteElement l x).
Proof.
  destruct (decide (x ∈ l)) as [Hx|Hx]; [|by rewrite deleteElement_not_in].
  pose proof (deleteElement_perm l x Hx) as Hp. revert Hp.
  generalize (deleteElement l x) as d. intros d <-. by intros [_ ?]%NoDup_cons.
Qed.

Lemma elem_of_deleteElement l x y :
  NoDup l → y ∈ deleteElement l x ↔ y ∈ l ∧ y ≠ x.
Proof.
  intros Hl. destruct (decide (x ∈ l)) as [Hx|Hx].
  - pose proof (deleteElement_perm l x Hx) as Hp.
    revert Hp. generalize (deleteElement l x) as d. intros d Hp.
    rewrite <-Hp, NoDup_cons in Hl. rewrite <-Hp. set_solver.
  - rewrite deleteElement_not_in by done. set_solver.
Qed.

Lemma deleteElement_elem l x y : y ∈ deleteElement l x → y ∈ l.
Proof.
  destruct (decide (x ∈ l)) as [Hx|Hx]; [|by rewrite deleteElement_not_in].
  intros Hy. rewrite <-(deleteElement_perm l x Hx). set_solver.
Qed.

Lemma deleteElements_elem a b y : y ∈ deleteElements a b → y ∈ a.
Proof.
  revert a. induction b as [|x b IH]; intros a; [done|]. simpl.
  intros Hy%IH. by eapply deleteElement_elem.
Qed.

Lemma elem_of_deleteElements a b y :
  NoDup a → y ∈ deleteElements a b ↔ y ∈ a ∧ y ∉ b.
Proof.
  revert a. induction b as [|x b IH]; intros a Ha; simpl; [set_solver|].
  rewrite IH by (by apply deleteElement_NoDup).
  rewrite elem_of_deleteElement by done. set_solver.
Qed.

(** *** [pushUnique] *)

Lemma pushUnique_app cap a b1 b2 :
  pushUnique cap a (b1 ++ b2) = pushUnique cap (pushUnique cap a b1) b2.
Proof. apply foldl_app. Qed.

Lemma pushUnique_NoDup cap a b : NoDup a → NoDup (pushUnique cap a b).
Proof.
  revert a. induction b as [|x b IH]; intros a Ha; simpl; [done|]. apply IH.
  destruct (containsElement a x) eqn:E; simpl; [done|].
  rewrite push_back_spec. case_decide; simpl; [|done].
  apply containsElement_false in E. apply NoDup_app.
  split_and!; [done|set_solver|apply NoDup_singleton].
Qed.

Lemma pushUnique_adds cap a b : (length (pushUnique cap a b) ≤ length a + length b)%nat.
Proof.
  revert a. induction b as [|x b IH]; intros a; simpl; [lia|]. etransitivity; [apply IH|].
  rewrite push_back_spec. case_match; [case_decide|]; simpl; rewrite ?length_app; simpl; lia.
Qed.

Lemma pushUnique_length cap a b :
  (length a ≤ cap)%nat → (length (pushUnique cap a b) ≤ cap)%nat.
Proof.
  revert a. induction b as [|x b IH]; intros a Ha; simpl; [done|]. apply IH.
  case_match; [|done]. by apply push_back_length.
Qed.

Lemma pushUnique_prefix cap a b : a `prefix_of` pushUnique cap a b.
Proof.
  revert a. induction b as [|x b IH]; intros a; simpl; [done|].
  case_match; [|done]. etrans; [|apply IH].
  rewrite push_back_spec. case_decide; simpl; [by apply prefix_app_r|done].
Qed.

Lemma pushUnique_elem cap a b y : y ∈ pushUnique cap a b → y ∈ a ∨ y ∈ b.
Proof.
  revert a. induction b as [|x b IH]; intros a; simpl; [set_solver|].
  intros Hy%IH. revert Hy. case_match; [|set_solver].
  rewrite push_back_spec. case_decide; set_solver.
Qed.

(** Below the capacity nothing is lost. *)
Lemma elem_of_pushUnique cap a b y :
  (length a + length b ≤ cap)%nat →
  y ∈ pushUnique cap a b ↔ y ∈ a ∨ y ∈ b.
Proof.
  revert a. induction b as [|x b IH]; intros a Hl; simpl in *; [set_solver|].
  destruct (containsElement a x) eqn:E; simpl.
  - apply containsElement_true in E. rewrite IH by lia. set_solver.
  - rewrite push_back_room by lia. simpl.
    rewrite IH by (rewrite length_app; simpl; lia). set_solver.
Qed.

(** The exact condition: something is lost only if the result is full. *)
Lemma pushUnique_not_full cap a b y :
  (length (pushUnique cap a b) < cap)%nat →
  y ∈ a ∨ y ∈ b → y ∈ pushUnique cap a b.
Proof.
  revert a. induction b as [|x b IH]; intros a Hl Hy; simpl in *; [set_solver|].
  destruct (containsElement a x) eqn:E; simpl in *.
  - apply containsElement_true in E. apply IH; [done|set_solver].
  - revert Hl. rewrite push_back_spec. case_decide as Hd; simpl.
    + intros. apply IH; [done|set_solver].
    + intros Hl. pose proof (pushUnique_prefix cap a b) as Hp%prefix_length. lia.
Qed.

Lemma pushUnique_nil_length cap b :
  NoDup b → (length b ≤ cap)%nat → pushUnique cap [] b = b.
Proof.
  enough (∀ a, NoDup (a ++ b) → (length (a ++ b) ≤ cap)%nat →
            pushUnique cap a b = a ++ b) as Hg by apply (Hg []).
  induction b as [|x b IH]; intros a; simpl; [by rewrite app_nil_r|].
  intros Hnd Hl. assert (x ∉ a) as Hx by (apply NoDup_app in Hnd; set_solver).
  apply containsElement_false in Hx as ->. simpl.
  rewrite length_app in Hl. simpl in Hl. rewrite push_back_room by lia. simpl.
  rewrite IH.
  - by rewrite <-app_assoc.
  - by rewrite <-app_assoc.
  - rewrite !length_app. simpl. lia.
Qed.
End helper_lemmas.

(** ** Lemmas: memory *)

Lemma memcpy_Ok dst doff src soff n dst' :
  memcpy dst doff src soff n = Ok dst' ↔
  (doff + n ≤ length dst ∧ soff + n ≤ length src)%nat ∧
  dst' = list_inserts doff (take n (drop soff src)) dst.
Proof. unfold memcpy. case_decide; naive_solver. Qed.

Lemma memcpy_length dst doff src soff n dst' :
  memcpy dst doff src soff n = Ok dst' → length dst' = length dst.
Proof. intros [_ ->]%memcpy_Ok. apply length_inserts. Qed.

Lemma memcpy_total dst doff src soff n :
  (doff + n ≤ length dst)%nat → (soff + n ≤ length src)%nat →
  memcpy dst doff src soff n = Ok (list_inserts doff (take n (drop soff src)) dst).
Proof. intros. by apply memcpy_Ok. Qed.

(** What a copy leaves at each position of the destination. *)
Lemma memcpy_lookup dst doff src soff n dst' i :
  memcpy dst doff src soff n = Ok dst' →
  dst' !! i = if decide (doff ≤ i < doff + n)%nat then src !! (soff + (i - doff))%nat
              else dst !! i.
Proof.
  intros [[Hd Hs] ->]%memcpy_Ok.
  assert (length (take n (drop soff src)) = n) as Hl
    by (rewrite length_take, length_drop; lia).
  case_decide as Hi.
  - rewrite list_lookup_inserts by lia.
    rewrite lookup_take, decide_True by lia. by rewrite lookup_drop.
  - destruct (decide (i < doff)%nat).
    + by apply list_lookup_inserts_lt.
    + apply list_lookup_inserts_ge. lia.
Qed.

Lemma memcpy_0 dst doff src soff :
  (doff ≤ length dst)%nat → (soff ≤ length src)%nat → memcpy dst doff src soff 0 = Ok dst.
Proof. intros. rewrite memcpy_total by lia. by rewrite take_0. Qed.

Lemma memcpy_add dst doff src soff a b :
  memcpy dst doff src soff (a + b) =
    (dst' ← memcpy dst doff src soff a; memcpy dst' (doff + a) src (soff + a) b).
Proof.
  destruct (memcpy dst doff src soff a) as [dst'| | |] eqn:Ha; cbn.
  2-4: unfold memcpy in *; case_decide; try done; rewrite decide_False by lia; done.
  apply memcpy_Ok in Ha as [[Hd Hs] ->]. unfold memcpy. rewrite length_inserts.
  case_decide as Hab.
  2:{ by rewrite decide_False by lia. }
  rewrite decide_True by lia. f_equal.
  rewrite <-(take_take_drop (drop soff src) a b), drop_drop.
  assert (length (take a (drop soff src)) = a) as Hl
    by (rewrite length_take, length_drop; lia).
  by rewrite list_inserts_app_l, Hl, (Nat.add_comm a doff).
Qed.

Lemma neon_memcpy_loop_memcpy k dst doff src soff :
  (doff ≤ length dst)%nat → (soff ≤ length src)%nat →
  neon_memcpy_loop k dst doff src soff =
    (dst' ← memcpy dst doff src soff (k * ITERATION_SIZE);
     Ok (dst', doff + k * ITERATION_SIZE, soff + k * ITERATION_SIZE)%nat).
Proof.
  revert dst doff soff. induction k as [|k IH]; intros dst doff soff Hd Hs.
  { cbn. rewrite memcpy_0 by done. cbn. by rewrite !Nat.add_0_r. }
  cbn [neon_memcpy_loop Nat.mul]. rewrite memcpy_add.
  destruct (memcpy dst doff src soff ITERATION_SIZE) as [dst'| | |] eqn:E; try done.
  cbn -[ITERATION_SIZE Nat.add Nat.mul].
  pose proof (memcpy_length _ _ _ _ _ _ E) as Hl.
  apply memcpy_Ok in E as [[? ?] _].
  rewrite IH by lia. by rewrite !Nat.add_assoc.
Qed.

(** The copy routine for ARM NEON, a loop over blocks of 64 bytes followed by a copy of
    the rest, does for every size what the portable routine does: it copies the same bytes
    to the same place, and is undefined exactly when the portable one is. *)
Theorem neonMemcpy_neon_memcpy dst doff src soff size :
  (doff ≤ length dst)%nat → (soff ≤ length src)%nat →
  neonMemcpy_neon dst doff src soff size = neonMemcpy dst doff src soff size.
Proof.
  intros Hd Hs. unfold neonMemcpy_neon, neonMemcpy.
  pose proof (Nat.div_mod_eq size ITERATION_SIZE) as Hdm.
  set (k := (size / ITERATION_SIZE)%nat) in *.
  set (r := (size mod ITERATION_SIZE)%nat) in *. clearbody k r.
  assert ((if (ITERATION_SIZE <=? size)%nat then neon_memcpy_loop k dst doff src soff
           else Ok (dst, doff, soff)) = neon_memcpy_loop k dst doff src soff) as ->.
  { destruct (Nat.leb_spec ITERATION_SIZE size); [done|].
    by replace k with 0%nat by (unfold ITERATION_SIZE in *; lia). }
  rewrite neon_memcpy_loop_memcpy by done.
  replace size with (k * ITERATION_SIZE + r)%nat by lia. rewrite memcpy_add.
  destruct (memcpy dst doff src soff (k * ITERATION_SIZE)) as [dst'| | |] eqn:E; try done.
  cbn. pose proof (memcpy_length _ _ _ _ _ _ E) as Hl.
  apply memcpy_Ok in E as [[? ?] _].
  destruct (Nat.eqb_spec r 0) as [->|]; [|done]. by rewrite memcpy_0 by lia.
Qed.

(** ** Witness *)

Lemma neonMemcpy_neon_memcpy_witness :
  let src := replicate 70 Init.Byte.x61 ++ replicate 90 Init.Byte.x62 in
  neonMemcpy_neon (replicate 150 Init.Byte.x00) 7 src 5 130 = neonMemcpy (replicate 150 Init.Byte.x00) 7 src 5 130 ∧
  neonMemcpy (replicate 150 Init.Byte.x00) 7 src 5 130 =
    Ok (replicate 7 Init.Byte.x00 ++ replicate 65 Init.Byte.x61 ++ replicate 65 Init.Byte.x62 ++ replicate 13 Init.Byte.x00).
Proof.
  intros src. split; [|vm_compute; reflexivity].
  apply (neonMemcpy_neon_memcpy (replicate 150 Init.Byte.x00) 7 src 5 130).
  - apply (bool_decide_unpack _). vm_compute. exact I.
  - apply (bool_decide_unpack _). vm_compute. exact I.
Defined.
