(* ===== verification/VectorMap.v ===== *)
(** * VectorMap: the static associative container

    include/p3com/utility/vector_map.hpp and internal/utility/vector_map.inl.
    Keys and values live in two parallel static vectors; an iterator is an
    index into the values.  The second half gives the abstract view, a finite
    map, and the lemmas the client components use. *)

From stdpp Require Import base list gmap fin_maps.
From S2P Require Import Prelude.
From S2P Require Import Iox.

Record vector_map (K V : Type) := mkMap { m_keys : list K; m_elems : list V }.
Arguments mkMap {K V} _ _.
Arguments m_keys {K V} _.
Arguments m_elems {K V} _.

Section operations.
Context `{Iox} {K V : Type} `{EqDecision K} (cap : nat).
Implicit Types (m : vector_map K V) (key : K) (it : nat).

Definition vm_empty : vector_map K V := mkMap [] [].

Definition vm_end m : nat := length (m_elems m).

Definition vm_find m key : nat :=
  let it := std_find key (m_keys m) in
  if (it =? length (m_keys m))%nat then vm_end m else it.

(** [m_keys.push_back(key) && m_elems.emplace_back(args...)] *)
Definition vm_emplace m key (elem : V) : vector_map K V * bool :=
  let '(keys, pushed) := push_back cap (m_keys m) key in
  if pushed
  then let '(elems, emplaced) := push_back cap (m_elems m) elem in (mkMap keys elems, emplaced)
  else (mkMap keys (m_elems m), false).

Definition vm_erase m it : vector_map K V :=
  mkMap (vector_erase (m_keys m) it) (vector_erase (m_elems m) it).

Definition vm_clear m : vector_map K V := mkMap [] [].

Definition vm_back m : option V := last (m_elems m).

Definition vm_size m : nat := length (m_elems m).

(** Dereferencing the iterator [it]; [None] at [end()]. *)
Definition vm_at m it : option V := m_elems m !! it.

(** Assigning through the iterator. *)
Definition vm_set m it (elem : V) : vector_map K V :=
  mkMap (m_keys m) (<[it := elem]> (m_elems m)).

(** The invariant every operation keeps: the two vectors are parallel. *)
Definition vm_wf m : Prop :=
  length (m_keys m) = length (m_elems m) ∧ (length (m_elems m) ≤ cap)%nat.

Definition vm_contains m key : Prop := key ∈ m_keys m.
End operations.
Arguments vm_empty {K V}.

(** ** The entries, in insertion order, and the abstract map *)

Definition entries {K V} (m : vector_map K V) : list (K * V) := zip (m_keys m) (m_elems m).

Definition to_map {K V} `{Countable K} (m : vector_map K V) : gmap K V :=
  list_to_map (entries m).

Section lemmas.
Context `{IoxSpec} {K V : Type} `{EqDecision K} (cap : nat).
Implicit Types (m : vector_map K V) (key : K) (it : nat).

Lemma vm_empty_wf : vm_wf cap (@vm_empty K V).
Proof. split; simpl; [done|lia]. Qed.

Lemma vm_find_le m key : vm_wf cap m → (vm_find m key ≤ vm_end m)%nat.
Proof.
  intros [Hl _]. unfold vm_find, vm_end. case_match; [done|].
  rewrite <-Hl. apply std_find_le.
Qed.

Lemma vm_find_end m key : vm_wf cap m → vm_find m key = vm_end m ↔ key ∉ m_keys m.
Proof.
  intros [Hl _]. unfold vm_find, vm_end. rewrite <-std_find_end.
  destruct (Nat.eqb_spec (std_find key (m_keys m)) (length (m_keys m))); [done|].
  rewrite Hl in *. done.
Qed.

Lemma vm_find_found m key :
  vm_wf cap m → key ∈ m_keys m →
  (vm_find m key < vm_end m)%nat ∧ m_keys m !! vm_find m key = Some key ∧
  is_Some (m_elems m !! vm_find m key).
Proof.
  intros [Hl Hc] Hk. unfold vm_find, vm_end. pose proof (std_find_lt _ _ Hk) as Hlt.
  rewrite (proj2 (Nat.eqb_neq _ _)) by lia.
  split_and!; [lia|by apply std_find_lookup|]. apply lookup_lt_is_Some. lia.
Qed.

Lemma vm_emplace_spec m key v :
  vm_wf cap m →
  vm_emplace cap m key v =
    if decide (vm_size m < cap)%nat
    then (mkMap (m_keys m ++ [key]) (m_elems m ++ [v]), true) else (m, false).
Proof.
  intros [Hl Hc]. unfold vm_emplace, vm_size. rewrite !push_back_spec, Hl.
  case_decide; [done|]. by destruct m.
Qed.

Lemma vm_emplace_wf m key v : vm_wf cap m → vm_wf cap (vm_emplace cap m key v).1.
Proof.
  intros Hm. rewrite vm_emplace_spec by done. case_decide; [|done].
  destruct Hm. split; simpl; rewrite !length_app; simpl; unfold vm_size in *; lia.
Qed.

Lemma vm_erase_spec m it :
  vm_wf cap m → (it < vm_end m)%nat →
  vm_erase m it = mkMap (delete it (m_keys m)) (delete it (m_elems m)).
Proof.
  intros [Hl Hc] Hit. unfold vm_erase, vm_end in *.
  by rewrite !vector_erase_at by lia.
Qed.

Lemma vm_erase_wf m it : vm_wf cap m → (it < vm_end m)%nat → vm_wf cap (vm_erase m it).
Proof.
  intros Hm Hit. rewrite vm_erase_spec by done. destruct Hm as [Hl Hc].
  unfold vm_end in *. split; simpl; rewrite !length_delete; lia || (apply lookup_lt_is_Some; lia).
Qed.

Lemma vm_erase_size m it :
  vm_wf cap m → (it < vm_end m)%nat → S (vm_size (vm_erase m it)) = vm_size m.
Proof.
  intros Hm Hit. rewrite vm_erase_spec by done. unfold vm_size, vm_end in *. simpl.
  rewrite length_delete by (apply lookup_lt_is_Some; lia). lia.
Qed.

Lemma vm_clear_wf m : vm_wf cap (vm_clear m).
Proof. split; simpl; [done|lia]. Qed.

Lemma vm_set_wf m it v : vm_wf cap m → vm_wf cap (vm_set m it v).
Proof. intros [? ?]. split; simpl; by rewrite length_insert. Qed.

(** *** Keys stay distinct *)

Lemma vm_emplace_NoDup m key v :
  vm_wf cap m → NoDup (m_keys m) → key ∉ m_keys m →
  NoDup (m_keys (vm_emplace cap m key v).1).
Proof.
  intros Hm Hnd Hk. rewrite vm_emplace_spec by done. case_decide; simpl; [|done].
  apply NoDup_app. split_and!; [done|set_solver|apply NoDup_singleton].
Qed.

Lemma NoDup_delete {A} (l : list A) i : NoDup l → NoDup (delete i l).
Proof. intros Hl. eapply sublist_NoDup; [done|apply sublist_delete]. Qed.

Lemma vm_erase_NoDup m it :
  vm_wf cap m → (it < vm_end m)%nat → NoDup (m_keys m) → NoDup (m_keys (vm_erase m it)).
Proof. intros. rewrite vm_erase_spec by done. by apply NoDup_delete. Qed.

(** *** Entries *)

Lemma entries_length m : vm_wf cap m → length (entries m) = vm_size m.
Proof. intros [Hl _]. unfold entries, vm_size. rewrite length_zip. lia. Qed.

Lemma entries_lookup m i k v :
  entries m !! i = Some (k, v) ↔ m_keys m !! i = Some k ∧ m_elems m !! i = Some v.
Proof. unfold entries. rewrite lookup_zip_Some. done. Qed.

Lemma entries_emplace m key v :
  vm_wf cap m → (vm_size m < cap)%nat →
  entries (vm_emplace cap m key v).1 = entries m ++ [(key, v)].
Proof.
  intros Hm Hs. rewrite vm_emplace_spec, decide_True by done.
  destruct Hm. unfold entries. simpl. rewrite zip_with_app by lia. done.
Qed.

Lemma entries_erase_delete m it :
  vm_wf cap m → (it < vm_end m)%nat → entries (vm_erase m it) = delete it (entries m).
Proof.
  intros Hm Hlt. rewrite vm_erase_spec by done.
  destruct Hm as [Hl _]. unfold entries. clear Hlt.
  revert it Hl. destruct m as [ks es]; simpl. revert es.
  induction ks as [|? ks IH]; intros [|? es] [|it] [=]; simpl; try done.
  f_equal. by apply IH.
Qed.

Lemma entries_erase m it k v :
  vm_wf cap m → entries m !! it = Some (k, v) →
  (k, v) :: entries (vm_erase m it) ≡ₚ entries m.
Proof.
  intros Hm Hit. rewrite entries_erase_delete; [|done|].
  - symmetry. by apply delete_Permutation.
  - by apply entries_lookup in Hit as [_ ?%lookup_lt_Some].
Qed.

Lemma entries_set m it v :
  entries (vm_set m it v) = match m_keys m !! it with
                            | Some k => <[it := (k, v)]> (entries m) | None => entries m end.
Proof.
  unfold entries. destruct m as [ks es]; simpl. revert ks es.
  induction it as [|it IH]; intros [|k ks] [|e es]; simpl; try done.
  - by destruct (ks !! it).
  - rewrite IH. by destruct (ks !! it).
Qed.

Lemma entries_elems m : vm_wf cap m → (entries m).*2 = m_elems m.
Proof. intros [Hl _]. apply snd_zip. lia. Qed.

Lemma vm_find_entry m key :
  vm_wf cap m → key ∈ m_keys m →
  ∃ v, m_elems m !! vm_find m key = Some v ∧ entries m !! vm_find m key = Some (key, v).
Proof.
  intros Hm Hk. destruct (vm_find_found m key Hm Hk) as (_ & Hkey & [v Hv]).
  exists v. split; [done|]. by apply entries_lookup.
Qed.

Lemma vm_find_unique m i k v :
  vm_wf cap m → NoDup (m_keys m) → entries m !! i = Some (k, v) → vm_find m k = i.
Proof.
  intros Hm Hnd [Hk Hv]%entries_lookup.
  destruct (vm_find_found m k Hm) as (_ & Hf & _); [by eapply list_elem_of_lookup_2|].
  by eapply NoDup_lookup.
Qed.
End lemmas.

#[export] Hint Resolve vm_empty_wf vm_emplace_wf vm_erase_wf vm_clear_wf vm_set_wf : p3com.
#[export] Hint Resolve vm_emplace_NoDup vm_erase_NoDup NoDup_delete : p3com.

(** Erasing the entry of a key is filtering it out. *)
Lemma delete_filter_key {K V : Type} `{EqDecision K} (l : list (K * V)) i k v :
  NoDup l.*1 → l !! i = Some (k, v) → delete i l = filter (fun e => e.1 ≠ k) l.
Proof.
  revert i. induction l as [|[k' v'] l IH]; intros [|i] Hnd Hi; simplify_eq/=.
  - apply NoDup_cons in Hnd as [Hk _].
    rewrite filter_cons_False by (simpl; tauto). symmetry. clear IH.
    induction l as [|[k' v'] l IH]; [done|]. csimpl in Hk.
    rewrite filter_cons_True by (simpl; set_solver). f_equal. apply IH. set_solver.
  - apply NoDup_cons in Hnd as [Hk Hnd]. rewrite filter_cons_True; [f_equal; by apply IH|].
    simpl. intros ->. apply Hk. apply list_elem_of_fmap. exists (k, v).
    split; [done|]. by eapply list_elem_of_lookup_2.
Qed.

(** ** Refinement: a vector map with distinct keys is a bounded finite map *)

Section refinement.
Context `{IoxSpec} {K V : Type} `{Countable K} (cap : nat).
Implicit Types (m : vector_map K V) (key : K).

Lemma entries_keys m : vm_wf cap m → (entries m).*1 = m_keys m.
Proof. intros [Hl _]. apply fst_zip. lia. Qed.

Lemma to_map_Some m key v :
  vm_wf cap m → NoDup (m_keys m) → to_map m !! key = Some v ↔ (key, v) ∈ entries m.
Proof.
  intros Hm Hnd. unfold to_map. symmetry. apply elem_of_list_to_map.
  by rewrite entries_keys.
Qed.

Lemma to_map_None m key : vm_wf cap m → to_map m !! key = None ↔ key ∉ m_keys m.
Proof.
  intros Hm. unfold to_map. rewrite <-not_elem_of_list_to_map. by rewrite entries_keys.
Qed.

(** What a client of the container may rely on, in terms of the finite map. *)
Lemma vm_find_to_map m key : vm_wf cap m → vm_at m (vm_find m key) = to_map m !! key.
Proof.
  intros [Hl _]. unfold vm_at, vm_find, vm_end, to_map, entries. destruct m as [ks es]. cbn [m_keys m_elems] in *.
  assert ((if std_find key ks =? length ks then length es else std_find key ks)%nat = std_find key ks) as ->.
  { rewrite Hl. by destruct (Nat.eqb_spec (std_find key ks) (length es)). }
  revert es Hl. unfold std_find. induction ks as [|k ks IH]; intros [|e es] Hl; [done..|]. cbn.
  rewrite lookup_insert. case_bool_decide as Hk; [by rewrite decide_True|]. rewrite decide_False by done.
  apply IH. by injection Hl.
Qed.

Lemma vm_emplace_to_map m key v :
  vm_wf cap m → key ∉ m_keys m →
  to_map (vm_emplace cap m key v).1 =
    if decide (vm_size m < cap)%nat then <[key := v]> (to_map m) else to_map m.
Proof.
  intros Hm Hk. case_decide as Hs.
  - unfold to_map. rewrite entries_emplace by done.
    apply list_to_map_snoc. by rewrite entries_keys.
  - rewrite vm_emplace_spec by done. by rewrite decide_False.
Qed.

Lemma vm_erase_to_map m key :
  vm_wf cap m → NoDup (m_keys m) → key ∈ m_keys m →
  to_map (vm_erase m (vm_find m key)) = delete key (to_map m).
Proof.
  intros Hm Hnd Hk. destruct (vm_find_found cap m key Hm Hk) as (Hlt & _).
  destruct (vm_find_entry cap m key Hm Hk) as (v & Hv & He).
  pose proof (entries_erase cap m _ _ _ Hm He) as Hp.
  pose proof (vm_erase_wf cap m _ Hm Hlt) as Hm'.
  pose proof (vm_erase_NoDup cap m _ Hm Hlt Hnd) as Hnd'.
  assert (NoDup ((key, v) :: entries (vm_erase m (vm_find m key))).*1) as Hn.
  { rewrite Hp. by rewrite entries_keys. }
  unfold to_map at 2. rewrite <-(list_to_map_proper _ _ Hn Hp), list_to_map_cons.
  symmetry. apply delete_insert_id, not_elem_of_list_to_map.
  by apply NoDup_cons in Hn as [? _].
Qed.

Lemma vm_size_to_map m : vm_wf cap m → NoDup (m_keys m) → size (to_map m) = vm_size m.
Proof.
  intros Hm Hnd. unfold to_map. rewrite map_size_list_to_map by (by rewrite entries_keys).
  by apply entries_length with cap.
Qed.

Lemma vm_set_to_map m it key v :
  vm_wf cap m → NoDup (m_keys m) → m_keys m !! it = Some key →
  to_map (vm_set m it v) = <[key := v]> (to_map m).
Proof.
  intros Hm Hnd Hit. apply map_eq. intros k. apply option_eq. intros x.
  assert (length (entries m) = length (m_keys m)) as Hlen.
  { rewrite (entries_length cap) by done. by destruct Hm. }
  rewrite to_map_Some by (done || by apply vm_set_wf).
  rewrite entries_set, Hit, lookup_insert_Some, to_map_Some by done.
  assert (it < length (entries m))%nat by (rewrite Hlen; by eapply lookup_lt_Some).
  rewrite !list_elem_of_lookup. split.
  - intros [j Hj]. apply list_lookup_insert_Some in Hj as [(<- & [= -> ->] & _)|[Hne Hj]]; [by left|].
    right. split; [|by exists j]. intros ->. apply Hne.
    apply entries_lookup in Hj as [Hj _]. by eapply NoDup_lookup.
  - intros [[-> ->]|[Hne [j Hj]]].
    + exists it. by rewrite list_lookup_insert_eq.
    + exists j. rewrite list_lookup_insert_ne; [done|]. intros ->.
      apply entries_lookup in Hj as [Hj _]. congruence.
Qed.
End refinement.

(** ** Property *)

(** A vector map whose keys are distinct behaves as a finite map bounded by its
    capacity: [find] dereferences to the value of the key and is [end()] exactly when
    the key is absent, [emplace] of a new key inserts it and fails only when the
    container is full, [erase] of the found position removes the key and nothing else,
    and every operation keeps the keys distinct and the two vectors parallel. *)
Theorem vector_map_refines `{IoxSpec} {K V : Type} `{Countable K} (cap : nat)
    (m : vector_map K V) (key : K) (v : V) :
  vm_wf cap m → NoDup (m_keys m) →
  vm_at m (vm_find m key) = to_map m !! key ∧
  (vm_find m key = vm_end m ↔ to_map m !! key = None) ∧
  (let '(m', ok) := vm_emplace cap m key v in
   to_map m !! key = None →
   vm_wf cap m' ∧ NoDup (m_keys m') ∧
   ok = bool_decide (size (to_map m) < cap)%nat ∧
   to_map m' = if ok then <[key := v]> (to_map m) else to_map m) ∧
  (let m' := vm_erase m (vm_find m key) in
   is_Some (to_map m !! key) →
   vm_wf cap m' ∧ NoDup (m_keys m') ∧ to_map m' = delete key (to_map m)).
Proof.
  intros Hm Hnd. split; [by apply vm_find_to_map with cap|].
  split; [by rewrite (to_map_None cap), <-vm_find_end|]. split.
  - destruct (vm_emplace cap m key v) as [m' ok] eqn:E. rewrite (to_map_None cap) by done.
    intros Hk. pose proof (vm_emplace_to_map cap m key v Hm Hk) as Ht.
    pose proof (vm_emplace_wf cap m key v Hm) as Hwf.
    pose proof (vm_emplace_NoDup cap m key v Hm Hnd Hk) as Hnd'.
    pose proof E as Hok. rewrite vm_emplace_spec in Hok by done.
    rewrite E in Ht, Hwf, Hnd'. simpl in *. split_and!; [done..| |].
    + rewrite (vm_size_to_map cap) by done. case_decide; injection Hok as _ <-; symmetry;
        [by apply bool_decide_true|by apply bool_decide_false].
    + case_decide; injection Hok as _ <-; done.
  - cbn zeta. intros [x Hx]. assert (key ∈ m_keys m) as Hk.
    { apply dec_stable. rewrite <-(to_map_None cap) by done. congruence. }
    pose proof (vm_find_found cap m key Hm Hk) as (? & _).
    split_and!; [by apply vm_erase_wf|by apply (vm_erase_NoDup cap)|by apply (vm_erase_to_map cap)].
Qed.

(** ** Witness *)

Definition example_map : vector_map Z bool := mkMap [7; 3; 5]%Z [true; false; true].

Lemma vector_map_refines_witness :
  vm_wf 3 example_map ∧ NoDup (m_keys example_map) ∧
  vm_find example_map 3%Z = 1%nat ∧
  (vm_wf 3 (@vm_erase ref_iox _ _ example_map 1) ∧
   NoDup (m_keys (@vm_erase ref_iox _ _ example_map 1)) ∧
   to_map (@vm_erase ref_iox _ _ example_map 1) = delete 3%Z (to_map example_map)).
Proof.
  assert (vm_wf 3 example_map) as Hwf by (split; simpl; lia).
  assert (NoDup (m_keys example_map)) as Hnd by (apply (bool_decide_unpack _); vm_compute; exact I).
  split; [exact Hwf|]. split; [exact Hnd|]. split; [reflexivity|].
  destruct (@vector_map_refines ref_iox ref_iox_spec Z bool _ _ 3 example_map 3%Z true Hwf Hnd)
    as (_ & _ & _ & Herase).
  apply Herase. vm_compute. by eexists.
Defined.
