(* ===== verification/Serialization.v ===== *)
(** * Serialization: the wire format of discovery and user data messages

    include/p3com/generic/serialization.hpp and
    source/p3com/generic/serialization.cpp.  All supported platforms are little
    endian, so [memcpy] of an integer is [le_split] / [le_combine].  A
    serialiser returns the bytes it writes at [ptr] and the size; a deserialiser
    is given the memory from [ptr] to the end of the object [ptr] points into,
    which may be longer than [size]. *)

From coqutil Require Import Word.LittleEndianList Byte.
From stdpp Require Import base list gmap.
From S2P Require Import Prelude.
From S2P Require Import Iox.
From S2P Require Import Types.

Open Scope Z_scope.

Section definitions.
Context `{Iox}.

(** ** Sizes *)

Definition SERVICE_DESCRIPTION_SER_SIZE : nat := 3 * (IdString_capacity + 1).

Definition maxPubSubInfoSerializationSize : nat :=
  8 + MAX_TOPICS * SERVICE_DESCRIPTION_SER_SIZE + 8 + 4 + 4 + 1.

Definition maxIoxChunkDatagramHeaderSerializationSize : nat :=
  CLASS_HASH_ELEMENT_COUNT * 4 + 4 + 4 + 4 + 4 + 4 + 4 + 4.

(** ** Writing *)

(** [pushPrimitive] of an element of [sizeof] bytes. *)
Definition pushPrimitive (sizeof : nat) (elem : Z) : bytes := le_split sizeof elem.

(** [pushString]: the contents with the null character. *)
Definition pushString (str : IdString) : bytes := str ++ [nul].

Definition pushService (service : ServiceDescription) : bytes :=
  pushString (getServiceIDString service)
  ++ pushString (getInstanceIDString service)
  ++ pushString (getEventIDString service).

Definition serialize_PubSubInfo (info : PubSubInfo_t) : Outcome (bytes * Z) :=
  let buf :=
    pushPrimitive 8 (Z.of_nat (length (userSubscribers info)))
    ++ concat (pushService <$> userSubscribers info)
    ++ pushPrimitive 8 (gatewayBitset info)
    ++ pushPrimitive 4 (gatewayHash info)
    ++ pushPrimitive 4 (infoHash info)
    ++ pushPrimitive 1 (Z.b2z (isTermination info)) in
  let offset := length buf in
  _ ← Expects (offset <=? maxPubSubInfoSerializationSize)%nat;
  Ok (buf, wrap32 (Z.of_nat offset)).

Definition serialize_Header (h : IoxChunkDatagramHeader_t) : Outcome (bytes * Z) :=
  let buf :=
    concat (pushPrimitive 4 <$> take CLASS_HASH_ELEMENT_COUNT (serviceHash h))
    ++ pushPrimitive 4 (messageHash h)
    ++ pushPrimitive 4 (submessageCount h)
    ++ pushPrimitive 4 (submessageOffset h)
    ++ pushPrimitive 4 (submessageSize h)
    ++ pushPrimitive 4 (userPayloadSize h)
    ++ pushPrimitive 4 (userPayloadAlignment h)
    ++ pushPrimitive 4 (userHeaderSize h) in
  let offset := length buf in
  _ ← Expects (offset <=? maxIoxChunkDatagramHeaderSerializationSize)%nat;
  Ok (buf, wrap32 (Z.of_nat offset)).

(** ** Reading *)

(** [std::memcpy] of [n] bytes out of the object behind [ptr]. *)
Definition memread (mem : bytes) (offset n : nat) : Outcome bytes :=
  if decide (offset + n ≤ length mem)%nat then Ok (take n (drop offset mem))
  else UndefinedBehaviour.

Definition loadPrimitive (mem : bytes) (size sizeof offset : nat) : Outcome (Z * nat) :=
  _ ← Expects (offset + sizeof <=? size)%nat;
  bs ← memread mem offset sizeof;
  Ok (le_combine bs, offset + sizeof)%nat.

(** A [bool] object whose byte is neither 0 nor 1 has no value. *)
Definition loadBool (mem : bytes) (size offset : nat) : Outcome (bool * nat) :=
  '(z, offset) ← loadPrimitive mem size 1 offset;
  if z =? 0 then Ok (false, offset)
  else if z =? 1 then Ok (true, offset) else UndefinedBehaviour.

Definition loadString (mem : bytes) (size offset : nat) : Outcome (IdString * nat) :=
  success ← string_unsafe_assign (drop offset mem);
  str ← (match success with Some str => Ok str | None => Terminated end);
  _ ← Expects (offset + length str + 1 <=? size)%nat;
  Ok (str, offset + length str + 1)%nat.

Definition loadService (mem : bytes) (size offset : nat) : Outcome (ServiceDescription * nat) :=
  '(serviceStr, offset) ← loadString mem size offset;
  '(instanceStr, offset) ← loadString mem size offset;
  '(eventStr, offset) ← loadString mem size offset;
  Ok (mkService serviceStr instanceStr eventStr, offset).

(** The vector is resized to [n] and each element is then assigned. *)
Fixpoint loadServices (n : nat) (mem : bytes) (size offset : nat)
    : Outcome (list ServiceDescription * nat) :=
  match n with
  | O => Ok ([], offset)
  | S n =>
      '(service, offset) ← loadService mem size offset;
      '(services, offset) ← loadServices n mem size offset;
      Ok (service :: services, offset)
  end.

Definition deserialize_PubSubInfo (mem : bytes) (size : nat) : Outcome (PubSubInfo_t * Z) :=
  '(userSubscribersSize, offset) ← loadPrimitive mem size 8 0;
  _ ← Expects (userSubscribersSize <=? Z.of_nat MAX_TOPICS);
  '(services, offset) ← loadServices (Z.to_nat userSubscribersSize) mem size offset;
  '(bitset, offset) ← loadPrimitive mem size 8 offset;
  '(gwHash, offset) ← loadPrimitive mem size 4 offset;
  '(iHash, offset) ← loadPrimitive mem size 4 offset;
  '(termination, offset) ← loadBool mem size offset;
  _ ← Expects (offset <=? maxPubSubInfoSerializationSize)%nat;
  Ok (mkPubSubInfo services bitset gwHash iHash termination, wrap32 (Z.of_nat offset)).

Fixpoint loadWords (n : nat) (mem : bytes) (size offset : nat) : Outcome (list Z * nat) :=
  match n with
  | O => Ok ([], offset)
  | S n =>
      '(w, offset) ← loadPrimitive mem size 4 offset;
      '(ws, offset) ← loadWords n mem size offset;
      Ok (w :: ws, offset)
  end.

Definition deserialize_Header (mem : bytes) (size : nat)
    : Outcome (IoxChunkDatagramHeader_t * Z) :=
  '(sHash, offset) ← loadWords CLASS_HASH_ELEMENT_COUNT mem size 0;
  '(mHash, offset) ← loadPrimitive mem size 4 offset;
  '(count, offset) ← loadPrimitive mem size 4 offset;
  '(subOffset, offset) ← loadPrimitive mem size 4 offset;
  '(subSize, offset) ← loadPrimitive mem size 4 offset;
  '(payloadSize, offset) ← loadPrimitive mem size 4 offset;
  '(alignment, offset) ← loadPrimitive mem size 4 offset;
  '(headerSize, offset) ← loadPrimitive mem size 4 offset;
  _ ← Expects (offset <=? maxIoxChunkDatagramHeaderSerializationSize)%nat;
  Ok (mkHeader sHash mHash count subOffset subSize payloadSize alignment headerSize,
      wrap32 (Z.of_nat offset)).

(** ** Well-formed values *)

Definition valid_Service (s : ServiceDescription) : Prop :=
  valid_IdString (getServiceIDString s) ∧ valid_IdString (getInstanceIDString s)
  ∧ valid_IdString (getEventIDString s).

Definition valid_PubSubInfo (info : PubSubInfo_t) : Prop :=
  (length (userSubscribers info) ≤ MAX_TOPICS)%nat ∧
  Forall valid_Service (userSubscribers info) ∧
  is_u64 (gatewayBitset info) ∧ is_u32 (gatewayHash info) ∧ is_u32 (infoHash info).

Definition valid_Header (h : IoxChunkDatagramHeader_t) : Prop :=
  valid_ClassHash (serviceHash h) ∧ is_u32 (messageHash h) ∧ is_u32 (submessageCount h) ∧
  is_u32 (submessageOffset h) ∧ is_u32 (submessageSize h) ∧ is_u32 (userPayloadSize h) ∧
  is_u32 (userPayloadAlignment h) ∧ is_u32 (userHeaderSize h).

#[export] Instance valid_Service_dec s : Decision (valid_Service s).
Proof. unfold valid_Service. apply _. Defined.
#[export] Instance valid_PubSubInfo_dec s : Decision (valid_PubSubInfo s).
Proof. unfold valid_PubSubInfo. apply _. Defined.
#[export] Instance valid_Header_dec s : Decision (valid_Header s).
Proof. unfold valid_Header. apply _. Defined.
End definitions.

(** ** Lemmas: writing *)

Section lemmas.
Context `{IoxSpec}.
Implicit Types (mem rest : bytes) (size offset : nat).

Lemma length_pushPrimitive n z : length (pushPrimitive n z) = n.
Proof. apply length_le_split. Qed.

Lemma length_pushService s :
  valid_Service s → (length (pushService s) ≤ SERVICE_DESCRIPTION_SER_SIZE)%nat.
Proof.
  intros ([_ ?] & [_ ?] & [_ ?]). unfold pushService, pushString, SERVICE_DESCRIPTION_SER_SIZE.
  rewrite !length_app. simpl. lia.
Qed.

Lemma length_concat_le {A} (f : A → bytes) (n : nat) (l : list A) :
  Forall (fun x => length (f x) ≤ n)%nat l →
  (length (concat (f <$> l)) ≤ length l * n)%nat.
Proof. induction 1; csimpl; [done|]. rewrite length_app. lia. Qed.

Lemma length_concat_eq {A} (f : A → bytes) (n : nat) (l : list A) :
  (∀ x, length (f x) = n) → length (concat (f <$> l)) = (length l * n)%nat.
Proof. intros Hf. induction l; csimpl; [done|]. rewrite length_app, Hf. lia. Qed.

Lemma header_size_u32 : is_u32 (Z.of_nat maxIoxChunkDatagramHeaderSerializationSize).
Proof.
  unfold is_u32, maxIoxChunkDatagramHeaderSerializationSize.
  pose proof CLASS_HASH_ELEMENT_COUNT_bound. lia.
Qed.

Lemma info_size_u32 : is_u32 (Z.of_nat maxPubSubInfoSerializationSize).
Proof.
  unfold is_u32, maxPubSubInfoSerializationSize, SERVICE_DESCRIPTION_SER_SIZE, MAX_TOPICS.
  pose proof IdString_capacity_bound. lia.
Qed.

(** ** Lemmas: reading what was written *)

Lemma drop_add {A} (l pre rest : list A) (offset n : nat) :
  drop offset l = pre ++ rest → length pre = n → drop (offset + n) l = rest.
Proof. intros Hd <-. rewrite <-drop_drop, Hd. apply drop_app_length. Qed.

Lemma memread_at mem offset pre rest :
  drop offset mem = pre ++ rest → pre ≠ [] → memread mem offset (length pre) = Ok pre.
Proof.
  intros Hd Hne. unfold memread.
  assert (length (drop offset mem) = length pre + length rest)%nat as Hl
    by (rewrite Hd, length_app; done).
  rewrite length_drop in Hl. destruct pre; [done|]. simpl in *.
  rewrite decide_True by lia. rewrite Hd. simpl. by rewrite take_app_length.
Qed.

Lemma loadPrimitive_at mem size n offset z rest :
  drop offset mem = pushPrimitive n z ++ rest → (0 < n)%nat →
  0 ≤ z < 2 ^ (Z.of_nat n * 8) → (offset + n ≤ size)%nat →
  loadPrimitive mem size n offset = Ok (z, offset + n)%nat.
Proof.
  intros Hd Hn Hz Hs. unfold loadPrimitive.
  rewrite (proj2 (Nat.leb_le _ _)) by done. cbn.
  pose proof (memread_at mem offset _ _ Hd) as Hr. rewrite length_pushPrimitive in Hr.
  rewrite Hr by (intros E; apply (f_equal length) in E; rewrite length_pushPrimitive in E; simpl in E; lia).
  cbn. unfold pushPrimitive. by rewrite le_combine_split, Z.mod_small.
Qed.

#[local] Opaque pushPrimitive.

Lemma loadBool_at mem size offset b rest :
  drop offset mem = pushPrimitive 1 (Z.b2z b) ++ rest → (offset + 1 ≤ size)%nat →
  loadBool mem size offset = Ok (b, offset + 1)%nat.
Proof.
  intros Hd Hs. unfold loadBool. erewrite loadPrimitive_at; [|done|lia|destruct b; simpl; lia|done].
  by destruct b.
Qed.

Lemma loadString_at mem size offset s rest :
  valid_IdString s → drop offset mem = pushString s ++ rest →
  (offset + length s + 1 ≤ size)%nat →
  loadString mem size offset = Ok (s, offset + length s + 1)%nat.
Proof.
  intros Hv Hd Hs. unfold loadString. unfold pushString in Hd.
  rewrite Hd, <-app_assoc. simpl. rewrite string_unsafe_assign_fits by done. cbn.
  by rewrite (proj2 (Nat.leb_le _ _)) by done.
Qed.

Lemma loadService_at mem size offset s rest :
  valid_Service s → drop offset mem = pushService s ++ rest →
  (offset + length (pushService s) ≤ size)%nat →
  loadService mem size offset = Ok (s, offset + length (pushService s))%nat.
Proof.
  intros (H1 & H2 & H3) Hd Hs. unfold loadService, pushService in *.
  rewrite <-!app_assoc in Hd. rewrite !length_app in *.
  assert (∀ s', length (pushString s') = length s' + 1)%nat as Hl
    by (intros; apply length_app). rewrite !Hl in *.
  rewrite (loadString_at _ _ _ _ _ H1 Hd) by lia. cbn.
  eapply drop_add in Hd; [|apply Hl]. rewrite Nat.add_assoc in Hd.
  rewrite (loadString_at _ _ _ _ _ H2 Hd) by lia. cbn.
  eapply drop_add in Hd; [|apply Hl]. rewrite Nat.add_assoc in Hd.
  rewrite (loadString_at _ _ _ _ _ H3 Hd) by lia. cbn.
  destruct s; simpl in *. do 2 f_equal. lia.
Qed.

Lemma loadServices_at mem size offset l rest :
  Forall valid_Service l → drop offset mem = concat (pushService <$> l) ++ rest →
  (offset + length (concat (pushService <$> l)) ≤ size)%nat →
  loadServices (length l) mem size offset =
    Ok (l, offset + length (concat (pushService <$> l)))%nat.
Proof.
  intros Hv. revert offset. induction Hv as [|s l Hs Hv IH]; intros offset Hd Hsz; csimpl in *.
  { by rewrite Nat.add_0_r. }
  rewrite <-app_assoc in Hd. rewrite length_app in *.
  rewrite (loadService_at _ _ _ _ _ Hs Hd) by lia. cbn.
  eapply drop_add in Hd; [|done]. rewrite IH; [|done|lia]. cbn.
  by rewrite Nat.add_assoc.
Qed.

Lemma loadWords_at mem size offset ws rest :
  Forall is_u32 ws → drop offset mem = concat (pushPrimitive 4 <$> ws) ++ rest →
  (offset + length ws * 4 ≤ size)%nat →
  loadWords (length ws) mem size offset = Ok (ws, offset + length ws * 4)%nat.
Proof.
  intros Hv. revert offset. induction Hv as [|w ws Hw Hv IH]; intros offset Hd Hsz; csimpl in *.
  { by rewrite Nat.add_0_r. }
  rewrite <-app_assoc in Hd.
  rewrite (loadPrimitive_at _ _ _ _ _ _ Hd) by (done || lia). cbn.
  eapply drop_add in Hd; [|apply length_pushPrimitive]. rewrite IH; [|done|lia]. cbn.
  do 2 f_equal. lia.
Qed.
End lemmas.

#[local] Opaque pushPrimitive.

(** One load of a deserialiser against the bytes its serialiser wrote. *)
Ltac step_primitive Hd :=
  rewrite (loadPrimitive_at _ _ _ _ _ _ Hd) by (done || lia); ostep;
  eapply drop_add in Hd; [|apply length_pushPrimitive].

(** ** Properties *)

Section properties.
Context `{IoxSpec}.

Lemma serialize_Header_length h :
  valid_Header h →
  ∃ buf, serialize_Header h = Ok (buf, Z.of_nat maxIoxChunkDatagramHeaderSerializationSize)
         ∧ length buf = maxIoxChunkDatagramHeaderSerializationSize.
Proof.
  intros [[Hl Hw] _]. unfold serialize_Header.
  rewrite take_ge by lia.
  match goal with |- context [Expects (?n <=? _)%nat] => assert (n = maxIoxChunkDatagramHeaderSerializationSize) as Hn end.
  { rewrite !length_app, !length_pushPrimitive.
    rewrite (length_concat_eq _ 4) by (intros; apply length_pushPrimitive).
    rewrite Hl. unfold maxIoxChunkDatagramHeaderSerializationSize. lia. }
  eexists. rewrite Hn, Nat.leb_refl. cbn. rewrite wrap32_small by apply header_size_u32.
  split; [done|]. exact Hn.
Qed.

(** A header followed by anything is read back as it was written. *)
Lemma deserialize_Header_at h buf n rest size :
  valid_Header h → serialize_Header h = Ok (buf, n) → (length buf ≤ size)%nat →
  deserialize_Header (buf ++ rest) size = Ok (h, n).
Proof.
  intros Hv Hser Hsz. destruct (serialize_Header_length h Hv) as (buf' & Hser' & Hl).
  rewrite Hser in Hser'. injection Hser' as -> ->.
  destruct Hv as ([Hlen Hws] & Hm & Hc & Ho & Hs & Hp & Ha & Hh).
  unfold serialize_Header in Hser. rewrite take_ge in Hser by lia.
  apply bind_Ok in Hser as (_ & _ & [= <- _]).
  rewrite Hl in Hsz. unfold maxIoxChunkDatagramHeaderSerializationSize in Hsz.
  assert (∀ l : bytes, drop 0 l = l) as Hd0 by done.
  specialize (Hd0 ((concat (pushPrimitive 4 <$> serviceHash h)
    ++ pushPrimitive 4 (messageHash h) ++ pushPrimitive 4 (submessageCount h)
    ++ pushPrimitive 4 (submessageOffset h) ++ pushPrimitive 4 (submessageSize h)
    ++ pushPrimitive 4 (userPayloadSize h) ++ pushPrimitive 4 (userPayloadAlignment h)
    ++ pushPrimitive 4 (userHeaderSize h)) ++ rest)).
  rename Hd0 into Hd. rewrite <-!app_assoc in Hd. unfold deserialize_Header.
  rewrite <-!app_assoc, <-Hlen.
  rewrite (loadWords_at _ _ _ _ _ Hws Hd) by lia. cbn -[Nat.mul].
  eapply drop_add in Hd;
    [|by rewrite (length_concat_eq _ 4) by (intros; apply length_pushPrimitive)].
  rewrite Nat.add_0_l in Hd.
  step_primitive Hd. step_primitive Hd. step_primitive Hd. step_primitive Hd.
  step_primitive Hd. step_primitive Hd. step_primitive Hd.
  unfold maxIoxChunkDatagramHeaderSerializationSize. rewrite Hlen, Nat.leb_refl. cbn.
  destruct h; simpl in *. do 2 f_equal. apply wrap32_small, header_size_u32.
Qed.

(** The serialised header, for clients that send it. *)
Definition header_bytes (h : IoxChunkDatagramHeader_t) : bytes :=
  match serialize_Header h with Ok (buf, _) => buf | _ => [] end.

Lemma serialize_header_bytes h :
  valid_Header h →
  serialize_Header h = Ok (header_bytes h, Z.of_nat maxIoxChunkDatagramHeaderSerializationSize)
  ∧ length (header_bytes h) = maxIoxChunkDatagramHeaderSerializationSize.
Proof.
  intros Hv. unfold header_bytes. by destruct (serialize_Header_length h Hv) as (buf & -> & ->).
Qed.

Lemma deserialize_header_bytes h rest size :
  valid_Header h → (maxIoxChunkDatagramHeaderSerializationSize ≤ size)%nat →
  deserialize_Header (header_bytes h ++ rest) size =
    Ok (h, Z.of_nat maxIoxChunkDatagramHeaderSerializationSize).
Proof.
  intros Hv Hs. destruct (serialize_header_bytes h Hv) as [He Hl].
  apply deserialize_Header_at; [done..|lia].
Qed.

Lemma serialize_PubSubInfo_length info :
  valid_PubSubInfo info →
  ∃ buf, serialize_PubSubInfo info = Ok (buf, Z.of_nat (length buf))
         ∧ (length buf ≤ maxPubSubInfoSerializationSize)%nat.
Proof.
  intros (Hl & Hs & _). unfold serialize_PubSubInfo.
  match goal with |- context [Expects (length ?b <=? _)%nat] => set (buf := b) end.
  assert (length buf ≤ maxPubSubInfoSerializationSize)%nat as Hb.
  { unfold buf. rewrite !length_app, !length_pushPrimitive.
    pose proof (length_concat_le pushService SERVICE_DESCRIPTION_SER_SIZE (userSubscribers info)) as Hc.
    specialize (Hc ltac:(eapply Forall_impl; [exact Hs|exact length_pushService])).
    unfold maxPubSubInfoSerializationSize. nia. }
  exists buf. rewrite (proj2 (Nat.leb_le _ _)) by done. ostep.
  pose proof info_size_u32. rewrite wrap32_small; [done|]. unfold is_u32 in *. lia.
Qed.

Lemma deserialize_PubSubInfo_at info buf n rest size :
  valid_PubSubInfo info → serialize_PubSubInfo info = Ok (buf, n) → (length buf ≤ size)%nat →
  deserialize_PubSubInfo (buf ++ rest) size = Ok (info, n).
Proof.
  intros Hv Hser Hsz. pose proof Hv as (Hl & Hs & Hb & Hg & Hi).
  unfold serialize_PubSubInfo in Hser.
  apply bind_Ok in Hser as (_ & Hle%Expects_Ok%Nat.leb_le & [= <- <-]).
  rewrite !length_app, !length_pushPrimitive in Hsz.
  rewrite !length_app, !length_pushPrimitive in Hle.
  match goal with |- deserialize_PubSubInfo ?m _ = _ => assert (drop 0 m = m) as Hd by done end.
  rewrite <-!app_assoc in Hd. unfold deserialize_PubSubInfo. rewrite <-!app_assoc.
  assert (is_u64 (Z.of_nat (length (userSubscribers info)))) as Hn
    by (unfold is_u64, MAX_TOPICS in *; lia).
  step_primitive Hd. rewrite (proj2 (Z.leb_le _ _)) by (unfold MAX_TOPICS in *; lia). ostep.
  rewrite Nat2Z.id, (loadServices_at _ _ _ _ _ Hs Hd) by lia. ostep.
  eapply drop_add in Hd; [|done].
  step_primitive Hd. step_primitive Hd. step_primitive Hd.
  rewrite (loadBool_at _ _ _ _ _ Hd) by lia. ostep.
  rewrite (proj2 (Nat.leb_le _ _)) by lia. ostep.
  destruct info; simpl in *. do 3 f_equal.
  rewrite !length_app, !length_pushPrimitive. lia.
Qed.

(** ** Arbitrary input *)

Lemma loadPrimitive_spec mem size n offset :
  (size ≤ length mem)%nat →
  loadPrimitive mem size n offset =
    if decide (offset + n ≤ size)%nat
    then Ok (le_combine (take n (drop offset mem)), offset + n)%nat else Terminated.
Proof.
  intros Hm. unfold loadPrimitive. case_decide as Hn.
  - rewrite (proj2 (Nat.leb_le _ _)) by done. cbn. unfold memread.
    by rewrite decide_True by lia.
  - by rewrite (proj2 (Nat.leb_gt _ _)) by lia.
Qed.

Lemma le_combine_take_u32 (bs : bytes) : is_u32 (le_combine (take 4 bs)).
Proof.
  pose proof (le_combine_bound (take 4 bs)) as Hb. unfold is_u32.
  rewrite length_take in Hb. split; [lia|].
  eapply Z.lt_le_trans; [apply Hb|]. apply Z.pow_le_mono_r; lia.
Qed.

Lemma le_combine_take_u64 (bs : bytes) : is_u64 (le_combine (take 8 bs)).
Proof.
  pose proof (le_combine_bound (take 8 bs)) as Hb. unfold is_u64.
  rewrite length_take in Hb. split; [lia|].
  eapply Z.lt_le_trans; [apply Hb|]. apply Z.pow_le_mono_r; lia.
Qed.

Lemma loadWords_spec n mem size offset :
  (size ≤ length mem)%nat → (offset ≤ size)%nat →
  if decide (offset + n * 4 ≤ size)%nat
  then ∃ ws, loadWords n mem size offset = Ok (ws, offset + n * 4)%nat
             ∧ length ws = n ∧ Forall is_u32 ws
             ∧ concat (pushPrimitive 4 <$> ws) = take (n * 4) (drop offset mem)
  else loadWords n mem size offset = Terminated.
Proof.
  intros Hm. revert offset. induction n as [|n IH]; intros offset Ho.
  { rewrite decide_True by lia. exists []. cbn. by rewrite Nat.add_0_r. }
  cbn [loadWords]. rewrite loadPrimitive_spec by done.
  destruct (decide (offset + 4 ≤ size)%nat) as [H4|H4]; cbn -[Nat.mul].
  2:{ by rewrite decide_False by lia. }
  specialize (IH (offset + 4)%nat H4).
  destruct (decide (offset + S n * 4 ≤ size)%nat) as [Hn|Hn].
  - rewrite decide_True in IH by lia. destruct IH as (ws & -> & Hl & Hw & Hc). cbn -[Nat.mul].
    eexists. split_and!; [do 2 f_equal; lia|simpl; lia|by constructor; [apply le_combine_take_u32|]|].
    rewrite fmap_cons. cbn [concat]. rewrite Hc.
    change (S n * 4)%nat with (4 + n * 4)%nat. rewrite <-take_take_drop, drop_drop. f_equal.
    apply (split_le_combine' (take 4 (drop offset mem)) 4). rewrite length_take, length_drop. lia.
  - rewrite decide_False in IH by lia. by rewrite IH.
Qed.

Lemma push_load n mem offset :
  (offset + n ≤ length mem)%nat →
  pushPrimitive n (le_combine (take n (drop offset mem))) = take n (drop offset mem).
Proof.
  intros Hn. apply (split_le_combine' (take n (drop offset mem)) n).
  rewrite length_take, length_drop. lia.
Qed.

Lemma take_add_drop {A} (l : list A) k a b :
  take (a + b) (drop k l) = take a (drop k l) ++ take b (drop (k + a) l).
Proof. by rewrite <-drop_drop, take_take_drop. Qed.

(** Whatever the bytes are, the header is read without touching memory beyond
    [size]; a short buffer terminates, and otherwise the value is well formed
    and serialises back to the bytes it was read from. *)
Lemma deserialize_Header_spec mem size :
  (size ≤ length mem)%nat →
  let n := maxIoxChunkDatagramHeaderSerializationSize in
  if decide (n ≤ size)%nat
  then ∃ h, deserialize_Header mem size = Ok (h, Z.of_nat n) ∧ valid_Header h
            ∧ serialize_Header h = Ok (take n mem, Z.of_nat n)
  else deserialize_Header mem size = Terminated.
Proof.
  intros Hm n. unfold deserialize_Header.
  pose proof (loadWords_spec CLASS_HASH_ELEMENT_COUNT mem size 0 Hm ltac:(lia)) as Hw.
  set (c := CLASS_HASH_ELEMENT_COUNT) in *. rewrite Nat.add_0_l in Hw.
  assert (n = c * 4 + (4 + (4 + (4 + (4 + (4 + (4 + 4)))))))%nat as Hn
    by (unfold n, maxIoxChunkDatagramHeaderSerializationSize, c; lia).
  destruct (decide (n ≤ size)%nat) as [Hsz|Hsz].
  - rewrite decide_True in Hw by lia. destruct Hw as (ws & -> & Hl & Hws & Hcat). ostep.
    do 7 (rewrite loadPrimitive_spec, decide_True by lia; ostep).
    replace (c * 4 + 4 + 4 + 4 + 4 + 4 + 4 + 4)%nat with n by lia.
    fold n. rewrite Nat.leb_refl. ostep.
    assert (wrap32 (Z.of_nat n) = Z.of_nat n) as Hwr by apply wrap32_small, header_size_u32.
    eexists. split; [by rewrite Hwr|].
    match goal with |- valid_Header ?h ∧ _ => assert (valid_Header h) as Hv end.
    { repeat split; try done; apply le_combine_take_u32. }
    split; [exact Hv|]. unfold serialize_Header.
    cbn [serviceHash messageHash submessageCount submessageOffset submessageSize
         userPayloadSize userPayloadAlignment userHeaderSize].
    fold c. rewrite take_ge by lia. rewrite Hcat, !push_load by lia.
    rewrite <-!take_add_drop.
    rewrite <-Hn, drop_0, length_take, Nat.min_l by lia. fold n.
    rewrite Nat.leb_refl. ostep. by rewrite Hwr.
  - destruct (decide (c * 4 ≤ size)%nat) as [Hc|Hc]; [|by rewrite Hw].
    destruct Hw as (ws & -> & _). ostep.
    repeat (rewrite loadPrimitive_spec by done; destruct (decide _); ostep; [|done]).
    lia.
Qed.

(** *** Discovery messages from arbitrary bytes *)

Lemma split_at_nul (m : bytes) : nul ∈ m → ∃ s rest, m = s ++ nul :: rest ∧ nul ∉ s.
Proof.
  induction m as [|b m IH]; [set_solver|]. intros Hb.
  destruct (decide (b = nul)) as [->|Hne]; [exists [], m; set_solver|].
  destruct IH as (s & rest & -> & Hs); [set_solver|].
  exists (b :: s), rest. set_solver.
Qed.

(** The outcomes the process can have when the input is hostile: a string of a
    message is looked for up to the first null character, so one must exist at
    or after [size] for the read to stay inside the object. *)
Definition ends (U : Prop) {A} (P : A → Prop) (o : Outcome A) : Prop :=
  match o with Ok a => P a | Terminated => True | UndefinedBehaviour => U | OutOfFuel => False end.

Abbreviation no_UB := (ends False).

Lemma ends_bind U {A B} (P : A → Prop) (Q : B → Prop) (m : Outcome A) (f : A → Outcome B) :
  ends U P m → (∀ a, P a → ends U Q (f a)) → ends U Q (m ≫= f).
Proof. destruct m; simpl; auto. Qed.

Lemma no_UB_ends U {A} (P : A → Prop) (o : Outcome A) : no_UB P o → ends U P o.
Proof. by destruct o. Qed.

Lemma ends_Expects U {B} (Q : B → Prop) c (f : unit → Outcome B) :
  (c = true → ends U Q (f tt)) → ends U Q (Expects c ≫= f).
Proof. destruct c; simpl; auto. Qed.

Lemma loadString_no_UB mem size offset :
  nul ∈ drop size mem → (offset ≤ size)%nat →
  no_UB (fun '(s, offset') => valid_IdString s ∧ (offset' ≤ size)%nat)
        (loadString mem size offset).
Proof.
  intros Hn Ho. assert (nul ∈ drop offset mem) as Hn'.
  { replace size with (offset + (size - offset))%nat in Hn by lia.
    rewrite <-drop_drop in Hn. rewrite <-(take_drop (size - offset) (drop offset mem)).
    apply elem_of_app. by right. }
  destruct (split_at_nul _ Hn') as (s & rest & Hd & Hs). unfold loadString. rewrite Hd.
  destruct (decide (length s ≤ IdString_capacity)%nat) as [Hl|Hl].
  - rewrite string_unsafe_assign_fits by done. ostep.
    apply ends_Expects. intros ?%Nat.leb_le. done.
  - by rewrite string_unsafe_assign_long by (done || lia).
Qed.

Lemma loadServices_no_UB n mem size offset :
  nul ∈ drop size mem → (offset ≤ size)%nat →
  no_UB (fun '(l, offset') => length l = n ∧ Forall valid_Service l ∧ (offset' ≤ size)%nat)
        (loadServices n mem size offset).
Proof.
  intros Hn. revert offset. induction n as [|n IH]; intros offset Ho; [done|].
  cbn [loadServices]. unfold loadService.
  eapply ends_bind with (P := fun '(s, o) => valid_Service s ∧ (o ≤ size)%nat).
  - eapply ends_bind; [by apply loadString_no_UB|]. intros [s1 o1] [? ?].
    eapply ends_bind; [by apply loadString_no_UB|]. intros [s2 o2] [? ?].
    eapply ends_bind; [by apply loadString_no_UB|]. by intros [s3 o3] [? ?].
  - intros [s o] [Hs Hos]. eapply ends_bind; [by apply IH|].
    intros [l o'] (Hl & Hv & Ho'). simpl. split_and!; [lia|by constructor|done].
Qed.

Lemma loadPrimitive_no_UB mem size n offset :
  (size ≤ length mem)%nat →
  no_UB (fun '(z, offset') => z = le_combine (take n (drop offset mem))
                              ∧ offset' = (offset + n)%nat ∧ (offset' ≤ size)%nat)
        (loadPrimitive mem size n offset).
Proof. intros. rewrite loadPrimitive_spec by done. by case_decide. Qed.

(** Reading a discovery message from the network: the only undefined behaviour
    left is a termination flag that is not a [bool]. *)
Lemma deserialize_PubSubInfo_ends mem size :
  (size ≤ length mem)%nat → nul ∈ drop size mem →
  ends (∃ offset b, (offset < size)%nat ∧ mem !! offset = Some b ∧ 1 < byte.unsigned b)
       (fun '(info, _) => valid_PubSubInfo info)
       (deserialize_PubSubInfo mem size).
Proof.
  intros Hm Hn. unfold deserialize_PubSubInfo.
  eapply ends_bind; [by apply no_UB_ends, loadPrimitive_no_UB|]. intros [n o] (Hnz & -> & Ho).
  apply ends_Expects. intros Hle%Z.leb_le.
  eapply ends_bind; [by apply no_UB_ends, loadServices_no_UB|].
  intros [l o1] (Hl & Hv & Ho1).
  eapply ends_bind; [by apply no_UB_ends, loadPrimitive_no_UB|]. intros [b o2] (-> & -> & Ho2).
  eapply ends_bind; [by apply no_UB_ends, loadPrimitive_no_UB|]. intros [g o3] (-> & -> & Ho3).
  eapply ends_bind; [by apply no_UB_ends, loadPrimitive_no_UB|]. intros [i o4] (-> & -> & Ho4).
  eapply ends_bind with (P := fun _ => True).
  - unfold loadBool.
    eapply ends_bind; [by apply no_UB_ends, loadPrimitive_no_UB|]. intros [t o5] (-> & -> & Ho5).
    set (off := (o1 + 8 + 4 + 4)%nat) in *.
    destruct (lookup_lt_is_Some_2 mem off ltac:(lia)) as [c Hc].
    rewrite (drop_S _ _ _ Hc). cbn [take]. rewrite le_combine_1.
    destruct (Z.eqb_spec (byte.unsigned c) 0); [done|].
    destruct (Z.eqb_spec (byte.unsigned c) 1); [done|].
    exists off, c. pose proof (byte.unsigned_range c). split_and!; [lia|done|lia].
  - intros [t o5] _. apply ends_Expects. intros _. simpl. unfold valid_PubSubInfo; simpl.
    split_and!; [|done|apply le_combine_take_u64|apply le_combine_take_u32..].
    pose proof (le_combine_take_u64 (drop 0 mem)). unfold is_u64 in *.
    rewrite Hl. unfold MAX_TOPICS in *. lia.
Qed.
End properties.

Section theorems.
Context `{IoxSpec}.

(** C15: Serialising a well-formed datagram header never fails its size check, writes
    exactly [maxIoxChunkDatagramHeaderSerializationSize] bytes, and deserialising
    those bytes, followed by any payload, returns the same header and offset. *)
Theorem header_roundtrip (h : IoxChunkDatagramHeader_t) (payload : bytes) :
  valid_Header h →
  ∃ buf, serialize_Header h = Ok (buf, Z.of_nat maxIoxChunkDatagramHeaderSerializationSize) ∧
    length buf = maxIoxChunkDatagramHeaderSerializationSize ∧
    deserialize_Header (buf ++ payload) (length buf + length payload) =
      Ok (h, Z.of_nat maxIoxChunkDatagramHeaderSerializationSize).
Proof.
  intros Hv. destruct (serialize_Header_length h Hv) as (buf & Hs & Hl).
  exists buf. split_and!; [done..|]. apply deserialize_Header_at; [done..|lia].
Qed.

(** C16: Serialising discovery information with at most [MAX_TOPICS] well-formed
    subscribers never exceeds the statically sized buffer (so its [Expects] holds),
    and deserialising it returns the same information. *)
Theorem discovery_info_roundtrip (info : PubSubInfo_t) (rest : bytes) (size : nat) :
  valid_PubSubInfo info →
  ∃ buf, serialize_PubSubInfo info = Ok (buf, Z.of_nat (length buf)) ∧
    (length buf ≤ maxPubSubInfoSerializationSize)%nat ∧
    ((length buf ≤ size)%nat →
     deserialize_PubSubInfo (buf ++ rest) size = Ok (info, Z.of_nat (length buf))).
Proof.
  intros Hv. destruct (serialize_PubSubInfo_length info Hv) as (buf & Hs & Hl).
  exists buf. split_and!; [done..|]. intros. by apply deserialize_PubSubInfo_at.
Qed.

(** For any received bytes, reading a datagram header stays within [size]: a short
    message terminates the process, and every other message yields a well-formed
    header whose serialisation is the bytes it was read from. *)
Theorem deserialize_header_total (mem : bytes) (size : nat) :
  (size ≤ length mem)%nat →
  let n := maxIoxChunkDatagramHeaderSerializationSize in
  ((size < n)%nat → deserialize_Header mem size = Terminated) ∧
  ((n ≤ size)%nat → ∃ h, deserialize_Header mem size = Ok (h, Z.of_nat n) ∧
      valid_Header h ∧ serialize_Header h = Ok (take n mem, Z.of_nat n)).
Proof.
  intros Hm n. pose proof (deserialize_Header_spec mem size Hm) as Hs. cbn zeta in Hs.
  fold n in Hs. destruct (decide (n ≤ size)%nat); split; intros; (done || lia).
Qed.

End theorems.

(** ** Witnesses *)

Definition example_header : IoxChunkDatagramHeader_t :=
  mkHeader [11; 22; 33; 44] 4294967295 3 0 7 12 8 4.

Definition example_info : PubSubInfo_t :=
  mkPubSubInfo
    [mkService [Byte.x52] [Byte.x46; Byte.x4c] []; mkService [] [Byte.x01] [Byte.x02]]
    (2 ^ 63 + 6) 17 4294967295 true.

Lemma header_roundtrip_witness :
  @valid_Header ref_iox example_header ∧
  ∃ buf, @serialize_Header ref_iox example_header = Ok (buf, 44) ∧ length buf = 44%nat ∧
    @deserialize_Header ref_iox (buf ++ [Byte.x05]) (length buf + 1) = Ok (example_header, 44).
Proof.
  assert (@valid_Header ref_iox example_header) as Hv
    by (apply (bool_decide_unpack _); vm_compute; exact I).
  split; [exact Hv|]. exact (@header_roundtrip ref_iox ref_iox_spec example_header [Byte.x05] Hv).
Defined.

Lemma discovery_info_roundtrip_witness :
  @valid_PubSubInfo ref_iox example_info ∧
  ∃ buf, @serialize_PubSubInfo ref_iox example_info = Ok (buf, Z.of_nat (length buf)) ∧
    (length buf ≤ @maxPubSubInfoSerializationSize ref_iox)%nat ∧
    ((length buf ≤ 50)%nat →
     @deserialize_PubSubInfo ref_iox (buf ++ []) 50 = Ok (example_info, Z.of_nat (length buf))).
Proof.
  assert (@valid_PubSubInfo ref_iox example_info) as Hv
    by (apply (bool_decide_unpack _); vm_compute; exact I).
  split; [exact Hv|].
  exact (@discovery_info_roundtrip ref_iox ref_iox_spec example_info [] 50 Hv).
Defined.

Lemma deserialize_header_total_witness :
  let mem := repeat Byte.x07 46 in
  (46 ≤ length mem)%nat ∧
  ((46 < 44)%nat → @deserialize_Header ref_iox mem 46 = Terminated) ∧
  ((44 ≤ 46)%nat → ∃ h, @deserialize_Header ref_iox mem 46 = Ok (h, 44) ∧
      @valid_Header ref_iox h ∧ @serialize_Header ref_iox h = Ok (take 44 mem, 44)).
Proof.
  cbn zeta. assert (46 ≤ length (repeat Byte.x07 46))%nat as Hl by (vm_compute; lia).
  split; [exact Hl|].
  exact (@deserialize_header_total ref_iox ref_iox_spec (repeat Byte.x07 46) 46 Hl).
Defined.

