(* ===== verification/TransportInfo.v ===== *)
(** * TransportInfo: the transport layers and their registry

    include/p3com/transport/transport.hpp, transport/transport_info.hpp and
    source/p3com/transport/transport_info.cpp.

    A transport layer is an object with a status and a set of virtual methods.
    The status automaton is modelled; what a virtual method does to the world is
    an interface, the class [TransportLayer], whose answers may depend on
    everything that was sent before.  [TransportInfo] holds the static members
    [s_transports] and [s_bitset]; [s_failCallback] is an argument of the
    operations that may call it, because it closes a recursion through the
    discovery manager (file Discovery). *)

From stdpp Require Import base list gmap.
From S2P Require Import Prelude.
From S2P Require Import Iox.
From S2P Require Import Types.

Open Scope Z_scope.

(** ** transport.hpp: the status automaton *)

Inductive TransportStatus := GOOD | FAILED | DISABLED.

#[export] Instance TransportStatus_eq_dec : EqDecision TransportStatus.
Proof. solve_decision. Defined.

(** [compare_exchange_strong(expected, desired)]: the new value and whether
    the exchange happened. *)
Definition compare_exchange (m_status expected desired : TransportStatus)
    : TransportStatus * bool :=
  if decide (m_status = expected) then (desired, true) else (m_status, false).

Record Transport := mkTransport {
  getType : TransportType;
  m_status : TransportStatus
}.

Definition isGood (t : Transport) : bool := bool_decide (m_status t = GOOD).

Definition hasFailedSetDisabled (t : Transport) : Transport * bool :=
  let '(st, res) := compare_exchange (m_status t) FAILED DISABLED in
  (mkTransport (getType t) st, res).

Definition setFailed (t : Transport) : Transport :=
  mkTransport (getType t) (compare_exchange (m_status t) GOOD FAILED).1.

(** What the gateway sends, in order. *)
Inductive NetEvent :=
  | Broadcast (t : TransportType) (data : bytes)
  | UserData (t : TransportType) (header payload : bytes) (device : Z).

#[export] Instance NetEvent_eq_dec : EqDecision NetEvent.
Proof. solve_decision. Defined.

(** The virtual methods, by the dynamic type of the transport.  A method that
    sends is given what was sent so far and tells whether the transport called
    [setFailed] meanwhile; [sendUserData_outcome] says before that whether the
    message is pending. *)
Class TransportLayer := {
  maxMessageSize : TransportType → Z;
  willBePending : TransportType → Z → bool;
  sendBroadcast_fails : list NetEvent → TransportType → bytes → bool;
  sendUserData_outcome : list NetEvent → TransportType → bytes → bytes → Z → bool * bool;
  constructor_fails : TransportType → bool
}.

(** ** transport_info.hpp *)

(** Bit access of a [std::bitset<64>]. *)
Definition bit (b : bitset_t) (i : Z) : bool := Z.testbit b i.
Definition bit_set (b : bitset_t) (i : Z) : bitset_t := Z.setbit b i.
Definition bit_reset (b : bitset_t) (i : Z) : bitset_t := Z.clearbit b i.

Record TransportInfo := mkTransportInfo {
  s_transports : list (option Transport);
  s_bitset : bitset_t
}.

Definition TransportInfo_init : TransportInfo :=
  mkTransportInfo (replicate TRANSPORT_TYPE_COUNT None) 0.

(** [s_transports[i]] *)
Definition slot (ti : TransportInfo) (i : nat) : Outcome (option Transport) :=
  deref (s_transports ti !! i).

Definition set_slot (ti : TransportInfo) (i : nat) (t : option Transport) : TransportInfo :=
  mkTransportInfo (<[i := t]> (s_transports ti)) (s_bitset ti).

(** Which transport layers the gateway was compiled with. *)
Record BuildConfig := mkBuild {
  PCIE_GATEWAY : bool;
  UDP_GATEWAY : bool;
  TCP_GATEWAY : bool
}.

Definition compiled_in (b : BuildConfig) (t : TransportType) : bool :=
  match t with
  | PCIE => PCIE_GATEWAY b | UDP => UDP_GATEWAY b | TCP => TCP_GATEWAY b | _ => false
  end.

Section operations.
Context `{TransportLayer} {W : Type}.

Definition make_transport (t : TransportType) : Transport :=
  mkTransport t (if constructor_fails t then FAILED else GOOD).

(** [TransportInfo::enable]. *)
Definition enable (b : BuildConfig) (ti : TransportInfo) (t : TransportType)
    : Outcome TransportInfo :=
  let i := Z.to_nat (index t) in
  let ti := mkTransportInfo (s_transports ti) (bit_set (s_bitset ti) (index t)) in
  _ ← deref (TRANSPORT_TYPE_NAMES !! i);
  Ok (if compiled_in b t then set_slot ti i (Some (make_transport t)) else ti).

Definition enableAll (b : BuildConfig) (ti : TransportInfo) : Outcome TransportInfo :=
  ti ← (if PCIE_GATEWAY b then enable b ti PCIE else Ok ti);
  ti ← (if UDP_GATEWAY b && negb (TCP_GATEWAY b) then enable b ti UDP else Ok ti);
  if TCP_GATEWAY b then enable b ti TCP else Ok ti.

Definition disable (ti : TransportInfo) (t : TransportType) : Outcome TransportInfo :=
  let ti := mkTransportInfo (s_transports ti) (bit_reset (s_bitset ti) (index t)) in
  _ ← deref (TRANSPORT_TYPE_NAMES !! Z.to_nat (index t));
  Ok ti.

(** A callable applied to a transport acts on the world and tells whether the
    transport failed meanwhile. *)
Abbreviation transport_fn := (TransportType → W → Outcome (bool * W)).
Abbreviation state := (TransportInfo * W)%type.

Definition call (fn : transport_fn) (t : Transport) (w : W) : Outcome (Transport * W) :=
  '(failed, w) ← fn (getType t) w;
  Ok (if (failed : bool) then setFailed t else t, w).

Section with_callback.
(** [s_failCallback], [None] before one is registered. *)
Context (s_failCallback : option (state → Outcome state)).

(** [if (t && t->isGood()) fn( *t);] *)
Definition call_if_good (fn : transport_fn) (i : nat) (s : state) : Outcome state :=
  let '(ti, w) := s in
  t ← slot ti i;
  match t with
  | Some t =>
      if isGood t then '(t, w) ← call fn t w; Ok (set_slot ti i (Some t), w)
      else Ok (ti, w)
  | None => Ok (ti, w)
  end.

(** [if (t && t->hasFailedSetDisabled()) { disable; callback }] *)
Definition disable_if_failed (i : nat) (s : state) : Outcome state :=
  let '(ti, w) := s in
  t ← slot ti i;
  match t with
  | Some t =>
      let '(t, failed) := hasFailedSetDisabled t in
      let ti := set_slot ti i (Some t) in
      if failed then
        ti ← disable ti (getType t);
        match s_failCallback with Some callback => callback (ti, w) | None => Ok (ti, w) end
      else Ok (ti, w)
  | None => Ok (ti, w)
  end.

Definition doFor (t : TransportType) (fn : transport_fn) (s : state) : Outcome state :=
  let i := Z.to_nat (index t) in
  s ← call_if_good fn i s;
  disable_if_failed i s.

(** A range-based [for] over [s_transports]. *)
Fixpoint for_slots (body : nat → state → Outcome state) (slots : list nat) (s : state)
    : Outcome state :=
  match slots with
  | [] => Ok s
  | i :: slots => s ← body i s; for_slots body slots s
  end.

Definition doForAllEnabled (fn : transport_fn) (s : state) : Outcome state :=
  s ← for_slots (call_if_good fn) (seq 0 TRANSPORT_TYPE_COUNT) s;
  for_slots disable_if_failed (seq 0 TRANSPORT_TYPE_COUNT) s.
End with_callback.
End operations.

(** The loop of [findMatchingType] over [s_transports]. *)
Fixpoint first_matching (remoteBitset : bitset_t) (transports : list (option Transport))
    : TransportType :=
  match transports with
  | [] => NONE
  | Some t :: transports =>
      if isGood t && bit remoteBitset (index (getType t)) then getType t
      else first_matching remoteBitset transports
  | None :: transports => first_matching remoteBitset transports
  end.

(** [TransportInfo::findMatchingType]; the index of the preferred type is at
    most 4 (file Startup), so the bit accesses are in range. *)
Definition findMatchingType (ti : TransportInfo) (remoteBitset : bitset_t)
    (preferredType : TransportType) : TransportType :=
  let preferredTypeIndex := index preferredType in
  if negb (bool_decide (preferredType = NONE)) && bit remoteBitset preferredTypeIndex
     && bit (s_bitset ti) preferredTypeIndex
  then preferredType
  else first_matching remoteBitset (s_transports ti).

(** [TransportInfo::terminate]. *)
Definition terminate (ti : TransportInfo) : TransportInfo :=
  mkTransportInfo ((fun _ => None) <$> s_transports ti) (s_bitset ti).

(** ** Lemmas: the registry invariant *)

Definition alive1 (o : option Transport) : nat :=
  match o with Some t => if decide (m_status t = DISABLED) then 0 else 1 | None => 0 end.

(** The number of transports that have not been disabled. *)
Definition alive (ti : TransportInfo) : nat := sum_list_with alive1 (s_transports ti).

(** Each transport sits in the slot of its type, and its bit is set exactly
    until it is disabled. *)
Definition slot_wf (b : bitset_t) (i : nat) (t : Transport) : Prop :=
  getType t ∈ [PCIE; UDP; TCP] ∧ index (getType t) = Z.of_nat i ∧
  bit b (index (getType t)) = negb (bool_decide (m_status t = DISABLED)).

Definition transports_wf (ti : TransportInfo) : Prop :=
  length (s_transports ti) = TRANSPORT_TYPE_COUNT ∧
  (∀ i t, s_transports ti !! i = Some (Some t) → slot_wf (s_bitset ti) i t) ∧
  is_u64 (s_bitset ti).

(** No transport is in status [FAILED] with its failure not yet handled. *)
Definition no_failed (ti : TransportInfo) : Prop :=
  ∀ i t, s_transports ti !! i = Some (Some t) → m_status t ≠ FAILED.

Lemma sum_list_with_insert {A} (f : A → nat) (l : list A) i x y :
  l !! i = Some x →
  (sum_list_with f (<[i := y]> l) + f x = sum_list_with f l + f y)%nat.
Proof.
  revert i. induction l as [|z l IH]; intros [|i] [=]; simpl; [subst; lia|].
  pose proof (IH i ltac:(done)). lia.
Qed.

Lemma alive_set_slot ti i o o' :
  s_transports ti !! i = Some o →
  (alive (set_slot ti i o') + alive1 o = alive ti + alive1 o')%nat.
Proof. apply sum_list_with_insert. Qed.

Lemma u64_bits z : is_u64 z ↔ Z.land z (Z.ones 64) = z.
Proof.
  rewrite Z.land_ones by lia. unfold is_u64. split.
  - apply Z.mod_small.
  - intros <-. apply Z.mod_pos_bound. lia.
Qed.

Lemma bit_set_u64 b i : is_u64 b → 0 ≤ i < 64 → is_u64 (bit_set b i).
Proof.
  rewrite !u64_bits. unfold bit_set. intros Hb Hi. rewrite Z.setbit_spec', Z.land_lor_distr_l, Hb.
  f_equal. apply u64_bits. split; [by apply Z.pow_nonneg|]. apply Z.pow_lt_mono_r; lia.
Qed.

Lemma bit_reset_u64 b i : is_u64 b → is_u64 (bit_reset b i).
Proof.
  rewrite !u64_bits. unfold bit_reset. intros Hb. rewrite Z.clearbit_spec'.
  apply Z.bits_inj'. intros n Hn. rewrite Z.land_spec, Z.ldiff_spec.
  rewrite <-Hb, Z.land_spec. by destruct (Z.testbit b n), (Z.testbit (2 ^ i) n), (Z.testbit (Z.ones 64) n).
Qed.

Lemma index_small t : t ∈ [PCIE; UDP; TCP] → 1 ≤ index t < 4.
Proof. intros Ht. repeat (apply elem_of_cons in Ht as [->|Ht]; [simpl; lia|]). by apply elem_of_nil in Ht. Qed.

Lemma TransportInfo_init_wf : transports_wf TransportInfo_init.
Proof.
  split_and!; [done| |done]. intros i t Hi. apply lookup_replicate in Hi as [? _]. done.
Qed.

Lemma alive_le ti : transports_wf ti → (alive ti ≤ TRANSPORT_TYPE_COUNT)%nat.
Proof.
  intros [Hl _]. rewrite <-Hl. unfold alive. clear Hl.
  induction (s_transports ti) as [|o l IH]; simpl; [done|].
  assert (alive1 o ≤ 1)%nat by (destruct o; simpl; [case_decide|]; lia). lia.
Qed.

Lemma slot_Ok ti i : transports_wf ti → (i < TRANSPORT_TYPE_COUNT)%nat →
  ∃ o, slot ti i = Ok o ∧ s_transports ti !! i = Some o.
Proof.
  intros [Hl _] Hi. destruct (lookup_lt_is_Some_2 (s_transports ti) i ltac:(lia)) as [o Ho].
  exists o. unfold slot. by rewrite Ho.
Qed.

(** A slot whose transport only changes status along GOOD and FAILED stays well formed. *)
Lemma set_slot_wf ti i t t' :
  transports_wf ti → s_transports ti !! i = Some (Some t) →
  getType t' = getType t →
  (m_status t = DISABLED ↔ m_status t' = DISABLED) →
  transports_wf (set_slot ti i (Some t')).
Proof.
  intros (Hl & Hs & Hu) Hi Ht Hst. split_and!; [by simpl; rewrite length_insert| |done].
  intros j u. simpl. rewrite list_lookup_insert_Some. intros [(-> & [= <-] & _)|[_ Hj]].
  - destruct (Hs _ _ Hi) as (? & ? & Hb). unfold slot_wf. rewrite Ht.
    split_and!; [done..|]. rewrite Hb. f_equal. by apply bool_decide_ext.
  - by apply Hs.
Qed.

Lemma setFailed_type t : getType (setFailed t) = getType t.
Proof. done. Qed.

Lemma setFailed_disabled t : m_status t = DISABLED ↔ m_status (setFailed t) = DISABLED.
Proof. destruct t as [ty []]; done. Qed.

Lemma call_status {W} (fn : TransportType → W → Outcome (bool * W)) t w t' w' :
  call fn t w = Ok (t', w') →
  getType t' = getType t ∧ (m_status t = DISABLED ↔ m_status t' = DISABLED) ∧
  ∃ failed, fn (getType t) w = Ok (failed, w').
Proof.
  unfold call. intros ([[] w1] & Hfn & [= <- <-])%bind_Ok; simpl.
  - split_and!; [done|apply setFailed_disabled|by exists true].
  - split_and!; [done..|by exists false].
Qed.

Lemma slot_name_index ti i t :
  transports_wf ti → s_transports ti !! i = Some (Some t) →
  ∃ name, TRANSPORT_TYPE_NAMES !! Z.to_nat (index (getType t)) = Some name.
Proof.
  intros (_ & Hs & _) Hi. destruct (Hs _ _ Hi) as (Ht & _).
  repeat (apply elem_of_cons in Ht as [->|Ht]; [by eexists|]). by apply elem_of_nil in Ht.
Qed.

Section loops.
Context {W : Type}.
Implicit Types (s : TransportInfo * W) (ti : TransportInfo) (w : W).
Context (J : W → Prop).

(** The outcomes of an operation on a well-formed registry: it returns, keeps
    the invariants and revives no transport. *)
Definition returns_wf (ti : TransportInfo) (Q : TransportInfo * W → Prop)
    (o : Outcome (TransportInfo * W)) : Prop :=
  ∃ ti' w', o = Ok (ti', w') ∧ transports_wf ti' ∧ J w' ∧ (alive ti' ≤ alive ti)%nat ∧ Q (ti', w').

Context (fn : TransportType → W → Outcome (bool * W)).
Context (fn_J : ∀ t w, t ∈ [PCIE; UDP; TCP] → J w → ∃ failed w', fn t w = Ok (failed, w') ∧ J w').

Lemma call_if_good_returns i ti w :
  transports_wf ti → J w → (i < TRANSPORT_TYPE_COUNT)%nat →
  returns_wf ti (fun _ => True) (call_if_good fn i (ti, w)).
Proof.
  intros Hti HJ Hi. destruct (slot_Ok ti i Hti Hi) as (o & Hslot & Ho).
  unfold call_if_good, returns_wf. rewrite Hslot. ostep.
  destruct o as [t|]; [|by eexists _, _; split_and!].
  destruct (isGood t); [|by eexists _, _; split_and!].
  destruct (fn_J (getType t) w) as (failed & w' & Hfn & HJ'); [|done|].
  { destruct Hti as (_ & Hs & _). apply (Hs _ _ Ho). }
  assert (∃ t', call fn t w = Ok (t', w')) as [t' Hcall].
  { unfold call. rewrite Hfn. by eexists. }
  pose proof (call_status fn t w _ _ Hcall) as (Hty & Hst & _). rewrite Hcall. ostep.
  eexists _, _. split_and!; [done|by eapply set_slot_wf|done| |done].
  pose proof (alive_set_slot ti i (Some t) (Some t') Ho) as Ha.
  assert (alive1 (Some t') = alive1 (Some t)) as Ha'.
  { simpl. by rewrite (decide_ext _ _ _ _ Hst). }
  lia.
Qed.

Context (s_failCallback : option (TransportInfo * W → Outcome (TransportInfo * W))).
Context (n : nat).
Context (callback_returns : ∀ cb, s_failCallback = Some cb → ∀ ti w,
  transports_wf ti → J w → (alive ti < n)%nat → returns_wf ti (fun _ => True) (cb (ti, w))).

(** The state in which the callback runs: the failed transport is disabled,
    its bit is clear, and one transport fewer is alive. *)
Lemma disabled_slot_wf ti i t :
  transports_wf ti → s_transports ti !! i = Some (Some t) → m_status t = FAILED →
  let ti' := mkTransportInfo (<[i := Some (mkTransport (getType t) DISABLED)]> (s_transports ti))
               (bit_reset (s_bitset ti) (index (getType t))) in
  transports_wf ti' ∧ S (alive ti') = alive ti.
Proof.
  intros (Hl & Hs & Hu) Hi Hf ti'. split.
  - split_and!; [by simpl; rewrite length_insert| |by apply bit_reset_u64].
    intros j u. simpl. rewrite list_lookup_insert_Some. intros [(-> & [= <-] & _)|[Hne Hj]].
    + destruct (Hs _ _ Hi) as (? & ? & _). unfold slot_wf. simpl. split_and!; [done..|].
      apply Z.clearbit_eq.
    + destruct (Hs _ _ Hj) as (? & Hix & Hb). destruct (Hs _ _ Hi) as (_ & Hix' & _).
      unfold slot_wf. split_and!; [done..|]. rewrite <-Hb. unfold bit, bit_reset.
      apply Z.clearbit_neq. lia.
  - pose proof (alive_set_slot ti i (Some t) (Some (mkTransport (getType t) DISABLED)) Hi) as Ha.
    simpl in Ha. rewrite decide_False in Ha by (by rewrite Hf).
    unfold alive in *. simpl in *. lia.
Qed.

Lemma disable_if_failed_returns i ti w :
  transports_wf ti → J w → (alive ti ≤ n)%nat → (i < TRANSPORT_TYPE_COUNT)%nat →
  returns_wf ti (fun _ => True) (disable_if_failed s_failCallback i (ti, w)).
Proof.
  intros Hti HJ Hn Hi. destruct (slot_Ok ti i Hti Hi) as (o & Hslot & Ho).
  unfold disable_if_failed, returns_wf. rewrite Hslot. ostep.
  destruct o as [t|]; [|by eexists _, _; split_and!].
  unfold hasFailedSetDisabled, compare_exchange. case_decide as Hf.
  - destruct (disabled_slot_wf ti i t Hti Ho Hf) as [Hwf' Ha]. cbn zeta in Hwf', Ha.
    unfold disable. destruct (slot_name_index ti i t Hti Ho) as [name Hname].
    cbn [getType s_transports s_bitset set_slot]. rewrite Hname. ostep.
    destruct s_failCallback as [cb|] eqn:Hcb.
    + edestruct (callback_returns cb eq_refl) as (ti' & w' & -> & ? & ? & ? & _);
        [exact Hwf'|exact HJ|lia|]. eexists _, _. split_and!; [done..|lia|done].
    + eexists _, _. split_and!; [done..|lia|done].
  - eexists _, _. split_and!; [done|eapply set_slot_wf; done|done| |done].
    pose proof (alive_set_slot ti i (Some t) (Some t) Ho). destruct t. simpl in *. lia.
Qed.

Lemma for_slots_returns body slots ti w :
  (∀ i ti w, transports_wf ti → J w → (alive ti ≤ n)%nat → (i < TRANSPORT_TYPE_COUNT)%nat →
     returns_wf ti (fun _ => True) (body i (ti, w))) →
  transports_wf ti → J w → (alive ti ≤ n)%nat → Forall (fun i => i < TRANSPORT_TYPE_COUNT)%nat slots →
  returns_wf ti (fun _ => True) (for_slots body slots (ti, w)).
Proof.
  intros Hbody. revert ti w. induction slots as [|i slots IH]; intros ti w Hti HJ Hn Hsl.
  { by eexists _, _; split_and!. }
  apply Forall_cons in Hsl as [Hi Hsl]. simpl.
  destruct (Hbody i ti w) as (ti1 & w1 & -> & ? & ? & ? & _); [done..|]. ostep.
  destruct (IH ti1 w1) as (ti2 & w2 & -> & ? & ? & ? & _); [done..|lia|done|].
  eexists _, _. split_and!; [done..|lia|done].
Qed.

Lemma doFor_returns t ti w :
  transports_wf ti → J w → (alive ti ≤ n)%nat → t ∈ [PCIE; UDP; TCP] →
  returns_wf ti (fun _ => True) (doFor s_failCallback t fn (ti, w)).
Proof.
  intros Hti HJ Hn Ht. unfold doFor.
  assert (Z.to_nat (index t) < TRANSPORT_TYPE_COUNT)%nat as Hi.
  { unfold TRANSPORT_TYPE_COUNT.
    repeat (apply elem_of_cons in Ht as [->|Ht]; [simpl; lia|]). by apply elem_of_nil in Ht. }
  destruct (call_if_good_returns _ ti w Hti HJ Hi) as (ti1 & w1 & -> & ? & ? & ? & _). ostep.
  destruct (disable_if_failed_returns _ ti1 w1 ltac:(done) ltac:(done) ltac:(lia) Hi)
    as (ti2 & w2 & -> & ? & ? & ? & _).
  eexists _, _. split_and!; [done..|lia|done].
Qed.

Lemma doForAllEnabled_returns ti w :
  transports_wf ti → J w → (alive ti ≤ n)%nat →
  returns_wf ti (fun _ => True) (doForAllEnabled s_failCallback fn (ti, w)).
Proof.
  intros Hti HJ Hn. unfold doForAllEnabled.
  assert (Forall (fun i => i < TRANSPORT_TYPE_COUNT)%nat (seq 0 TRANSPORT_TYPE_COUNT)) as Hsl
    by (apply Forall_forall; intros i Hi%elem_of_seq; lia).
  destruct (for_slots_returns (call_if_good fn) (seq 0 TRANSPORT_TYPE_COUNT) ti w)
    as (ti1 & w1 & -> & ? & ? & ? & _); [|done..|].
  { intros. by apply call_if_good_returns. }
  ostep. destruct (for_slots_returns (disable_if_failed s_failCallback)
    (seq 0 TRANSPORT_TYPE_COUNT) ti1 w1) as (ti2 & w2 & -> & ? & ? & ? & _); [|done..|lia|done|].
  { intros. by apply disable_if_failed_returns. }
  eexists _, _. split_and!; [done..|lia|done].
Qed.
End loops.

(** A loop over the slots keeps an invariant that follows its position. *)
Lemma for_slots_inv {W} (body : nat → TransportInfo * W → Outcome (TransportInfo * W))
    (Inv : nat → TransportInfo * W → Prop) (k n : nat) s :
  (∀ i s, (k ≤ i < k + n)%nat → Inv i s → ∃ s', body i s = Ok s' ∧ Inv (S i) s') →
  Inv k s → ∃ s', for_slots body (seq k n) s = Ok s' ∧ Inv (k + n)%nat s'.
Proof.
  revert k s. induction n as [|n IH]; intros k s Hbody Hk; simpl.
  { exists s. by rewrite Nat.add_0_r. }
  destruct (Hbody k s ltac:(lia) Hk) as (s1 & -> & H1). ostep.
  destruct (IH (S k) s1) as (s' & Hs' & H'); [intros; apply Hbody; [lia|done]|done|].
  exists s'. split; [done|]. by replace (k + S n)%nat with (S k + n)%nat by lia.
Qed.

(** The two loop bodies, case by case. *)
Section bodies.
Context {W : Type}.
Implicit Types (ti : TransportInfo) (w : W).

Definition mark_failed (ti : TransportInfo) (i : nat) (t : TransportType) : TransportInfo :=
  set_slot ti i (Some (mkTransport t FAILED)).

Definition mark_disabled (ti : TransportInfo) (i : nat) (t : TransportType) : TransportInfo :=
  mkTransportInfo (<[i := Some (mkTransport t DISABLED)]> (s_transports ti))
    (bit_reset (s_bitset ti) (index t)).

Lemma call_if_good_cases (fn : TransportType → W → Outcome (bool * W)) i ti w o :
  s_transports ti !! i = Some o →
  match o with
  | Some (mkTransport t GOOD) =>
      ∀ failed w', fn t w = Ok (failed, w') →
      call_if_good fn i (ti, w) = Ok (if failed then mark_failed ti i t else ti, w')
  | _ => call_if_good fn i (ti, w) = Ok (ti, w)
  end.
Proof.
  intros Ho. unfold call_if_good, slot. rewrite Ho. ostep. destruct o as [[t []]|]; try done.
  intros failed w' Hfn. cbn [isGood bool_decide m_status]. unfold call. cbn [getType]. rewrite Hfn.
  ostep. simpl. destruct failed; [done|]. unfold set_slot. rewrite list_insert_id by done. by destruct ti.
Qed.

Lemma disable_if_failed_cases cb i ti w o :
  transports_wf ti → s_transports ti !! i = Some o →
  match o with
  | Some (mkTransport t FAILED) =>
      disable_if_failed cb i (ti, w) =
        match cb with
        | Some callback => callback (mark_disabled ti i t, w) | None => Ok (mark_disabled ti i t, w)
        end
  | _ => disable_if_failed cb i (ti, w) = Ok (ti, w)
  end.
Proof.
  intros Hwf Ho. unfold disable_if_failed, slot. rewrite Ho. ostep.
  destruct o as [[t st]|]; [|done]. pose proof (slot_name_index ti i _ Hwf Ho) as [nm Hnm].
  cbn [getType] in Hnm. destruct st.
  - simpl. unfold set_slot. rewrite list_insert_id by done. by destruct ti.
  - simpl. unfold disable. cbn [getType]. rewrite Hnm. ostep. by destruct cb.
  - simpl. unfold set_slot. rewrite list_insert_id by done. by destruct ti.
Qed.

Lemma mark_failed_wf ti i t :
  transports_wf ti → s_transports ti !! i = Some (Some (mkTransport t GOOD)) →
  transports_wf (mark_failed ti i t) ∧ alive (mark_failed ti i t) = alive ti.
Proof.
  intros Hwf Hi. split; [by eapply set_slot_wf|].
  pose proof (alive_set_slot ti i _ (Some (mkTransport t FAILED)) Hi) as Ha. simpl in Ha.
  unfold mark_failed. lia.
Qed.

Lemma mark_disabled_wf ti i t :
  transports_wf ti → s_transports ti !! i = Some (Some (mkTransport t FAILED)) →
  transports_wf (mark_disabled ti i t) ∧ S (alive (mark_disabled ti i t)) = alive ti.
Proof. intros Hwf Hi. exact (disabled_slot_wf ti i _ Hwf Hi eq_refl). Qed.
End bodies.

(** ** Lemmas: one transport *)

Section doFor.
Context {W : Type}.
Implicit Types (ti : TransportInfo) (w : W) (fn : TransportType → W → Outcome (bool * W)).

(** The transport that [doFor] on the type [t] would call. *)
Definition good_transport (ti : TransportInfo) (t : TransportType) : Prop :=
  s_transports ti !! Z.to_nat (index t) = Some (Some (mkTransport t GOOD)).

Lemma doFor_good cb ti t fn w w' :
  good_transport ti t → fn t w = Ok (false, w') → doFor cb t fn (ti, w) = Ok (ti, w').
Proof.
  intros Hg Hfn. unfold good_transport in Hg. unfold doFor, call_if_good, slot. rewrite Hg. ostep.
  cbn [isGood bool_decide m_status]. unfold call. cbn [getType]. rewrite Hfn. ostep.
  unfold set_slot. rewrite list_insert_id by done. simpl.
  unfold disable_if_failed, slot. cbn [s_transports]. rewrite Hg. ostep.
  cbn [hasFailedSetDisabled compare_exchange m_status getType].
  unfold set_slot. cbn [s_transports s_bitset]. simpl. rewrite list_insert_id by done. by destruct ti.
Qed.

(** A transport that is not there, or was disabled, is not called. *)
Definition no_transport (ti : TransportInfo) (t : TransportType) : Prop :=
  s_transports ti !! Z.to_nat (index t) = Some None ∨
  ∃ t', s_transports ti !! Z.to_nat (index t) = Some (Some (mkTransport t' DISABLED)).

Lemma doFor_skip cb ti t fn w :
  no_transport ti t → doFor cb t fn (ti, w) = Ok (ti, w).
Proof.
  unfold doFor, call_if_good, disable_if_failed, slot. intros [Hg|[t' Hg]]; rewrite Hg; ostep.
  - by rewrite Hg.
  - cbn [isGood bool_decide m_status]. simpl. rewrite Hg. simpl.
    unfold set_slot. rewrite list_insert_id by done. by destruct ti.
Qed.

(** A failure during the call disables the transport and runs the callback. *)
Lemma doFor_failed cb ti t fn w w' :
  good_transport ti t → is_Some (TRANSPORT_TYPE_NAMES !! Z.to_nat (index t)) →
  fn t w = Ok (true, w') →
  let ti' := mkTransportInfo
    (<[Z.to_nat (index t) := Some (mkTransport t DISABLED)]> (s_transports ti))
    (bit_reset (s_bitset ti) (index t)) in
  doFor cb t fn (ti, w) =
    match cb with Some callback => callback (ti', w') | None => Ok (ti', w') end.
Proof.
  intros Hg [nm Hnm] Hfn. unfold good_transport in Hg.
  pose proof (lookup_lt_Some _ _ _ Hg) as Hlt.
  unfold doFor, call_if_good, slot. rewrite Hg. ostep.
  cbn [isGood bool_decide m_status]. unfold call. cbn [getType]. rewrite Hfn. ostep. simpl.
  unfold disable_if_failed, slot. cbn [set_slot s_transports].
  rewrite list_lookup_insert_eq by done. ostep. simpl. unfold disable. rewrite Hnm. ostep.
  unfold set_slot. simpl. rewrite list_insert_insert_eq. by destruct cb.
Qed.
End doFor.

(** *** What the senders need of the state they run in *)

(** A state that records the messages sent.  The transports append to it, and
    nothing else of the state depends on it. *)
Class NetWorld (W : Type) := {
  net : W → list NetEvent;
  set_net : list NetEvent → W → W;
  net_set_net : ∀ l w, net (set_net l w) = l;
  set_net_net : ∀ w, set_net (net w) w = w;
  set_net_set_net : ∀ l l' w, set_net l (set_net l' w) = set_net l w
}.

#[export] Program Instance NetWorld_list : NetWorld (list NetEvent) := {|
  net w := w; set_net l _ := l
|}.
Solve All Obligations with done.

Section sending.
Context `{TransportLayer} `{NetWorld W}.

(** [transport.sendBroadcast], as a callable for [doFor]. *)
Definition sendBroadcast (data : bytes) (t : TransportType) (w : W) : Outcome (bool * W) :=
  Ok (sendBroadcast_fails (net w) t data, set_net (net w ++ [Broadcast t data]) w).

(** [transport.sendUserData]: whether the message is pending, whether the
    transport failed, and the new state. *)
Definition sendUserData (t : TransportType) (header payload : bytes) (device : Z) (w : W)
    : bool * bool * W :=
  let '(pending, failed) := sendUserData_outcome (net w) t header payload device in
  (pending, failed, set_net (net w ++ [UserData t header payload device]) w).
End sending.

(** ** Lemmas: handled failures *)

Section handled.
Context {W : Type}.
Implicit Types (s : TransportInfo * W) (ti : TransportInfo) (w : W).

Definition no_failed_upto (k : nat) (ti : TransportInfo) : Prop :=
  ∀ i t, (i < k)%nat → s_transports ti !! i = Some (Some t) → m_status t ≠ FAILED.

Context (s_failCallback : option (TransportInfo * W → Outcome (TransportInfo * W))).
Context (callback_clean : ∀ cb, s_failCallback = Some cb → ∀ s s',
  cb s = Ok s' → no_failed s'.1 ∨ s'.1 = s.1).

Lemma disable_if_failed_upto i s s' :
  disable_if_failed s_failCallback i s = Ok s' →
  no_failed_upto i s.1 → no_failed_upto (S i) s'.1.
Proof.
  destruct s as [ti w]. unfold disable_if_failed, slot. intros Hs Hup.
  apply bind_Ok in Hs as (o & Ho%deref_Ok & Hs).
  assert (∀ ti' : TransportInfo, (∀ j, i ≠ j → s_transports ti' !! j = s_transports ti !! j) →
    (∀ t, s_transports ti' !! i = Some (Some t) → m_status t ≠ FAILED) →
    no_failed_upto (S i) ti') as Hgen.
  { intros ti' Hother Hi j t Hj Ht. destruct (decide (i = j)) as [->|Hne]; [by apply Hi|].
    apply (Hup j t); [lia|]. by rewrite <-Hother. }
  destruct o as [t|]; [|injection Hs as <-; apply Hgen; simpl; [done|congruence]].
  unfold hasFailedSetDisabled, compare_exchange in Hs. case_decide as Hf.
  - apply bind_Ok in Hs as (ti1 & Hdis & Hs).
    unfold disable in Hdis. apply bind_Ok in Hdis as (? & _ & [= <-]).
    match type of Hs with context [(?x, w)] => assert (no_failed_upto (S i) x) as Hx end.
    { apply Hgen; simpl; [intros; by rewrite list_lookup_insert_ne|].
      intros u. rewrite list_lookup_insert_eq by (by eapply lookup_lt_Some).
      by intros [= <-]. }
    destruct s_failCallback as [cb|] eqn:Hcb; [|by injection Hs as <-].
    destruct (callback_clean cb eq_refl _ _ Hs) as [Hc|Hc].
    + intros j u _. apply Hc.
    + by rewrite Hc.
  - injection Hs as <-. apply Hgen; simpl; [intros; by rewrite list_lookup_insert_ne|].
    intros u. rewrite list_lookup_insert_eq by (by eapply lookup_lt_Some). by intros [= <-].
Qed.

Lemma for_slots_upto k n s s' :
  for_slots (disable_if_failed s_failCallback) (seq k n) s = Ok s' →
  no_failed_upto k s.1 → no_failed_upto (k + n) s'.1.
Proof.
  revert k s. induction n as [|n IH]; intros k s; simpl.
  - intros [= ->]. by rewrite Nat.add_0_r.
  - intros (s1 & H1 & H2)%bind_Ok Hk. replace (k + S n)%nat with (S k + n)%nat by lia.
    apply (IH _ s1 H2). by eapply disable_if_failed_upto.
Qed.

Lemma call_if_good_length fn i s s' :
  call_if_good fn i s = Ok s' → length (s_transports s'.1) = length (s_transports s.1).
Proof.
  destruct s as [ti w]. unfold call_if_good. intros (o & _ & Hs)%bind_Ok.
  destruct o as [t|]; [|by injection Hs as <-].
  destruct (isGood t); [|by injection Hs as <-].
  apply bind_Ok in Hs as ([t' w'] & _ & [= <-]). simpl. by rewrite length_insert.
Qed.

(** After a pass over the registry every failure has been handled. *)
Lemma doForAllEnabled_no_failed fn s s' :
  doForAllEnabled s_failCallback fn s = Ok s' →
  length (s_transports s'.1) = TRANSPORT_TYPE_COUNT → no_failed s'.1.
Proof.
  unfold doForAllEnabled. intros (s1 & _ & H2)%bind_Ok Hl i t Hi.
  eapply (for_slots_upto 0 TRANSPORT_TYPE_COUNT); [exact H2| | |exact Hi].
  - intros ???. lia.
  - apply lookup_lt_Some in Hi. lia.
Qed.
End handled.

(** ** Lemmas: enabling and matching *)

Lemma enable_wf `{TransportLayer} b ti t :
  transports_wf ti → t ∈ [PCIE; UDP; TCP] →
  compiled_in b t = true ∨ s_transports ti !! Z.to_nat (index t) = Some None →
  ∃ ti', enable b ti t = Ok ti' ∧ transports_wf ti' ∧ bit (s_bitset ti') (index t) = true.
Proof.
  intros (Hl & Hs & Hu) Ht Hc. unfold enable.
  assert (0 ≤ index t < 4 ∧ is_Some (TRANSPORT_TYPE_NAMES !! Z.to_nat (index t))) as [Hix [nm ->]].
  { repeat (apply elem_of_cons in Ht as [->|Ht]; [split; [simpl; lia|by eexists]|]).
    by apply elem_of_nil in Ht. }
  ostep. eexists. split; [done|].
  assert (∀ i u, i ≠ Z.to_nat (index t) → s_transports ti !! i = Some (Some u) →
            slot_wf (bit_set (s_bitset ti) (index t)) i u) as Hother.
  { intros i u Hne Hu'. destruct (Hs _ _ Hu') as (? & Hi & Hb). split_and!; [done..|].
    rewrite <-Hb. unfold bit, bit_set. apply Z.setbit_neq; lia. }
  assert (is_u64 (bit_set (s_bitset ti) (index t))) as Hu1 by (apply bit_set_u64; [done|lia]).
  destruct (compiled_in b t) eqn:Hcomp; (split; [split_and!|]); simpl; try done.
  - by rewrite length_insert.
  - intros i u Hi. apply list_lookup_insert_Some in Hi as [(<- & [= <-] & _)|[Hne Hi]].
    + split_and!; [done|simpl; lia|]. simpl. unfold bit, bit_set. rewrite Z.setbit_eq by lia.
      by destruct (constructor_fails t).
    + by apply Hother.
  - apply Z.setbit_eq. lia.
  - intros i u Hi. apply Hother; [|done]. intros ->. destruct Hc as [?|Hc]; congruence.
  - apply Z.setbit_eq. lia.
Qed.

Lemma first_matching_spec remote l :
  let usable i t := l !! i = Some (Some t) ∧ isGood t = true
                    ∧ bit remote (index (getType t)) = true in
  (first_matching remote l = NONE ∧ ∀ i t, ¬ usable i t) ∨
  (∃ i t, usable i t ∧ getType t = first_matching remote l ∧
          ∀ j u, usable j u → (i ≤ j)%nat).
Proof.
  cbn zeta. induction l as [|o l IH]; [left; split; [done|]; intros i t (? & _); done|].
  assert ((∃ t, o = Some t ∧ isGood t = true ∧ bit remote (index (getType t)) = true) ∨
          (first_matching remote (o :: l) = first_matching remote l ∧
           ∀ t, o = Some t → isGood t = true → bit remote (index (getType t)) = true → False))
    as [(t & -> & Hg & Hb)|[Heq Hno]].
  { destruct o as [t|]; simpl; [|right; done].
    destruct (isGood t) eqn:Hg, (bit remote (index (getType t))) eqn:Hb; simpl;
      [left; by exists t|right; split; [done|intros ? [= <-]; congruence]..]. }
  - right. exists 0%nat, t. simpl. rewrite Hg, Hb. split_and!; [done..|]. intros; lia.
  - rewrite Heq. destruct IH as [[Hn Hall]|(i & t & Ht & Hr & Hmin)].
    + left. split; [done|]. intros [|i] t (Hl & Hg & Hb); simpl in Hl.
      * injection Hl as ->. by eapply Hno.
      * exact (Hall i t (conj Hl (conj Hg Hb))).
    + destruct Ht as (? & ? & ?). right. exists (S i), t. split_and!; [done..|].
      intros [|j] u (Hl & Hg & Hb); simpl in Hl.
      * injection Hl as ->. exfalso. by eapply Hno.
      * pose proof (Hmin j u (conj Hl (conj Hg Hb))). lia.
Qed.

(** The matching type is one the remote gateway supports. *)
Lemma findMatchingType_bit ti remote preferred :
  findMatchingType ti remote preferred ≠ NONE →
  bit remote (index (findMatchingType ti remote preferred)) = true.
Proof.
  unfold findMatchingType. destruct (_ && _ && _) eqn:E.
  - intros _. apply andb_prop in E as [E _]. by apply andb_prop in E as [_ E].
  - intros Hn. destruct (first_matching_spec remote (s_transports ti)) as [[? _]|(i & t & (_ & _ & Hb) & <- & _)];
      done.
Qed.

(** ** Properties *)

(** The status operations of one transport, as they may be interleaved by the
    threads that use it, and how often a failure is reported. *)
Inductive StatusOp := OpSetFailed | OpHasFailedSetDisabled.

Definition run_status_op (op : StatusOp) (s : Transport * nat) : Transport * nat :=
  match op with
  | OpSetFailed => (setFailed s.1, s.2)
  | OpHasFailedSetDisabled =>
      let '(t, r) := hasFailedSetDisabled s.1 in (t, if r then S s.2 else s.2)
  end.

(** Whatever the interleaving of [setFailed] and [hasFailedSetDisabled] on a good
    transport, its failure is reported to the registry at most once, exactly when the
    transport ends disabled, and a disabled transport stays disabled. *)
Theorem failure_reported_once (ops : list StatusOp) (ty : TransportType) :
  let '(t, reports) := foldl (fun s op => run_status_op op s) (mkTransport ty GOOD, 0%nat) ops in
  reports = (if decide (m_status t = DISABLED) then 1 else 0)%nat ∧ getType t = ty ∧
  ∀ op, m_status t = DISABLED → run_status_op op (t, reports) = (t, reports).
Proof.
  assert (∀ st n, n = (if decide (st = DISABLED) then 1 else 0)%nat →
    let '(t, reports) := foldl (fun s op => run_status_op op s) (mkTransport ty st, n) ops in
    reports = (if decide (m_status t = DISABLED) then 1 else 0)%nat ∧ getType t = ty) as Hgen.
  { induction ops as [|op ops IH]; intros st n Hn; simpl; [done|].
    destruct op, st; simpl in *; subst n; by apply IH. }
  specialize (Hgen GOOD 0%nat eq_refl).
  destruct (foldl _ _ ops) as [t reports]. destruct Hgen as [Hr Hty].
  split_and!; [done..|]. intros op Hd. destruct t as [ty' st]. simpl in *. subst st.
  by destruct op.
Qed.

(** The transport chosen for a remote gateway is one the remote supports; it is the
    preferred type when both sides have it enabled, and otherwise the lowest-numbered
    good local transport the remote supports, so [NONE] means there is no such one. *)
Theorem findMatchingType_spec (ti : TransportInfo) (remote : bitset_t) (preferred : TransportType) :
  transports_wf ti →
  let r := findMatchingType ti remote preferred in
  let usable i t := s_transports ti !! i = Some (Some t) ∧ isGood t = true
                    ∧ bit remote (index (getType t)) = true in
  if decide (preferred ≠ NONE ∧ bit remote (index preferred) = true
             ∧ bit (s_bitset ti) (index preferred) = true)
  then r = preferred
  else (r = NONE ∧ ∀ i t, ¬ usable i t) ∨
       (∃ i t, usable i t ∧ getType t = r ∧ r ≠ NONE ∧
               ∀ j u, usable j u → index r ≤ index (getType u)).
Proof.
  intros Hwf r usable. subst r. unfold findMatchingType.
  case_decide as Hp.
  { destruct Hp as (Hn & -> & ->). by rewrite bool_decide_false. }
  replace (negb _ && _ && _) with false.
  2:{ symmetry. apply not_true_is_false. rewrite !andb_true_iff, negb_true_iff, bool_decide_eq_false.
      tauto. }
  destruct (first_matching_spec remote (s_transports ti)) as [?|(i & t & Ht & Hr & Hmin)]; [by left|].
  right. exists i, t. destruct Hwf as (_ & Hs & _).
  destruct (Hs i t) as (Hty & Hi & _); [apply Ht|].
  split_and!; [apply Ht..|done| |].
  - rewrite <-Hr. intros He. rewrite He in Hty. set_solver.
  - intros j u Hu. destruct (Hs j u) as (_ & Hj & _); [apply Hu|].
    rewrite <-Hr, Hi, Hj. apply Nat2Z.inj_le. by apply (Hmin j u).
Qed.

(** Enabling a transport keeps the registry well formed and sets its bit.  When
    the gateway was not compiled with that transport, the bit is set all the same and
    no transport exists, so the gateway announces a transport it cannot serve. *)
Theorem enable_spec `{TransportLayer} (b : BuildConfig) (ti : TransportInfo) (t : TransportType) :
  transports_wf ti → t ∈ [PCIE; UDP; TCP] → s_transports ti !! Z.to_nat (index t) = Some None →
  ∃ ti', enable b ti t = Ok ti' ∧ transports_wf ti' ∧ bit (s_bitset ti') (index t) = true ∧
    s_transports ti' !! Z.to_nat (index t) =
      Some (if compiled_in b t then Some (make_transport t) else None).
Proof.
  intros Hti Ht Hslot.
  destruct (enable_wf b ti t Hti Ht ltac:(by right)) as (ti' & He & Hwf & Hb).
  exists ti'. split_and!; [done..|]. unfold enable in He.
  apply bind_Ok in He as (? & _ & [= <-]).
  destruct (compiled_in b t); simpl; [|done].
  apply list_lookup_insert_eq. by eapply lookup_lt_Some.
Qed.

(** A pass of [doForAllEnabled] over a well-formed registry, with no failure
    callback, returns with a registry whose bit set is exactly the set of transports
    that are good: every failure of the pass has been turned into a disabled bit. *)
Theorem doForAllEnabled_coherent {W}
    (fn : TransportType → W → Outcome (bool * W)) (ti : TransportInfo) (w : W) :
  transports_wf ti → (∀ t w, t ∈ [PCIE; UDP; TCP] → ∃ r, fn t w = Ok r) →
  ∃ ti' w', doForAllEnabled None fn (ti, w) = Ok (ti', w') ∧ transports_wf ti' ∧
    ∀ i t, s_transports ti' !! i = Some (Some t) →
      bit (s_bitset ti') (index (getType t)) = isGood t.
Proof.
  intros Hti Hfn.
  destruct (doForAllEnabled_returns (fun _ => True) fn
              ltac:(intros t v Ht _; destruct (Hfn t v Ht) as [[] ?]; by eexists _, _)
              None (alive ti) ltac:(done) ti w) as (ti' & w' & He & Hwf & _); [done..|].
  exists ti', w'. split_and!; [done..|]. intros i t Hi.
  pose proof (doForAllEnabled_no_failed None ltac:(done) fn _ _ He (proj1 Hwf) i t Hi) as Hnf.
  destruct Hwf as (_ & Hs & _). destruct (Hs _ _ Hi) as (_ & _ & ->). unfold isGood.
  destruct (m_status t); simpl in *; congruence.
Qed.

(** ** Witnesses *)

(** A transport layer whose broadcasts fail on the types in [failing]. *)
Definition example_layer (failing : list TransportType) : TransportLayer := {|
  maxMessageSize := fun _ => 60;
  willBePending := fun t size => bool_decide (t = PCIE ∧ 8 < size);
  sendBroadcast_fails := fun _ t _ => bool_decide (t ∈ failing);
  sendUserData_outcome := fun _ t _ payload _ =>
    (bool_decide (t = PCIE ∧ 8 < length payload)%nat, false);
  constructor_fails := fun _ => false
|}.

Definition example_ti : TransportInfo :=
  mkTransportInfo [None; None; Some (mkTransport UDP GOOD); Some (mkTransport TCP FAILED)] 12.

Lemma example_ti_wf : transports_wf example_ti.
Proof.
  split_and!; [reflexivity| |by vm_compute]. intros [|[|[|[|i]]]] t [=]; subst;
    (split_and!; [set_solver|reflexivity|reflexivity]).
Qed.

Lemma findMatchingType_spec_witness :
  transports_wf example_ti ∧ findMatchingType example_ti 12 TCP = TCP ∧
  findMatchingType example_ti 6 TCP = UDP ∧
  ((findMatchingType example_ti 8 NONE = NONE ∧
     ∀ i t, ¬ (s_transports example_ti !! i = Some (Some t) ∧ isGood t = true
               ∧ bit 8 (index (getType t)) = true)) ∨
   (∃ i t, (s_transports example_ti !! i = Some (Some t) ∧ isGood t = true
            ∧ bit 8 (index (getType t)) = true) ∧
      getType t = findMatchingType example_ti 8 NONE ∧ findMatchingType example_ti 8 NONE ≠ NONE ∧
      ∀ j u, (s_transports example_ti !! j = Some (Some u) ∧ isGood u = true
              ∧ bit 8 (index (getType u)) = true) →
        index (findMatchingType example_ti 8 NONE) ≤ index (getType u))).
Proof.
  split; [exact example_ti_wf|]. split; [reflexivity|]. split; [reflexivity|].
  exact (findMatchingType_spec example_ti 8 NONE example_ti_wf).
Defined.

Lemma enable_spec_witness :
  let b := mkBuild false false true in
  transports_wf TransportInfo_init ∧
  ∃ ti', @enable (example_layer []) b TransportInfo_init UDP = Ok ti' ∧ transports_wf ti' ∧
    bit (s_bitset ti') 2 = true ∧ s_transports ti' !! 2%nat = Some None.
Proof.
  split; [exact TransportInfo_init_wf|].
  refine (@enable_spec (example_layer []) (mkBuild false false true) TransportInfo_init UDP
            TransportInfo_init_wf _ eq_refl).
  by right; left.
Defined.

Lemma doForAllEnabled_coherent_witness :
  let fn := fun t (w : nat) => Ok (bool_decide (t = UDP), S w) in
  transports_wf example_ti ∧ (∀ t w, t ∈ [PCIE; UDP; TCP] → ∃ r, fn t w = Ok r) ∧
  ∃ ti' w', doForAllEnabled None fn (example_ti, 0%nat) = Ok (ti', w') ∧ transports_wf ti' ∧
    ∀ i t, s_transports ti' !! i = Some (Some t) →
      bit (s_bitset ti') (index (getType t)) = isGood t.
Proof.
  intros fn. assert (∀ t w, t ∈ [PCIE; UDP; TCP] → ∃ r, fn t w = Ok r) as Hfn by (intros; by eexists).
  split; [exact example_ti_wf|]. split; [exact Hfn|].
  exact (@doForAllEnabled_coherent nat fn example_ti 0%nat example_ti_wf Hfn).
Defined.
