(* ===== verification/Udp.v ===== *)
(** * Udp: the UDP transport and the discovery over UDP broadcasts

    include/p3com/transport/udp/*.hpp, source/udp/udp_transport_broadcast.cpp
    and source/udp/udp_transport.cpp.

    [UDPBroadcast] announces the gateway on every network interface and numbers
    the gateways it hears; [UDPTransport] sends a message as one datagram to
    the gateway with a given number.  Both derive from [TransportLayerBase], so
    each has a status of its own; the gateway sees that of [UDPTransport].

    The sockets are asio's, a third-party library: class [Sockets] says which of
    its calls throw.  The datagrams sent are logged; a completed receive is an
    event with the error code, the sender and the bytes.  A constructor is
    [noexcept], so an exception that leaves it terminates the process. *)

From Stdlib Require Import Strings.Byte.
From stdpp Require Import base list.
From S2P Require Import Prelude.
From S2P Require Import Iox.
From S2P Require Import Types.
From S2P Require Import TransportInfo.

Open Scope Z_scope.

(** [asio::ip::udp::endpoint], with an IPv4 address. *)
Record ip_endpoint := mkEp {
  address : Z;
  port : Z
}.

#[export] Instance ip_endpoint_eq_dec : EqDecision ip_endpoint.
Proof. solve_decision. Defined.

(** The default constructor. *)
Definition any_endpoint : ip_endpoint := mkEp 0 0.

Record Datagram := mkDatagram {
  from_port : Z;
  to_endpoint : ip_endpoint;
  contents : bytes
}.

(** asio's sockets, by the local port; [sent] is what was sent so far. *)
Class Sockets := {
  bind_throws : Z → bool;
  set_option_throws : Z → bool;
  receive_throws : list Datagram → Z → bool;
  send_to_throws : list Datagram → Datagram → bool
}.

Definition DISCOVERY_PORT : Z := 9332.
Definition DATA_PORT : Z := 9333.
Definition MAX_DATAGRAM_SIZE : Z := 32768.

(** [setFailed] on the status of an object. *)
Definition set_failed (st : TransportStatus) : TransportStatus := (compare_exchange st GOOD FAILED).1.

(** ** udp_transport_broadcast.hpp, udp_transport_broadcast.cpp *)

(** [b_receiving]: a receive operation is pending on the socket. *)
Record UDPBroadcast := mkBroadcast {
  b_status : TransportStatus;
  m_interfaceEndpoints : list ip_endpoint;
  m_broadcastEndpoints : list ip_endpoint;
  m_devices : list ip_endpoint;
  b_callback : bool;
  b_receiving : bool
}.

(** A [sockaddr]; of an IPv4 address, the bytes in network order. *)
Inductive sockaddr :=
  | AF_INET (s_addr : Byte.byte * Byte.byte * Byte.byte * Byte.byte)
  | AF_OTHER.

Record ifaddrs := mkIfaddrs {
  ifa_addr : option sockaddr;
  ifa_netmask : option sockaddr;
  ifa_dstaddr : option sockaddr
}.

Definition sockAddrToUint32 (address : option sockaddr) : Z :=
  match address with
  | Some (AF_INET (b3, b2, b1, b0)) =>
      let u := Byte.byte.unsigned in
      Z.lor (Z.shiftl (u b3) 24) (Z.lor (Z.shiftl (u b2) 16) (Z.lor (Z.shiftl (u b1) 8) (u b0)))
  | _ => 0
  end.

(** [address_v4::is_loopback] *)
Definition is_loopback (a : Z) : bool := Z.land a 0xFF000000 =? 0x7F000000.

Definition b_setFailed (b : UDPBroadcast) : UDPBroadcast :=
  mkBroadcast (set_failed (b_status b)) (m_interfaceEndpoints b) (m_broadcastEndpoints b) (m_devices b)
    (b_callback b) (b_receiving b).
Definition b_set_receiving (r : bool) (b : UDPBroadcast) : UDPBroadcast :=
  mkBroadcast (b_status b) (m_interfaceEndpoints b) (m_broadcastEndpoints b) (m_devices b) (b_callback b) r.
Definition set_devices (l : list ip_endpoint) (b : UDPBroadcast) : UDPBroadcast :=
  mkBroadcast (b_status b) (m_interfaceEndpoints b) (m_broadcastEndpoints b) l (b_callback b) (b_receiving b).
Definition set_endpoints (ifs bcs : list ip_endpoint) (b : UDPBroadcast) : UDPBroadcast :=
  mkBroadcast (b_status b) ifs bcs (m_devices b) (b_callback b) (b_receiving b).

Section broadcast.
Context `{Iox} `{Sockets}.
Implicit Types (b : UDPBroadcast) (sent : list Datagram).

(** The loop over the interfaces. *)
Fixpoint discover_loop (ifap : list ifaddrs) (iface_n : nat) (ifs bcs : list ip_endpoint)
    : list ip_endpoint * list ip_endpoint :=
  match ifap with
  | [] => (ifs, bcs)
  | iface :: ifap =>
      if (iface_n <? MAX_NETWORK_IFACE_COUNT)%nat then
        let ifaAddr := sockAddrToUint32 (ifa_addr iface) in
        let dstAddr := sockAddrToUint32 (ifa_dstaddr iface) in
        if (0 <? ifaAddr) && negb (is_loopback dstAddr) then
          discover_loop ifap (S iface_n)
            (push_back MAX_NETWORK_IFACE_COUNT ifs (mkEp ifaAddr DISCOVERY_PORT)).1
            (push_back MAX_NETWORK_IFACE_COUNT bcs (mkEp dstAddr DISCOVERY_PORT)).1
        else discover_loop ifap iface_n ifs bcs
      else (ifs, bcs)
  end.

(** [ifap] is [None] when [getifaddrs] fails. *)
Definition discoverBroadcastAddresses (ifap : option (list ifaddrs)) b : UDPBroadcast :=
  match ifap with
  | Some ifap =>
      let '(ifs, bcs) := discover_loop ifap 0 (m_interfaceEndpoints b) (m_broadcastEndpoints b) in
      set_endpoints ifs bcs b
  | None => b
  end.

Definition discoveryAsyncReceive sent b : UDPBroadcast :=
  if receive_throws sent DISCOVERY_PORT then b_setFailed b else b_set_receiving true b.

(** The constructor. *)
Definition UDPBroadcast_init (ifap : option (list ifaddrs)) : Outcome UDPBroadcast :=
  if bind_throws DISCOVERY_PORT then Terminated
  else
    let b := discoverBroadcastAddresses ifap (mkBroadcast GOOD [] [] [] false false) in
    if set_option_throws DISCOVERY_PORT then Ok (b_setFailed b)
    else Ok (discoveryAsyncReceive [] b).

(** The index of the sender, which is added if there is room. *)
Definition findDevice (m_outputEndpoint : ip_endpoint) b : UDPBroadcast * Z :=
  let iter := std_find m_outputEndpoint (m_devices b) in
  if (iter =? length (m_devices b))%nat && (length (m_devices b) <? MAX_DEVICE_COUNT)%nat then
    let devices := (push_back MAX_DEVICE_COUNT (m_devices b) m_outputEndpoint).1 in
    (set_devices devices b, wrap32 (Z.of_nat (length devices - 1)))
  else (b, wrap32 (Z.of_nat iter)).

(** A completed receive: [ec] and what is in [m_outputEndpoint] and
    [m_outputBuffer].  The result is the call of the callback, if any. *)
Definition discoverySocketCallback (ec : bool) (m_outputEndpoint : ip_endpoint) (data : bytes) sent b
    : UDPBroadcast * list (bytes * DeviceIndex_t) :=
  let b := b_set_receiving false b in
  if ec then (b_setFailed b, [])
  else
    let local_it := std_find m_outputEndpoint (m_interfaceEndpoints b) in
    if (local_it =? length (m_interfaceEndpoints b))%nat then
      let '(b, device) := findDevice m_outputEndpoint b in
      (discoveryAsyncReceive sent b, if b_callback b then [(data, mkDeviceIndex UDP device)] else [])
    else (discoveryAsyncReceive sent b, []).

Definition registerDiscoveryCallback b : UDPBroadcast :=
  mkBroadcast (b_status b) (m_interfaceEndpoints b) (m_broadcastEndpoints b) (m_devices b) true (b_receiving b).

(** The loop of [sendBroadcast], up to the first call that throws. *)
Fixpoint send_each (data : bytes) (endpoints : list ip_endpoint) sent : list Datagram * bool :=
  match endpoints with
  | [] => (sent, true)
  | ep :: endpoints =>
      let d := mkDatagram DISCOVERY_PORT ep data in
      if send_to_throws sent d then (sent, false) else send_each data endpoints (sent ++ [d])
  end.

Definition sendBroadcast (data : bytes) sent b : UDPBroadcast * list Datagram :=
  let '(sent, all) := send_each data (m_broadcastEndpoints b) sent in
  (if all then b else b_setFailed b, sent).

Definition discoveredEndpoints b : Z := Z.of_nat (length (m_devices b)).

Definition getEndpoint (deviceIndex : Z) b : Outcome (ip_endpoint * UDPBroadcast) :=
  if discoveredEndpoints b <=? deviceIndex then Ok (any_endpoint, b_setFailed b)
  else ep ← deref (m_devices b !! Z.to_nat deviceIndex); Ok (ep, b).

Definition getIndex (a : Z) b : option Z :=
  let iter := find_if (fun dev => bool_decide (address dev = a)) (m_devices b) in
  if negb (iter =? length (m_devices b))%nat then Some (wrap32 (Z.of_nat iter)) else None.
End broadcast.

(** ** udp_transport.hpp, udp_transport.cpp *)

(** [u_thread]: [m_thread] is joinable. *)
Record UDPTransport := mkUdp {
  u_status : TransportStatus;
  u_thread : bool;
  m_broadcast : UDPBroadcast;
  u_callback : bool;
  u_receiving : bool
}.

Definition u_setFailed (u : UDPTransport) : UDPTransport :=
  mkUdp (set_failed (u_status u)) (u_thread u) (m_broadcast u) (u_callback u) (u_receiving u).
Definition u_set_receiving (r : bool) (u : UDPTransport) : UDPTransport :=
  mkUdp (u_status u) (u_thread u) (m_broadcast u) (u_callback u) r.
Definition set_broadcast (b : UDPBroadcast) (u : UDPTransport) : UDPTransport :=
  mkUdp (u_status u) (u_thread u) b (u_callback u) (u_receiving u).

Section transport.
Context `{Iox} `{Sockets}.
Implicit Types (u : UDPTransport) (sent : list Datagram).

Definition dataAsyncReceive sent u : UDPTransport :=
  if receive_throws sent DATA_PORT then u_setFailed u else u_set_receiving true u.

(** The constructor. *)
Definition UDPTransport_init (ifap : option (list ifaddrs)) : Outcome UDPTransport :=
  if bind_throws DATA_PORT then Terminated
  else
    b ← UDPBroadcast_init ifap;
    let u := mkUdp GOOD false b false false in
    if set_option_throws DATA_PORT then Ok (u_setFailed u)
    else Ok (dataAsyncReceive [] (mkUdp GOOD true b false false)).

(** The destructor: joining a thread that is not joinable throws. *)
Definition UDPTransport_destroy u : Outcome unit :=
  if u_thread u then Ok tt else Terminated.

Definition dataSocketCallback (ec : bool) (m_outputEndpoint : ip_endpoint) (data : bytes) sent u
    : UDPTransport * list (bytes * DeviceIndex_t) :=
  let u := u_set_receiving false u in
  if ec then (u_setFailed u, [])
  else
    let calls :=
      match getIndex (address m_outputEndpoint) (m_broadcast u) with
      | Some index => if u_callback u then [(data, mkDeviceIndex UDP index)] else []
      | None => []
      end in
    (dataAsyncReceive sent u, calls).

Definition u_registerDiscoveryCallback u : UDPTransport :=
  set_broadcast (registerDiscoveryCallback (m_broadcast u)) u.

Definition registerUserDataCallback u : UDPTransport :=
  mkUdp (u_status u) (u_thread u) (m_broadcast u) true (u_receiving u).

Definition u_sendBroadcast (data : bytes) sent u : UDPTransport * list Datagram :=
  let '(b, sent) := sendBroadcast data sent (m_broadcast u) in (set_broadcast b u, sent).

(** The two buffers of [send_to] form one datagram. *)
Definition u_sendUserData (data1 data2 : bytes) (deviceIndex : Z) sent u
    : Outcome (UDPTransport * list Datagram * bool) :=
  '(endpoint, b) ← getEndpoint deviceIndex (m_broadcast u);
  let u := set_broadcast b u in
  let endpoint := mkEp (address endpoint) DATA_PORT in
  let d := mkDatagram DATA_PORT endpoint (data1 ++ data2) in
  if send_to_throws sent d then Ok (u_setFailed u, sent, false) else Ok (u, sent ++ [d], false).

Definition u_maxMessageSize : Z := MAX_DATAGRAM_SIZE.

Definition u_discoverySocketCallback (ec : bool) (m_outputEndpoint : ip_endpoint) (data : bytes) sent u
    : UDPTransport * list (bytes * DeviceIndex_t) :=
  let '(b, calls) := discoverySocketCallback ec m_outputEndpoint data sent (m_broadcast u) in
  (set_broadcast b u, calls).

(** *** The life of a transport *)

Inductive UdpEvent :=
  | DiscoveryReceived (ec : bool) (from : ip_endpoint) (data : bytes)
  | DataReceived (ec : bool) (from : ip_endpoint) (data : bytes)
  | SendBroadcast (data : bytes)
  | SendUserData (data1 data2 : bytes) (deviceIndex : Z).

(** A receive completes only when one is pending. *)
Definition udp_step (e : UdpEvent) (s : UDPTransport * list Datagram) : Outcome (UDPTransport * list Datagram) :=
  let '(u, sent) := s in
  match e with
  | DiscoveryReceived ec from data =>
      if b_receiving (m_broadcast u) then Ok ((u_discoverySocketCallback ec from data sent u).1, sent) else Ok s
  | DataReceived ec from data =>
      if u_receiving u then Ok ((dataSocketCallback ec from data sent u).1, sent) else Ok s
  | SendBroadcast data => Ok (u_sendBroadcast data sent u)
  | SendUserData data1 data2 deviceIndex =>
      '(u, sent, _) ← u_sendUserData data1 data2 deviceIndex sent u; Ok (u, sent)
  end.

Definition udp_run (events : list UdpEvent) (s : UDPTransport * list Datagram)
    : Outcome (UDPTransport * list Datagram) := for_each udp_step events s.
End transport.

(** ** Lemmas *)

Section lemmas.
Context `{IoxSpec} `{Sockets}.
Implicit Types (b : UDPBroadcast) (u : UDPTransport) (sent : list Datagram).

(** The devices are gateways with different addresses. *)
Definition devices_wf (devices : list ip_endpoint) : Prop :=
  (length devices ≤ MAX_DEVICE_COUNT)%nat ∧ NoDup (address <$> devices) ∧
  Forall (fun ep => port ep = DISCOVERY_PORT) devices.

(** The devices after a discovery message of [from]. *)
Definition note_device (devices : list ip_endpoint) (from : ip_endpoint) : list ip_endpoint :=
  if decide (from ∉ devices ∧ (length devices < MAX_DEVICE_COUNT)%nat) then devices ++ [from] else devices.

Lemma note_device_prefix devices from : devices `prefix_of` note_device devices from.
Proof. unfold note_device. case_decide; [by apply prefix_app_r|done]. Qed.

Lemma note_device_wf devices from :
  devices_wf devices → port from = DISCOVERY_PORT → devices_wf (note_device devices from).
Proof.
  intros (Hl & Hnd & Hp) Hf. unfold note_device. case_decide as Hc; [|done]. destruct Hc as [Hn Hroom].
  split_and!.
  - rewrite length_app. simpl. lia.
  - rewrite fmap_app. apply NoDup_app. split_and!; [done| |apply NoDup_singleton].
    intros a Ha ->%list_elem_of_singleton. apply list_elem_of_fmap in Ha as (ep & Heq & Hin).
    apply Hn. pose proof (proj1 (Forall_forall _ _) Hp _ Hin) as Hport.
    destruct from, ep. simpl in *. by subst.
  - apply Forall_app. by split; [|apply Forall_singleton].
Qed.

Lemma note_device_index devices from :
  (std_find from (note_device devices from) ≤ MAX_DEVICE_COUNT)%nat ∨ (MAX_DEVICE_COUNT < length devices)%nat.
Proof.
  pose proof (std_find_le from (note_device devices from)) as Hle. revert Hle.
  unfold note_device. case_decide; [rewrite length_app; simpl|]; lia.
Qed.

Lemma wrap_index n : (n ≤ MAX_DEVICE_COUNT)%nat → wrap32 (Z.of_nat n) = Z.of_nat n.
Proof. unfold MAX_DEVICE_COUNT. intros. apply wrap32_small. split; lia. Qed.

Lemma findDevice_spec from b :
  devices_wf (m_devices b) →
  findDevice from b = (set_devices (note_device (m_devices b) from) b,
                       Z.of_nat (std_find from (note_device (m_devices b) from))).
Proof.
  intros (Hl & _). pose proof (note_device_index (m_devices b) from) as Hidx. revert Hidx.
  unfold findDevice, note_device. pose proof (std_find_le from (m_devices b)) as Hle.
  destruct (Nat.eqb_spec (std_find from (m_devices b)) (length (m_devices b))) as [He|He]; cbn [andb].
  2:{ rewrite decide_False by (rewrite <-std_find_end; tauto). intros _.
      rewrite wrap_index by lia. by destruct b. }
  destruct (Nat.ltb_spec (length (m_devices b)) MAX_DEVICE_COUNT) as [Hroom|Hroom].
  2:{ rewrite decide_False by lia. intros _. rewrite wrap_index by lia. by destruct b. }
  rewrite decide_True by (split; [by apply std_find_end|done]). intros _. rewrite push_back_room by done. simpl.
  rewrite length_app. simpl. rewrite wrap_index by lia. do 2 f_equal.
  unfold std_find in *. rewrite find_if_app, decide_True by done. simpl. rewrite bool_decide_true by done. lia.
Qed.

Lemma discoveryAsyncReceive_fields sent b :
  m_interfaceEndpoints (discoveryAsyncReceive sent b) = m_interfaceEndpoints b ∧
  m_broadcastEndpoints (discoveryAsyncReceive sent b) = m_broadcastEndpoints b ∧
  b_callback (discoveryAsyncReceive sent b) = b_callback b ∧ m_devices (discoveryAsyncReceive sent b) = m_devices b.
Proof. unfold discoveryAsyncReceive. by destruct (receive_throws _ _). Qed.

(** What a completed receive does to the fields the callers see. *)
Lemma discoverySocketCallback_spec ec from data sent b :
  devices_wf (m_devices b) →
  let '(b', calls) := discoverySocketCallback ec from data sent b in
  let devices := if decide (ec = false ∧ from ∉ m_interfaceEndpoints b)
                 then note_device (m_devices b) from else m_devices b in
  m_interfaceEndpoints b' = m_interfaceEndpoints b ∧ m_broadcastEndpoints b' = m_broadcastEndpoints b ∧
  b_callback b' = b_callback b ∧ m_devices b' = devices ∧
  calls = if decide (ec = false ∧ from ∉ m_interfaceEndpoints b ∧ b_callback b = true)
          then [(data, mkDeviceIndex UDP (Z.of_nat (std_find from devices)))] else [].
Proof.
  intros Hwf. unfold discoverySocketCallback. destruct ec; [by rewrite !decide_False by naive_solver|].
  change (m_interfaceEndpoints (b_set_receiving false b)) with (m_interfaceEndpoints b).
  destruct (Nat.eqb_spec (std_find from (m_interfaceEndpoints b)) (length (m_interfaceEndpoints b))) as [He|He];
    rewrite std_find_end in He.
  - rewrite findDevice_spec by done.
    match goal with |- context [discoveryAsyncReceive sent ?b] =>
      destruct (discoveryAsyncReceive_fields sent b) as (-> & -> & -> & ->) end. cbn.
    rewrite decide_True by done. split_and!; try done. destruct (b_callback b).
    + by rewrite decide_True.
    + by rewrite decide_False by naive_solver.
  - match goal with |- context [discoveryAsyncReceive sent ?b] =>
      destruct (discoveryAsyncReceive_fields sent b) as (-> & -> & -> & ->) end.
    by rewrite !decide_False by tauto.
Qed.

Lemma getEndpoint_spec b (i : nat) ep :
  m_devices b !! i = Some ep → getEndpoint (Z.of_nat i) b = Ok (ep, b).
Proof.
  intros Hi. unfold getEndpoint, discoveredEndpoints. pose proof (lookup_lt_Some _ _ _ Hi).
  rewrite (proj2 (Z.leb_gt _ _)) by lia. rewrite Nat2Z.id, Hi. by ostep.
Qed.

Lemma getIndex_spec b (i : nat) ep :
  devices_wf (m_devices b) → m_devices b !! i = Some ep → getIndex (address ep) b = Some (Z.of_nat i).
Proof.
  intros (Hl & Hnd & _) Hi. unfold getIndex. pose proof (lookup_lt_Some _ _ _ Hi) as Hlt.
  set (p := fun dev => bool_decide (address dev = address ep)).
  assert (find_if p (m_devices b) < length (m_devices b))%nat as Hfound.
  { pose proof (find_if_le p (m_devices b)). enough (find_if p (m_devices b) ≠ length (m_devices b)) by lia.
    apply find_if_not_end. exists ep. split; [by eapply list_elem_of_lookup_2|]. unfold p. by rewrite bool_decide_true. }
  destruct (find_if_found p _ Hfound) as (ep' & Hep' & Ha%bool_decide_eq_true).
  assert (find_if p (m_devices b) = i) as ->.
  { apply (proj1 (NoDup_alt _) Hnd _ _ (address ep)); rewrite list_lookup_fmap; [by rewrite Hep'; simpl; f_equal|by rewrite Hi]. }
  rewrite (proj2 (Nat.eqb_neq _ _)) by lia. simpl. rewrite wrap_index by lia. done.
Qed.

(** *** The whole life of a transport *)

(** Discovery messages come from the discovery port of their sender. *)
Definition genuine (e : UdpEvent) : Prop :=
  match e with DiscoveryReceived false from _ => port from = DISCOVERY_PORT | _ => True end.

(** What no event changes, and that devices are only added. *)
Definition grows u u' : Prop :=
  m_interfaceEndpoints (m_broadcast u') = m_interfaceEndpoints (m_broadcast u) ∧
  m_broadcastEndpoints (m_broadcast u') = m_broadcastEndpoints (m_broadcast u) ∧
  b_callback (m_broadcast u') = b_callback (m_broadcast u) ∧ u_callback u' = u_callback u ∧
  u_thread u' = u_thread u ∧ m_devices (m_broadcast u) `prefix_of` m_devices (m_broadcast u').

Lemma grows_refl u : grows u u.
Proof. by split_and!. Qed.

Lemma grows_trans u1 u2 u3 : grows u1 u2 → grows u2 u3 → grows u1 u3.
Proof.
  intros (?&?&?&?&?&H12) (?&?&?&?&?&H23). split_and!; try congruence. by etransitivity.
Qed.

Definition udp_wf u : Prop := devices_wf (m_devices (m_broadcast u)).

Lemma dataSocketCallback_fields ec from data sent u :
  grows u (dataSocketCallback ec from data sent u).1 ∧
  m_devices (m_broadcast (dataSocketCallback ec from data sent u).1) = m_devices (m_broadcast u).
Proof.
  unfold dataSocketCallback, dataAsyncReceive.
  destruct ec; [done|]. by destruct (receive_throws _ _).
Qed.

Lemma getEndpoint_total i b :
  0 ≤ i → ∃ ep b', getEndpoint i b = Ok (ep, b') ∧ (b' = b ∨ b' = b_setFailed b).
Proof.
  intros Hi. unfold getEndpoint, discoveredEndpoints. destruct (Z.leb_spec (Z.of_nat (length (m_devices b))) i).
  - eexists _, _. split; [done|by right].
  - destruct (lookup_lt_is_Some_2 (m_devices b) (Z.to_nat i) ltac:(lia)) as [ep ->]. ostep.
    eexists _, _. split; [done|by left].
Qed.

Lemma u_sendUserData_total data1 data2 i sent u :
  0 ≤ i → ∃ u' sent', u_sendUserData data1 data2 i sent u = Ok (u', sent', false) ∧ grows u u' ∧
    m_devices (m_broadcast u') = m_devices (m_broadcast u).
Proof.
  intros Hi. unfold u_sendUserData. destruct (getEndpoint_total i (m_broadcast u) Hi) as (ep & b' & -> & Hb').
  ostep. case_match; eexists _, _; (split; [done|]); by destruct Hb' as [->| ->].
Qed.

(** The device indices are unsigned. *)
Definition well_formed (e : UdpEvent) : Prop :=
  match e with SendUserData _ _ i => 0 ≤ i | _ => True end.

Lemma udp_step_grows e u sent :
  udp_wf u → genuine e → well_formed e →
  ∃ u' sent', udp_step e (u, sent) = Ok (u', sent') ∧ udp_wf u' ∧ grows u u'.
Proof.
  intros Hu Hg Hw. destruct e as [ec from data|ec from data|data|data1 data2 i]; cbn [udp_step].
  - destruct (b_receiving (m_broadcast u)); [|by eexists _, _; split_and!; try apply grows_refl].
    eexists _, _. split; [done|]. unfold u_discoverySocketCallback.
    pose proof (discoverySocketCallback_spec ec from data sent (m_broadcast u) Hu) as Hs.
    destruct (discoverySocketCallback ec from data sent (m_broadcast u)) as [b calls].
    cbv zeta in Hs. destruct Hs as (Hif & Hbc & Hcb & Hdev & _). unfold udp_wf, grows. cbn. rewrite Hdev.
    case_decide as Hc; [|by split_and!]. destruct Hc as [-> _].
    split; [by apply note_device_wf|]. split_and!; try done. apply note_device_prefix.
  - destruct (u_receiving u); [|by eexists _, _; split_and!; try apply grows_refl].
    destruct (dataSocketCallback_fields ec from data sent u) as [Hgrow Hdev].
    eexists _, _. split; [done|]. split; [|done]. unfold udp_wf. by rewrite Hdev.
  - unfold u_sendBroadcast, sendBroadcast. destruct (send_each _ _ _) as [sent' []];
      eexists _, _; (split; [done|]); by split.
  - destruct (u_sendUserData_total data1 data2 i sent u Hw) as (u' & sent' & -> & Hgrow & Hdev). ostep.
    eexists _, _. split; [done|]. split; [|done]. unfold udp_wf. by rewrite Hdev.
Qed.

Lemma udp_run_grows events u sent :
  udp_wf u → Forall genuine events → Forall well_formed events →
  ∃ u' sent', udp_run events (u, sent) = Ok (u', sent') ∧ udp_wf u' ∧ grows u u'.
Proof.
  unfold udp_run. intros Hu Hg Hw. revert u sent Hu Hw. induction Hg as [|e events He Hg IH]; intros u sent Hu Hw.
  { exists u, sent. split_and!; [done..|apply grows_refl]. }
  apply Forall_cons in Hw as [Hwe Hw]. cbn [for_each].
  destruct (udp_step_grows e u sent Hu He Hwe) as (u1 & sent1 & -> & Hu1 & Hg1). ostep.
  destruct (IH u1 sent1 Hu1 Hw) as (u2 & sent2 & Hr & Hu2 & Hg2).
  exists u2, sent2. split_and!; [done..|by eapply grows_trans].
Qed.

(** *** The interfaces *)

(** An interface that is announced on. *)
Definition announced_on (iface : ifaddrs) : bool :=
  (0 <? sockAddrToUint32 (ifa_addr iface)) && negb (is_loopback (sockAddrToUint32 (ifa_dstaddr iface))).

Lemma discover_loop_spec ifap ifs bcs :
  length ifs = length bcs → (length ifs ≤ MAX_NETWORK_IFACE_COUNT)%nat →
  let kept := take (MAX_NETWORK_IFACE_COUNT - length ifs) (filter announced_on ifap) in
  discover_loop ifap (length ifs) ifs bcs =
    (ifs ++ ((fun i => mkEp (sockAddrToUint32 (ifa_addr i)) DISCOVERY_PORT) <$> kept),
     bcs ++ ((fun i => mkEp (sockAddrToUint32 (ifa_dstaddr i)) DISCOVERY_PORT) <$> kept)).
Proof.
  revert ifs bcs. induction ifap as [|iface ifap IH]; intros ifs bcs Hl Hm; cbn zeta; simpl.
  { by rewrite filter_nil, take_nil, !app_nil_r. }
  destruct (Nat.ltb_spec (length ifs) MAX_NETWORK_IFACE_COUNT) as [Hroom|Hfull].
  - rewrite filter_cons. fold (announced_on iface). destruct (announced_on iface) eqn:Ha.
    + rewrite decide_True by done. rewrite !push_back_room by lia. cbn [fst].
      specialize (IH (ifs ++ [mkEp (sockAddrToUint32 (ifa_addr iface)) DISCOVERY_PORT])
                     (bcs ++ [mkEp (sockAddrToUint32 (ifa_dstaddr iface)) DISCOVERY_PORT])).
      rewrite !length_app in IH. simpl in IH. rewrite Nat.add_1_r in IH. rewrite IH by lia.
      replace (MAX_NETWORK_IFACE_COUNT - length ifs)%nat
        with (S (MAX_NETWORK_IFACE_COUNT - S (length ifs))) by lia.
      csimpl. by rewrite <-!app_assoc.
    + rewrite decide_False by (by intros []). by apply IH.
  - replace (MAX_NETWORK_IFACE_COUNT - length ifs)%nat with 0%nat by lia. simpl. by rewrite !app_nil_r.
Qed.
End lemmas.

(** ** The transport as the gateway sees it

    The interface [TransportLayer] of file TransportInfo, for a transport that
    knows the devices of [u]. *)

Section layer.
Context `{Iox} `{Sockets}.

Definition device_endpoint (u : UDPTransport) (device : Z) : ip_endpoint :=
  mkEp (address (default any_endpoint (m_devices (m_broadcast u) !! Z.to_nat device))) DATA_PORT.

Definition user_datagram (u : UDPTransport) (header payload : bytes) (device : Z) : Datagram :=
  mkDatagram DATA_PORT (device_endpoint u device) (header ++ payload).

(** The datagrams sent for the events of a history. *)
Definition sent_for (u : UDPTransport) (history : list NetEvent) : list Datagram :=
  foldl (fun sent e =>
    match e with
    | Broadcast UDP data => (send_each data (m_broadcastEndpoints (m_broadcast u)) sent).1
    | UserData UDP header payload device =>
        let d := user_datagram u header payload device in
        if send_to_throws sent d then sent else sent ++ [d]
    | _ => sent
    end) [] history.

(** A broadcast never fails in the eyes of the gateway. *)
Definition udp_layer (u : UDPTransport) : TransportLayer := {|
  maxMessageSize := fun _ => u_maxMessageSize;
  willBePending := fun _ _ => false;
  sendBroadcast_fails := fun _ _ _ => false;
  sendUserData_outcome := fun history _ header payload device =>
    (false, send_to_throws (sent_for u history) (user_datagram u header payload device));
  constructor_fails := fun _ => set_option_throws DATA_PORT
|}.
End layer.

(** ** Properties *)

Section properties.
Context `{IoxSpec} `{Sockets}.

(** A discovery message of another gateway is reported with the number of the sender. *)
Lemma broadcast_numbered b (sent : list Datagram) (from : ip_endpoint) (data : bytes) :
  devices_wf (m_devices b) → port from = DISCOVERY_PORT → b_callback b = true → from ∉ m_interfaceEndpoints b →
  from ∈ m_devices b ∨ (length (m_devices b) < MAX_DEVICE_COUNT)%nat →
  ∃ (device : nat) b',
    discoverySocketCallback false from data sent b = (b', [(data, mkDeviceIndex UDP (Z.of_nat device))]) ∧
    (device < MAX_DEVICE_COUNT)%nat ∧ devices_wf (m_devices b') ∧ m_devices b' !! device = Some from.
Proof.
  intros Hu Hport Hcb Hnin Hroom.
  pose proof (discoverySocketCallback_spec false from data sent b Hu) as Hs.
  destruct (discoverySocketCallback false from data sent b) as [b' calls].
  cbv zeta in Hs. destruct Hs as (_ & _ & _ & Hdev & Hcalls).
  rewrite decide_True in Hdev by done. rewrite !decide_True in Hcalls by done.
  set (devices := note_device (m_devices b) from) in *.
  assert (devices_wf devices) as Hwf by (by apply note_device_wf).
  assert (from ∈ devices) as Hin.
  { unfold devices, note_device. case_decide as Hc; [apply elem_of_app; right; by left|].
    destruct Hroom as [?|?]; [done|]. apply dec_stable. intros Hn. tauto. }
  pose proof (std_find_lt from devices Hin) as Hlt.
  exists (std_find from devices), b'. split; [by rewrite Hcalls|]. split; [destruct Hwf; lia|].
  rewrite Hdev. split; [done|]. by apply std_find_lookup.
Qed.

Lemma device_numbered (u : UDPTransport) (sent : list Datagram) (from : ip_endpoint) (data : bytes) :
  udp_wf u → port from = DISCOVERY_PORT → b_callback (m_broadcast u) = true →
  from ∉ m_interfaceEndpoints (m_broadcast u) →
  from ∈ m_devices (m_broadcast u) ∨ (length (m_devices (m_broadcast u)) < MAX_DEVICE_COUNT)%nat →
  ∃ (device : nat) b,
    u_discoverySocketCallback false from data sent u =
      (set_broadcast b u, [(data, mkDeviceIndex UDP (Z.of_nat device))]) ∧
    (device < MAX_DEVICE_COUNT)%nat ∧ udp_wf (set_broadcast b u) ∧ m_devices b !! device = Some from.
Proof.
  intros Hu Hport Hcb Hnin Hroom. unfold u_discoverySocketCallback.
  destruct (broadcast_numbered (m_broadcast u) sent from data Hu Hport Hcb Hnin Hroom)
    as (device & b & -> & Hlt & Hwf & Hlook). by exists device, b.
Qed.

(** When no [send_to] throws, a message goes out on every interface. *)
Lemma send_each_quiet data endpoints sent :
  (∀ sent d, send_to_throws sent d = false) →
  send_each data endpoints sent = (sent ++ ((fun ep => mkDatagram DISCOVERY_PORT ep data) <$> endpoints), true).
Proof.
  intros quiet. revert sent. induction endpoints as [|ep endpoints IH]; intros sent; csimpl; [by rewrite app_nil_r|].
  by rewrite quiet, IH, <-app_assoc.
Qed.

(** C19: A gateway keeps the number under which it is first heard: whatever happens later,
    the number leads to its address, user data sent to it goes out as one datagram to its
    data port, with the header followed by the payload, and user data it sends is
    reported under the same number; a message of the gateway itself is ignored. *)
Theorem udp_device_round_trip (u : UDPTransport) (sent : list Datagram) (from : ip_endpoint) (data : bytes) :
  udp_wf u → port from = DISCOVERY_PORT → b_callback (m_broadcast u) = true → u_callback u = true →
  let '(u1, calls) := u_discoverySocketCallback false from data sent u in
  (from ∈ m_interfaceEndpoints (m_broadcast u) → calls = [] ∧ m_devices (m_broadcast u1) = m_devices (m_broadcast u)) ∧
  (from ∉ m_interfaceEndpoints (m_broadcast u) →
   from ∈ m_devices (m_broadcast u) ∨ (length (m_devices (m_broadcast u)) < MAX_DEVICE_COUNT)%nat →
   ∃ device : nat, (device < MAX_DEVICE_COUNT)%nat ∧ calls = [(data, mkDeviceIndex UDP (Z.of_nat device))] ∧
     ∀ events, Forall genuine events → Forall well_formed events →
     ∃ u2 sent2, udp_run events (u1, sent) = Ok (u2, sent2) ∧
       (∀ header payload,
          let d := mkDatagram DATA_PORT (mkEp (address from) DATA_PORT) (header ++ payload) in
          send_to_throws sent2 d = false →
          u_sendUserData header payload (Z.of_nat device) sent2 u2 = Ok (u2, sent2 ++ [d], false)) ∧
       ∀ p payload, (dataSocketCallback false (mkEp (address from) p) payload sent2 u2).2 =
                    [(payload, mkDeviceIndex UDP (Z.of_nat device))]).
Proof.
  intros Hu Hport Hcb Hucb.
  destruct (decide (from ∈ m_interfaceEndpoints (m_broadcast u))) as [Hin|Hnin].
  - unfold u_discoverySocketCallback.
    pose proof (discoverySocketCallback_spec false from data sent (m_broadcast u) Hu) as Hs.
    destruct (discoverySocketCallback false from data sent (m_broadcast u)) as [b calls].
    cbv zeta in Hs. destruct Hs as (_ & _ & _ & Hdev & Hcalls). split; [|done]. intros _.
    rewrite decide_False in Hdev by naive_solver. rewrite !decide_False in Hcalls by naive_solver. done.
  - destruct (u_discoverySocketCallback false from data sent u) as [u1 calls] eqn:E. split; [done|]. intros _ Hroom.
    destruct (device_numbered u sent from data Hu Hport Hcb Hnin Hroom) as (device & b & He & Hlt & Hu1 & Hd).
    rewrite E in He. injection He as -> ->. exists device. split; [done|]. split; [done|]. intros events Hg Hw.
    destruct (udp_run_grows events (set_broadcast b u) sent Hu1 Hg Hw) as (u2 & sent2 & Hrun & Hu2 & Hgrow).
    destruct Hgrow as (_ & _ & _ & Hucb2 & _ & Hpre). simpl in Hucb2, Hpre.
    assert (m_devices (m_broadcast u2) !! device = Some from) as Hlook by (by eapply prefix_lookup_Some).
    exists u2, sent2. split; [done|]. split.
    + intros header payload d Hok. unfold u_sendUserData, d in *.
      rewrite (getEndpoint_spec _ _ _ Hlook). ostep. rewrite Hok. by destruct u2.
    + intros p payload. unfold dataSocketCallback. cbn [snd m_broadcast u_set_receiving address].
      rewrite (getIndex_spec _ _ _ Hu2 Hlook). cbn [u_callback u_set_receiving]. by rewrite Hucb2, Hucb.
Qed.

(** When ten gateways are known, an eleventh is reported under the number 10, which
    leads to no address: user data for it is sent to the address 0.0.0.0, the transport
    stays in the status it had, and only the status of the discovery object, which nobody
    reads, becomes failed; user data it sends is discarded. *)
Theorem eleventh_device_lost (u : UDPTransport) (sent : list Datagram) (from : ip_endpoint)
    (data header payload : bytes) :
  udp_wf u → length (m_devices (m_broadcast u)) = MAX_DEVICE_COUNT →
  address from ∉ address <$> m_devices (m_broadcast u) → from ∉ m_interfaceEndpoints (m_broadcast u) →
  b_callback (m_broadcast u) = true →
  let '(u1, calls) := u_discoverySocketCallback false from data sent u in
  let d := mkDatagram DATA_PORT (mkEp 0 DATA_PORT) (header ++ payload) in
  calls = [(data, mkDeviceIndex UDP 10)] ∧
  (send_to_throws sent d = false →
   ∃ u2, u_sendUserData header payload 10 sent u1 = Ok (u2, sent ++ [d], false) ∧
     u_status u2 = u_status u ∧ b_status (m_broadcast u2) = set_failed (b_status (m_broadcast u1))) ∧
  (dataSocketCallback false from payload sent u1).2 = [].
Proof.
  intros Hu Hfull Hnew Hif Hcb. unfold u_discoverySocketCallback.
  pose proof (discoverySocketCallback_spec false from data sent (m_broadcast u) Hu) as Hs.
  destruct (discoverySocketCallback false from data sent (m_broadcast u)) as [b calls].
  cbv zeta in Hs. destruct Hs as (_ & _ & Hcb' & Hdev & Hcalls).
  rewrite decide_True in Hdev by done. rewrite !decide_True in Hcalls by done.
  assert (note_device (m_devices (m_broadcast u)) from = m_devices (m_broadcast u)) as Hnote
    by (unfold note_device; by rewrite decide_False by lia).
  rewrite Hnote in *.
  assert (std_find from (m_devices (m_broadcast u)) = MAX_DEVICE_COUNT) as Hidx.
  { rewrite <-Hfull. apply std_find_end. intros Hin. apply Hnew. by apply list_elem_of_fmap_2. }
  rewrite Hidx in Hcalls. split; [done|]. split.
  - intros Hok. unfold u_sendUserData, getEndpoint, discoveredEndpoints. cbn [m_broadcast set_broadcast].
    rewrite Hdev, Hfull. change (Z.of_nat MAX_DEVICE_COUNT <=? 10) with true. cbv iota. ostep.
    change (address any_endpoint) with 0. rewrite Hok. eexists. split; [done|]. done.
  - unfold dataSocketCallback, getIndex. cbn [snd m_broadcast u_set_receiving set_broadcast]. rewrite Hdev.
    rewrite (proj2 (Nat.eqb_eq _ _)); [done|]. apply find_if_end. intros ep Hep.
    apply bool_decide_eq_false. intros Heq. apply Hnew. rewrite <-Heq. by apply list_elem_of_fmap_2.
Qed.

(** A failure of the discovery socket is not a failure of the transport: no broadcast
    that throws and no failed receive changes the status the gateway checks, so the
    transport is never disabled; but after a failed receive no discovery message is
    handled any more. *)
Theorem discovery_failure_unnoticed (u : UDPTransport) (sent : list Datagram) :
  (∀ data, u_status (u_sendBroadcast data sent u).1 = u_status u) ∧
  (∀ ec from data, u_status (u_discoverySocketCallback ec from data sent u).1 = u_status u) ∧
  ∀ from data events,
    Forall well_formed events →
    let u1 := (u_discoverySocketCallback true from data sent u).1 in
    ∃ u2 sent2, udp_run events (u1, sent) = Ok (u2, sent2) ∧
      m_devices (m_broadcast u2) = m_devices (m_broadcast u) ∧
      ∀ ec from' data', udp_step (DiscoveryReceived ec from' data') (u2, sent2) = Ok (u2, sent2).
Proof.
  assert (∀ data sent b, b_receiving (sendBroadcast data sent b).1 = b_receiving b ∧
    m_devices (sendBroadcast data sent b).1 = m_devices b) as Hsend.
  { intros data sent' b. unfold sendBroadcast. by destruct (send_each _ _ _) as [? []]. }
  split_and!.
  - intros data. unfold u_sendBroadcast. by destruct (sendBroadcast _ _ _).
  - intros ec from data. unfold u_discoverySocketCallback. by destruct (discoverySocketCallback _ _ _ _ _).
  - intros from data events Hw u1.
    assert (b_receiving (m_broadcast u1) = false ∧ m_devices (m_broadcast u1) = m_devices (m_broadcast u)) as Hu1 by done.
    clearbody u1. revert u1 sent Hu1. induction Hw as [|e events He Hw IH]; intros u1 sent1 [Hr Hd].
    { exists u1, sent1. split_and!; [done..|]. intros. cbn. by rewrite Hr. }
    assert (∃ u2 sent2, udp_step e (u1, sent1) = Ok (u2, sent2) ∧ b_receiving (m_broadcast u2) = false ∧
      m_devices (m_broadcast u2) = m_devices (m_broadcast u)) as (u2 & sent2 & Hstep & Hu2).
    { destruct e as [ec from' data'|ec from' data'|data'|data1 data2 i]; cbn [udp_step].
      - rewrite Hr. by eexists _, _.
      - destruct (u_receiving u1); [|by eexists _, _]. eexists _, _. split; [done|].
        unfold dataSocketCallback, dataAsyncReceive. destruct ec; [done|]. by destruct (receive_throws _ _).
      - specialize (Hsend data' sent1 (m_broadcast u1)). unfold u_sendBroadcast. destruct (sendBroadcast _ _ _).
        eexists _, _. split; [done|]. simpl in *. destruct Hsend as [-> ->]. done.
      - unfold u_sendUserData. destruct (getEndpoint_total i (m_broadcast u1) He) as (ep & b' & -> & Hb'). ostep.
        case_match; ostep; eexists _, _; (split; [done|]); by destruct Hb' as [->| ->]. }
    unfold udp_run. cbn [for_each]. rewrite Hstep. ostep. by apply IH.
Qed.

(** A UDP transport whose socket options cannot be set is constructed as failed and
    has no thread; destroying it terminates the process, as joining that thread throws.
    Otherwise construction ends with both sockets receiving, unless a receive throws, and
    the transport can be destroyed.  A port that is taken terminates the process. *)
Theorem udp_construction (ifap : option (list ifaddrs)) :
  (bind_throws DATA_PORT || bind_throws DISCOVERY_PORT = true → UDPTransport_init ifap = Terminated) ∧
  (bind_throws DATA_PORT || bind_throws DISCOVERY_PORT = false →
   ∃ u, UDPTransport_init ifap = Ok u ∧ udp_wf u ∧
     (set_option_throws DATA_PORT = true → u_status u = FAILED ∧ UDPTransport_destroy u = Terminated) ∧
     (set_option_throws DATA_PORT = false →
        UDPTransport_destroy u = Ok tt ∧
        (receive_throws [] DATA_PORT = false → u_status u = GOOD ∧ u_receiving u = true))).
Proof.
  assert (∀ b, m_devices b = [] → devices_wf (m_devices b)) as Hempty
    by (intros b ->; split_and!; [simpl; lia|constructor..]).
  assert (∀ b, m_devices (discoverBroadcastAddresses ifap b) = m_devices b) as Hdisc
    by (intros b; unfold discoverBroadcastAddresses; destruct ifap as [l|]; [by destruct (discover_loop _ _ _ _)|done]).
  unfold UDPTransport_init, UDPBroadcast_init. split.
  { destruct (bind_throws DATA_PORT); [done|]. simpl. by intros ->. }
  intros [-> ->]%orb_false_iff. cbv iota.
  match goal with |- context [if set_option_throws DISCOVERY_PORT then Ok ?x else Ok ?y] =>
    assert (∃ b, (if set_option_throws DISCOVERY_PORT then Ok x else Ok y) = Ok b ∧ m_devices b = [])
      as (b & -> & Hb) end.
  { case_match; eexists; (split; [done|]).
    - simpl. apply Hdisc.
    - destruct (discoveryAsyncReceive_fields [] (discoverBroadcastAddresses ifap (mkBroadcast GOOD [] [] [] false false)))
        as (_ & _ & _ & ->). apply Hdisc. }
  ostep. destruct (set_option_throws DATA_PORT); eexists; (split; [done|]).
  - split; [by apply Hempty|]. done.
  - unfold dataAsyncReceive. split_and!; [case_match; by apply Hempty|done|].
    intros _. split; [by case_match|]. by intros ->.
Qed.

(** The gateway announces itself once on each of the first ten usable interfaces, with
    the same bytes, and ignores exactly the announcements that come from the addresses of
    these interfaces. *)
Theorem announced_on_interfaces (ifap : list ifaddrs) (data : bytes) :
  let b := discoverBroadcastAddresses (Some ifap) (mkBroadcast GOOD [] [] [] false false) in
  let usable := take MAX_NETWORK_IFACE_COUNT (filter announced_on ifap) in
  m_interfaceEndpoints b = (fun i => mkEp (sockAddrToUint32 (ifa_addr i)) DISCOVERY_PORT) <$> usable ∧
  ((∀ sent d, send_to_throws sent d = false) →
   sendBroadcast data [] b =
     (b, (fun i => mkDatagram DISCOVERY_PORT (mkEp (sockAddrToUint32 (ifa_dstaddr i)) DISCOVERY_PORT) data) <$> usable)).
Proof.
  intros b usable. unfold b, discoverBroadcastAddresses.
  pose proof (discover_loop_spec ifap [] [] eq_refl ltac:(simpl; lia)) as Hloop. cbn in Hloop.
  cbn [m_interfaceEndpoints m_broadcastEndpoints]. rewrite Hloop. cbn [m_interfaceEndpoints set_endpoints].
  fold usable. split; [done|]. intros Hok. unfold sendBroadcast. cbn [m_broadcastEndpoints set_endpoints].
  assert (∀ l sent, send_each data ((fun i => mkEp (sockAddrToUint32 (ifa_dstaddr i)) DISCOVERY_PORT) <$> l) sent =
    (sent ++ ((fun i => mkDatagram DISCOVERY_PORT (mkEp (sockAddrToUint32 (ifa_dstaddr i)) DISCOVERY_PORT) data) <$> l), true))
    as Hsend; [|by rewrite Hsend].
  induction l as [|i l IH]; intros sent; csimpl; [by rewrite app_nil_r|]. by rewrite Hok, IH, <-app_assoc.
Qed.

(** What the gateway assumes of a transport is what the UDP transport does: a broadcast
    never fails, sending user data fails exactly when the socket throws and is never
    pending, in both cases the history determines what is on the wire, and the largest
    message fits a receive buffer. *)
Theorem udp_implements_layer (u : UDPTransport) (history : list NetEvent) (header payload data : bytes) (device : Z) :
  0 ≤ device →
  let L := udp_layer u in
  let '(pending, failed) := sendUserData_outcome history UDP header payload device in
  (∃ u', u_sendUserData header payload device (sent_for u history) u =
           Ok (u', sent_for u (history ++ [UserData UDP header payload device]), pending) ∧
         u_status u' = if failed then set_failed (u_status u) else u_status u) ∧
  (let '(u', sent') := u_sendBroadcast data (sent_for u history) u in
   sent' = sent_for u (history ++ [Broadcast UDP data]) ∧
   u_status u' = if sendBroadcast_fails history UDP data then set_failed (u_status u) else u_status u) ∧
  maxMessageSize UDP = MAX_DATAGRAM_SIZE.
Proof.
  intros Hd L. cbn [sendUserData_outcome L udp_layer]. split_and!; [| |done].
  - unfold sent_for at 2. rewrite foldl_snoc. fold (sent_for u history). cbv zeta.
    unfold u_sendUserData, user_datagram, device_endpoint.
    destruct (Z.leb_spec (discoveredEndpoints (m_broadcast u)) device) as [Hle|Hlt].
    + unfold getEndpoint. rewrite (proj2 (Z.leb_le _ _)) by done. ostep.
      unfold discoveredEndpoints in Hle. rewrite (lookup_ge_None_2 _ (Z.to_nat device)) by lia.
      cbn [default]. case_match; eexists; by split.
    + unfold discoveredEndpoints in Hlt.
      destruct (lookup_lt_is_Some_2 (m_devices (m_broadcast u)) (Z.to_nat device)) as [ep Hep]; [lia|].
      pose proof (getEndpoint_spec _ _ _ Hep) as He. rewrite Z2Nat.id in He by done. rewrite Hep, He. ostep.
      cbn [default]. unfold id. case_match; eexists; (split; [done|]); by destruct u.
  - unfold sent_for at 2. unfold u_sendBroadcast, sendBroadcast.
    rewrite foldl_snoc. fold (sent_for u history).
    by destruct (send_each data (m_broadcastEndpoints (m_broadcast u)) (sent_for u history)).
Qed.
End properties.

(** ** Witnesses *)

(** Sockets on which nothing throws, and sockets whose options cannot be set. *)
Definition quiet_sockets : Sockets := {|
  bind_throws := fun _ => false; set_option_throws := fun _ => false;
  receive_throws := fun _ _ => false; send_to_throws := fun _ _ => false
|}.

Definition optionless_sockets : Sockets := {|
  bind_throws := fun _ => false; set_option_throws := fun p => bool_decide (p = DATA_PORT);
  receive_throws := fun _ _ => false; send_to_throws := fun _ _ => false
|}.

Definition gateway_at (n : nat) : ip_endpoint := mkEp (0xC0A80000 + Z.of_nat n) DISCOVERY_PORT.

(** A transport that knows the gateways 1 to [n]; it is number 100 itself. *)
Definition example_udp (n : nat) : UDPTransport :=
  mkUdp GOOD true (mkBroadcast GOOD [gateway_at 100] [mkEp 0xC0A800FF DISCOVERY_PORT] (gateway_at <$> seq 1 n) true true)
    true true.

Lemma example_udp_wf n : (n ≤ 10)%nat → udp_wf (example_udp n).
Proof.
  intros Hn. split_and!; simpl.
  - rewrite length_fmap, length_seq. unfold MAX_DEVICE_COUNT. lia.
  - apply NoDup_fmap_2_strong; [|apply NoDup_fmap_2_strong; [|apply NoDup_seq]].
    + intros x y (i & -> & _)%list_elem_of_fmap (j & -> & _)%list_elem_of_fmap. simpl. intros Heq. f_equal. lia.
    + unfold gateway_at. intros x y _ _ [=]. lia.
  - apply Forall_forall. by intros x (i & -> & _)%list_elem_of_fmap.
Qed.

Lemma udp_device_round_trip_witness :
  udp_wf (example_udp 2) ∧
  (∃ device : nat, (device < MAX_DEVICE_COUNT)%nat ∧
     (@u_discoverySocketCallback ref_iox quiet_sockets false (gateway_at 7) [Byte.x01] [] (example_udp 2)).2 =
       [([Byte.x01], mkDeviceIndex UDP (Z.of_nat device))]).
Proof.
  assert (udp_wf (example_udp 2)) as Hu by (apply example_udp_wf; lia).
  split; [exact Hu|].
  pose proof (@udp_device_round_trip ref_iox ref_iox_spec quiet_sockets (example_udp 2) [] (gateway_at 7) [Byte.x01]
    Hu eq_refl eq_refl eq_refl) as H.
  destruct (u_discoverySocketCallback _ _ _ _ _) as [u1 calls]. destruct H as [_ H].
  destruct H as (device & Hd & Hc & _).
  - match goal with |- ?G => refine (@bool_decide_unpack G _ _) end. vm_compute. exact I.
  - right. unfold MAX_DEVICE_COUNT. simpl. lia.
  - exists device. split; [exact Hd|exact Hc].
Defined.

Lemma eleventh_device_lost_witness :
  udp_wf (example_udp 10) ∧
  (@u_discoverySocketCallback ref_iox quiet_sockets false (gateway_at 11) [Byte.x01] [] (example_udp 10)).2 =
    [([Byte.x01], mkDeviceIndex UDP 10)].
Proof.
  assert (udp_wf (example_udp 10)) as Hu by (apply example_udp_wf; lia).
  split; [exact Hu|].
  pose proof (@eleventh_device_lost ref_iox ref_iox_spec quiet_sockets (example_udp 10) [] (gateway_at 11) [Byte.x01]
    [] [] Hu eq_refl) as H.
  destruct (u_discoverySocketCallback _ _ _ _ _) as [u1 calls].
  apply H; [| |reflexivity]; (match goal with |- ?G => refine (@bool_decide_unpack G _ _) end); vm_compute; exact I.
Defined.

Lemma discovery_failure_unnoticed_witness :
  let events := [DiscoveryReceived false (gateway_at 3) []; SendUserData [] [] 0] in
  let u1 := (@u_discoverySocketCallback ref_iox quiet_sockets true (gateway_at 3) [] [] (example_udp 2)).1 in
  Forall well_formed events ∧
  ∃ u2 sent2, @udp_run ref_iox quiet_sockets events (u1, []) = Ok (u2, sent2) ∧
    m_devices (m_broadcast u2) = m_devices (m_broadcast (example_udp 2)).
Proof.
  intros events u1. assert (Forall well_formed events) as Hw.
  { constructor; [exact I|]. constructor; [cbn; lia|constructor]. }
  split; [exact Hw|].
  destruct (proj2 (proj2 (@discovery_failure_unnoticed ref_iox quiet_sockets (example_udp 2) []))
    (gateway_at 3) [] events Hw) as (u2 & sent2 & Hr & Hd & _).
  exists u2, sent2. split; [exact Hr|exact Hd].
Defined.

Lemma udp_construction_witness :
  ∃ u, @UDPTransport_init ref_iox optionless_sockets None = Ok u ∧ u_status u = FAILED ∧
       UDPTransport_destroy u = Terminated.
Proof.
  destruct (proj2 (@udp_construction ref_iox optionless_sockets None) eq_refl) as (u & He & _ & Hf & _).
  exists u. split; [exact He|]. apply Hf. reflexivity.
Defined.

Lemma announced_on_interfaces_witness :
  let ifap := [mkIfaddrs (Some (AF_INET (Byte.x7f, Byte.x00, Byte.x00, Byte.x01))) None
                         (Some (AF_INET (Byte.x7f, Byte.x00, Byte.x00, Byte.x01)));
               mkIfaddrs (Some (AF_INET (Byte.xc0, Byte.xa8, Byte.x00, Byte.x02))) None
                         (Some (AF_INET (Byte.xc0, Byte.xa8, Byte.x00, Byte.xff)))] in
  let b := @discoverBroadcastAddresses ref_iox (Some ifap) (mkBroadcast GOOD [] [] [] false false) in
  @sendBroadcast quiet_sockets [Byte.x05] [] b =
    (b, [mkDatagram DISCOVERY_PORT (mkEp 0xC0A800FF DISCOVERY_PORT) [Byte.x05]]).
Proof.
  intros ifap b.
  exact (proj2 (@announced_on_interfaces ref_iox ref_iox_spec quiet_sockets ifap [Byte.x05]) (fun _ _ => eq_refl)).
Defined.

Lemma udp_implements_layer_witness :
  0 ≤ 1 ∧ (∃ u', @u_sendUserData quiet_sockets [Byte.x01] [Byte.x02] 1 (@sent_for quiet_sockets (example_udp 2) []) (example_udp 2)
    = Ok (u', [mkDatagram DATA_PORT (mkEp 0xC0A80002 DATA_PORT) [Byte.x01; Byte.x02]], false) ∧ u_status u' = GOOD).
Proof.
  split; [lia|].
  exact (proj1 (@udp_implements_layer quiet_sockets (example_udp 2) [] [Byte.x01] [Byte.x02] [] 1 ltac:(lia))).
Defined.
