(* ===== verification/TcpSession.v ===== *)
(** * TcpSession: messages on a TCP connection

    include/p3com/transport/tcp/tcp_transport_session.hpp and
    source/tcp/tcp_transport_session.cpp.

    A message is written as its size, a [size_t], followed by its bytes; the
    receiver reads a size and then as many bytes, for ever.  [asio::async_read]
    completes when all bytes are there, however they arrive, so the reader is a
    machine over the bytes of the connection; the size is bounded by the buffer
    because [asio::buffer] of an array is never larger than the array.

    Class [TcpSockets] says which calls of asio throw.  Closing a socket is
    taken to succeed. *)

From coqutil Require Import Word.LittleEndianList Byte.
From stdpp Require Import base list.
From S2P Require Import Prelude.
From S2P Require Import Types.

Open Scope Z_scope.

(** asio's stream sockets and acceptor.  [write_accepts written data] is [None]
    when [asio::write] writes all of [data] after [written], and the number of
    bytes it wrote when it throws. *)
Class TcpSockets := {
  write_accepts : bytes → bytes → option nat;
  listen_throws : bool;
  no_delay_throws : Z → bool
}.

Definition MAX_PACKET_SIZE : Z := 65535.
Definition SIZEOF_SIZE_T : nat := 8.

(** ** Sending *)

Section sending.
Context `{TcpSockets}.
Implicit Types (out : bytes).

(** [asio::write] on a connection on which [out] has been written. *)
Definition asio_write (data : bytes) out : bytes * bool :=
  match write_accepts out data with
  | None => (out ++ data, true)
  | Some n => (out ++ take n data, false)
  end.

(** The bytes [sendData] hands to its two calls of [asio::write]. *)
Definition size_bytes (data : bytes) : bytes := le_split SIZEOF_SIZE_T (Z.of_nat (length data)).

Definition sendData (data1 data2 : bytes) out : bytes * bool :=
  let '(out, done) := asio_write (size_bytes (data1 ++ data2)) out in
  if done then ((asio_write (data1 ++ data2) out).1, false) else (out, false).
End sending.

Definition frame (data : bytes) : bytes := size_bytes data ++ data.

(** ** Receiving *)

(** The read operation that is pending, with what it has read. *)
Inductive Reader :=
  | ReadOuter (got : bytes)
  | ReadInner (want : nat) (got : bytes).

Definition receiveTcpData : Reader := ReadOuter [].

(** [readOuter]: a read of no bytes completes at once. *)
Definition readOuter (m_readBufferSize : Z) : Reader * list bytes :=
  let want := Z.to_nat (Z.min m_readBufferSize MAX_PACKET_SIZE) in
  if (want =? 0)%nat then (receiveTcpData, [[]]) else (ReadInner want [], []).

(** One byte arrives; the list holds the calls of [m_dataCallback]. *)
Definition on_byte (r : Reader) (b : Init.Byte.byte) : Reader * list bytes :=
  match r with
  | ReadOuter got =>
      let got := got ++ [b] in
      if (length got =? SIZEOF_SIZE_T)%nat then readOuter (le_combine got) else (ReadOuter got, [])
  | ReadInner want got =>
      let got := got ++ [b] in
      if (length got =? want)%nat then (receiveTcpData, [got]) else (ReadInner want got, [])
  end.

Fixpoint on_bytes (r : Reader) (data : bytes) : Reader * list bytes :=
  match data with
  | [] => (r, [])
  | b :: data =>
      let '(r, calls) := on_byte r b in
      let '(r, calls') := on_bytes r data in
      (r, calls ++ calls')
  end.

(** The chunks in which the bytes arrive. *)
Fixpoint on_chunks (r : Reader) (chunks : list bytes) : Reader * list bytes :=
  match chunks with
  | [] => (r, [])
  | chunk :: chunks =>
      let '(r, calls) := on_bytes r chunk in
      let '(r, calls') := on_chunks r chunks in
      (r, calls ++ calls')
  end.

(** ** Lemmas *)

Lemma on_bytes_app r d1 d2 :
  on_bytes r (d1 ++ d2) =
    let '(r1, c1) := on_bytes r d1 in let '(r2, c2) := on_bytes r1 d2 in (r2, c1 ++ c2).
Proof.
  revert r. induction d1 as [|b d1 IH]; intros r; simpl; [by destruct (on_bytes r d2)|].
  destruct (on_byte r b) as [r1 c1]. rewrite IH. destruct (on_bytes r1 d1) as [r2 c2].
  destruct (on_bytes r2 d2) as [r3 c3]. by rewrite app_assoc.
Qed.

Lemma on_chunks_concat r chunks : on_chunks r chunks = on_bytes r (concat chunks).
Proof.
  revert r. induction chunks as [|c chunks IH]; intros r; simpl; [done|].
  rewrite on_bytes_app. destruct (on_bytes r c) as [r1 c1]. by rewrite IH.
Qed.

Lemma read_outer_bytes got data :
  (length got < SIZEOF_SIZE_T)%nat → (length got + length data = SIZEOF_SIZE_T)%nat →
  on_bytes (ReadOuter got) data = readOuter (le_combine (got ++ data)).
Proof.
  revert got. induction data as [|b data IH]; intros got Hl Hs; simpl in *; [lia|].
  rewrite length_app. simpl. destruct (Nat.eqb_spec (length got + 1) SIZEOF_SIZE_T) as [He|He].
  - destruct data; [|simpl in *; lia]. simpl. destruct (readOuter _). by rewrite app_nil_r.
  - rewrite IH by (rewrite length_app; simpl; lia). rewrite <-app_assoc. simpl. by destruct (readOuter _).
Qed.

Lemma read_inner_bytes want got data :
  (length got < want)%nat → (length got + length data = want)%nat →
  on_bytes (ReadInner want got) data = (receiveTcpData, [got ++ data]).
Proof.
  revert got. induction data as [|b data IH]; intros got Hl Hs; simpl in *; [lia|].
  rewrite length_app. simpl. destruct (Nat.eqb_spec (length got + 1) want) as [He|He].
  - destruct data; [|simpl in *; lia]. done.
  - rewrite IH by (rewrite length_app; simpl; lia). by rewrite <-app_assoc.
Qed.

Lemma length_size_bytes data : length (size_bytes data) = SIZEOF_SIZE_T.
Proof. apply length_le_split. Qed.

(** The size is read back, and the buffer bounds it. *)
Lemma on_size data :
  Z.of_nat (length data) < 2 ^ 64 →
  on_bytes receiveTcpData (size_bytes data) = readOuter (Z.of_nat (length data)).
Proof.
  intros Hl. change receiveTcpData with (ReadOuter []).
  rewrite read_outer_bytes by (rewrite ?length_size_bytes; unfold SIZEOF_SIZE_T; simpl; lia).
  simpl. unfold size_bytes. by rewrite le_combine_split_u64 by (unfold is_u64; lia).
Qed.

Lemma on_frame data :
  Z.of_nat (length data) ≤ MAX_PACKET_SIZE →
  on_bytes receiveTcpData (frame data) = (receiveTcpData, [data]).
Proof.
  intros Hl. unfold frame. rewrite on_bytes_app, on_size by (unfold MAX_PACKET_SIZE in *; lia).
  unfold readOuter. rewrite Z.min_l, Nat2Z.id by done.
  destruct (Nat.eqb_spec (length data) 0) as [He|He]; cbv iota.
  - apply nil_length_inv in He as ->. done.
  - rewrite read_inner_bytes; simpl; [done|lia|done].
Qed.

Lemma on_frames ms :
  Forall (fun m => Z.of_nat (length m) ≤ MAX_PACKET_SIZE) ms →
  on_bytes receiveTcpData (concat (frame <$> ms)) = (receiveTcpData, ms).
Proof.
  induction 1 as [|m ms Hm Hms IH]; [done|]. rewrite fmap_cons. cbn [concat].
  by rewrite on_bytes_app, on_frame, IH.
Qed.

(** ** Properties *)

(** C18: Messages of at most 65535 bytes written one after the other are received as they
    were sent, in order and each once, in whatever chunks the connection delivers the
    bytes; when only some of the bytes have arrived, a prefix of them has been received. *)
Theorem stream_round_trip (ms : list bytes) (chunks : list bytes) (missing : bytes) :
  Forall (fun m => Z.of_nat (length m) ≤ MAX_PACKET_SIZE) ms →
  concat chunks ++ missing = concat (frame <$> ms) →
  (on_chunks receiveTcpData chunks).2 `prefix_of` ms ∧
  (missing = [] → on_chunks receiveTcpData chunks = (receiveTcpData, ms)).
Proof.
  intros Hms Heq. rewrite on_chunks_concat. pose proof (on_frames ms Hms) as Hall. rewrite <-Heq in Hall.
  split; [|by intros ->; rewrite app_nil_r in Hall].
  rewrite on_bytes_app in Hall. destruct (on_bytes receiveTcpData (concat chunks)) as [r1 c1].
  destruct (on_bytes r1 missing) as [r2 c2]. injection Hall as _ <-. by exists c2.
Qed.

(** A connection loses its framing for good with a message of more than 65535 bytes: the
    receiver reports its first 65535 bytes as a message and takes the bytes that follow
    for the size of the next one. *)
Theorem oversize_desynchronises (m rest : bytes) :
  MAX_PACKET_SIZE < Z.of_nat (length m) < 2 ^ 64 →
  let k := Z.to_nat MAX_PACKET_SIZE in
  on_bytes receiveTcpData (frame m ++ rest) =
    let '(r, calls) := on_bytes receiveTcpData (drop k m ++ rest) in (r, take k m :: calls).
Proof.
  intros Hl k. unfold frame. rewrite <-app_assoc, on_bytes_app, on_size by lia.
  unfold readOuter. rewrite Z.min_r by lia. fold k.
  assert (k ≠ 0%nat) as Hk by (unfold k, MAX_PACKET_SIZE; lia).
  assert (k ≤ length m)%nat as Hkm by (unfold k; lia). clearbody k.
  rewrite (proj2 (Nat.eqb_neq _ _)) by done. cbv iota beta.
  rewrite <-(take_drop k m) at 1. rewrite <-app_assoc, on_bytes_app.
  rewrite read_inner_bytes by (rewrite ?length_take; simpl; lia). simpl.
  by destruct (on_bytes receiveTcpData (drop k m ++ rest)).
Qed.

(** The writes of two threads on one connection: each makes its own in order. *)
Inductive interleaving {A} : list A → list A → list A → Prop :=
  | interleaving_nil : interleaving [] [] []
  | interleaving_left x l1 l2 l : interleaving l1 l2 l → interleaving (x :: l1) l2 (x :: l)
  | interleaving_right x l1 l2 l : interleaving l1 l2 l → interleaving l1 (x :: l2) (x :: l).

(** The calls of [asio::write] in [sendData], when none throws. *)
Definition send_writes (m : bytes) : list bytes := [size_bytes m; m].

(** C40: [sendData] takes no lock, so two threads that send to one device can interleave
    their writes; then the receiver reports a message that begins with the size of the
    second message instead of the first one's bytes. *)
Theorem concurrent_sends_corrupt (m1 m2 : bytes) :
  Z.of_nat SIZEOF_SIZE_T ≤ Z.of_nat (length m1) ≤ MAX_PACKET_SIZE →
  ∃ writes, interleaving (send_writes m1) (send_writes m2) writes ∧
    ∃ r calls, on_bytes receiveTcpData (concat writes) = (r, calls) ∧
      head calls = Some (size_bytes m2 ++ take (length m1 - SIZEOF_SIZE_T) m1).
Proof.
  intros Hl. exists [size_bytes m1; size_bytes m2; m1; m2]. split; [by repeat constructor|].
  cbn [concat]. rewrite on_bytes_app, on_size by (unfold MAX_PACKET_SIZE in *; lia).
  unfold readOuter. rewrite Z.min_l, Nat2Z.id by lia.
  rewrite (proj2 (Nat.eqb_neq _ _)) by (unfold SIZEOF_SIZE_T in *; lia). cbv iota beta.
  replace (size_bytes m2 ++ m1 ++ m2 ++ [])
    with ((size_bytes m2 ++ take (length m1 - SIZEOF_SIZE_T) m1) ++ drop (length m1 - SIZEOF_SIZE_T) m1 ++ m2 ++ [])
    by (rewrite <-app_assoc, (app_assoc (take _ _)), take_drop; done).
  rewrite on_bytes_app, read_inner_bytes.
  - destruct (on_bytes receiveTcpData _) as [r calls]. eexists r, _. by split.
  - unfold SIZEOF_SIZE_T in *. simpl. lia.
  - rewrite length_app, length_size_bytes, length_take. unfold SIZEOF_SIZE_T in *. simpl. lia.
Qed.

(** ** Witnesses *)

Lemma stream_round_trip_witness :
  let ms := [[Init.Byte.x01; Init.Byte.x02]; []; [Init.Byte.x03]] in
  let chunks := [take 9 (concat (frame <$> ms)); drop 9 (concat (frame <$> ms))] in
  on_chunks receiveTcpData chunks = (receiveTcpData, ms).
Proof.
  intros ms chunks.
  apply (proj2 (stream_round_trip ms chunks [] ltac:(repeat constructor; vm_compute; intros [=]) eq_refl)).
  reflexivity.
Defined.

Lemma oversize_desynchronises_witness :
  let m := replicate (Z.to_nat 65537) Init.Byte.x00 in
  (on_bytes receiveTcpData (frame m ++ [])).2 = take (Z.to_nat 65535) m :: [].
Proof.
  intros m.
  assert (MAX_PACKET_SIZE < Z.of_nat (length m) < 2 ^ 64) as Hm.
  { unfold m. rewrite length_replicate. unfold MAX_PACKET_SIZE. lia. }
  pose proof (oversize_desynchronises m [] Hm) as H. cbv zeta in H. rewrite H.
  assert (drop (Z.to_nat MAX_PACKET_SIZE) m ++ [] = [Init.Byte.x00; Init.Byte.x00]) as ->.
  { unfold m. rewrite drop_replicate, app_nil_r.
    replace (Z.to_nat 65537 - Z.to_nat MAX_PACKET_SIZE)%nat with 2%nat by (unfold MAX_PACKET_SIZE; lia). reflexivity. }
  reflexivity.
Defined.

Lemma concurrent_sends_corrupt_witness :
  let m1 := replicate 10 Init.Byte.xaa in
  let m2 := replicate 10 Init.Byte.xbb in
  ∃ writes, interleaving (send_writes m1) (send_writes m2) writes ∧
    ∃ r calls, on_bytes receiveTcpData (concat writes) = (r, calls) ∧ head calls ≠ Some m1.
Proof.
  intros m1 m2.
  destruct (concurrent_sends_corrupt m1 m2) as (writes & Hi & r & calls & He & Hh); [vm_compute; split; intros [=]|].
  exists writes. split; [exact Hi|]. exists r, calls. split; [exact He|]. rewrite Hh. vm_compute. intros [=].
Defined.
