(* ===== verification/Tcp.v ===== *)
(** * Tcp: the TCP transport

    include/p3com/transport/tcp/*.hpp, source/tcp/tcp_transport.cpp,
    tcp_client_transport_session.cpp and tcp_server_transport_session.cpp.

    Gateways find each other by the UDP broadcasts of file Udp.  To a gateway it
    hears of for the first time the transport opens a connection, as a client,
    and it accepts the connections of others, as a server; there is one session
    per peer.  The first discovery message of a peer is kept until the session
    is open, since the device index it is reported with is the position of the
    session in [m_transportSessions].

    A completed asynchronous operation is an event; the result of a step holds
    the calls of the gateway's callbacks.  [s_reads] counts the chains of reads
    running on a session, [s_out] is what was written to its connection. *)

From stdpp Require Import base list.
From S2P Require Import Prelude.
From S2P Require Import Iox.
From S2P Require Import Types.
From S2P Require Import Serialization.
From S2P Require Import TransportInfo.
From S2P Require Import Udp.
From S2P Require Import TcpSession.

Open Scope Z_scope.

(** ** Sessions *)

Inductive SessionKind :=
  | TCPClientTransportSession (m_retriesLeft : Z)
  | TCPServerTransportSession.

(** The asynchronous operation that establishes the connection. *)
Inductive Connection :=
  | NotStarted
  | Connecting          (* async_connect *)
  | RetryPending        (* m_retryTimer.async_wait *)
  | Connected.

(** [s_id] identifies the object, [s_remote] is the address of its peer. *)
Record TCPTransportSession := mkSession {
  s_id : nat;
  s_remote : Z;
  s_kind : SessionKind;
  s_connection : Connection;
  s_reads : nat;
  s_out : bytes
}.

Abbreviation Session := TCPTransportSession.

Definition max_reconnection_attempts : Z := 3.

Definition set_connection (c : Connection) (s : Session) : Session :=
  mkSession (s_id s) (s_remote s) (s_kind s) c (s_reads s) (s_out s).
Definition set_kind (k : SessionKind) (s : Session) : Session :=
  mkSession (s_id s) (s_remote s) k (s_connection s) (s_reads s) (s_out s).
Definition add_read (s : Session) : Session :=
  mkSession (s_id s) (s_remote s) (s_kind s) (s_connection s) (S (s_reads s)) (s_out s).
Definition set_out (out : bytes) (s : Session) : Session :=
  mkSession (s_id s) (s_remote s) (s_kind s) (s_connection s) (s_reads s) out.

Inductive TcpCall :=
  | DiscoveryCall (data : bytes) (deviceIndex : DeviceIndex_t)
  | UserDataCall (data : bytes) (deviceIndex : DeviceIndex_t).

(** [t_thread]: [m_thread] is joinable.  [t_listening]: an accept is pending. *)
Record TCPTransport := mkTcp {
  t_status : TransportStatus;
  t_thread : bool;
  t_broadcast : UDPBroadcast;
  m_transportSessions : list Session;
  m_infoToReport : list (Z * bytes);
  t_listening : bool;
  t_userDataCallback : bool;
  t_discoveryCallback : bool;
  t_next : nat
}.

Definition t_setFailed (t : TCPTransport) : TCPTransport :=
  mkTcp (set_failed (t_status t)) (t_thread t) (t_broadcast t) (m_transportSessions t) (m_infoToReport t)
    (t_listening t) (t_userDataCallback t) (t_discoveryCallback t) (t_next t).
Definition t_set_broadcast (b : UDPBroadcast) (t : TCPTransport) : TCPTransport :=
  mkTcp (t_status t) (t_thread t) b (m_transportSessions t) (m_infoToReport t)
    (t_listening t) (t_userDataCallback t) (t_discoveryCallback t) (t_next t).
Definition set_sessions (l : list Session) (t : TCPTransport) : TCPTransport :=
  mkTcp (t_status t) (t_thread t) (t_broadcast t) l (m_infoToReport t)
    (t_listening t) (t_userDataCallback t) (t_discoveryCallback t) (t_next t).
Definition set_info (l : list (Z * bytes)) (t : TCPTransport) : TCPTransport :=
  mkTcp (t_status t) (t_thread t) (t_broadcast t) (m_transportSessions t) l
    (t_listening t) (t_userDataCallback t) (t_discoveryCallback t) (t_next t).
Definition set_listening (l : bool) (t : TCPTransport) : TCPTransport :=
  mkTcp (t_status t) (t_thread t) (t_broadcast t) (m_transportSessions t) (m_infoToReport t)
    l (t_userDataCallback t) (t_discoveryCallback t) (t_next t).
(** The next object allocated has another address. *)
Definition allocated (t : TCPTransport) : TCPTransport :=
  mkTcp (t_status t) (t_thread t) (t_broadcast t) (m_transportSessions t) (m_infoToReport t)
    (t_listening t) (t_userDataCallback t) (t_discoveryCallback t) (S (t_next t)).

Section operations.
Context `{Iox} `{Sockets} `{TcpSockets}.
Implicit Types (t : TCPTransport) (s : Session).

(** ** tcp_client_transport_session.cpp, tcp_server_transport_session.cpp: [start] *)

Definition start s : Session :=
  match s_kind s with
  | TCPClientTransportSession _ => set_connection Connecting s
  | TCPServerTransportSession => if no_delay_throws (s_remote s) then s else add_read s
  end.

(** [TCPServerTransportSession::remoteEndpoint]: the member [m_remoteEndpoint], by
    its address, after a call for which the socket answers [answer], [None] when it
    is not connected any more. *)
Definition remoteEndpoint (m_remoteEndpoint : Z) (answer : option Z) : Z :=
  if m_remoteEndpoint =? address any_endpoint then default (address any_endpoint) answer
  else m_remoteEndpoint.

(** The first address the socket answers is kept, whatever it answers later: a
    session has one peer, its [s_remote], also after the connection has gone. *)
Lemma remoteEndpoint_kept (a : Z) (answers : list (option Z)) :
  a ≠ address any_endpoint →
  foldl remoteEndpoint (remoteEndpoint (address any_endpoint) (Some a)) answers = a.
Proof.
  intros Ha. change (remoteEndpoint (address any_endpoint) (Some a)) with a.
  induction answers as [|answer answers IH]; [done|]. cbn [foldl].
  assert (remoteEndpoint a answer = a) as -> by (unfold remoteEndpoint; by rewrite (proj2 (Z.eqb_neq _ _) Ha)).
  exact IH.
Qed.

(** ** tcp_transport.cpp *)

(** The constructor.  The broadcast object is constructed before the acceptor
    is opened; its callback is registered last. *)
Definition TCPTransport_init (ifap : option (list ifaddrs)) : Outcome TCPTransport :=
  b ← UDPBroadcast_init ifap;
  let t := mkTcp GOOD false b [] [] false false false 0 in
  if listen_throws then Ok (t_setFailed t)
  else Ok (mkTcp GOOD true (registerDiscoveryCallback b) [] [] true false false 1).

(** The destructor: joining a thread that is not joinable throws. *)
Definition TCPTransport_destroy t : Outcome unit := if t_thread t then Ok tt else Terminated.

Definition findSession (a : Z) t : nat :=
  find_if (fun s => bool_decide (s_remote s = a)) (m_transportSessions t).

(** [m_transportSessions.back()->start()] *)
Definition start_back t : TCPTransport :=
  set_sessions (alter start (length (m_transportSessions t) - 1)%nat (m_transportSessions t)) t.

Definition remoteDiscoveryHandler (data : bytes) (device : nat) t : list TcpCall :=
  if t_discoveryCallback t then [DiscoveryCall data (mkDeviceIndex TCP (wrap32 (Z.of_nat device)))] else [].

Definition addSession_client (a : Z) t : TCPTransport :=
  let s := mkSession (t_next t) a (TCPClientTransportSession max_reconnection_attempts) NotStarted 0 [] in
  let t := set_sessions (push_back MAX_DEVICE_COUNT (m_transportSessions t) s).1 (allocated t) in
  start_back t.

(** The callable of [handleSessionOpen] for a session with the peer [a]. *)
Definition handleSessionOpen (a : Z) t : Outcome (TCPTransport * list TcpCall) :=
  let infoToReportIt := find_if (fun i => bool_decide (i.1 = a)) (m_infoToReport t) in
  if negb (infoToReportIt =? length (m_infoToReport t))%nat then
    let deviceIdx := findSession a t in
    vec ← deref (m_infoToReport t !! infoToReportIt);
    Ok (set_info (vector_erase (m_infoToReport t) infoToReportIt) t, remoteDiscoveryHandler vec.2 deviceIdx t)
  else Ok (t, []).

(** [m_serverListeningSession], connected to the peer [a], is moved into the
    list if there is room. *)
Definition addSession_server (a : Z) t : Outcome (TCPTransport * list TcpCall) :=
  let s := mkSession (t_next t) a TCPServerTransportSession Connected 0 [] in
  let t := set_sessions (push_back MAX_DEVICE_COUNT (m_transportSessions t) s).1 (allocated t) in
  let t := start_back t in
  back ← deref (last (m_transportSessions t));
  handleSessionOpen (s_remote back) t.

(** The completion handler of [startAccept]. *)
Definition accepted (ec : bool) (a : Z) t : Outcome (TCPTransport * list TcpCall) :=
  let t := set_listening false t in
  if ec then Ok (t_setFailed t, [])
  else
    '(t, calls) ← (if (findSession a t =? length (m_transportSessions t))%nat then addSession_server a t
                   else Ok (t, []));
    Ok (set_listening true t, calls).

Definition handleSessionClose (id : nat) t : TCPTransport :=
  let session_it := find_if (fun s => bool_decide (s_id s = id)) (m_transportSessions t) in
  if negb (session_it =? length (m_transportSessions t))%nat
  then set_sessions (vector_erase (m_transportSessions t) session_it) t else t.

(** The vector is constructed with the size of the message; copying more than
    its capacity is a write out of bounds. *)
Definition udpDiscoveryCallback (data : bytes) (deviceIndex : DeviceIndex_t) t
    : Outcome (TCPTransport * list TcpCall) :=
  '(endpoint, b) ← getEndpoint (di_device deviceIndex) (t_broadcast t);
  let t := t_set_broadcast b t in
  let iter := findSession (address endpoint) t in
  if (iter =? length (m_transportSessions t))%nat then
    if (maxPubSubInfoSerializationSize <? length data)%nat then UndefinedBehaviour
    else
      let t := set_info (push_back MAX_DEVICE_COUNT (m_infoToReport t) (address endpoint, data)).1 t in
      Ok (addSession_client (address endpoint) t, [])
  else Ok (t, remoteDiscoveryHandler data iter t).

(** A discovery message arrives at [m_broadcast]. *)
Definition t_discoverySocketCallback (ec : bool) (from : ip_endpoint) (data : bytes) t
    : Outcome (TCPTransport * list TcpCall) :=
  let '(b, calls) := discoverySocketCallback ec from data [] (t_broadcast t) in
  let t := t_set_broadcast b t in
  match calls with
  | [] => Ok (t, [])
  | (data, deviceIndex) :: _ => udpDiscoveryCallback data deviceIndex t
  end.

(** The callable of [handleUserDataCallback]. *)
Definition handleUserDataCallback (data : bytes) (a : Z) t : list TcpCall :=
  match getIndex a (t_broadcast t) with
  | Some index => if t_userDataCallback t then [UserDataCall data (mkDeviceIndex TCP index)] else []
  | None => []
  end.

Definition t_sendUserData (data1 data2 : bytes) (deviceIndex : Z) t : Outcome (TCPTransport * bool) :=
  if Z.of_nat (length (m_transportSessions t)) <=? deviceIndex then Ok (t, false)
  else
    s ← deref (m_transportSessions t !! Z.to_nat deviceIndex);
    let '(out, res) := sendData data1 data2 (s_out s) in
    Ok (set_sessions (alter (set_out out) (Z.to_nat deviceIndex) (m_transportSessions t)) t, res).

Definition t_sendBroadcast (data : bytes) sent t : TCPTransport * list Datagram :=
  let '(b, sent) := sendBroadcast data sent (t_broadcast t) in (t_set_broadcast b t, sent).

Definition t_maxMessageSize : Z := MAX_PACKET_SIZE.

Definition t_registerDiscoveryCallback t : TCPTransport :=
  mkTcp (t_status t) (t_thread t) (t_broadcast t) (m_transportSessions t) (m_infoToReport t)
    (t_listening t) (t_userDataCallback t) true (t_next t).

Definition t_registerUserDataCallback t : TCPTransport :=
  mkTcp (t_status t) (t_thread t) (t_broadcast t) (m_transportSessions t) (m_infoToReport t)
    (t_listening t) true (t_discoveryCallback t) (t_next t).

(** ** tcp_client_transport_session.cpp: the completion handlers *)

Definition update_session (f : Session → Session) (id : nat) t : TCPTransport :=
  set_sessions ((fun s => if bool_decide (s_id s = id) then f s else s) <$> m_transportSessions t) t.

Definition connectionFailedHandler s t : TCPTransport :=
  match s_kind s with
  | TCPClientTransportSession m_retriesLeft =>
      if 0 <? m_retriesLeft
      then update_session (fun s => set_connection RetryPending
             (set_kind (TCPClientTransportSession (m_retriesLeft - 1)) s)) (s_id s) t
      else handleSessionClose (s_id s) t
  | TCPServerTransportSession => t
  end.

(** The handler of [async_connect]. *)
Definition connect_completed (ec : bool) s t : Outcome (TCPTransport * list TcpCall) :=
  if ec then Ok (connectionFailedHandler s t, [])
  else
    let t := update_session (set_connection Connected) (s_id s) t in
    '(t, calls) ← handleSessionOpen (s_remote s) t;
    Ok (update_session add_read (s_id s) t, calls).

(** The handler of [m_retryTimer.async_wait]. *)
Definition retry_completed (ec : bool) s t : TCPTransport :=
  if ec then handleSessionClose (s_id s) t else update_session (set_connection Connecting) (s_id s) t.

(** ** The life of a transport *)

Inductive TcpEvent :=
  | DiscoveryReceived (ec : bool) (from : ip_endpoint) (data : bytes)
  | Accepted (ec : bool) (a : Z)
  | ConnectCompleted (ec : bool) (id : nat)
  | RetryCompleted (ec : bool) (id : nat)
  | ReadFailed (id : nat)
  | MessageRead (data : bytes) (id : nat)
  | SendUserData (data1 data2 : bytes) (deviceIndex : Z).

Definition session (id : nat) t : option Session :=
  head (filter (fun s => s_id s = id) (m_transportSessions t)).

(** An operation completes only when it is pending. *)
Definition tcp_step (e : TcpEvent) t : Outcome (TCPTransport * list TcpCall) :=
  let on id (f : Session → Outcome (TCPTransport * list TcpCall)) :=
    match session id t with Some s => f s | None => Ok (t, []) end in
  match e with
  | DiscoveryReceived ec from data =>
      if b_receiving (t_broadcast t) then t_discoverySocketCallback ec from data t else Ok (t, [])
  | Accepted ec a => if t_listening t then accepted ec a t else Ok (t, [])
  | ConnectCompleted ec id => on id (fun s =>
      match s_connection s with Connecting => connect_completed ec s t | _ => Ok (t, []) end)
  | RetryCompleted ec id => on id (fun s =>
      match s_connection s with RetryPending => Ok (retry_completed ec s t, []) | _ => Ok (t, []) end)
  | ReadFailed id => on id (fun s =>
      if (0 <? s_reads s)%nat then Ok (handleSessionClose id t, []) else Ok (t, []))
  | MessageRead data id => on id (fun s =>
      if (0 <? s_reads s)%nat then Ok (t, handleUserDataCallback data (s_remote s) t) else Ok (t, []))
  | SendUserData data1 data2 deviceIndex =>
      '(t, _) ← t_sendUserData data1 data2 deviceIndex t; Ok (t, [])
  end.

Definition tcp_run (events : list TcpEvent) (s : TCPTransport * list TcpCall)
    : Outcome (TCPTransport * list TcpCall) :=
  for_each (fun e '(t, calls) => '(t, calls') ← tcp_step e t; Ok (t, calls ++ calls')) events s.
End operations.

(** ** The invariant *)

(** One session per peer, each an object of its own. *)
Definition sessions_wf (next : nat) (l : list Session) : Prop :=
  (length l ≤ MAX_DEVICE_COUNT)%nat ∧ NoDup (s_id <$> l) ∧ NoDup (s_remote <$> l) ∧
  Forall (fun s => (s_id s < next)%nat) l.

Definition tcp_wf (t : TCPTransport) : Prop :=
  sessions_wf (t_next t) (m_transportSessions t) ∧ devices_wf (m_devices (t_broadcast t)).

(** Discovery messages come from the discovery port and are not larger than a
    discovery message is, the device indices are unsigned. *)
Definition tcp_genuine `{Iox} (e : TcpEvent) : Prop :=
  match e with
  | DiscoveryReceived ec from data =>
      port from = DISCOVERY_PORT ∧ (length data ≤ maxPubSubInfoSerializationSize)%nat
  | SendUserData _ _ deviceIndex => 0 ≤ deviceIndex
  | _ => True
  end.

Section lemmas.
Context `{IoxSpec} `{Sockets} `{TcpSockets}.
Implicit Types (t : TCPTransport) (s : Session) (l : list Session).

(** Changing a session but not its identity or its peer. *)
Definition keeps (f : Session → Session) : Prop := ∀ s, s_id (f s) = s_id s ∧ s_remote (f s) = s_remote s.

Lemma start_keeps : keeps start.
Proof. intros s. unfold start. destruct (s_kind s); [done|]. by destruct (no_delay_throws _). Qed.

Lemma sessions_wf_same next l l' :
  s_id <$> l' = s_id <$> l → s_remote <$> l' = s_remote <$> l → sessions_wf next l → sessions_wf next l'.
Proof.
  intros Hid Hr (Hl & Hnd & Hndr & Hlt). unfold sessions_wf. rewrite Hid, Hr.
  split; [|split; [done|split; [done|]]].
  - apply (f_equal length) in Hid. rewrite !length_fmap in Hid. lia.
  - change (Forall (fun s => (s_id s < next)%nat) l') with (Forall ((fun i => (i < next)%nat) ∘ s_id) l').
    rewrite <-Forall_fmap, Hid. by apply Forall_fmap.
Qed.

Lemma alter_keeps_id f i l : keeps f → s_id <$> alter f i l = s_id <$> l.
Proof.
  intros Hf. revert i. induction l as [|s l IH]; intros [|i]; csimpl; [done..| |by rewrite IH].
  by rewrite (proj1 (Hf s)).
Qed.

Lemma alter_keeps_remote f i l : keeps f → s_remote <$> alter f i l = s_remote <$> l.
Proof.
  intros Hf. revert i. induction l as [|s l IH]; intros [|i]; csimpl; [done..| |by rewrite IH].
  by rewrite (proj2 (Hf s)).
Qed.

Lemma sessions_wf_alter next f i l : keeps f → sessions_wf next l → sessions_wf next (alter f i l).
Proof. intros Hf. apply sessions_wf_same; [by apply alter_keeps_id|by apply alter_keeps_remote]. Qed.

Lemma sessions_wf_update next f id l :
  keeps f → sessions_wf next l →
  sessions_wf next ((fun s => if bool_decide (s_id s = id) then f s else s) <$> l).
Proof.
  intros Hf. apply sessions_wf_same; rewrite <-list_fmap_compose; apply list_fmap_ext;
    intros _ s _; simpl; case_bool_decide; try done; apply Hf.
Qed.

Lemma sessions_wf_delete next i l : sessions_wf next l → sessions_wf next (delete i l).
Proof.
  intros (Hl & Hnd & Hndr & Hlt). pose proof (sublist_delete l i) as Hsub.
  split; [apply sublist_length in Hsub; lia|]. split; [|split; [|by apply Forall_delete]];
    rewrite list_fmap_delete; (eapply sublist_NoDup; [|apply sublist_delete]); done.
Qed.

Lemma findSession_end a t : findSession a t = length (m_transportSessions t) ↔ a ∉ s_remote <$> m_transportSessions t.
Proof.
  unfold findSession. rewrite find_if_end. split.
  - intros Hn (s & -> & Hs)%list_elem_of_fmap. specialize (Hn s Hs). by apply bool_decide_eq_false in Hn.
  - intros Hn s Hs. apply bool_decide_eq_false. intros <-. by apply Hn, list_elem_of_fmap_2.
Qed.

(** The session of a peer is found at its position. *)
Lemma findSession_at next a t i s :
  sessions_wf next (m_transportSessions t) → m_transportSessions t !! i = Some s → s_remote s = a →
  findSession a t = i.
Proof.
  intros (_ & _ & Hnd & _) Hi Ha.
  assert (findSession a t < length (m_transportSessions t))%nat as Hlt.
  { pose proof (find_if_le (fun s => bool_decide (s_remote s = a)) (m_transportSessions t)).
    fold (findSession a t) in *. enough (findSession a t ≠ length (m_transportSessions t)) by lia.
    rewrite findSession_end. intros Hn. apply Hn. rewrite <-Ha. apply list_elem_of_fmap_2. by eapply list_elem_of_lookup_2. }
  destruct (find_if_found _ _ Hlt) as (s' & Hs' & Heq%bool_decide_eq_true).
  apply (proj1 (NoDup_alt _) Hnd _ _ a); rewrite list_lookup_fmap; [|by rewrite Hi, <-Ha].
  fold (findSession a t) in Hs'. by rewrite Hs', <-Heq.
Qed.

Lemma session_Some id t s : session id t = Some s → s ∈ m_transportSessions t ∧ s_id s = id.
Proof.
  unfold session. intros Hs%head_Some_elem_of. by apply list_elem_of_filter in Hs as [? ?].
Qed.

Lemma sessions_wf_push next l s :
  sessions_wf next l → s_id s = next → s_remote s ∉ s_remote <$> l →
  sessions_wf (S next) (push_back MAX_DEVICE_COUNT l s).1.
Proof.
  intros (Hl & Hnd & Hndr & Hlt) Hid Hr. rewrite push_back_spec. case_decide; cbn [fst].
  - split; [rewrite length_app; simpl; lia|]. rewrite !fmap_app. split; [|split].
    + apply NoDup_app. split; [done|]. split; [|apply NoDup_singleton].
      intros i (s' & -> & Hs')%list_elem_of_fmap Hi%list_elem_of_singleton.
      apply (proj1 (Forall_forall _ _) Hlt) in Hs'. simpl in Hs'. lia.
    + apply NoDup_app. split; [done|]. split; [|apply NoDup_singleton].
      intros i Hi ->%list_elem_of_singleton. done.
    + apply Forall_app. split; [|apply Forall_singleton; lia]. eapply Forall_impl; [exact Hlt|]. simpl. lia.
  - split_and!; try done. eapply Forall_impl; [exact Hlt|]. simpl. lia.
Qed.

Lemma addSession_wf t s :
  tcp_wf t → s_id s = t_next t → s_remote s ∉ s_remote <$> m_transportSessions t →
  tcp_wf (start_back (set_sessions (push_back MAX_DEVICE_COUNT (m_transportSessions t) s).1 (allocated t))).
Proof.
  intros [Hs Hb] Hid Hr. split; [|exact Hb]. apply sessions_wf_alter; [apply start_keeps|]. by apply sessions_wf_push.
Qed.

Lemma handleSessionOpen_total a t :
  ∃ info calls, handleSessionOpen a t = Ok (set_info info t, calls).
Proof.
  unfold handleSessionOpen. set (it := find_if _ _).
  destruct (Nat.eqb_spec it (length (m_infoToReport t))) as [He|He]; cbn [negb].
  - exists (m_infoToReport t), []. by destruct t.
  - pose proof (find_if_le (fun i => bool_decide (i.1 = a)) (m_infoToReport t)). fold it in H2.
    destruct (lookup_lt_is_Some_2 (m_infoToReport t) it ltac:(lia)) as [v Hv]. rewrite Hv. ostep.
    by eexists _, _.
Qed.

Lemma update_session_wf f id t : keeps f → tcp_wf t → tcp_wf (update_session f id t).
Proof. intros Hf [Hs Hb]. split; [|exact Hb]. by apply sessions_wf_update. Qed.

Lemma handleSessionClose_wf id t : tcp_wf t → tcp_wf (handleSessionClose id t).
Proof.
  intros [Hs Hb]. unfold handleSessionClose.
  pose proof (find_if_le (fun s => bool_decide (s_id s = id)) (m_transportSessions t)) as Hle.
  destruct (Nat.eqb_spec (find_if (fun s => bool_decide (s_id s = id)) (m_transportSessions t))
    (length (m_transportSessions t))); [done|]. cbn [negb].
  split; [|exact Hb]. cbn. rewrite vector_erase_at by lia. by apply sessions_wf_delete.
Qed.

Lemma udpDiscoveryCallback_wf data deviceIndex t :
  tcp_wf t → 0 ≤ di_device deviceIndex → (length data ≤ maxPubSubInfoSerializationSize)%nat →
  ∃ t' calls, udpDiscoveryCallback data deviceIndex t = Ok (t', calls) ∧ tcp_wf t'.
Proof.
  intros [Hs Hb] Hi Hl. unfold udpDiscoveryCallback.
  destruct (getEndpoint_total (di_device deviceIndex) (t_broadcast t) Hi) as (ep & b & -> & Heq). ostep.
  assert (devices_wf (m_devices b)) as Hb' by (by destruct Heq as [->| ->]).
  destruct (Nat.eqb_spec (findSession (address ep) (t_set_broadcast b t))
    (length (m_transportSessions (t_set_broadcast b t)))) as [He|He].
  - rewrite (proj2 (Nat.ltb_ge _ _)) by done. eexists _, _. split; [done|].
    apply addSession_wf; [by split|done|]. by apply findSession_end in He.
  - eexists _, _. split; [done|]. by split.
Qed.

Lemma accepted_wf ec a t : tcp_wf t → ∃ t' calls, accepted ec a t = Ok (t', calls) ∧ tcp_wf t'.
Proof.
  intros Ht. unfold accepted. destruct ec; [by eexists _, _|].
  destruct (Nat.eqb_spec (findSession a (set_listening false t)) (length (m_transportSessions (set_listening false t))))
    as [He|He]; [|by eexists _, _].
  apply findSession_end in He. unfold addSession_server.
  set (s := mkSession _ _ _ _ _ _).
  assert (tcp_wf (start_back (set_sessions (push_back MAX_DEVICE_COUNT
    (m_transportSessions (set_listening false t)) s).1 (allocated (set_listening false t))))) as Hwf
    by (by apply addSession_wf).
  revert Hwf. match goal with |- tcp_wf ?t1 → _ => set (t2 := t1) end. intros Hwf.
  assert (∃ back, last (m_transportSessions t2) = Some back) as [back ->].
  { destruct (last (m_transportSessions t2)) eqn:Hlast; [by eexists|]. apply last_None in Hlast.
    apply (f_equal length) in Hlast. revert Hlast. unfold t2, start_back. cbn. rewrite length_alter, push_back_spec.
    case_decide as Hroom; cbn; [rewrite length_app; simpl; lia|].
    revert Hroom. unfold MAX_DEVICE_COUNT. simpl. lia. }
  ostep. destruct (handleSessionOpen_total (s_remote back) t2) as (info & calls & ->). ostep.
  by eexists _, _.
Qed.

Lemma tcp_step_wf e t :
  tcp_wf t → tcp_genuine e → ∃ t' calls, tcp_step e t = Ok (t', calls) ∧ tcp_wf t'.
Proof.
  intros Ht He. assert (keeps add_read) as Hk1 by done. assert (∀ c, keeps (set_connection c)) as Hk2 by done.
  destruct e as [ec from data|ec a|ec id|ec id|id|data id|data1 data2 i]; cbn [tcp_step].
  - destruct (b_receiving (t_broadcast t)); [|by eexists _, _]. destruct He as [Hp Hl].
    unfold t_discoverySocketCallback. destruct Ht as [Hs Hb].
    pose proof (discoverySocketCallback_spec ec from data [] (t_broadcast t) Hb) as Hc.
    destruct (discoverySocketCallback ec from data [] (t_broadcast t)) as [b calls]. cbv zeta in Hc.
    destruct Hc as (_ & _ & _ & Hd & Hcalls).
    assert (tcp_wf (t_set_broadcast b t)) as Hwf.
    { split; [exact Hs|]. cbn. rewrite Hd. clear Hcalls. case_decide; [by apply note_device_wf|done]. }
    destruct calls as [|[data' di] calls]; [by eexists _, _|].
    match type of Hcalls with _ = if decide ?P then _ else _ => destruct (decide P) end; [|done].
    injection Hcalls as -> -> ->. apply udpDiscoveryCallback_wf; [done|simpl; lia|done].
  - destruct (t_listening t); [by apply accepted_wf|by eexists _, _].
  - destruct (session id t) as [s|] eqn:Hs; [|by eexists _, _]. apply session_Some in Hs as [_ <-].
    destruct (s_connection s); try by eexists _, _. unfold connect_completed. destruct ec.
    + eexists _, _. split; [done|]. unfold connectionFailedHandler. destruct (s_kind s); [|done].
      case_match; [by apply update_session_wf|by apply handleSessionClose_wf].
    + destruct (handleSessionOpen_total (s_remote s) (update_session (set_connection Connected) (s_id s) t))
        as (info & calls & ->). ostep.
      eexists _, _. split; [done|]. apply update_session_wf; [done|].
      exact (update_session_wf (set_connection Connected) (s_id s) t (Hk2 _) Ht).
  - destruct (session id t) as [s|] eqn:Hs; [|by eexists _, _]. destruct (s_connection s); try by eexists _, _.
    eexists _, _. split; [done|]. unfold retry_completed.
    destruct ec; [by apply handleSessionClose_wf|by apply update_session_wf].
  - destruct (session id t) as [s|] eqn:Hs; [|by eexists _, _]. case_match; [|by eexists _, _].
    eexists _, _. split; [done|]. by apply handleSessionClose_wf.
  - destruct (session id t) as [s|] eqn:Hs; [|by eexists _, _]. case_match; by eexists _, _.
  - unfold t_sendUserData. destruct (Z.leb_spec (Z.of_nat (length (m_transportSessions t))) i) as [Hle|Hlt];
      [ostep; by eexists _, _|].
    destruct (lookup_lt_is_Some_2 (m_transportSessions t) (Z.to_nat i)) as [s Hs]; [simpl in He; lia|].
    rewrite Hs. ostep. destruct (sendData data1 data2 (s_out s)) as [out res]. ostep.
    eexists _, _. split; [done|]. destruct Ht as [Hwf Hb]. split; [|exact Hb]. by apply sessions_wf_alter.
Qed.
(** *** The session at a position *)

Lemma find_session_id t k s :
  tcp_wf t → m_transportSessions t !! k = Some s →
  find_if (fun s' => bool_decide (s_id s' = s_id s)) (m_transportSessions t) = k.
Proof.
  intros [(_ & Hnd & _) _] Hk.
  set (p := fun s' => bool_decide (s_id s' = s_id s)).
  assert (find_if p (m_transportSessions t) < length (m_transportSessions t))%nat as Hlt.
  { pose proof (find_if_le p (m_transportSessions t)).
    enough (find_if p (m_transportSessions t) ≠ length (m_transportSessions t)) by lia.
    apply find_if_not_end. exists s. split; [by eapply list_elem_of_lookup_2|]. unfold p. by rewrite bool_decide_true. }
  destruct (find_if_found p _ Hlt) as (s' & Hs' & Heq%bool_decide_eq_true).
  apply (proj1 (NoDup_alt _) Hnd _ _ (s_id s)); rewrite list_lookup_fmap; [by rewrite Hs', <-Heq|by rewrite Hk].
Qed.

Lemma session_find id t :
  session id t = m_transportSessions t !! find_if (fun s => bool_decide (s_id s = id)) (m_transportSessions t).
Proof.
  unfold session. induction (m_transportSessions t) as [|s l IH]; [done|]. rewrite filter_cons. simpl.
  case_decide as Hs; [by rewrite bool_decide_true|by rewrite bool_decide_false].
Qed.

Lemma session_at t k s : tcp_wf t → m_transportSessions t !! k = Some s → session (s_id s) t = Some s.
Proof. intros Ht Hk. by rewrite session_find, (find_session_id t k s Ht Hk). Qed.

Lemma handleSessionClose_at t k s :
  tcp_wf t → m_transportSessions t !! k = Some s →
  handleSessionClose (s_id s) t = set_sessions (delete k (m_transportSessions t)) t.
Proof.
  intros Ht Hk. unfold handleSessionClose. rewrite (find_session_id t k s Ht Hk). pose proof (lookup_lt_Some _ _ _ Hk).
  rewrite (proj2 (Nat.eqb_neq _ _)) by lia. cbn [negb]. by rewrite vector_erase_at.
Qed.

(** User data is written to the session at its index only. *)
Lemma t_sendUserData_at t i s header payload :
  m_transportSessions t !! i = Some s →
  ∃ out, t_sendUserData header payload (Z.of_nat i) t =
           Ok (set_sessions (<[i := set_out out s]> (m_transportSessions t)) t, false) ∧
    ((∀ out data, write_accepts out data = None) → out = s_out s ++ frame (header ++ payload)).
Proof.
  intros Hi. unfold t_sendUserData. pose proof (lookup_lt_Some _ _ _ Hi). rewrite (proj2 (Z.leb_gt _ _)) by lia.
  rewrite Nat2Z.id, Hi. ostep.
  assert (∃ out, sendData header payload (s_out s) = (out, false) ∧
    ((∀ out data, write_accepts out data = None) → out = s_out s ++ frame (header ++ payload)))
    as (out & -> & Hout).
  { unfold sendData, asio_write, frame. destruct (write_accepts (s_out s) _) eqn:Hw.
    - eexists. split; [done|]. intros Hok. by rewrite Hok in Hw.
    - destruct (write_accepts (s_out s ++ _) _) eqn:Hw2; (eexists; split; [done|]; intros Hok); [by rewrite Hok in Hw2|].
      by rewrite <-app_assoc. }
  exists out. split; [|done]. do 3 f_equal.
  apply list_eq. intros j. destruct (decide (j = i)) as [->|Hne].
  - by rewrite list_lookup_alter_eq, Hi, list_lookup_insert_eq.
  - by rewrite list_lookup_alter_ne, list_lookup_insert_ne.
Qed.

(** *** The session added last *)

Section last_session.
Context (l : list Session) (x : Session) (fresh : ∀ s, s ∈ l → s_id s ≠ s_id x).

Lemma session_last t : m_transportSessions t = l ++ [x] → session (s_id x) t = Some x.
Proof.
  unfold session. intros ->. induction l as [|s l' IH]; csimpl.
  - by rewrite filter_cons, decide_True.
  - rewrite filter_cons, decide_False by (apply fresh; by left). apply IH. intros s' Hs'. apply fresh. by right.
Qed.

Lemma update_session_last f t :
  m_transportSessions t = l ++ [x] → m_transportSessions (update_session f (s_id x) t) = l ++ [f x].
Proof.
  unfold update_session. cbn. intros ->. rewrite fmap_app. csimpl. rewrite bool_decide_true by done. f_equal.
  induction l as [|s l' IH]; [done|]. csimpl. rewrite bool_decide_false by (apply fresh; by left).
  f_equal. apply IH. intros s' Hs'. apply fresh. by right.
Qed.

Lemma start_back_last t : m_transportSessions t = l ++ [x] → m_transportSessions (start_back t) = l ++ [start x].
Proof.
  unfold start_back. cbn. intros ->. rewrite length_app. simpl. replace (length l + 1 - 1)%nat with (length l) by lia.
  clear fresh. induction l as [|s l' IH]; [done|]. csimpl. by rewrite IH.
Qed.

Lemma findSession_last t :
  m_transportSessions t = l ++ [x] → s_remote x ∉ s_remote <$> l → findSession (s_remote x) t = length l.
Proof.
  unfold findSession. intros -> Hn. rewrite find_if_app, decide_True.
  - simpl. rewrite bool_decide_true by done. lia.
  - apply find_if_end. intros s Hs. apply bool_decide_eq_false. intros Heq. apply Hn. rewrite <-Heq.
    by apply list_elem_of_fmap_2.
Qed.
End last_session.

(** A kept message is reported when its session opens, and forgotten. *)
Lemma handleSessionOpen_last t info a data :
  m_infoToReport t = info ++ [(a, data)] → a ∉ fst <$> info →
  handleSessionOpen a t = Ok (set_info info t, remoteDiscoveryHandler data (findSession a t) t).
Proof.
  intros Hinfo Hn. unfold handleSessionOpen. rewrite Hinfo.
  assert (find_if (fun i : Z * bytes => bool_decide (i.1 = a)) info = length info) as Hfi.
  { apply find_if_end. intros y Hy. apply bool_decide_eq_false. intros <-. by apply Hn, list_elem_of_fmap_2. }
  rewrite find_if_app, decide_True by done. cbn [find_if fst]. rewrite bool_decide_true by done.
  rewrite length_app, Nat.add_0_r. simpl length. rewrite (proj2 (Nat.eqb_neq _ _)) by lia. cbn [negb].
  rewrite list_lookup_middle by done. ostep.
  rewrite vector_erase_at by (rewrite length_app; simpl; lia). rewrite delete_take_drop, take_app_length.
  by rewrite drop_ge, app_nil_r by (rewrite length_app; simpl; lia).
Qed.

Lemma fresh_id t s : tcp_wf t → s ∈ m_transportSessions t → s_id s ≠ t_next t.
Proof. intros [(_ & _ & _ & Hlt) _] Hs. apply (proj1 (Forall_forall _ _) Hlt) in Hs. simpl in Hs. lia. Qed.

(** A discovery message of a peer with a session is reported at once. *)
Lemma known_discovery data i d s ep t :
  tcp_wf t → m_transportSessions t !! i = Some s → t_discoveryCallback t = true →
  m_devices (t_broadcast t) !! d = Some ep → address ep = s_remote s →
  udpDiscoveryCallback data (mkDeviceIndex UDP (Z.of_nat d)) t =
    Ok (t, [DiscoveryCall data (mkDeviceIndex TCP (Z.of_nat i))]).
Proof.
  intros [Hs _] Hi Hcb Hd Hep. unfold udpDiscoveryCallback. cbn [di_device].
  rewrite (getEndpoint_spec _ _ _ Hd). ostep.
  replace (t_set_broadcast (t_broadcast t) t) with t by (by destruct t). rewrite Hep.
  rewrite (findSession_at (t_next t) (s_remote s) t i s Hs Hi eq_refl).
  pose proof (lookup_lt_Some _ _ _ Hi) as Hlt. rewrite (proj2 (Nat.eqb_neq _ _)) by lia.
  unfold remoteDiscoveryHandler. rewrite Hcb, wrap_index; [done|]. destruct Hs. lia.
Qed.

(** The first discovery message of a peer starts a session with it. *)
Lemma first_discovery data d ep t :
  tcp_wf t → m_devices (t_broadcast t) !! d = Some ep → address ep ∉ s_remote <$> m_transportSessions t →
  (length (m_transportSessions t) < MAX_DEVICE_COUNT)%nat → (length (m_infoToReport t) < MAX_DEVICE_COUNT)%nat →
  (length data ≤ maxPubSubInfoSerializationSize)%nat →
  ∃ t1, udpDiscoveryCallback data (mkDeviceIndex UDP (Z.of_nat d)) t = Ok (t1, []) ∧
    m_transportSessions t1 = m_transportSessions t ++ [mkSession (t_next t) (address ep)
      (TCPClientTransportSession max_reconnection_attempts) Connecting 0 []] ∧
    m_infoToReport t1 = m_infoToReport t ++ [(address ep, data)] ∧
    t_discoveryCallback t1 = t_discoveryCallback t.
Proof.
  intros Ht Hd Hnew Hroom Hroomi Hl. unfold udpDiscoveryCallback. cbn [di_device].
  rewrite (getEndpoint_spec _ _ _ Hd). ostep. replace (t_set_broadcast (t_broadcast t) t) with t by (by destruct t).
  rewrite (proj2 (Nat.eqb_eq _ _)) by (by apply findSession_end). rewrite (proj2 (Nat.ltb_ge _ _)) by done.
  rewrite push_back_room by done. cbn [fst]. eexists. split; [done|]. split_and!; [|done..].
  unfold addSession_client. cbn [m_transportSessions set_info t_next]. rewrite push_back_room by done.
  by rewrite (start_back_last (m_transportSessions t) (mkSession (t_next t) (address ep)
    (TCPClientTransportSession max_reconnection_attempts) NotStarted 0 [])).
Qed.

(** When the connection is established, the message is reported with the index of
    the new session. *)
Lemma session_opens data d ep t :
  tcp_wf t → m_devices (t_broadcast t) !! d = Some ep →
  address ep ∉ s_remote <$> m_transportSessions t → address ep ∉ fst <$> m_infoToReport t →
  (length (m_transportSessions t) < MAX_DEVICE_COUNT)%nat → (length (m_infoToReport t) < MAX_DEVICE_COUNT)%nat →
  (length data ≤ maxPubSubInfoSerializationSize)%nat → t_discoveryCallback t = true →
  ∃ t1 t2, udpDiscoveryCallback data (mkDeviceIndex UDP (Z.of_nat d)) t = Ok (t1, []) ∧
    tcp_step (ConnectCompleted false (t_next t)) t1 =
      Ok (t2, [DiscoveryCall data (mkDeviceIndex TCP (Z.of_nat (length (m_transportSessions t))))]) ∧
    m_transportSessions t2 = m_transportSessions t ++ [mkSession (t_next t) (address ep)
      (TCPClientTransportSession max_reconnection_attempts) Connected 1 []] ∧
    m_infoToReport t2 = m_infoToReport t.
Proof.
  intros Ht Hd Hnew Hinfo Hroom Hroomi Hl Hcb.
  destruct (first_discovery data d ep t Ht Hd Hnew Hroom Hroomi Hl) as (t1 & He & Hl1 & Hi1 & Hcb1).
  set (l := m_transportSessions t) in *. set (x := mkSession _ _ _ _ _ _) in Hl1.
  assert (∀ s, s ∈ l → s_id s ≠ s_id x) as Hfresh by (intros s Hs; by apply fresh_id).
  eexists t1, _. split; [exact He|]. cbn [tcp_step]. change (t_next t) with (s_id x).
  rewrite (session_last l x Hfresh t1 Hl1). cbn [x s_connection]. unfold connect_completed. fold x.
  pose proof (update_session_last l x Hfresh (set_connection Connected) t1 Hl1) as Hl2.
  set (t2 := update_session (set_connection Connected) (s_id x) t1) in *.
  rewrite (handleSessionOpen_last t2 (m_infoToReport t) (s_remote x) data Hi1 Hinfo). ostep.
  unfold remoteDiscoveryHandler. change (t_discoveryCallback t2) with (t_discoveryCallback t1). rewrite Hcb1, Hcb.
  pose proof (findSession_last l (set_connection Connected x) t2 Hl2 Hnew) as Hf. cbn [s_remote set_connection] in Hf.
  rewrite Hf, wrap_index by lia. split; [done|]. split; [|done].
  exact (update_session_last l (set_connection Connected x) Hfresh add_read (set_info (m_infoToReport t) t2) Hl2).
Qed.
End lemmas.

(** ** Properties *)

Section properties.
Context `{IoxSpec} `{Sockets} `{TcpSockets}.


(** The index a peer is reported with leads back to it: while its session exists,
    discovery messages of the peer are reported with the position of the session, and
    user data sent to that position is written, as one frame, to the peer's connection
    and to no other.  A write that throws neither closes the session nor fails the
    transport. *)
Theorem tcp_index_round_trip (t : TCPTransport) (i d : nat) (s : Session) (ep : ip_endpoint)
    (data header payload : bytes) :
  tcp_wf t → m_transportSessions t !! i = Some s → t_discoveryCallback t = true →
  m_devices (t_broadcast t) !! d = Some ep → address ep = s_remote s →
  udpDiscoveryCallback data (mkDeviceIndex UDP (Z.of_nat d)) t =
    Ok (t, [DiscoveryCall data (mkDeviceIndex TCP (Z.of_nat i))]) ∧
  (∃ t' s', t_sendUserData header payload (Z.of_nat i) t = Ok (t', false) ∧ t_status t' = t_status t ∧
     m_transportSessions t' = <[i := s']> (m_transportSessions t) ∧ s_remote s' = s_remote s ∧
     ((∀ out data, write_accepts out data = None) → s_out s' = s_out s ++ frame (header ++ payload))).
Proof.
  intros Ht Hi Hcb Hd Hep. split.
  - by eapply known_discovery.
  - destruct (t_sendUserData_at t i s header payload Hi) as (out & He & Hout).
    eexists _, (set_out out s). split; [exact He|]. by split_and!.
Qed.

(** The discovery message by which a gateway is first heard of is kept while the
    transport connects to it and is reported when the connection is open, with the index
    of the new session. *)
Theorem discovery_reported_on_open (t : TCPTransport) (d : nat) (ep : ip_endpoint) (data : bytes) :
  tcp_wf t → m_devices (t_broadcast t) !! d = Some ep →
  address ep ∉ s_remote <$> m_transportSessions t → address ep ∉ fst <$> m_infoToReport t →
  (length (m_transportSessions t) < MAX_DEVICE_COUNT)%nat → (length (m_infoToReport t) < MAX_DEVICE_COUNT)%nat →
  (length data ≤ maxPubSubInfoSerializationSize)%nat → t_discoveryCallback t = true →
  ∃ t1 t2, udpDiscoveryCallback data (mkDeviceIndex UDP (Z.of_nat d)) t = Ok (t1, []) ∧
    tcp_step (ConnectCompleted false (t_next t)) t1 =
      Ok (t2, [DiscoveryCall data (mkDeviceIndex TCP (Z.of_nat (length (m_transportSessions t))))]) ∧
    s_remote <$> m_transportSessions t2 !! length (m_transportSessions t) = Some (address ep) ∧
    m_infoToReport t2 = m_infoToReport t.
Proof.
  intros Ht Hd Hnew Hinfo Hroom Hroomi Hl Hcb.
  destruct (session_opens data d ep t Ht Hd Hnew Hinfo Hroom Hroomi Hl Hcb) as (t1 & t2 & He & Hopen & Hl2 & Hi2).
  exists t1, t2. split_and!; [done..| |done]. rewrite Hl2. by rewrite list_lookup_middle.
Qed.
End properties.

(** *** Retrying *)

Section retrying.
Context `{IoxSpec} `{Sockets} `{TcpSockets}.

(** Every attempt to connect fails, and the timer expires in between. *)
Fixpoint failing_attempts (id n : nat) : list TcpEvent :=
  match n with
  | O => [ConnectCompleted true id]
  | S n => ConnectCompleted true id :: RetryCompleted false id :: failing_attempts id n
  end.

Lemma set_sessions_twice l l' t : set_sessions l (set_sessions l' t) = set_sessions l t.
Proof. done. Qed.

Lemma attempts_fail l id a reads out n t calls :
  (∀ s, s ∈ l → s_id s ≠ id) →
  let client r c := mkSession id a (TCPClientTransportSession r) c reads out in
  tcp_run (failing_attempts id n) (set_sessions (l ++ [client (Z.of_nat n) Connecting]) t, calls) =
    Ok (set_sessions l t, calls).
Proof.
  intros Hfresh client. unfold tcp_run.
  assert (∀ x f, s_id x = id →
    update_session f id (set_sessions (l ++ [x]) t) = set_sessions (l ++ [f x]) t) as Hup.
  { intros x f <-. unfold update_session. rewrite set_sessions_twice. f_equal.
    exact (update_session_last l x Hfresh f (set_sessions (l ++ [x]) t) eq_refl). }
  assert (∀ x, s_id x = id → session id (set_sessions (l ++ [x]) t) = Some x) as Hses
    by (intros x <-; by apply (session_last l x Hfresh)).
  revert calls. induction n as [|n IH]; intros calls; cbn [failing_attempts for_each tcp_step].
  - rewrite Hses by done. cbn [client s_connection]. unfold connect_completed, connectionFailedHandler. cbn.
    unfold handleSessionClose. cbn [m_transportSessions set_sessions].
    assert (find_if (fun s => bool_decide (s_id s = id)) l = length l) as Hend.
    { apply find_if_end. intros s Hs. apply bool_decide_eq_false. by apply Hfresh. }
    rewrite find_if_app, decide_True by done. cbn [find_if s_id]. rewrite bool_decide_true by done.
    rewrite length_app. simpl length. rewrite Nat.add_0_r, (proj2 (Nat.eqb_neq _ _)) by lia. cbn [negb].
    rewrite vector_erase_at by (rewrite length_app; simpl; lia).
    rewrite delete_take_drop, take_app_length, drop_ge by (rewrite length_app; simpl; lia).
    by rewrite !app_nil_r.
  - rewrite Hses by done. cbn [client s_connection]. unfold connect_completed, connectionFailedHandler.
    cbn [s_kind client s_id]. rewrite (proj2 (Z.ltb_lt _ _)) by lia. rewrite Hup by done. ostep.
    rewrite Hses by done. cbn [set_connection s_connection]. unfold retry_completed. cbn [s_id set_kind client].
    rewrite Hup by done. ostep. rewrite !app_nil_r.
    replace (Z.of_nat (S n) - 1) with (Z.of_nat n) by lia. apply IH.
Qed.
End retrying.

Section errors.
Context `{IoxSpec} `{Sockets} `{TcpSockets}.


(** When a session closes, the indices behind it shift: messages for a device that was
    reported with a later index are written to the connection of the next peer, or
    dropped when there is none. *)
Theorem stale_tcp_index (t : TCPTransport) (k j : nat) (closed peer : Session) (header payload : bytes) :
  tcp_wf t → m_transportSessions t !! k = Some closed → (k < j)%nat → m_transportSessions t !! j = Some peer →
  (0 < s_reads closed)%nat →
  ∃ t1, tcp_step (ReadFailed (s_id closed)) t = Ok (t1, []) ∧
    m_transportSessions t1 = delete k (m_transportSessions t) ∧
    m_transportSessions t1 !! (j - 1)%nat = Some peer ∧
    match m_transportSessions t !! S j with
    | None => t_sendUserData header payload (Z.of_nat j) t1 = Ok (t1, false)
    | Some other => s_remote other ≠ s_remote peer ∧
        ∃ t2 out, t_sendUserData header payload (Z.of_nat j) t1 = Ok (t2, false) ∧
          m_transportSessions t2 = <[j := set_out out other]> (m_transportSessions t1) ∧
          ((∀ out data, write_accepts out data = None) → out = s_out other ++ frame (header ++ payload))
    end.
Proof.
  intros Ht Hk Hkj Hj Hr. eexists. split.
  { cbn [tcp_step]. rewrite (session_at t k closed Ht Hk). rewrite (proj2 (Nat.ltb_lt _ _)) by done.
    by rewrite (handleSessionClose_at t k closed Ht Hk). }
  cbn [m_transportSessions set_sessions]. split; [done|]. split.
  { rewrite list_lookup_delete_ge by lia. by replace (S (j - 1)) with j by lia. }
  destruct (m_transportSessions t !! S j) as [other|] eqn:Ho.
  - split.
    { intros Heq. destruct Ht as [(_ & _ & Hnd & _) _].
      enough (S j = j) by lia. apply (proj1 (NoDup_alt _) Hnd _ _ (s_remote peer)); rewrite list_lookup_fmap.
      - by rewrite Ho, <-Heq.
      - by rewrite Hj. }
    destruct (t_sendUserData_at (set_sessions (delete k (m_transportSessions t)) t) j other header payload)
      as (out & He & Hout); [by rewrite <-Ho; apply list_lookup_delete_ge; lia|].
    eexists _, out. split; [exact He|]. done.
  - unfold t_sendUserData. cbn [m_transportSessions set_sessions]. pose proof (lookup_lt_Some _ _ _ Hj).
    apply lookup_ge_None_1 in Ho. rewrite length_delete by (by eexists).
    by rewrite (proj2 (Z.leb_le _ _)) by lia.
Qed.

(** Discovery and user data of one peer are reported with indices of different kinds,
    the position of its session and the number of its address at the broadcast object:
    when they differ, user data seems to come from another peer. *)
Theorem tcp_indices_differ (t : TCPTransport) (i d : nat) (s : Session) (ep : ip_endpoint) (data message : bytes) :
  tcp_wf t → m_transportSessions t !! i = Some s → (0 < s_reads s)%nat →
  t_discoveryCallback t = true → t_userDataCallback t = true →
  m_devices (t_broadcast t) !! d = Some ep → address ep = s_remote s → i ≠ d →
  ∃ found received, found ≠ received ∧
    udpDiscoveryCallback data (mkDeviceIndex UDP (Z.of_nat d)) t = Ok (t, [DiscoveryCall data found]) ∧
    tcp_step (MessageRead message (s_id s)) t = Ok (t, [UserDataCall message received]) ∧
    ∀ s', m_transportSessions t !! d = Some s' → s_remote s' ≠ s_remote s.
Proof.
  intros Ht Hi Hr Hcb Hucb Hd Hep Hne. exists (mkDeviceIndex TCP (Z.of_nat i)), (mkDeviceIndex TCP (Z.of_nat d)).
  split; [intros [=]; lia|]. split; [by eapply known_discovery|]. split.
  - cbn [tcp_step]. rewrite (session_at t i s Ht Hi). rewrite (proj2 (Nat.ltb_lt _ _)) by done.
    unfold handleUserDataCallback. destruct Ht as [_ Hb]. rewrite <-Hep, (getIndex_spec _ _ _ Hb Hd). by rewrite Hucb.
  - intros s' Hs' Heq. destruct Ht as [(_ & _ & Hnd & _) _]. apply Hne.
    apply (proj1 (NoDup_alt _) Hnd _ _ (s_remote s)); rewrite list_lookup_fmap; [by rewrite Hi|by rewrite Hs', <-Heq].
Qed.

(** With ten sessions, a discovery message of another gateway starts the last session
    again although it belongs to another peer: a connected client session is told to
    connect once more, and a server session gets a second chain of reads. *)
Theorem full_sessions_restart (t : TCPTransport) (d : nat) (ep : ip_endpoint) (data : bytes) (s : Session) :
  tcp_wf t → m_devices (t_broadcast t) !! d = Some ep →
  address ep ∉ s_remote <$> m_transportSessions t →
  length (m_transportSessions t) = MAX_DEVICE_COUNT → last (m_transportSessions t) = Some s →
  (length data ≤ maxPubSubInfoSerializationSize)%nat →
  ∃ t', udpDiscoveryCallback data (mkDeviceIndex UDP (Z.of_nat d)) t = Ok (t', []) ∧
    last (m_transportSessions t') = Some (start s) ∧ s_remote s ≠ address ep ∧
    match s_kind s with
    | TCPClientTransportSession _ => s_connection (start s) = Connecting
    | TCPServerTransportSession => no_delay_throws (s_remote s) = false → s_reads (start s) = S (s_reads s)
    end.
Proof.
  intros Ht Hd Hnew Hfull Hlast Hl. unfold udpDiscoveryCallback. cbn [di_device].
  rewrite (getEndpoint_spec _ _ _ Hd). ostep. replace (t_set_broadcast (t_broadcast t) t) with t by (by destruct t).
  rewrite (proj2 (Nat.eqb_eq _ _)) by (by apply findSession_end). rewrite (proj2 (Nat.ltb_ge _ _)) by done.
  eexists. split; [done|]. apply last_Some in Hlast as [l Hls]. split; [|split].
  - unfold addSession_client. cbn [m_transportSessions set_info]. rewrite push_back_full by lia. cbn [fst].
    rewrite (start_back_last l s); [apply last_snoc|done].
  - intros Heq. apply Hnew. rewrite <-Heq, Hls. apply list_elem_of_fmap_2, elem_of_app. right. by left.
  - unfold start. destruct (s_kind s); [done|]. by intros ->.
Qed.

(** A TCP transport that cannot listen is constructed as failed and has no thread;
    destroying it terminates the process, as joining that thread throws. *)
Theorem tcp_construction (ifap : option (list ifaddrs)) :
  bind_throws DISCOVERY_PORT = false →
  ∃ t, TCPTransport_init ifap = Ok t ∧
    (listen_throws = true → t_status t = FAILED ∧ TCPTransport_destroy t = Terminated) ∧
    (listen_throws = false → t_status t = GOOD ∧ t_listening t = true ∧ TCPTransport_destroy t = Ok tt).
Proof.
  intros Hbind. unfold TCPTransport_init, UDPBroadcast_init. rewrite Hbind.
  assert (∃ b, (if set_option_throws DISCOVERY_PORT
    then Ok (b_setFailed (discoverBroadcastAddresses ifap (mkBroadcast GOOD [] [] [] false false)))
    else Ok (discoveryAsyncReceive [] (discoverBroadcastAddresses ifap (mkBroadcast GOOD [] [] [] false false)))) = Ok b)
    as [b ->] by (by case_match; eexists).
  ostep. destruct listen_throws; eexists; (split; [done|]); by split.
Qed.
End errors.

(** ** Witnesses *)

Definition quiet_tcp : TcpSockets := {|
  write_accepts := fun _ _ => None; listen_throws := false; no_delay_throws := fun _ => false |}.

Definition deaf_tcp : TcpSockets := {|
  write_accepts := fun _ _ => None; listen_throws := true; no_delay_throws := fun _ => false |}.

(** Open sessions with the peers of [endpoints], the first a client session. *)
Definition example_sessions (endpoints : list ip_endpoint) : list Session :=
  imap (fun i ep => mkSession i (address ep)
    (if (i =? 0)%nat then TCPClientTransportSession 3 else TCPServerTransportSession) Connected 1 []) endpoints.

(** A transport with the sessions [endpoints] that has heard of the gateways [devices]. *)
Definition example_tcp (endpoints devices : list ip_endpoint) : TCPTransport :=
  mkTcp GOOD true
    (mkBroadcast GOOD [gateway_at 100] [mkEp 0xC0A800FF DISCOVERY_PORT] devices true true)
    (example_sessions endpoints) [] true true true (S (length endpoints)).

Definition gateways (first n : nat) : list ip_endpoint := gateway_at <$> seq first n.

#[local] Ltac decided := match goal with |- ?G => refine (@bool_decide_unpack G _ _) end; vm_compute; exact I.

#[local] Ltac wf_decided := split; split_and!; decided.


Lemma tcp_index_round_trip_witness :
  let t := example_tcp (gateways 1 3) (gateways 1 3) in
  tcp_wf t ∧
  ∃ t' s', @t_sendUserData quiet_tcp [Byte.x01] [Byte.x02] 1 t = Ok (t', false) ∧
    m_transportSessions t' = <[1%nat := s']> (m_transportSessions t) ∧ s_remote s' = address (gateway_at 2) ∧
    s_out s' = frame [Byte.x01; Byte.x02].
Proof.
  intros t. assert (tcp_wf t) as Ht by wf_decided. split; [exact Ht|].
  destruct (proj2 (@tcp_index_round_trip ref_iox quiet_tcp t 1 1 _ _ [Byte.x05] [Byte.x01] [Byte.x02]
    Ht eq_refl eq_refl eq_refl eq_refl)) as (t' & s' & He & _ & Hl & Hr & Ho).
  exists t', s'. split; [exact He|]. split; [exact Hl|]. split; [exact Hr|]. exact (Ho (fun _ _ => eq_refl)).
Defined.

Lemma discovery_reported_on_open_witness :
  let t := example_tcp (gateways 1 1) (gateways 1 2) in
  tcp_wf t ∧
  ∃ t1 t2, @udpDiscoveryCallback ref_iox quiet_tcp [Byte.x05] (mkDeviceIndex UDP 1) t = Ok (t1, []) ∧
    @tcp_step ref_iox quiet_sockets quiet_tcp (ConnectCompleted false 2) t1 =
      Ok (t2, [DiscoveryCall [Byte.x05] (mkDeviceIndex TCP 1)]).
Proof.
  intros t. assert (tcp_wf t) as Ht by wf_decided. split; [exact Ht|].
  destruct (@discovery_reported_on_open ref_iox ref_iox_spec quiet_sockets quiet_tcp t 1 (gateway_at 2) [Byte.x05])
    as (t1 & t2 & H1 & H2 & _); [exact Ht|reflexivity|decided..|reflexivity|].
  exists t1, t2. split; [exact H1|exact H2].
Defined.


Lemma stale_tcp_index_witness :
  let t := example_tcp (gateways 1 3) (gateways 1 3) in
  tcp_wf t ∧
  ∃ t1 t2 other, @tcp_step ref_iox quiet_sockets quiet_tcp (ReadFailed 0) t = Ok (t1, []) ∧
    @t_sendUserData quiet_tcp [Byte.x01] [Byte.x02] 1 t1 = Ok (t2, false) ∧
    m_transportSessions t2 !! 1%nat = Some other ∧ s_remote other = address (gateway_at 3) ∧
    s_out other = frame [Byte.x01; Byte.x02].
Proof.
  intros t. assert (tcp_wf t) as Ht by wf_decided. split; [exact Ht|].
  destruct (@stale_tcp_index ref_iox ref_iox_spec quiet_sockets quiet_tcp t 0 1 _ _ [Byte.x01] [Byte.x02]
    Ht eq_refl ltac:(lia) eq_refl ltac:(cbn; lia)) as (t1 & He & Hl & _ & _ & t2 & out & Hs & Hl2 & Ho).
  exists t1, t2. eexists. split; [exact He|]. split; [exact Hs|]. rewrite Hl2, Hl.
  split; [reflexivity|]. split; [reflexivity|]. exact (Ho (fun _ _ => eq_refl)).
Defined.

Lemma tcp_indices_differ_witness :
  let t := example_tcp [gateway_at 2; gateway_at 1] (gateways 1 2) in
  tcp_wf t ∧
  ∃ found received, found ≠ received ∧
    @udpDiscoveryCallback ref_iox quiet_tcp [Byte.x05] (mkDeviceIndex UDP 1) t
      = Ok (t, [DiscoveryCall [Byte.x05] found]) ∧
    @tcp_step ref_iox quiet_sockets quiet_tcp (MessageRead [Byte.x06] 0) t
      = Ok (t, [UserDataCall [Byte.x06] received]).
Proof.
  intros t. assert (tcp_wf t) as Ht by wf_decided. split; [exact Ht|].
  destruct (@tcp_indices_differ ref_iox quiet_sockets quiet_tcp t 0 1 _ _ [Byte.x05] [Byte.x06]
    Ht eq_refl ltac:(cbn; lia) eq_refl eq_refl eq_refl eq_refl ltac:(lia)) as (f & r & Hne & Hf & Hr & _).
  exists f, r. split; [exact Hne|]. split; [exact Hf|exact Hr].
Defined.

Lemma full_sessions_restart_witness :
  let t := example_tcp (gateways 2 10) (gateways 1 10) in
  tcp_wf t ∧
  ∃ t' s, @udpDiscoveryCallback ref_iox quiet_tcp [Byte.x05] (mkDeviceIndex UDP 0) t = Ok (t', []) ∧
    last (m_transportSessions t') = Some s ∧ s_reads s = 2%nat ∧ s_remote s = address (gateway_at 11).
Proof.
  intros t. assert (tcp_wf t) as Ht by wf_decided. split; [exact Ht|].
  destruct (@full_sessions_restart ref_iox ref_iox_spec quiet_tcp t 0 (gateway_at 1) [Byte.x05]
    (mkSession 9 (address (gateway_at 11)) TCPServerTransportSession Connected 1 []))
    as (t' & He & Hl & _ & Hr); [exact Ht|reflexivity|decided|reflexivity|reflexivity|decided|].
  eexists t', _. split; [exact He|]. split; [exact Hl|]. split; [exact (Hr eq_refl)|reflexivity].
Defined.

Lemma tcp_construction_witness :
  ∃ t, @TCPTransport_init ref_iox quiet_sockets deaf_tcp None = Ok t ∧
       t_status t = FAILED ∧ TCPTransport_destroy t = Terminated.
Proof.
  destruct (@tcp_construction ref_iox quiet_sockets deaf_tcp None eq_refl) as (t & He & Hf & _).
  exists t. split; [exact He|]. exact (Hf eq_refl).
Defined.
