(* ===== verification/PendingMessages.v ===== *)
(** * PendingMessages: messages a transport has accepted but not yet sent

    include/p3com/generic/pending_messages.hpp and
    source/p3com/generic/pending_messages.cpp.

    A pending message is a chunk that a gateway subscriber holds until the
    transport reports that the buffer was sent.  Every operation takes
    [m_mutex], so the concurrent behaviour is an interleaving of whole
    operations: the relation [pending_step].  [release] calls the subscriber
    after giving up [m_mutex], with the data it copied, which is the event of
    the step. *)

From stdpp Require Import base list gmap.
From S2P Require Import Prelude.
From S2P Require Import Iox.
From S2P Require Import Types.
From S2P Require Import VectorMap.

Open Scope Z_scope.

Record PendingMessage_t := mkPending {
  counter : Z;
  pm_mutex : Mutex;
  pm_subscriber : UniquePortId
}.

#[export] Instance PendingMessage_eq_dec : EqDecision PendingMessage_t.
Proof. solve_decision. Defined.

Definition MAX_PENDING_MESSAGE_COUNT : nat := 512.

(** [m_pendingMessages]. *)
Abbreviation PendingMessageManager := (vector_map Ptr PendingMessage_t).

Section operations.
Context `{Iox}.
Implicit Types (m : PendingMessageManager) (userPayload : Ptr).

Definition push m userPayload (mutex : Mutex) (subscriber : UniquePortId)
    : PendingMessageManager * bool :=
  let msgIt := vm_find m userPayload in
  if (msgIt =? vm_end m)%nat
  then vm_emplace MAX_PENDING_MESSAGE_COUNT m userPayload (mkPending 1 mutex subscriber)
  else (m, false).

Definition anyPending m (subscriber : UniquePortId) : bool :=
  existsb (fun pendingMsg => bool_decide (pm_subscriber pendingMsg = subscriber)) (m_elems m).

Definition release m userPayload : Outcome (PendingMessageManager * list IoxEvent) :=
  let msgIt := vm_find m userPayload in
  if (msgIt =? vm_end m)%nat then Ok (m, [])
  else
    pendingMsg ← deref (vm_at m msgIt);
    let pendingMsg := mkPending (wrap32 (counter pendingMsg - 1)) (pm_mutex pendingMsg)
                                (pm_subscriber pendingMsg) in
    if counter pendingMsg =? 0
    then Ok (vm_erase m msgIt, [SubscriberRelease (pm_subscriber pendingMsg) userPayload])
    else Ok (vm_set m msgIt pendingMsg, []).
End operations.

(** ** The interleavings *)

(** What one call did, as its caller and the subscribers see it. *)
Inductive PendingLabel :=
  | Pushed (userPayload : Ptr) (subscriber : UniquePortId) (result : bool)
  | Released (userPayload : Ptr) (calls : list IoxEvent).

Section steps.
Context `{Iox}.

Inductive pending_step : PendingMessageManager → PendingLabel → PendingMessageManager → Prop :=
  | step_push m userPayload mutex subscriber m' result :
      push m userPayload mutex subscriber = (m', result) →
      pending_step m (Pushed userPayload subscriber result) m'
  | step_release m userPayload m' calls :
      release m userPayload = Ok (m', calls) →
      pending_step m (Released userPayload calls) m'.

Inductive pending_run : list PendingLabel → PendingMessageManager → Prop :=
  | run_init : pending_run [] vm_empty
  | run_step trace l m m' :
      pending_run trace m → pending_step m l m' → pending_run (trace ++ [l]) m'.
End steps.

(** ** Specification: a bounded set of chunks, each with its subscriber *)

Definition pending_wf (m : PendingMessageManager) : Prop :=
  vm_wf MAX_PENDING_MESSAGE_COUNT m ∧ NoDup (m_keys m) ∧
  Forall (fun msg => counter msg = 1) (m_elems m).

Definition pending (m : PendingMessageManager) : gmap Ptr UniquePortId :=
  pm_subscriber <$> to_map m.

Section lemmas.
Context `{IoxSpec}.
Implicit Types (m : PendingMessageManager) (p : Ptr).

Lemma pending_empty_wf : pending_wf vm_empty.
Proof. split_and!; [eauto with p3com|constructor|constructor]. Qed.

Lemma pending_None m p : pending_wf m → pending m !! p = None ↔ vm_find m p = vm_end m.
Proof.
  intros (Hm & Hnd & _). unfold pending. rewrite lookup_fmap, fmap_None.
  by rewrite (to_map_None MAX_PENDING_MESSAGE_COUNT), <-vm_find_end.
Qed.

Lemma pending_Some m p s :
  pending_wf m → pending m !! p = Some s ↔
  ∃ msg, vm_at m (vm_find m p) = Some msg ∧ counter msg = 1 ∧ pm_subscriber msg = s.
Proof.
  intros (Hm & Hnd & Hc). unfold pending. rewrite lookup_fmap, fmap_Some.
  rewrite <-(vm_find_to_map MAX_PENDING_MESSAGE_COUNT) by done.
  split; intros (msg & Hmsg & Hr); exists msg; [|naive_solver]. split_and!; [done| |done].
  rewrite Forall_lookup in Hc. by eapply Hc.
Qed.

Lemma pending_push_spec m p mu s :
  pending_wf m →
  let '(m', ok) := push m p mu s in
  pending_wf m' ∧
  ok = bool_decide (pending m !! p = None ∧ size (pending m) < MAX_PENDING_MESSAGE_COUNT)%nat ∧
  pending m' = if ok then <[p := s]> (pending m) else pending m.
Proof.
  intros Hwf. pose proof Hwf as (Hm & Hnd & Hc). unfold push.
  pose proof (pending_None m p Hwf) as HN.
  destruct (Nat.eqb_spec (vm_find m p) (vm_end m)) as [He|He].
  - apply HN in He. clear HN. assert (p ∉ m_keys m) as Hk.
    { unfold pending in He. rewrite lookup_fmap, fmap_None in He.
      by apply (to_map_None MAX_PENDING_MESSAGE_COUNT) in He. }
    pose proof (vm_emplace_to_map MAX_PENDING_MESSAGE_COUNT m p (mkPending 1 mu s) Hm Hk) as Ht.
    pose proof (vm_emplace_NoDup _ m p (mkPending 1 mu s) Hm Hnd Hk) as Hnd'.
    pose proof (vm_emplace_wf _ m p (mkPending 1 mu s) Hm) as Hm'.
    rewrite vm_emplace_spec in * by done. unfold pending in *. rewrite map_size_fmap.
    rewrite (vm_size_to_map MAX_PENDING_MESSAGE_COUNT) by done.
    case_decide as Hs; simpl in *.
    + split_and!; [|by rewrite bool_decide_true|by rewrite Ht, fmap_insert].
      split_and!; [done..|]. apply Forall_app. split; [done|by constructor].
    + split_and!; [done|by rewrite bool_decide_false by tauto|done].
  - split_and!; [done|rewrite bool_decide_false by tauto; done|done].
Qed.

Lemma pending_release_spec m p :
  pending_wf m →
  ∃ m', release m p = Ok (m', match pending m !! p with
                              | Some s => [SubscriberRelease s p] | None => [] end) ∧
        pending_wf m' ∧ pending m' = delete p (pending m).
Proof.
  intros Hwf. pose proof Hwf as (Hm & Hnd & Hc). unfold release.
  pose proof (pending_None m p Hwf) as HN.
  destruct (Nat.eqb_spec (vm_find m p) (vm_end m)) as [He|He].
  - apply HN in He. rewrite He. exists m. split_and!; [done..|]. by rewrite delete_id.
  - destruct (pending m !! p) as [s|] eqn:Hp; [|by destruct He; apply HN].
    pose proof Hp as Hp'. apply pending_Some in Hp' as (msg & -> & Hc1 & Hs); [|done].
    ostep. rewrite Hc1. simpl. rewrite Hs.
    assert (p ∈ m_keys m) as Hk.
    { apply dec_stable. intros Hk. apply He. by apply (vm_find_end MAX_PENDING_MESSAGE_COUNT). }
    pose proof (vm_find_found _ m p Hm Hk) as (Hlt & _).
    eexists. split; [done|]. unfold pending. rewrite <-fmap_delete.
    rewrite <-(vm_erase_to_map MAX_PENDING_MESSAGE_COUNT) by done. split; [|done].
    split_and!; [by apply vm_erase_wf|by eapply vm_erase_NoDup|].
    rewrite (vm_erase_spec MAX_PENDING_MESSAGE_COUNT) by done. simpl.
    by apply Forall_delete.
Qed.

Lemma anyPending_spec m s :
  pending_wf m → anyPending m s = true ↔ ∃ p, pending m !! p = Some s.
Proof.
  intros (Hm & Hnd & _). unfold anyPending. rewrite existsb_exists.
  unfold pending. setoid_rewrite lookup_fmap. setoid_rewrite fmap_Some.
  setoid_rewrite (to_map_Some MAX_PENDING_MESSAGE_COUNT m); [|done..]. split.
  - intros (msg & Hin & Hs%bool_decide_eq_true).
    apply list_elem_of_In in Hin. rewrite <-(entries_elems MAX_PENDING_MESSAGE_COUNT) in Hin by done.
    apply list_elem_of_fmap in Hin as ([p msg'] & -> & Hin). by exists p, msg'.
  - intros (p & msg & Hin & ->). exists msg. split; [|by apply bool_decide_eq_true].
    apply list_elem_of_In. rewrite <-(entries_elems MAX_PENDING_MESSAGE_COUNT) by done.
    apply list_elem_of_fmap. by exists (p, msg).
Qed.

Lemma pending_run_wf trace m : pending_run trace m → pending_wf m.
Proof.
  induction 1 as [|trace l m m' _ IH Hst]; [apply pending_empty_wf|].
  destruct Hst as [m p mu s m' r Hp|m p m' c Hr].
  - pose proof (pending_push_spec m p mu s IH) as Hs. rewrite Hp in Hs. by destruct Hs.
  - destruct (pending_release_spec m p IH) as (m1 & Hr1 & ? & _). congruence.
Qed.
End lemmas.

(** ** Properties *)

Definition calls_of (l : PendingLabel) : list IoxEvent :=
  match l with Released _ calls => calls | Pushed _ _ _ => [] end.

(** How often [p] was accepted for the subscriber [s], and how often it was handed back. *)
Definition accepted (p : Ptr) (s : UniquePortId) (l : PendingLabel) : nat :=
  match l with
  | Pushed p' s' true => if decide (p' = p ∧ s' = s) then 1 else 0
  | _ => 0
  end.

Definition handed_back (p : Ptr) (s : UniquePortId) (l : PendingLabel) : nat :=
  length (filter (eq (SubscriberRelease s p)) (calls_of l)).

Lemma handed_back_some p s o :
  handed_back p s (Released p (match o with Some s' => [SubscriberRelease s' p] | None => [] end))
  = if decide (o = Some s) then 1%nat else 0%nat.
Proof.
  unfold handed_back, calls_of. destruct o as [s'|]; [|by rewrite decide_False].
  rewrite filter_cons, filter_nil. repeat case_decide; naive_solver.
Qed.

Lemma handed_back_other p p' s o :
  p' ≠ p →
  handed_back p s (Released p' (match o with Some s' => [SubscriberRelease s' p'] | None => [] end))
  = 0%nat.
Proof.
  intros Hne. unfold handed_back, calls_of. destruct o as [s'|]; [|done].
  rewrite filter_cons, filter_nil. case_decide; naive_solver.
Qed.

Section properties.
Context `{IoxSpec}.

(** C29: The manager implements a set of at most 512 pending chunks: a push of a chunk
    that is not pending is accepted while there is room and refused otherwise, a release
    of a pending chunk removes it and hands it back once to the subscriber it was pushed
    with, a release of any other chunk does nothing, and no counter ever wraps. *)
Theorem pending_refines (m : PendingMessageManager) (p : Ptr) (mu : Mutex) (s : UniquePortId) :
  pending_wf m →
  (let '(m', ok) := push m p mu s in
   pending_wf m' ∧
   ok = bool_decide (pending m !! p = None ∧ size (pending m) < MAX_PENDING_MESSAGE_COUNT)%nat ∧
   pending m' = if ok then <[p := s]> (pending m) else pending m) ∧
  (∃ m', release m p = Ok (m', match pending m !! p with
                               | Some s' => [SubscriberRelease s' p] | None => [] end) ∧
         pending_wf m' ∧ pending m' = delete p (pending m)) ∧
  (anyPending m s = true ↔ ∃ q, pending m !! q = Some s).
Proof.
  intros Hm. split; [by apply pending_push_spec|]. split; [by apply pending_release_spec|by apply anyPending_spec].
Qed.

(** In every interleaving of pushes and releases, each accepted push of a chunk is
    matched by exactly one hand-back to its own subscriber, or the chunk is still
    pending: nothing is released twice and nothing is lost. *)
Theorem pending_released_once (trace : list PendingLabel) (m : PendingMessageManager) :
  pending_run trace m →
  ∀ p s, sum_list_with (accepted p s) trace =
         (sum_list_with (handed_back p s) trace + if decide (pending m !! p = Some s) then 1 else 0)%nat.
Proof.
  intros Hrun p s. induction Hrun as [|trace l m m' Hrun IH Hst].
  { simpl. rewrite decide_False; [done|]. unfold pending. by rewrite lookup_fmap. }
  rewrite !sum_list_with_app, IH. clear IH. apply pending_run_wf in Hrun.
  destruct Hst as [m p' mu s' m' r Hp|m p' m' c Hr]; simpl.
  - pose proof (pending_push_spec m p' mu s' Hrun) as Hs. rewrite Hp in Hs.
    destruct Hs as (_ & Hr & Hm'). destruct r; rewrite Hm'; [|lia].
    symmetry in Hr. apply bool_decide_eq_true in Hr as [HN _].
    destruct (decide (p' = p)) as [->|Hne].
    + rewrite lookup_insert_eq, HN. rewrite (decide_False (P := None = Some s)) by done.
      destruct (decide (s' = s)) as [->|].
      * rewrite !decide_True by done. lia.
      * rewrite !decide_False by naive_solver. lia.
    + rewrite lookup_insert_ne by done. rewrite (decide_False (P := p' = p ∧ s' = s)) by naive_solver.
      lia.
  - destruct (pending_release_spec m p' Hrun) as (m1 & Hr1 & _ & Hm1).
    rewrite Hr in Hr1. injection Hr1 as -> ->. rewrite Hm1, !Nat.add_0_r.
    destruct (decide (p' = p)) as [->|Hne].
    + rewrite lookup_delete_eq, handed_back_some. destruct (decide (pending m !! p = Some s)); simpl; lia.
    + rewrite lookup_delete_ne by done. rewrite handed_back_other by done. lia.
Qed.
End properties.

(** ** Witnesses *)

Definition example_pending : PendingMessageManager :=
  mkMap [16; 32] [mkPending 1 Iceoryx2TransportEndpoints 5; mkPending 1 Iceoryx2TransportEndpoints 6].

Lemma example_pending_wf : pending_wf example_pending.
Proof.
  split_and!; [split; simpl; unfold MAX_PENDING_MESSAGE_COUNT; lia| |repeat constructor].
  apply (bool_decide_unpack _). vm_compute. exact I.
Qed.

Lemma pending_refines_witness :
  pending_wf example_pending ∧
  (anyPending example_pending 6 = true ↔ ∃ q, pending example_pending !! q = Some 6).
Proof.
  split; [exact example_pending_wf|].
  destruct (@pending_refines ref_iox ref_iox_spec example_pending 16 Iceoryx2TransportEndpoints 6
              example_pending_wf) as (_ & _ & Hany).
  exact Hany.
Defined.

Lemma pending_released_once_witness :
  let trace := [Pushed 16 5 true; Released 16 [SubscriberRelease 5 16]] in
  @pending_run ref_iox trace vm_empty ∧
  sum_list_with (accepted 16 5) trace =
    (sum_list_with (handed_back 16 5) trace +
     if decide (pending vm_empty !! 16%Z = Some 5%Z) then 1 else 0)%nat.
Proof.
  assert (@pending_run ref_iox [Pushed 16 5 true; Released 16 [SubscriberRelease 5 16]] vm_empty)
    as Hrun.
  { apply (run_step [Pushed 16 5 true] _ (@push ref_iox vm_empty 16 Iceoryx2TransportEndpoints 5).1).
    - apply (run_step [] _ vm_empty); [apply run_init|].
      apply (step_push _ _ Iceoryx2TransportEndpoints). vm_compute. reflexivity.
    - apply step_release. vm_compute. reflexivity. }
  split; [exact Hrun|].
  exact (@pending_released_once ref_iox ref_iox_spec _ _ Hrun 16 5).
Defined.
