(* ===== verification/SegmentedMessages.v ===== *)
(** * SegmentedMessages: messages of which segments are still to come

    include/p3com/generic/segmented_messages.hpp and
    source/p3com/generic/segmented_messages.cpp.

    The manager holds a chunk that was loaned for a message until its last
    segment has arrived, its deadline has passed, or its channel is deleted.
    A function that is given references to assign returns an option: [None]
    when it returns [false] and assigns nothing. *)

From stdpp Require Import base list gmap.
From S2P Require Import Prelude.
From S2P Require Import Iox.
From S2P Require Import Types.
From S2P Require Import VectorMap.
From Stdlib Require Import Permutation.

Open Scope Z_scope.

(** A deadline is a time of the steady clock, in nanoseconds. *)
Record SegmentedMessage_t := mkSegmented {
  remainingSegments : Z;
  sm_userHeader : Ptr;
  sm_userPayload : Ptr;
  sm_mutex : Mutex;
  sm_publisher : UniquePortId;
  sm_deadline : Z
}.

#[export] Instance SegmentedMessage_eq_dec : EqDecision SegmentedMessage_t.
Proof. solve_decision. Defined.

Definition MAX_SEGMENTED_MESSAGE_COUNT : nat := 64.

(** [m_segmentedMessages]. *)
Abbreviation SegmentedMessageManager := (vector_map hash_t SegmentedMessage_t).

(** [publisher->release(userPayload)]. *)
Definition release_call (msg : SegmentedMessage_t) : IoxEvent :=
  PublisherRelease (sm_publisher msg) (sm_userPayload msg).

Section operations.
Context `{Iox}.
Implicit Types (m : SegmentedMessageManager) (messageHash : hash_t).

Definition push m messageHash (msg : SegmentedMessage_t)
    : SegmentedMessageManager * list IoxEvent :=
  let '(m, emplaced) := vm_emplace MAX_SEGMENTED_MESSAGE_COUNT m messageHash msg in
  if emplaced then (m, []) else (m, [release_call msg]).

Definition findAndDecrement m messageHash
    : Outcome (SegmentedMessageManager * option (Ptr * Ptr * bool)) :=
  let msgIt := vm_find m messageHash in
  if negb (msgIt =? vm_end m)%nat then
    msg ← deref (vm_at m msgIt);
    let msg := mkSegmented (wrap32 (remainingSegments msg - 1)) (sm_userHeader msg)
                 (sm_userPayload msg) (sm_mutex msg) (sm_publisher msg) (sm_deadline msg) in
    if remainingSegments msg =? 0
    then Ok (vm_erase m msgIt, Some (sm_userHeader msg, sm_userPayload msg, true))
    else Ok (vm_set m msgIt msg, Some (sm_userHeader msg, sm_userPayload msg, false))
  else Ok (m, None).

Definition find m messageHash : Outcome (option (Ptr * Ptr)) :=
  let msgIt := vm_find m messageHash in
  if negb (msgIt =? vm_end m)%nat then
    msg ← deref (vm_at m msgIt); Ok (Some (sm_userHeader msg, sm_userPayload msg))
  else Ok None.

Definition release m messageHash : Outcome (SegmentedMessageManager * list IoxEvent) :=
  let msgIt := vm_find m messageHash in
  if negb (msgIt =? vm_end m)%nat then
    msg ← deref (vm_at m msgIt); Ok (vm_erase m msgIt, [release_call msg])
  else Ok (m, []).

(** The loop of [releaseAll], from the iterator [it] down to [begin()]. *)
Fixpoint releaseAll_loop (publisher : UniquePortId) (it : nat) m
    : Outcome (SegmentedMessageManager * list IoxEvent) :=
  match it with
  | O => Ok (m, [])
  | S msgIt =>
      msg ← deref (vm_at m msgIt);
      if bool_decide (sm_publisher msg = publisher) then
        '(m, calls) ← releaseAll_loop publisher msgIt (vm_erase m msgIt);
        Ok (m, release_call msg :: calls)
      else releaseAll_loop publisher msgIt m
  end.

Definition releaseAll m (publisher : UniquePortId)
    : Outcome (SegmentedMessageManager * list IoxEvent) :=
  releaseAll_loop publisher (vm_end m) m.

Definition expired (now : Z) (msg : SegmentedMessage_t) : bool := sm_deadline msg <? now.

(** The outer loop of [checkSegmentedMessages] removes at most one message per
    iteration; [fuel] bounds the iterations. *)
Fixpoint checkSegmentedMessages (fuel : nat) (now : Z) m
    : Outcome (SegmentedMessageManager * list IoxEvent) :=
  match fuel with
  | O => OutOfFuel
  | S fuel =>
      let msgIt := find_if (expired now) (m_elems m) in
      if negb (msgIt =? vm_end m)%nat then
        msg ← deref (vm_at m msgIt);
        '(m, calls) ← checkSegmentedMessages fuel now (vm_erase m msgIt);
        Ok (m, release_call msg :: calls)
      else Ok (m, [])
  end.
End operations.

(** ** Lemmas *)

Abbreviation smm_wf m := (vm_wf MAX_SEGMENTED_MESSAGE_COUNT m).

Section lemmas.
Context `{IoxSpec}.
Implicit Types (m : SegmentedMessageManager) (h : hash_t) (msg : SegmentedMessage_t).

(** What the finder sees at a hash. *)
Lemma find_cases m h :
  smm_wf m →
  (vm_find m h = vm_end m ∧ h ∉ m_keys m) ∨
  (∃ msg, vm_find m h ≠ vm_end m ∧ vm_at m (vm_find m h) = Some msg ∧
          entries m !! vm_find m h = Some (h, msg)).
Proof.
  intros Hm. destruct (decide (h ∈ m_keys m)) as [Hk|Hk].
  - right. destruct (vm_find_entry _ m h Hm Hk) as (msg & Hat & He).
    pose proof (vm_find_found _ m h Hm Hk) as (Hlt & _). exists msg. split_and!; [lia|done..].
  - left. split; [|done]. by apply (vm_find_end _ m h Hm).
Qed.

Lemma entries_vm_at m i k msg : entries m !! i = Some (k, msg) → vm_at m i = Some msg ∧ (i < vm_end m)%nat.
Proof. intros [_ Hv]%entries_lookup. split; [done|]. by eapply lookup_lt_Some. Qed.

Lemma vm_at_entry m i msg :
  smm_wf m → vm_at m i = Some msg → ∃ k, entries m !! i = Some (k, msg).
Proof.
  intros [Hl _] Hv. pose proof (lookup_lt_Some _ _ _ Hv).
  destruct (lookup_lt_is_Some_2 (m_keys m) i) as [k Hk]; [lia|].
  exists k. by apply entries_lookup.
Qed.

Lemma lookup_vm_at m i : smm_wf m → (i < vm_end m)%nat →
  ∃ k msg, vm_at m i = Some msg ∧ entries m !! i = Some (k, msg).
Proof.
  intros Hm Hi. destruct (lookup_lt_is_Some_2 (m_elems m) i Hi) as [msg Hv].
  destruct (vm_at_entry m i msg Hm Hv) as [k Hk]. by exists k, msg.
Qed.
End lemmas.

(** *** [releaseAll] and [checkSegmentedMessages] remove by a predicate *)

Section filters.
Context {A : Type} (P : A → Prop) `{∀ x, Decision (P x)}.
Implicit Types (l : list A).

Lemma filter_take_S l i x :
  l !! i = Some x →
  filter P (take (S i) l) = filter P (take i l) ++ (if decide (P x) then [x] else []).
Proof.
  intros Hi. rewrite (take_S_r _ _ x Hi), filter_app, filter_cons, filter_nil. done.
Qed.

Lemma take_drop_delete l i : take i (delete i l) = take i l ∧ drop i (delete i l) = drop (S i) l.
Proof.
  split.
  - revert i. induction l; intros [|i]; simpl; try done. by rewrite IHl.
  - revert i. induction l; intros [|i]; simpl; done || apply IHl.
Qed.

Lemma filter_all l : Forall P l → filter P l = l.
Proof. induction 1; [done|]. by rewrite filter_cons_True, IHForall. Qed.

Lemma filter_none l : Forall (fun x => ¬ P x) l → filter P l = [].
Proof. induction 1; [done|]. by rewrite filter_cons_False. Qed.

(** Deleting the first element that satisfies [P]. *)
Lemma filter_delete_first l i x :
  l !! i = Some x → P x → (∀ j y, l !! j = Some y → (j < i)%nat → ¬ P y) →
  filter P l = x :: filter P (delete i l) ∧
  filter (fun y => ¬ P y) (delete i l) = filter (fun y => ¬ P y) l.
Proof.
  revert i. induction l as [|y l IH]; intros [|i] Hi Hx Hall; simpl in Hi; try done.
  - injection Hi as ->. simpl. rewrite filter_cons_True, filter_cons_False by tauto. done.
  - assert (¬ P y) as Hy by (apply (Hall 0%nat y); [done|lia]).
    destruct (IH i Hi Hx) as [IH1 IH2]; [intros j z Hj Hlt; apply (Hall (S j)); [done|lia]|].
    simpl. rewrite filter_cons_False, IH1, (filter_cons_False P y), !filter_cons_True, IH2 by done.
    done.
Qed.
End filters.

Section removal.
Context `{IoxSpec}.
Implicit Types (m : SegmentedMessageManager) (e : hash_t * SegmentedMessage_t).

Lemma releaseAll_loop_spec publisher it m :
  smm_wf m → (it ≤ vm_end m)%nat →
  ∃ m', releaseAll_loop publisher it m =
          Ok (m', reverse (release_call <$>
                    (filter (fun e => sm_publisher e.2 = publisher) (take it (entries m))).*2)) ∧
    smm_wf m' ∧
    entries m' = filter (fun e => ¬ sm_publisher e.2 = publisher) (take it (entries m))
                 ++ drop it (entries m).
Proof.
  revert m. induction it as [|it IH]; intros m Hm Hit; simpl.
  { by exists m. }
  destruct (lookup_vm_at m it Hm) as (k & msg & -> & He); [lia|]. ostep.
  rewrite !(filter_take_S _ _ _ _ He). simpl.
  destruct (decide (sm_publisher msg = publisher)) as [Hp|Hp].
  - rewrite bool_decide_true by done.
    destruct (IH (vm_erase m it)) as (m' & -> & Hm' & Hent).
    { by apply vm_erase_wf. }
    { pose proof (vm_erase_size _ m it Hm). unfold vm_size, vm_end in *. lia. }
    exists m'. rewrite Hent, !(entries_erase_delete _ m it Hm) by lia.
    destruct (take_drop_delete (entries m) it) as [-> ->]. ostep. split_and!; [|done|].
    + rewrite !fmap_app, reverse_app. done.
    + rewrite (decide_False (P := ¬ _)) by tauto. by rewrite app_nil_r.
  - rewrite bool_decide_false by done. rewrite (decide_True (P := ¬ _)) by done.
    destruct (IH m Hm ltac:(lia)) as (m' & -> & Hm' & Hent).
    exists m'. split_and!; [by rewrite app_nil_r|done|].
    rewrite Hent, <-app_assoc. f_equal. by apply drop_S.
Qed.

Lemma check_spec fuel now m :
  smm_wf m → (vm_size m < fuel)%nat →
  ∃ m', checkSegmentedMessages fuel now m =
          Ok (m', release_call <$> (filter (fun e => expired now e.2) (entries m)).*2) ∧
    smm_wf m' ∧ entries m' = filter (fun e => ¬ expired now e.2) (entries m).
Proof.
  revert m. induction fuel as [|fuel IH]; intros m Hm Hf; [lia|]. cbn [checkSegmentedMessages].
  unfold vm_size, vm_end in *. destruct (Nat.eqb_spec (find_if (expired now) (m_elems m))
    (length (m_elems m))) as [He|He]; simpl.
  - exists m. rewrite find_if_end in He.
    assert (Forall (fun e => ¬ expired now e.2) (entries m)) as Hall.
    { apply Forall_forall. intros e Hin. rewrite He; [auto|].
      rewrite <-(entries_elems _ m Hm). apply list_elem_of_fmap. by exists e. }
    rewrite (filter_all _ _ Hall).
    rewrite (filter_none (fun e => Is_true (expired now e.2)) _ Hall). done.
  - pose proof (find_if_le (expired now) (m_elems m)).
    destruct (find_if_found (expired now) (m_elems m)) as (msg & Hmsg & Hexp); [lia|].
    set (i := find_if (expired now) (m_elems m)) in *.
    unfold vm_at. rewrite Hmsg. ostep.
    assert (i < vm_end m)%nat as Hlt by (unfold vm_end; lia).
    destruct (IH (vm_erase m i)) as (m' & -> & Hm' & Hent).
    { by apply vm_erase_wf. }
    { pose proof (vm_erase_size _ m i Hm Hlt). unfold vm_size in *. lia. }
    destruct (vm_at_entry m i msg Hm Hmsg) as [k Hk].
    rewrite (entries_erase_delete _ m i Hm Hlt) in *.
    destruct (filter_delete_first (fun e => Is_true (expired now e.2)) (entries m) i (k, msg) Hk)
      as [Hf1 Hf2].
    { simpl. by rewrite Hexp. }
    { intros j [k' msg'] [_ Hj]%entries_lookup Hji Hp. simpl in Hp.
      by rewrite (find_if_first _ _ _ _ Hj Hji) in Hp. }
    exists m'. ostep. rewrite Hf1. split_and!; [done..|]. by rewrite Hent.
Qed.
End removal.

(** *** The operations on the abstract map *)

Definition set_remaining (msg : SegmentedMessage_t) (n : Z) : SegmentedMessage_t :=
  mkSegmented n (sm_userHeader msg) (sm_userPayload msg) (sm_mutex msg) (sm_publisher msg)
    (sm_deadline msg).

(** The invariant of the container under the protocol of its clients, which
    push only what [find] does not have. *)
Definition segmented_wf (m : SegmentedMessageManager) : Prop :=
  smm_wf m ∧ NoDup (m_keys m).

Section refinement.
Context `{IoxSpec}.
Implicit Types (m : SegmentedMessageManager) (h : hash_t) (msg : SegmentedMessage_t).

Lemma segmented_empty_wf : segmented_wf vm_empty.
Proof. split; [eauto with p3com|constructor]. Qed.

Lemma to_map_entry m h i msg :
  segmented_wf m → entries m !! i = Some (h, msg) → to_map m !! h = Some msg.
Proof.
  intros [Hm Hnd] Hi. apply (to_map_Some MAX_SEGMENTED_MESSAGE_COUNT); [done..|].
  by eapply list_elem_of_lookup_2.
Qed.

Lemma findAndDecrement_spec m h :
  segmented_wf m →
  ∃ m', segmented_wf m' ∧
    match to_map m !! h with
    | None => findAndDecrement m h = Ok (m, None) ∧ m' = m
    | Some msg =>
        let n := wrap32 (remainingSegments msg - 1) in
        findAndDecrement m h = Ok (m', Some (sm_userHeader msg, sm_userPayload msg, n =? 0)) ∧
        to_map m' = if n =? 0 then delete h (to_map m)
                    else <[h := set_remaining msg n]> (to_map m)
    end.
Proof.
  intros Hwf. pose proof Hwf as [Hm Hnd]. unfold findAndDecrement.
  destruct (find_cases m h Hm) as [[He Hk]|(msg & He & Hat & Hent)].
  - rewrite He, Nat.eqb_refl. exists m. split; [done|].
    by rewrite (proj2 (to_map_None MAX_SEGMENTED_MESSAGE_COUNT m h Hm) Hk).
  - rewrite (proj2 (Nat.eqb_neq _ _) He), Hat, (to_map_entry _ _ _ _ Hwf Hent). ostep. simpl.
    destruct (entries_vm_at _ _ _ _ Hent) as [_ Hlt].
    apply entries_lookup in Hent as [Hkey _].
    assert (h ∈ m_keys m) as Hk by (by eapply list_elem_of_lookup_2).
    destruct (wrap32 (remainingSegments msg - 1) =? 0) eqn:E; eexists; split; [|split; [done|]| |split; [done|]].
    + split; [by apply vm_erase_wf|by eapply vm_erase_NoDup].
    + by apply (vm_erase_to_map MAX_SEGMENTED_MESSAGE_COUNT).
    + split; [by apply vm_set_wf|done].
    + by apply (vm_set_to_map MAX_SEGMENTED_MESSAGE_COUNT).
Qed.

Lemma segmented_find_spec m h :
  segmented_wf m →
  find m h = Ok ((fun msg => (sm_userHeader msg, sm_userPayload msg)) <$> to_map m !! h).
Proof.
  intros Hwf. pose proof Hwf as [Hm Hnd]. unfold find.
  destruct (find_cases m h Hm) as [[He Hk]|(msg & He & Hat & Hent)].
  - rewrite He, Nat.eqb_refl.
    by rewrite (proj2 (to_map_None MAX_SEGMENTED_MESSAGE_COUNT m h Hm) Hk).
  - by rewrite (proj2 (Nat.eqb_neq _ _) He), Hat, (to_map_entry _ _ _ _ Hwf Hent).
Qed.

Lemma segmented_push_spec m h msg :
  segmented_wf m → to_map m !! h = None →
  let '(m', calls) := push m h msg in
  segmented_wf m' ∧
  if decide (vm_size m < MAX_SEGMENTED_MESSAGE_COUNT)%nat
  then to_map m' = <[h := msg]> (to_map m) ∧ calls = []
  else m' = m ∧ calls = [release_call msg].
Proof.
  intros [Hm Hnd] Hh. rewrite (to_map_None MAX_SEGMENTED_MESSAGE_COUNT) in Hh by done.
  unfold push. pose proof (vm_emplace_to_map _ m h msg Hm Hh) as Ht.
  pose proof (vm_emplace_wf _ m h msg Hm) as Hm'.
  pose proof (vm_emplace_NoDup _ m h msg Hm Hnd Hh) as Hnd'.
  rewrite vm_emplace_spec in * by done. by case_decide.
Qed.

Lemma segmented_release_spec m h :
  segmented_wf m →
  ∃ m', release m h = Ok (m', match to_map m !! h with
                              | Some msg => [release_call msg] | None => [] end) ∧
        segmented_wf m' ∧ to_map m' = delete h (to_map m).
Proof.
  intros Hwf. pose proof Hwf as [Hm Hnd]. unfold release.
  destruct (find_cases m h Hm) as [[He Hk]|(msg & He & Hat & Hent)].
  - rewrite He, Nat.eqb_refl. exists m.
    rewrite (proj2 (to_map_None MAX_SEGMENTED_MESSAGE_COUNT m h Hm) Hk). split_and!; [done..|].
    rewrite delete_id; [done|]. by apply (to_map_None MAX_SEGMENTED_MESSAGE_COUNT).
  - rewrite (proj2 (Nat.eqb_neq _ _) He), Hat, (to_map_entry _ _ _ _ Hwf Hent). ostep.
    destruct (entries_vm_at _ _ _ _ Hent) as [_ Hlt].
    apply entries_lookup in Hent as [Hkey _].
    assert (h ∈ m_keys m) as Hk by (by eapply list_elem_of_lookup_2).
    eexists. split; [done|]. split; [|by apply (vm_erase_to_map MAX_SEGMENTED_MESSAGE_COUNT)].
    split; [by apply vm_erase_wf|by eapply vm_erase_NoDup].
Qed.

Lemma keys_filter_NoDup (P : hash_t * SegmentedMessage_t → Prop) `{∀ e, Decision (P e)} m m' :
  segmented_wf m → smm_wf m' → entries m' = filter P (entries m) → segmented_wf m'.
Proof.
  intros [Hm Hnd] Hm' He. split; [done|].
  rewrite <-(entries_keys _ m' Hm'), He. rewrite <-(entries_keys _ m Hm) in Hnd.
  eapply sublist_NoDup; [exact Hnd|]. apply fmap_sublist, sublist_filter.
Qed.

Lemma releaseAll_spec m publisher :
  smm_wf m →
  ∃ m', releaseAll m publisher =
          Ok (m', reverse (release_call <$>
                    (filter (fun e => sm_publisher e.2 = publisher) (entries m)).*2)) ∧
    smm_wf m' ∧ entries m' = filter (fun e => ¬ sm_publisher e.2 = publisher) (entries m).
Proof.
  intros Hm. destruct (releaseAll_loop_spec publisher (vm_end m) m Hm) as (m' & He & Hm' & Hent); [done|].
  exists m'. unfold releaseAll. rewrite He, Hent.
  assert (length (entries m) = vm_end m) as Hl by (by apply entries_length with MAX_SEGMENTED_MESSAGE_COUNT).
  rewrite take_ge, drop_ge, app_nil_r by lia. done.
Qed.
End refinement.

#[export] Hint Resolve segmented_empty_wf keys_filter_NoDup : p3com.

(** ** The interleavings *)

(** What a call did, as its caller and the publishers see it. *)
Inductive SegmentedLabel :=
  | LPush (messageHash : hash_t) (msg : SegmentedMessage_t) (calls : list IoxEvent)
  | LFindAndDecrement (messageHash : hash_t) (result : option (Ptr * Ptr * bool))
  | LRelease (messageHash : hash_t) (calls : list IoxEvent)
  | LReleaseAll (publisher : UniquePortId) (calls : list IoxEvent)
  | LCheck (now : Z) (calls : list IoxEvent).

Section steps.
Context `{Iox}.

Inductive segmented_step
    : SegmentedMessageManager → SegmentedLabel → SegmentedMessageManager → Prop :=
  | sstep_push m h msg m' calls :
      push m h msg = (m', calls) → segmented_step m (LPush h msg calls) m'
  | sstep_find m h m' result :
      findAndDecrement m h = Ok (m', result) → segmented_step m (LFindAndDecrement h result) m'
  | sstep_release m h m' calls :
      release m h = Ok (m', calls) → segmented_step m (LRelease h calls) m'
  | sstep_releaseAll m publisher m' calls :
      releaseAll m publisher = Ok (m', calls) → segmented_step m (LReleaseAll publisher calls) m'
  | sstep_check m fuel now m' calls :
      checkSegmentedMessages fuel now m = Ok (m', calls) → (vm_size m < fuel)%nat →
      segmented_step m (LCheck now calls) m'.

Inductive segmented_run : list SegmentedLabel → SegmentedMessageManager → Prop :=
  | srun_init : segmented_run [] vm_empty
  | srun_step trace l m m' :
      segmented_run trace m → segmented_step m l m' → segmented_run (trace ++ [l]) m'.
End steps.

(** The chunks handed over to the manager, and the chunks it gives up: released
    to their publisher, or returned to the caller to be published. *)
Definition taken_in (l : SegmentedLabel) : list Ptr :=
  match l with LPush _ msg _ => [sm_userPayload msg] | _ => [] end.

Definition released_by (calls : list IoxEvent) : list Ptr :=
  (fun c => match c with
            | SubscriberRelease _ p | PublisherRelease _ p | PublisherPublish _ p => p
            end) <$> calls.

Definition given_up (l : SegmentedLabel) : list Ptr :=
  match l with
  | LPush _ _ calls | LRelease _ calls | LReleaseAll _ calls | LCheck _ calls => released_by calls
  | LFindAndDecrement _ (Some (_, userPayload, true)) => [userPayload]
  | LFindAndDecrement _ _ => []
  end.

Definition held (m : SegmentedMessageManager) : list Ptr := sm_userPayload <$> m_elems m.

Section conservation.
Context `{IoxSpec}.
Implicit Types (m : SegmentedMessageManager).

Lemma held_entries m : smm_wf m → held m = (fun e => sm_userPayload e.2) <$> entries m.
Proof. intros Hm. unfold held. rewrite <-(entries_elems _ m Hm). by rewrite <-list_fmap_compose. Qed.

Lemma held_erase m i k msg :
  smm_wf m → entries m !! i = Some (k, msg) → sm_userPayload msg :: held (vm_erase m i) ≡ₚ held m.
Proof.
  intros Hm Hi. destruct (entries_vm_at _ _ _ _ Hi) as [_ Hlt].
  rewrite !held_entries by (done || by apply vm_erase_wf).
  rewrite <-(entries_erase _ m i k msg Hm Hi). done.
Qed.

Lemma held_set m i msg msg' :
  vm_at m i = Some msg → sm_userPayload msg' = sm_userPayload msg →
  held (vm_set m i msg') = held m.
Proof.
  intros Hi Hp. unfold held. simpl. rewrite list_fmap_insert. apply list_insert_id.
  rewrite list_lookup_fmap, Hp. unfold vm_at in Hi. by rewrite Hi.
Qed.

Lemma held_filter (P : hash_t * SegmentedMessage_t → Prop) `{∀ e, Decision (P e)} m m' :
  smm_wf m → smm_wf m' → entries m' = filter (fun e => ¬ P e) (entries m) →
  released_by (release_call <$> (filter P (entries m)).*2) ++ held m' ≡ₚ held m.
Proof.
  intros Hm Hm' He. rewrite !held_entries, He by done.
  rewrite <-(filter_app_complement P (entries m)) at 3. rewrite fmap_app.
  apply Permutation_app; [|done]. unfold released_by. by rewrite <-!list_fmap_compose.
Qed.

Lemma segmented_step_held m l m' :
  smm_wf m → segmented_step m l m' →
  smm_wf m' ∧ taken_in l ++ held m ≡ₚ given_up l ++ held m'.
Proof.
  intros Hm Hst. destruct Hst as [m h msg m' calls Hp|m h m' r Hf|m h m' calls Hr
    |m publisher m' calls Hr|m fuel now m' calls Hc Hfuel]; simpl.
  - unfold push in Hp. rewrite vm_emplace_spec in Hp by done. pose proof (vm_emplace_wf _ m h msg Hm) as Hm'.
    rewrite vm_emplace_spec in Hm' by done. case_decide; injection Hp as <- <-; simpl in *; [|done].
    split; [done|]. unfold held. simpl. rewrite fmap_app. simpl. by rewrite Permutation_app_comm.
  - unfold findAndDecrement in Hf. destruct (find_cases m h Hm) as [[He Hk]|(msg & He & Hat & Hent)].
    + rewrite He, Nat.eqb_refl in Hf. by injection Hf as <- <-.
    + rewrite (proj2 (Nat.eqb_neq _ _) He), Hat in Hf. revert Hf. ostep. simpl.
      destruct (entries_vm_at _ _ _ _ Hent) as [_ Hlt].
      destruct (_ =? 0); intros [= <- <-]; simpl.
      * split; [by apply vm_erase_wf|]. by rewrite held_erase.
      * split; [by apply vm_set_wf|]. by rewrite (held_set m _ msg).
  - unfold release in Hr. destruct (find_cases m h Hm) as [[He Hk]|(msg & He & Hat & Hent)].
    + rewrite He, Nat.eqb_refl in Hr. by injection Hr as <- <-.
    + rewrite (proj2 (Nat.eqb_neq _ _) He), Hat in Hr. revert Hr. ostep. intros [= <- <-]. simpl.
      destruct (entries_vm_at _ _ _ _ Hent) as [_ Hlt].
      split; [by apply vm_erase_wf|]. by rewrite held_erase.
  - destruct (releaseAll_spec m publisher Hm) as (m1 & He & Hm1 & Hent).
    rewrite Hr in He. injection He as -> ->. split; [done|].
    rewrite <-(held_filter (fun e => sm_publisher e.2 = publisher) m m1 Hm Hm1 Hent).
    apply Permutation_app; [|done]. unfold released_by.
    apply fmap_Permutation. symmetry. apply reverse_Permutation.
  - destruct (check_spec fuel now m Hm Hfuel) as (m1 & He & Hm1 & Hent).
    rewrite Hc in He. injection He as -> ->. split; [done|].
    by rewrite (held_filter (fun e => Is_true (expired now e.2)) m m1 Hm Hm1 Hent).
Qed.
End conservation.

(** ** Properties *)

(** The results of [n] calls of [findAndDecrement]. *)
Fixpoint findAndDecrement_times `{Iox} (n : nat) (m : SegmentedMessageManager) (h : hash_t)
    : Outcome (SegmentedMessageManager * list (option (Ptr * Ptr * bool))) :=
  match n with
  | O => Ok (m, [])
  | S n =>
      '(m, r) ← findAndDecrement m h;
      '(m, rs) ← findAndDecrement_times n m h;
      Ok (m, r :: rs)
  end.

Section properties.
Context `{IoxSpec}.

(** Chunks are conserved: after any sequence of operations, the chunks that were
    handed to the manager are, each exactly once, those it has released to their
    publisher, those it has returned to be published, and those it still holds.  So no
    chunk leaks, is released twice, or is released after it was published. *)
Theorem segmented_chunks_conserved (trace : list SegmentedLabel) (m : SegmentedMessageManager) :
  segmented_run trace m →
  concat (taken_in <$> trace) ≡ₚ concat (given_up <$> trace) ++ held m.
Proof.
  intros Hrun. enough (smm_wf m ∧ concat (taken_in <$> trace) ≡ₚ concat (given_up <$> trace) ++ held m)
    as [_ ?] by done.
  induction Hrun as [|trace l m m' _ [Hm IH] Hst]; [by split; [apply vm_empty_wf|]|].
  destruct (segmented_step_held m l m' Hm Hst) as [Hm' Hl]. split; [done|].
  rewrite !fmap_app, !concat_app. simpl. rewrite !app_nil_r, IH, <-!app_assoc.
  f_equiv. by rewrite (Permutation_app_comm (held m)).
Qed.

(** A message registered with [n + 1] remaining segments is given to the caller on
    each of the next [n + 1] segments, is to be published at the last of them and at no
    earlier one, and is then forgotten; no other message is touched. *)
Theorem published_at_last_segment (m : SegmentedMessageManager) (h : hash_t)
    (msg : SegmentedMessage_t) (n : nat) :
  segmented_wf m → to_map m !! h = Some msg →
  remainingSegments msg = Z.of_nat (S n) → is_u32 (remainingSegments msg) →
  let res := (sm_userHeader msg, sm_userPayload msg) in
  ∃ m', findAndDecrement_times (S n) m h =
          Ok (m', replicate n (Some (res, false)) ++ [Some (res, true)]) ∧
        segmented_wf m' ∧ to_map m' = delete h (to_map m).
Proof.
  revert m msg. induction n as [|n IH]; intros m msg Hm Hh Hn Hu res;
    destruct (findAndDecrement_spec m h Hm) as (m1 & Hm1 & Hf); rewrite Hh, Hn in Hf.
  - destruct Hf as [Hf Hmap]. exists m1. simpl. rewrite Hf. by ostep.
  - assert (wrap32 (Z.of_nat (S (S n)) - 1) = Z.of_nat (S n)) as Hw.
    { rewrite wrap32_small; [lia|]. unfold is_u32 in *. lia. }
    cbv zeta in Hf. rewrite Hw in Hf. destruct Hf as [Hf Hmap].
    assert (to_map m1 !! h = Some (set_remaining msg (Z.of_nat (S n)))) as Hh1
      by (rewrite Hmap; apply lookup_insert_eq).
    destruct (IH m1 _ Hm1 Hh1 eq_refl) as (m2 & Hf2 & Hm2 & Hmap2).
    { simpl. unfold is_u32 in *. lia. }
    exists m2. split_and!; [|done|].
    + change (findAndDecrement_times (S (S n)) m h) with
        ('(m, r) ← findAndDecrement m h; '(m, rs) ← findAndDecrement_times (S n) m h; Ok (m, r :: rs)).
      rewrite Hf. ostep. rewrite Hf2. ostep. done.
    + rewrite Hmap2, Hmap. simpl. apply delete_insert_eq.
Qed.

(** The timeout check terminates within one iteration more than there are messages,
    releases exactly the messages whose deadline has passed, each once and in the order
    they were registered, and leaves the others as they were. *)
Theorem check_releases_expired (now : Z) (m : SegmentedMessageManager) :
  segmented_wf m →
  ∃ m', checkSegmentedMessages (S (vm_size m)) now m =
          Ok (m', release_call <$> (filter (fun e => expired now e.2) (entries m)).*2) ∧
    segmented_wf m' ∧ entries m' = filter (fun e => ¬ expired now e.2) (entries m).
Proof.
  intros Hwf. destruct (check_spec (S (vm_size m)) now m (proj1 Hwf)) as (m' & He & Hm' & Hent); [lia|].
  exists m'. split_and!; [done| |done]. by eapply keys_filter_NoDup.
Qed.

(** Deleting a channel releases every message of its publisher, latest first, and
    no message of another publisher; the reverse iteration never uses an iterator
    that an erasure has invalidated. *)
Theorem releaseAll_releases_publisher (m : SegmentedMessageManager) (publisher : UniquePortId) :
  segmented_wf m →
  ∃ m', releaseAll m publisher =
          Ok (m', reverse (release_call <$>
                    (filter (fun e => sm_publisher e.2 = publisher) (entries m)).*2)) ∧
    segmented_wf m' ∧ entries m' = filter (fun e => ¬ sm_publisher e.2 = publisher) (entries m).
Proof.
  intros Hwf. destruct (releaseAll_spec m publisher (proj1 Hwf)) as (m' & He & Hm' & Hent).
  exists m'. split_and!; [done| |done]. by eapply keys_filter_NoDup.
Qed.
End properties.

(** ** Witnesses *)

Definition example_segmented : SegmentedMessageManager :=
  mkMap [11; 12; 13] [mkSegmented 2 0 64 Transport2IceoryxEndpoints 5 900;
                      mkSegmented 1 96 128 Transport2IceoryxEndpoints 6 1000;
                      mkSegmented 7 0 256 Transport2IceoryxEndpoints 5 1100].

Lemma example_segmented_wf : segmented_wf example_segmented.
Proof.
  split; [split; simpl; unfold MAX_SEGMENTED_MESSAGE_COUNT; lia|].
  apply (bool_decide_unpack _). vm_compute. exact I.
Qed.

Lemma segmented_chunks_conserved_witness :
  let trace := [LPush 11 (mkSegmented 1 0 64 Transport2IceoryxEndpoints 5 900) [];
                LFindAndDecrement 11 (Some (0, 64, true))] in
  @segmented_run ref_iox trace vm_empty ∧
  concat (taken_in <$> trace) ≡ₚ concat (given_up <$> trace) ++ held vm_empty.
Proof.
  set (msg := mkSegmented 1 0 64 Transport2IceoryxEndpoints 5 900).
  assert (@segmented_run ref_iox [LPush 11 msg []; LFindAndDecrement 11 (Some (0, 64, true))] vm_empty)
    as Hrun.
  { apply (srun_step [LPush 11 msg []] _ (@push ref_iox vm_empty 11 msg).1).
    - apply (srun_step [] _ vm_empty); [apply srun_init|].
      apply sstep_push. vm_compute. reflexivity.
    - apply sstep_find. vm_compute. reflexivity. }
  split; [exact Hrun|].
  exact (@segmented_chunks_conserved ref_iox ref_iox_spec _ _ Hrun).
Defined.

Lemma published_at_last_segment_witness :
  segmented_wf example_segmented ∧
  ∃ m', @findAndDecrement_times ref_iox 2 example_segmented 11 =
          Ok (m', [Some (0, 64, false); Some (0, 64, true)]) ∧
        segmented_wf m' ∧ to_map m' = delete 11 (to_map example_segmented).
Proof.
  split; [exact example_segmented_wf|].
  refine (@published_at_last_segment ref_iox ref_iox_spec example_segmented 11
            (mkSegmented 2 0 64 Transport2IceoryxEndpoints 5 900) 1 example_segmented_wf _ eq_refl _).
  - vm_compute. reflexivity.
  - split; simpl; lia.
Defined.

Lemma check_releases_expired_witness :
  segmented_wf example_segmented ∧
  ∃ m', @checkSegmentedMessages ref_iox 4 1050 example_segmented =
          Ok (m', [PublisherRelease 5 64; PublisherRelease 6 128]) ∧
    segmented_wf m' ∧ entries m' = filter (fun e => ¬ expired 1050 e.2) (entries example_segmented).
Proof.
  split; [exact example_segmented_wf|].
  exact (@check_releases_expired ref_iox ref_iox_spec 1050 example_segmented example_segmented_wf).
Defined.

Lemma releaseAll_releases_publisher_witness :
  segmented_wf example_segmented ∧
  ∃ m', @releaseAll ref_iox example_segmented 5 =
          Ok (m', [PublisherRelease 5 256; PublisherRelease 5 64]) ∧
    segmented_wf m' ∧
    entries m' = filter (fun e => ¬ sm_publisher e.2 = 5) (entries example_segmented).
Proof.
  split; [exact example_segmented_wf|].
  exact (@releaseAll_releases_publisher ref_iox ref_iox_spec example_segmented 5 example_segmented_wf).
Defined.
