(* ===== verification/Startup.v ===== *)
(** * Startup: the command line, the configuration file and the transports

    source/p3com/gateway/cmd_line.cpp, gateway_config.cpp, the constructor of
    gateway_app.cpp, and main.cpp.

    [getopt_long], the file reader and the TOML parser are not part of the
    repository: the model starts from the options [getopt_long] returns and from
    the values the parser finds in the file. *)

From Stdlib Require Import String Strings.Byte.
From stdpp Require Import base list gmap.
From S2P Require Import Prelude.
From S2P Require Import Iox.
From S2P Require Import Types.
From S2P Require Import TransportInfo.

Open Scope Z_scope.

(** ** cmd_line.hpp, cmd_line.cpp *)

Inductive LogLevel := kOff | kFatal | kError | kWarn | kInfo | kDebug | kVerbose.

Record CmdLineArgs_t := mkArgs {
  logLevel : LogLevel;
  enabledTransports : list bool;
  enabledTransportSpecified : bool;
  configFile : bytes;
  run : bool
}.

(** One result of [getopt_long]: [opt] and [optarg]. *)
Record Option_t := mkOption {
  opt : Byte.byte;
  optarg : bytes
}.

Definition str (s : string) : bytes := String.list_byte_of_string s.

Definition set_logLevel (l : LogLevel) (c : CmdLineArgs_t) : CmdLineArgs_t :=
  mkArgs l (enabledTransports c) (enabledTransportSpecified c) (configFile c) (run c).
Definition enable_transport (t : TransportType) (c : CmdLineArgs_t) : CmdLineArgs_t :=
  mkArgs (logLevel c) (<[Z.to_nat (index t) := true]> (enabledTransports c)) true (configFile c) (run c).
Definition set_configFile (path : bytes) (c : CmdLineArgs_t) : CmdLineArgs_t :=
  mkArgs (logLevel c) (enabledTransports c) (enabledTransportSpecified c) path (run c).
Definition dont_run (c : CmdLineArgs_t) : CmdLineArgs_t :=
  mkArgs (logLevel c) (enabledTransports c) (enabledTransportSpecified c) (configFile c) false.

(** The chain of [strcmp]. *)
Definition level_named (name : bytes) : option LogLevel :=
  if bool_decide (name = str "off") then Some kOff
  else if bool_decide (name = str "fatal") then Some kFatal
  else if bool_decide (name = str "error") then Some kError
  else if bool_decide (name = str "warning") then Some kWarn
  else if bool_decide (name = str "info") then Some kInfo
  else if bool_decide (name = str "debug") then Some kDebug
  else if bool_decide (name = str "verbose") then Some kVerbose
  else None.

Definition CmdLineArgs_init : CmdLineArgs_t :=
  mkArgs kWarn (replicate TRANSPORT_TYPE_COUNT false) false [] true.

Section cmd_line.
Context (CONFIG_PATH_CAPACITY : nat).

(** The switch of the loop, on [config], [wasUdp] and [wasTcp]. *)
Definition parse_option (s : CmdLineArgs_t * bool * bool) (o : Option_t) : CmdLineArgs_t * bool * bool :=
  let '(config, wasUdp, wasTcp) := s in
  if bool_decide (opt o = "h"%byte) then (dont_run config, wasUdp, wasTcp)
  else if bool_decide (opt o = "p"%byte) then (enable_transport PCIE config, wasUdp, wasTcp)
  else if bool_decide (opt o = "u"%byte) then
    if (wasTcp : bool) then (dont_run config, wasUdp, wasTcp)
    else (enable_transport UDP config, true, wasTcp)
  else if bool_decide (opt o = "t"%byte) then
    if (wasUdp : bool) then (dont_run config, wasUdp, wasTcp)
    else (enable_transport TCP config, wasUdp, true)
  else if bool_decide (opt o = "l"%byte) then
    match level_named (optarg o) with
    | Some l => (set_logLevel l config, wasUdp, wasTcp)
    | None => (dont_run config, wasUdp, wasTcp)
    end
  else if bool_decide (opt o = "L"%byte) then (set_logLevel kInfo config, wasUdp, wasTcp)
  else if bool_decide (opt o = "c"%byte) then
    (set_configFile (take CONFIG_PATH_CAPACITY (optarg o)) config, wasUdp, wasTcp)
  else (dont_run config, wasUdp, wasTcp).

(** [options] is what [getopt_long] returns before it returns -1. *)
Definition parse_cmd_line (options : list Option_t) : CmdLineArgs_t :=
  (foldl parse_option (CmdLineArgs_init, false, false) options).1.1.

(** *** What the options mean *)

Definition given (c : Byte.byte) (options : list Option_t) : bool :=
  existsb (fun o => bool_decide (opt o = c)) options.

Definition level_of (o : Option_t) : option LogLevel :=
  if bool_decide (opt o = "l"%byte) then level_named (optarg o)
  else if bool_decide (opt o = "L"%byte) then Some kInfo else None.

Definition path_of (o : Option_t) : option bytes :=
  if bool_decide (opt o = "c"%byte) then Some (take CONFIG_PATH_CAPACITY (optarg o)) else None.

(** An option with which the gateway may run. *)
Definition acceptable (o : Option_t) : bool :=
  if bool_decide (opt o = "l"%byte)
  then match level_named (optarg o) with Some _ => true | None => false end
  else bool_decide (opt o ∈ ["p"; "u"; "t"; "L"; "c"]%byte).

Lemma given_snoc c options o : given c (options ++ [o]) = given c options || bool_decide (opt o = c).
Proof. unfold given. rewrite existsb_app. simpl. by rewrite orb_false_r. Qed.

(** What the loop has built after [options]. *)
Definition parsed (options : list Option_t) (s : CmdLineArgs_t * bool * bool) : Prop :=
  let '(c, wasUdp, wasTcp) := s in
  (run c = true ↔ forallb acceptable options = true ∧ ¬ (given "u" options = true ∧ given "t" options = true)) ∧
  enabledTransports c = [false; given "p" options; wasUdp; wasTcp] ∧
  (wasUdp = true → wasTcp = true → False) ∧
  wasUdp || wasTcp = given "u" options || given "t" options ∧
  (wasUdp = true → given "u" options = true) ∧ (wasTcp = true → given "t" options = true) ∧
  enabledTransportSpecified c = given "p" options || wasUdp || wasTcp ∧
  logLevel c = default kWarn (last (omap level_of options)) ∧
  configFile c = default [] (last (omap path_of options)).

(** Decides the tests of an option. *)
Ltac option_test :=
  first [done|congruence|match goal with |- ?G => refine (@bool_decide_unpack G _ _); vm_compute; exact I end
        |rewrite !elem_of_cons, elem_of_nil; intuition congruence].
Ltac option_tests :=
  repeat match goal with
  | |- context [bool_decide ?P] =>
      first [rewrite (bool_decide_true P) by option_test|rewrite (bool_decide_false P) by option_test]
  end.

(** The fields of [parsed] that an option does not change, or sets to a constant. *)
Ltac parsed_fields :=
  cbn; rewrite ?orb_false_r, ?orb_true_r, ?andb_true_r, ?andb_false_r; split_and!;
  first [assumption|done|split; [done|by intros [? _]]|split; [done|by intros [_ []]]|idtac].

Lemma parse_option_parsed options s o :
  parsed options s → parsed (options ++ [o]) (parse_option s o).
Proof.
  destruct s as [[c wasUdp] wasTcp], o as [ch arg].
  intros (Hrun & Hen & Hboth & Hor & Hu & Ht & Hsp & Hlv & Hcf).
  assert (∀ {B} (f : Option_t → option B) d,
    default d (last (omap f (options ++ [mkOption ch arg]))) =
    match f (mkOption ch arg) with Some x => x | None => default d (last (omap f options)) end) as Hlast.
  { intros B f d. rewrite omap_app. simpl. destruct (f _); [by rewrite last_snoc|by rewrite app_nil_r]. }
  assert (forallb acceptable (options ++ [mkOption ch arg]) =
    forallb acceptable options && acceptable (mkOption ch arg)) as Hacc
    by (rewrite forallb_app; simpl; by rewrite andb_true_r).
  unfold parsed. rewrite !given_snoc, Hacc, !Hlast. clear Hlast Hacc.
  set (acc := forallb acceptable options) in *.
  unfold parse_option, acceptable, level_of, path_of. cbn [opt optarg].
  destruct (decide (ch = "l"%byte)) as [->|Hl].
  { option_tests. destruct (level_named arg); parsed_fields. }
  destruct (decide (ch ∈ ["h"; "p"; "u"; "t"; "L"; "c"]%byte)) as [Hin|Hout].
  2:{ rewrite !not_elem_of_cons in Hout. destruct Hout as (? & ? & ? & ? & ? & ? & _).
      option_tests. parsed_fields. }
  repeat (apply elem_of_cons in Hin as [->|Hin]; [option_tests|]); [..|by apply elem_of_nil in Hin].
  - parsed_fields.
  - unfold enable_transport. rewrite Hen. parsed_fields.
  - destruct wasTcp; [pose proof (Ht eq_refl) as Hgt; rewrite Hgt; parsed_fields; by rewrite Hsp, orb_true_r|].
    unfold enable_transport. rewrite Hen. parsed_fields. rewrite orb_false_r in Hor.
    rewrite Hrun. split; intros [? Hn]; (split; [done|]); intros [Hg1 Hg2]; apply Hn; [|done].
    split; [|done]. apply Hu. by rewrite Hor, Hg2, orb_true_r.
  - destruct wasUdp; [pose proof (Hu eq_refl) as Hgu; rewrite Hgu; parsed_fields; by rewrite Hsp, orb_true_r|].
    unfold enable_transport. rewrite Hen. parsed_fields.
    rewrite Hrun. split; intros [? Hn]; (split; [done|]); intros [Hg1 Hg2]; apply Hn; [|done].
    split; [done|]. apply Ht. simpl in Hor. by rewrite Hor, Hg1.
  - parsed_fields.
  - parsed_fields.
Qed.

Lemma parse_loop options : parsed options (foldl parse_option (CmdLineArgs_init, false, false) options).
Proof.
  induction options as [|o options IH] using rev_ind.
  { cbn. split_and!; try done. split; [|done]. intros _. split; [done|]. by intros [? _]. }
  rewrite foldl_snoc. by apply parse_option_parsed.
Qed.
End cmd_line.

(** ** gateway_config.hpp, gateway_config.cpp *)

Record GatewayConfig_t := mkConfig {
  preferredTransport : TransportType;
  forwardedServices : list ServiceDescription
}.

(** An element of the table array "forwarded-service": the values of its keys,
    if they are there. *)
Record TomlService := mkTomlService {
  toml_service : option bytes;
  toml_instance : option bytes;
  toml_event : option bytes
}.

(** What the file reader and the TOML parser return. *)
Inductive ConfigFile :=
  | NotOpen
  | NotToml
  | Toml (preferred : option bytes) (services : option (list TomlService)).

Definition DEFAULT_CONFIG_FILE_PATH : bytes := str "/etc/iceoryx/p3com.toml".

Definition GatewayConfig_init : GatewayConfig_t := mkConfig NONE [].

(** [std::find] compares each element with [==], which dereferences it. *)
Fixpoint find_name (names : list (option bytes)) (name : bytes) : Outcome nat :=
  match names with
  | [] => Ok 0%nat
  | None :: _ => UndefinedBehaviour
  | Some n :: names => if bool_decide (n = name) then Ok 0%nat else i ← find_name names name; Ok (S i)
  end.

Section gateway_config.
Context `{Iox}.

(** [capro::IdString_t{cxx::TruncateToCapacity, *value}]. *)
Definition id_string (value : option bytes) : Outcome IdString :=
  v ← deref value; Ok (take IdString_capacity v).

Definition add_service (config : GatewayConfig_t) (service : TomlService) : Outcome GatewayConfig_t :=
  serviceValue ← id_string (toml_service service);
  instanceValue ← id_string (toml_instance service);
  eventValue ← id_string (toml_event service);
  Ok (mkConfig (preferredTransport config)
        (push_back MAX_FORWARDED_SERVICES (forwardedServices config)
           (mkService serviceValue instanceValue eventValue)).1).

Definition set_preferred (preferred : option bytes) (config : GatewayConfig_t) : Outcome GatewayConfig_t :=
  match preferred with
  | None => Ok config
  | Some name =>
      it ← find_name TRANSPORT_TYPE_NAMES name;
      if (it =? length TRANSPORT_TYPE_NAMES)%nat then Ok config
      else Ok (mkConfig (type (Z.of_nat it)) (forwardedServices config))
  end.

(** [read] is the file system with the parser, [TOML_CONFIG] whether the
    gateway was built with it. *)
Definition parse_config (TOML_CONFIG : bool) (read : bytes → ConfigFile) (path : bytes)
    : Outcome GatewayConfig_t :=
  if TOML_CONFIG then
    let path := if (length path =? 0)%nat then DEFAULT_CONFIG_FILE_PATH else path in
    match read path with
    | NotOpen | NotToml => Ok GatewayConfig_init
    | Toml preferred services =>
        config ← set_preferred preferred GatewayConfig_init;
        for_each (fun service config => add_service config service) (default [] services) config
    end
  else Ok GatewayConfig_init.
End gateway_config.

(** ** gateway_app.cpp: the constructor; main.cpp *)

Section gateway_app.
Context `{Iox} `{TransportLayer}.

Definition enableTransports (b : BuildConfig) (args : CmdLineArgs_t) (ti : TransportInfo)
    : Outcome TransportInfo :=
  if enabledTransportSpecified args then
    for_each (fun i ti =>
      enabled ← deref (enabledTransports args !! i);
      if (enabled : bool) then enable b ti (type (Z.of_nat i)) else Ok ti)
      (seq 0 TRANSPORT_TYPE_COUNT) ti
  else enableAll b ti.

Definition GatewayApp_init (b : BuildConfig) (args : CmdLineArgs_t) (config : GatewayConfig_t)
    : Outcome (TransportInfo * GatewayConfig_t) :=
  ti ← enableTransports b args TransportInfo_init;
  let preferred := preferredTransport config in
  Ok (ti, if negb (bool_decide (preferred = NONE)) && negb (bit (s_bitset ti) (index preferred))
          then mkConfig NONE (forwardedServices config) else config).

(** [main] up to [gateway.run()]; [None] when the gateway does not run. *)
Definition main (CONFIG_PATH_CAPACITY : nat) (b : BuildConfig) (TOML_CONFIG : bool)
    (read : bytes → ConfigFile) (options : list Option_t)
    : Outcome (option (TransportInfo * GatewayConfig_t)) :=
  let args := parse_cmd_line CONFIG_PATH_CAPACITY options in
  if run args then
    config ← parse_config TOML_CONFIG read (configFile args);
    app ← GatewayApp_init b args config;
    Ok (Some app)
  else Ok None.
End gateway_app.

(** ** Properties *)

(** The command line is read as its options say, whatever their order: the gateway
    runs unless help was asked for, an option or a log level is unknown, or UDP and TCP
    are both asked for; then exactly the transports asked for are enabled, and the last
    log level and the last configuration file count.  UDP and TCP are never both
    enabled. *)
Theorem cmd_line_spec (CONFIG_PATH_CAPACITY : nat) (options : list Option_t) :
  let c := parse_cmd_line CONFIG_PATH_CAPACITY options in
  (run c = true ↔ forallb acceptable options = true ∧ ¬ (given "u" options = true ∧ given "t" options = true)) ∧
  length (enabledTransports c) = TRANSPORT_TYPE_COUNT ∧
  ¬ (enabledTransports c !! 2%nat = Some true ∧ enabledTransports c !! 3%nat = Some true) ∧
  (run c = true →
     enabledTransports c = [false; given "p" options; given "u" options; given "t" options] ∧
     enabledTransportSpecified c = given "p" options || given "u" options || given "t" options) ∧
  logLevel c = default kWarn (last (omap level_of options)) ∧
  configFile c = default [] (last (omap (path_of CONFIG_PATH_CAPACITY) options)).
Proof.
  intros c. unfold c, parse_cmd_line. pose proof (parse_loop CONFIG_PATH_CAPACITY options) as Hp.
  destruct (foldl _ _ options) as [[args wasUdp] wasTcp]. cbn [fst].
  destruct Hp as (Hrun & Hen & Hboth & Hor & Hu & Ht & Hsp & Hlv & Hcf).
  rewrite Hen, Hsp. split_and!; try done.
  - simpl. intros [[= ->] [= ->]]. by apply Hboth.
  - intros [_ Hnot]%Hrun. destruct wasUdp, wasTcp, (given "u" options), (given "t" options);
      naive_solver.
Qed.

(** The transport types the gateway starts with. *)
Definition requested (b : BuildConfig) (options : list Option_t) (t : TransportType) : bool :=
  if given "p" options || given "u" options || given "t" options
  then match t with
       | PCIE => given "p" options | UDP => given "u" options | TCP => given "t" options | _ => false
       end
  else compiled_in b t && negb (bool_decide (t = UDP) && TCP_GATEWAY b).

Section startup.
Context `{Iox} `{TransportLayer}.

Lemma enableTransports_requested b args options :
  enabledTransports args = [false; given "p" options; given "u" options; given "t" options] →
  enabledTransportSpecified args = given "p" options || given "u" options || given "t" options →
  ∃ ti, enableTransports b args TransportInfo_init = Ok ti ∧ transports_wf ti ∧
    bit (s_bitset ti) 0 = false ∧ bit (s_bitset ti) 4 = false ∧
    ∀ t, t ∈ [PCIE; UDP; TCP] → bit (s_bitset ti) (index t) = requested b options t ∧
      s_transports ti !! Z.to_nat (index t) =
        Some (if requested b options t && compiled_in b t then Some (make_transport t) else None).
Proof.
  intros Hen Hsp. unfold enableTransports, requested. rewrite Hen, Hsp. clear Hen Hsp.
  match goal with T : TransportLayer |- _ => destruct T as [? ? ? ? cf] end.
  destruct b as [[] [] []], (given "p" options), (given "u" options), (given "t" options);
    (eexists; split; [vm_compute; reflexivity|]); (split;
    [split_and!; [reflexivity|intros [|[|[|[|i]]]] t [=]; subst;
       (split_and!; [repeat first [by left|right]|reflexivity|by simpl; destruct (cf _)])|unfold is_u64; simpl; lia]|]);
    (split; [reflexivity|]); (split; [reflexivity|]); intros t Ht;
    repeat (apply elem_of_cons in Ht as [->|Ht]; [split; reflexivity|]); by apply elem_of_nil in Ht.
Qed.

(** When the gateway starts, the registry of transports is well formed, announces
    exactly the transports asked for, or without a choice all it was built with except
    UDP next to TCP, and holds a transport for each of them it was built with; the
    preferred type is the configured one if it is among them and none otherwise. *)
Theorem startup_spec (CONFIG_PATH_CAPACITY : nat) (b : BuildConfig) (options : list Option_t)
    (config : GatewayConfig_t) :
  let args := parse_cmd_line CONFIG_PATH_CAPACITY options in
  run args = true → preferredTransport config ∈ type <$> [0; 1; 2; 3; 4] →
  ∃ ti config', GatewayApp_init b args config = Ok (ti, config') ∧ transports_wf ti ∧
    (∀ t, t ∈ [PCIE; UDP; TCP] → bit (s_bitset ti) (index t) = requested b options t ∧
       s_transports ti !! Z.to_nat (index t) =
         Some (if requested b options t && compiled_in b t then Some (make_transport t) else None)) ∧
    ¬ (requested b options UDP = true ∧ requested b options TCP = true) ∧
    preferredTransport config' =
      (if bool_decide (preferredTransport config ∈ [PCIE; UDP; TCP]) &&
          requested b options (preferredTransport config) then preferredTransport config else NONE) ∧
    forwardedServices config' = forwardedServices config.
Proof.
  intros args Hrun Hpref. pose proof (parse_loop CONFIG_PATH_CAPACITY options) as Hp.
  unfold args, parse_cmd_line in *. clear args.
  destruct (foldl _ _ options) as [[args wasUdp] wasTcp]. cbn [fst] in *.
  destruct Hp as (Hr & Hen & Hboth & Hor & Hu & Ht & Hsp & _ & _). apply Hr in Hrun as [_ Hnot].
  assert (wasUdp = given "u" options ∧ wasTcp = given "t" options) as [-> ->].
  { destruct wasUdp, wasTcp, (given "u" options), (given "t" options); naive_solver. }
  destruct (enableTransports_requested b args options Hen Hsp) as (ti & He & Hwf & Hb0 & Hb4 & Hti).
  unfold GatewayApp_init. rewrite He. ostep. eexists ti, _. split; [done|]. split_and!; [apply Hwf..|done| | |].
  - unfold requested. destruct (given "p" options), (given "u" options), (given "t" options), b as [[] [] []];
      naive_solver.
  - destruct (decide (preferredTransport config ∈ [PCIE; UDP; TCP])) as [Hin|Hout].
    + rewrite (bool_decide_true (_ ∈ _)), (proj1 (Hti _ Hin)), bool_decide_false by
        (done || (intros Hn; rewrite Hn, !elem_of_cons, elem_of_nil in Hin; intuition congruence)).
      by destruct (requested _ _ _).
    + rewrite (bool_decide_false (_ ∈ _)) by done.
      change (type <$> _) with [OTHER 0; PCIE; UDP; TCP; NONE] in Hpref.
      revert Hout. set (p := preferredTransport config) in *.
      repeat (apply elem_of_cons in Hpref as [Hp|Hpref]; [rewrite Hp; intros Hout|]); [..|by apply elem_of_nil in Hpref];
        try done; try by destruct Hout; repeat first [by left|right].
      change (index (OTHER 0)) with 0. by rewrite Hb0.
  - by case_match.
Qed.
End startup.

(** *** The configuration file *)

Definition complete (service : TomlService) : Prop :=
  toml_service service ≠ None ∧ toml_instance service ≠ None ∧ toml_event service ≠ None.

#[export] Instance complete_dec service : Decision (complete service).
Proof. unfold complete. apply _. Defined.

Section config_file.
Context `{IoxSpec}.

Definition described (service : TomlService) : ServiceDescription :=
  let id value := take IdString_capacity (default [] value) in
  mkService (id (toml_service service)) (id (toml_instance service)) (id (toml_event service)).

Lemma add_services services p kept :
  Forall complete services → (length kept ≤ MAX_FORWARDED_SERVICES)%nat →
  for_each (fun service config => add_service config service) services (mkConfig p kept) =
    Ok (mkConfig p (take MAX_FORWARDED_SERVICES (kept ++ (described <$> services)))).
Proof.
  intros Hs. revert kept. induction Hs as [|[[s|] [i|] [e|]] services (Hs1 & Hs2 & Hs3) Hs IH]; try done;
    intros kept Hk; cbn [for_each fmap list_fmap].
  { by rewrite app_nil_r, take_ge by lia. }
  unfold add_service, id_string. cbn [toml_service toml_instance toml_event deref mbind Outcome_bind].
  cbn [preferredTransport forwardedServices]. rewrite push_back_spec.
  destruct (decide _) as [Hroom|Hfull]; cbn [fst]; rewrite IH; rewrite ?length_app; simpl; try lia.
  - by rewrite <-app_assoc.
  - by rewrite !take_app_le, !take_ge by lia.
Qed.
End config_file.

(** A configuration file that lists complete services yields the first eight of them,
    their identifiers cut to the capacity; but the preferred transport it names is looked
    up in a table whose positions are one less than the types: the name of a type selects
    the type before it, and a name that is not in the table, such as the documented
    NONE, makes the search compare with a null pointer.  Without a readable file the
    default configuration is used. *)
Theorem preferred_transport_shifted `{IoxSpec} (read : bytes → ConfigFile) (path : bytes)
    (services : option (list TomlService)) :
  let file := if (length path =? 0)%nat then DEFAULT_CONFIG_FILE_PATH else path in
  let forwarded := take MAX_FORWARDED_SERVICES (described <$> default [] services) in
  Forall complete (default [] services) →
  (read file = NotOpen ∨ read file = NotToml → parse_config true read path = Ok (mkConfig NONE [])) ∧
  (read file = Toml None services → parse_config true read path = Ok (mkConfig NONE forwarded)) ∧
  (∀ t name, TRANSPORT_TYPE_NAMES !! (Z.to_nat (index t) - 1)%nat = Some (Some name) → t ∈ [PCIE; UDP; TCP] →
     read file = Toml (Some name) services →
     parse_config true read path = Ok (mkConfig (type (index t - 1)) forwarded) ∧ type (index t - 1) ≠ t) ∧
  (∀ name, Some name ∉ TRANSPORT_TYPE_NAMES → read file = Toml (Some name) services →
     parse_config true read path = UndefinedBehaviour).
Proof.
  intros file forwarded Hs. unfold parse_config. fold file. split_and!.
  - by intros [->| ->].
  - intros ->. exact (add_services _ NONE [] Hs ltac:(simpl; lia)).
  - intros t name Hname Ht ->.
    repeat (apply elem_of_cons in Ht as [->|Ht];
      [injection Hname as <-; split; [exact (add_services _ _ [] Hs ltac:(simpl; lia))|done]|]); by apply elem_of_nil in Ht.
  - intros name Hname ->.
    assert (find_name TRANSPORT_TYPE_NAMES name = UndefinedBehaviour) as Hf; [|unfold set_preferred; by rewrite Hf].
    unfold TRANSPORT_TYPE_NAMES in *. rewrite !not_elem_of_cons in Hname. simpl.
    rewrite !bool_decide_false by naive_solver. done.
Qed.

(** ** Witnesses *)

Lemma cmd_line_spec_witness :
  run (parse_cmd_line 100 [mkOption "u" []; mkOption "l" (str "debug")]%byte) = true ∧
  enabledTransports (parse_cmd_line 100 [mkOption "u" []; mkOption "l" (str "debug")]%byte) =
    [false; false; true; false].
Proof.
  split; [done|]. by apply (cmd_line_spec 100 [mkOption "u" []; mkOption "l" (str "debug")]%byte).
Defined.

Lemma startup_spec_witness :
  let args := parse_cmd_line 100 [mkOption "p" []; mkOption "t" []]%byte in
  run args = true ∧
  ∃ ti config', @GatewayApp_init (example_layer []) (mkBuild true true true) args (mkConfig UDP []) = Ok (ti, config') ∧
    transports_wf ti ∧ preferredTransport config' = NONE.
Proof.
  split; [done|].
  destruct (@startup_spec (example_layer []) 100 (mkBuild true true true)
    [mkOption "p" []; mkOption "t" []]%byte (mkConfig UDP [])) as (ti & c & He & Hwf & _ & _ & Hp & _);
    [done|by right; right; left|].
  exists ti, c. by split_and!.
Defined.

Lemma preferred_transport_shifted_witness :
  let read := fun _ => Toml (Some (str "TCP")) (Some [mkTomlService (Some (str "S")) (Some (str "I")) (Some (str "E"))]) in
  @parse_config ref_iox true read [] = Ok (mkConfig UDP [mkService (str "S") (str "I") (str "E")]).
Proof.
  intros read.
  destruct (@preferred_transport_shifted ref_iox ref_iox_spec read []
    (Some [mkTomlService (Some (str "S")) (Some (str "I")) (Some (str "E"))])) as (_ & _ & Hn & _).
  { by repeat constructor. }
  destruct (Hn TCP (str "TCP") eq_refl) as [Hc _]; [by right; right; left|done|exact Hc].
Defined.
