(* ===== verification/Assembly.v ===== *)
(** * Assembly: constructing the gateway

    The constructors that [GatewayApp::run] of
    source/p3com/gateway/gateway_app.cpp calls before the gateway is in
    operation.  Each of them registers its callbacks with every transport that
    is good, by a pass of [TransportInfo::doForAllEnabled]; the first pass is
    also the first that notices transports whose constructor failed.  The state
    is the registry and the transport objects; the PCIe transport, which is not
    part of the repository, is the list of callbacks it was given. *)

From stdpp Require Import base list sets.
From S2P Require Import Prelude.
From S2P Require Import Iox.
From S2P Require Import Types.
From S2P Require Import TransportInfo.
From S2P Require Import Udp.
From S2P Require Import TcpSession.
From S2P Require Import Tcp.
From S2P Require Import Startup.

Open Scope Z_scope.

(** The callbacks of transport.hpp. *)
Inductive Callback :=
  | RemoteDiscovery     (* remoteDiscoveryCallback_t *)
  | UserDataReceived    (* userDataCallback_t *)
  | BufferNeeded        (* bufferNeededCallback_t *)
  | BufferReleased      (* bufferReleasedCallback_t *)
  | BufferSent.         (* bufferSentCallback_t *)

#[export] Instance Callback_eq_dec : EqDecision Callback.
Proof. solve_decision. Defined.

Record Layers := mkLayers {
  l_udp : UDPTransport;
  l_tcp : TCPTransport;
  l_pcie : list Callback
}.

(** [transport.register...Callback(...)]: UDP and TCP inherit the methods for the
    buffer callbacks, which do nothing. *)
Definition u_register (cb : Callback) (u : UDPTransport) : UDPTransport :=
  match cb with
  | RemoteDiscovery => u_registerDiscoveryCallback u
  | UserDataReceived => registerUserDataCallback u
  | BufferNeeded | BufferReleased | BufferSent => u
  end.

Definition t_register (cb : Callback) (t : TCPTransport) : TCPTransport :=
  match cb with
  | RemoteDiscovery => t_registerDiscoveryCallback t
  | UserDataReceived => t_registerUserDataCallback t
  | BufferNeeded | BufferReleased | BufferSent => t
  end.

Definition register (cb : Callback) (t : TransportType) (ls : Layers) : Layers :=
  match t with
  | PCIE => mkLayers (l_udp ls) (l_tcp ls) (l_pcie ls ++ [cb])
  | UDP => mkLayers (u_register cb (l_udp ls)) (l_tcp ls) (l_pcie ls)
  | TCP => mkLayers (l_udp ls) (t_register cb (l_tcp ls)) (l_pcie ls)
  | _ => ls
  end.

(** The callable a constructor gives to [doForAllEnabled]: it registers [cbs] one
    after the other, which no transport can fail at. *)
Definition register_each (cbs : list Callback) (t : TransportType) (ls : Layers) : Outcome (bool * Layers) :=
  Ok (false, foldl (fun ls cb => register cb t ls) ls cbs).

Section operations.
Abbreviation state := (TransportInfo * Layers)%type.
Implicit Types (s : state).

(** No failure callback is registered yet, so that the transports this pass
    disables are not announced as such. *)
Definition DiscoveryManager_construct s : Outcome state :=
  doForAllEnabled None (register_each [RemoteDiscovery]) s.

(** [TransportInfo::registerTransportFailCallback]. *)
Definition registerTransportFailCallback (callback : state → Outcome state) : option (state → Outcome state) :=
  Some callback.

Section registered.
Context (callback : state → Outcome state).
Local Abbreviation s_failCallback := (registerTransportFailCallback callback).

Definition PendingMessageManager_construct s : Outcome state :=
  doForAllEnabled s_failCallback (register_each [BufferSent]) s.

Definition Transport2Iceoryx_construct s : Outcome state :=
  doForAllEnabled s_failCallback (register_each [UserDataReceived; BufferNeeded; BufferReleased]) s.

(** The constructors [run] calls, in its order; those of the segmented message
    manager, of the forwarder and of [Iceoryx2Transport] register nothing with the
    transports. *)
Definition construct s : Outcome state :=
  s ← DiscoveryManager_construct s;
  s ← PendingMessageManager_construct s;
  Transport2Iceoryx_construct s.
End registered.
End operations.

(** ** Lemmas: one pass *)

Section passes.
Context {W : Type} (f : TransportType → W → W).
Implicit Types (ti : TransportInfo) (w : W).

Local Abbreviation fn := (fun t w => Ok (false, f t w)).

(** The effect of a pass on the objects. *)
Definition visit w (o : option Transport) : W :=
  match o with Some t => if isGood t then f (getType t) w else w | None => w end.

Lemma calls_visit ti w :
  transports_wf ti →
  for_slots (call_if_good fn) (seq 0 TRANSPORT_TYPE_COUNT) (ti, w) = Ok (ti, foldl visit w (s_transports ti)).
Proof.
  intros Hti. pose proof Hti as (Hl & _).
  destruct (for_slots_inv (call_if_good fn) (fun k s => s = (ti, foldl visit w (take k (s_transports ti))))
    0 TRANSPORT_TYPE_COUNT (ti, w)) as (s' & He & ->).
  - intros i s Hi ->. destruct (slot_Ok ti i Hti) as (o & _ & Ho); [lia|].
    pose proof (call_if_good_cases fn i ti (foldl visit w (take i (s_transports ti))) o Ho) as Hcase.
    rewrite (take_S_r _ _ _ Ho), foldl_app. cbn [foldl].
    destruct o as [[t []]|]; [rewrite (Hcase false _ eq_refl)|rewrite Hcase..]; by eexists.
  - by rewrite take_0.
  - rewrite He. cbn [plus]. by rewrite take_ge by (rewrite Hl; done).
Qed.

(** The types of the transports there are. *)
Definition kinds ti : list (option TransportType) := (fun o : option Transport => getType <$> o) <$> s_transports ti.

(** What the second loop does when nothing has failed ... *)
Lemma disables_nothing cb ti w :
  transports_wf ti → no_failed ti →
  for_slots (disable_if_failed cb) (seq 0 TRANSPORT_TYPE_COUNT) (ti, w) = Ok (ti, w).
Proof.
  intros Hti Hnf.
  destruct (for_slots_inv (disable_if_failed cb) (fun _ s => s = (ti, w)) 0 TRANSPORT_TYPE_COUNT (ti, w))
    as (s' & He & ->); [|done|exact He].
  intros i s Hi ->. destruct (slot_Ok ti i Hti) as (o & _ & Ho); [lia|].
  pose proof (disable_if_failed_cases cb i ti w o Hti Ho) as Hcase.
  destruct o as [[t []]|]; try (by eexists). by destruct (Hnf _ _ Ho).
Qed.

(** ... and when no callback is registered. *)
Lemma disables_silently ti w :
  transports_wf ti →
  ∃ ti', for_slots (disable_if_failed None) (seq 0 TRANSPORT_TYPE_COUNT) (ti, w) = Ok (ti', w) ∧
    transports_wf ti' ∧ kinds ti' = kinds ti ∧ ∀ t, good_transport ti' t ↔ good_transport ti t.
Proof.
  intros Hti.
  destruct (for_slots_inv (disable_if_failed None) (fun _ s => transports_wf s.1 ∧ s.2 = w ∧
    kinds s.1 = kinds ti ∧ ∀ t, good_transport s.1 t ↔ good_transport ti t) 0 TRANSPORT_TYPE_COUNT (ti, w))
    as ([ti' w'] & He & Hwf & Hw & Hk & Hgood); [|done|cbn in Hw; subst w'; by exists ti'].
  intros i [ti1 w1] Hi (Hwf & Hw & Hk & Hgood). cbn [fst snd] in *. subst w1.
  destruct (slot_Ok ti1 i Hwf) as (o & _ & Ho); [lia|].
  pose proof (disable_if_failed_cases None i ti1 w o Hwf Ho) as Hcase.
  destruct o as [[t []]|]; try (by eexists). eexists. split; [exact Hcase|].
  split; [by apply mark_disabled_wf|]. split; [done|]. split.
  { rewrite <-Hk. unfold kinds. cbn. rewrite list_fmap_insert. apply list_insert_id.
    by rewrite list_lookup_fmap, Ho. }
  intros t'. rewrite <-Hgood.
  unfold good_transport. cbn [fst mark_disabled s_transports].
  destruct (decide (Z.to_nat (index t') = i)) as [->|Hne]; [|by rewrite list_lookup_insert_ne].
  rewrite Ho, list_lookup_insert_eq by (by eapply lookup_lt_Some). split; congruence.
Qed.

Lemma pass_registered cb ti w :
  transports_wf ti → no_failed ti →
  doForAllEnabled cb fn (ti, w) = Ok (ti, foldl visit w (s_transports ti)).
Proof. intros Hti Hnf. unfold doForAllEnabled. rewrite calls_visit by done. ostep. by apply disables_nothing. Qed.

Lemma pass_unregistered ti w :
  transports_wf ti →
  ∃ ti', doForAllEnabled None fn (ti, w) = Ok (ti', foldl visit w (s_transports ti)) ∧
    transports_wf ti' ∧ no_failed ti' ∧ kinds ti' = kinds ti ∧ ∀ t, good_transport ti' t ↔ good_transport ti t.
Proof.
  intros Hti. destruct (disables_silently ti (foldl visit w (s_transports ti)) Hti) as (ti' & He & Hwf & Hk & Hgood).
  assert (doForAllEnabled None fn (ti, w) = Ok (ti', foldl visit w (s_transports ti))) as Hall
    by (unfold doForAllEnabled; by rewrite calls_visit).
  exists ti'. split_and!; [done..| |done|done].
  exact (doForAllEnabled_no_failed None ltac:(done) _ _ _ Hall (proj1 Hwf)).
Qed.
End passes.

(** ** Lemmas: the objects *)

#[export] Instance Transport_eq_dec : EqDecision Transport.
Proof. solve_decision. Defined.

#[export] Instance good_transport_dec ti t : Decision (good_transport ti t).
Proof. unfold good_transport. apply _. Defined.

(** The slots of a well-formed registry. *)
Lemma slots_wf ti :
  transports_wf ti →
  ∃ p u t, s_transports ti = [None; mkTransport PCIE <$> p; mkTransport UDP <$> u; mkTransport TCP <$> t].
Proof.
  intros (Hl & Hs & _).
  destruct (s_transports ti) as [|o0 [|o1 [|o2 [|o3 [|]]]]]; try done.
  assert (∀ i o, [o0; o1; o2; o3] !! i = Some o → o = None ∨ ∃ ty st, o = Some (mkTransport ty st) ∧
    ty ∈ [PCIE; UDP; TCP] ∧ index ty = Z.of_nat i) as Hslot.
  { intros i [[ty st]|] Hi; [|by left]. right. destruct (Hs _ _ Hi) as (Ht & Hix & _). by exists ty, st. }
  assert (o0 = None) as ->.
  { destruct (Hslot 0%nat o0 eq_refl) as [->|(ty & st & -> & Ht & Hix)]; [done|].
    pose proof (index_small ty Ht). lia. }
  assert (∀ i o ty, [None; o1; o2; o3] !! i = Some o → ty ∈ [PCIE; UDP; TCP] → index ty = Z.of_nat i →
    ∃ st, o = mkTransport ty <$> st) as Hat.
  { intros i o ty Hi Hty Hix. destruct o as [[ty' st]|]; [|by exists None].
    destruct (Hs i (mkTransport ty' st) Hi) as (Ht' & Hix' & _). exists (Some st). cbn in *. do 2 f_equal.
    rewrite !elem_of_cons, elem_of_nil in *. naive_solver lia. }
  destruct (Hat 1%nat o1 PCIE) as [p ->]; [done|set_solver|done|].
  destruct (Hat 2%nat o2 UDP) as [u ->]; [done|set_solver|done|].
  destruct (Hat 3%nat o3 TCP) as [t ->]; [done|set_solver|done|].
  by exists p, u, t.
Qed.

(** The callbacks [cbs] are registered with exactly the good transports. *)
Definition registered_with (ti : TransportInfo) (cbs : list Callback) (ls ls' : Layers) : Prop :=
  let with_good {A} (t : TransportType) (reg : Callback → A → A) (x : A) :=
    if decide (good_transport ti t) then foldl (fun x cb => reg cb x) x cbs else x in
  l_udp ls' = with_good UDP u_register (l_udp ls) ∧
  l_tcp ls' = with_good TCP t_register (l_tcp ls) ∧
  l_pcie ls' = with_good PCIE (fun cb l => l ++ [cb]) (l_pcie ls).

Lemma register_fold cbs t ls :
  foldl (fun ls cb => register cb t ls) ls cbs =
    match t with
    | PCIE => mkLayers (l_udp ls) (l_tcp ls) (foldl (fun l cb => l ++ [cb]) (l_pcie ls) cbs)
    | UDP => mkLayers (foldl (fun u cb => u_register cb u) (l_udp ls) cbs) (l_tcp ls) (l_pcie ls)
    | TCP => mkLayers (l_udp ls) (foldl (fun t cb => t_register cb t) (l_tcp ls) cbs) (l_pcie ls)
    | _ => ls
    end.
Proof.
  revert ls. induction cbs as [|cb cbs IH]; intros ls; [by destruct t, ls|].
  cbn [foldl]. rewrite IH. by destruct t.
Qed.

Lemma visited_registered ti cbs ls :
  transports_wf ti →
  registered_with ti cbs ls
    (foldl (visit (fun t ls => foldl (fun ls cb => register cb t ls) ls cbs)) ls (s_transports ti)).
Proof.
  intros Hti. destruct (slots_wf ti Hti) as (p & u & t & Hsl).
  assert (∀ ty o ls, visit (fun t ls => foldl (fun ls cb => register cb t ls) ls cbs) ls (mkTransport ty <$> o) =
    if decide (mkTransport ty <$> o = Some (mkTransport ty GOOD))
    then foldl (fun ls cb => register cb ty ls) ls cbs else ls) as Hvisit.
  { intros ty [[]|] ls'; [by rewrite decide_True|by rewrite decide_False..]. }
  assert (∀ ty i o, s_transports ti !! i = Some (mkTransport ty <$> o) → i = Z.to_nat (index ty) →
    good_transport ti ty ↔ mkTransport ty <$> o = Some (mkTransport ty GOOD)) as Hgood.
  { intros ty i o Ho ->. unfold good_transport. rewrite Ho. split; congruence. }
  pose proof (Hgood PCIE 1%nat p ltac:(by rewrite Hsl) eq_refl) as Hp.
  pose proof (Hgood UDP 2%nat u ltac:(by rewrite Hsl) eq_refl) as Hu.
  pose proof (Hgood TCP 3%nat t ltac:(by rewrite Hsl) eq_refl) as Ht.
  rewrite Hsl. cbn [foldl]. rewrite !Hvisit. unfold registered_with. cbn [visit].
  repeat case_decide; try tauto; rewrite ?register_fold; by split_and!.
Qed.

Lemma registered_twice ti cbs cbs' ls ls1 ls2 :
  registered_with ti cbs ls ls1 → registered_with ti cbs' ls1 ls2 → registered_with ti (cbs ++ cbs') ls ls2.
Proof.
  intros (Hu1 & Ht1 & Hp1) (Hu2 & Ht2 & Hp2). unfold registered_with.
  rewrite Hu2, Hu1, Ht2, Ht1, Hp2, Hp1, !foldl_app. repeat case_decide; by split_and!.
Qed.

(** The whole construction: failed transports are disabled, the good ones get all
    callbacks. *)
Lemma construct_spec callback ti ls :
  transports_wf ti →
  ∃ ti' ls', construct callback (ti, ls) = Ok (ti', ls') ∧ transports_wf ti' ∧ no_failed ti' ∧
    kinds ti' = kinds ti ∧ (∀ t, good_transport ti' t ↔ good_transport ti t) ∧
    registered_with ti [RemoteDiscovery; BufferSent; UserDataReceived; BufferNeeded; BufferReleased] ls ls'.
Proof.
  intros Hti. unfold construct, DiscoveryManager_construct, PendingMessageManager_construct, Transport2Iceoryx_construct.
  pose proof (fun cbs ls => visited_registered ti cbs ls Hti) as Hreg0.
  destruct (pass_unregistered (fun t ls => foldl (fun ls cb => register cb t ls) ls [RemoteDiscovery]) ti ls Hti)
    as (ti' & He & Hwf & Hnf & Hk & Hgood).
  assert (∀ cbs ls, registered_with ti cbs ls
    (foldl (visit (fun t ls => foldl (fun ls cb => register cb t ls) ls cbs)) ls (s_transports ti'))) as Hreg.
  { intros cbs ls0. destruct (visited_registered ti' cbs ls0 Hwf) as (Hu & Ht & Hp). unfold registered_with.
    by rewrite !(decide_ext _ _ _ _ (Hgood _)) in *. }
  unfold register_each. rewrite He. ostep.
  rewrite !pass_registered by done. ostep. rewrite pass_registered by done.
  eexists ti', _. split; [done|]. split_and!; [apply Hwf..|done|done|done|].
  eapply (registered_twice _ [_] [_; _; _; _]); [apply Hreg0|].
  eapply (registered_twice _ [_] [_; _; _]); apply Hreg.
Qed.

(** ** Property *)

Section properties.
Context `{TransportLayer}.

(** The transports that are in operation: asked for, built in, and constructed
    without an error. *)
Definition in_operation (b : BuildConfig) (options : list Option_t) (t : TransportType) : Prop :=
  requested b options t = true ∧ compiled_in b t = true ∧ constructor_fails t = false.

#[export] Instance in_operation_dec b options t : Decision (in_operation b options t).
Proof. unfold in_operation. apply _. Defined.

(** C28: When the gateway goes into operation, every transport that was asked for, is
    built in and could be constructed is good and has been given the callbacks for
    discovery messages, user data, buffers and sent messages, each once and with the
    discovery callback first; a transport whose constructor failed has been given none,
    is disabled, and is not announced. *)
Theorem gateway_assembled (CONFIG_PATH_CAPACITY : nat) (b : BuildConfig) (options : list Option_t)
    (config : GatewayConfig_t) (callback : TransportInfo * Layers → Outcome (TransportInfo * Layers)) (ls : Layers) :
  let args := parse_cmd_line CONFIG_PATH_CAPACITY options in
  run args = true → preferredTransport config ∈ type <$> [0; 1; 2; 3; 4] →
  ∃ ti config' ti' ls', GatewayApp_init b args config = Ok (ti, config') ∧
    construct callback (ti, ls) = Ok (ti', ls') ∧ transports_wf ti' ∧ no_failed ti' ∧
    (∀ t, t ∈ [PCIE; UDP; TCP] →
       (good_transport ti' t ↔ in_operation b options t) ∧
       (requested b options t = true → compiled_in b t = true →
        bit (s_bitset ti') (index t) = negb (constructor_fails t))) ∧
    ¬ (in_operation b options UDP ∧ in_operation b options TCP) ∧
    l_udp ls' = (if decide (in_operation b options UDP)
                 then registerUserDataCallback (u_registerDiscoveryCallback (l_udp ls)) else l_udp ls) ∧
    l_tcp ls' = (if decide (in_operation b options TCP)
                 then t_registerUserDataCallback (t_registerDiscoveryCallback (l_tcp ls)) else l_tcp ls) ∧
    l_pcie ls' = (if decide (in_operation b options PCIE)
                  then l_pcie ls ++ [RemoteDiscovery; BufferSent; UserDataReceived; BufferNeeded; BufferReleased]
                  else l_pcie ls).
Proof.
  intros args Hrun Hpref.
  destruct (startup_spec CONFIG_PATH_CAPACITY b options config Hrun Hpref)
    as (ti & config' & Hinit & Hti & Hslots & Hboth & _).
  destruct (construct_spec callback ti ls Hti) as (ti' & ls' & He & Hwf & Hnf & Hk & Hgood & Hu & Ht & Hp).
  assert (∀ t, t ∈ [PCIE; UDP; TCP] → good_transport ti t ↔ in_operation b options t) as Hop.
  { intros t Hin. destruct (Hslots t Hin) as [_ Hslot]. unfold good_transport, in_operation. rewrite Hslot.
    unfold make_transport. destruct (requested b options t), (compiled_in b t), (constructor_fails t);
      (split; [naive_solver|by intros (? & ? & ?)]). }
  exists ti, config', ti', ls'. split_and!; [exact Hinit|exact He|apply Hwf..|done| | | | |].
  - intros t Hin. split; [by rewrite Hgood, Hop|]. intros Hr Hc.
    destruct (Hslots t Hin) as [_ Hslot]. rewrite Hr, Hc in Hslot. cbn in Hslot.
    assert (∃ st, s_transports ti' !! Z.to_nat (index t) = Some (Some (mkTransport t st))) as [st Hslot'].
    { apply (f_equal (lookup (Z.to_nat (index t)))) in Hk. unfold kinds in Hk.
      rewrite !list_lookup_fmap, Hslot in Hk. cbn in Hk.
      destruct (s_transports ti' !! _) as [[[ty st]|]|]; simplify_eq/=. by exists st. }
    destruct Hwf as (_ & Hs & _). destruct (Hs _ _ Hslot') as (_ & _ & Hb). cbn in Hb. rewrite Hb.
    pose proof (Hgood t) as Hg. unfold good_transport in Hg. rewrite Hslot, Hslot' in Hg. unfold make_transport in Hg.
    pose proof (Hnf _ _ Hslot') as Hne. cbn in Hne. destruct (constructor_fails t), st; naive_solver.
  - intros [(Hru & _) (Hrt & _)]. by apply Hboth.
  - rewrite Hu. assert (good_transport ti UDP ↔ in_operation b options UDP) as Hiff by (apply Hop; set_solver).
    by rewrite (decide_ext _ _ _ _ Hiff).
  - rewrite Ht. assert (good_transport ti TCP ↔ in_operation b options TCP) as Hiff by (apply Hop; set_solver).
    by rewrite (decide_ext _ _ _ _ Hiff).
  - rewrite Hp. assert (good_transport ti PCIE ↔ in_operation b options PCIE) as Hiff by (apply Hop; set_solver).
    by rewrite (decide_ext _ _ _ _ Hiff); cbn [foldl]; rewrite <-!app_assoc.
Qed.
End properties.

(** ** Witness *)

(** UDP objects as their constructors leave them; TCP is not used. *)
Definition new_layers : Layers :=
  mkLayers (mkUdp GOOD true (mkBroadcast GOOD [gateway_at 100] [mkEp 0xC0A800FF DISCOVERY_PORT] [] false true) false true)
    (mkTcp GOOD false (mkBroadcast GOOD [] [] [] false false) [] [] false false false 0) [].

Lemma gateway_assembled_witness :
  let args := parse_cmd_line 100 [mkOption Init.Byte.x75 []] in
  run args = true ∧
  ∃ ti config' ti' ls', @GatewayApp_init (example_layer []) (mkBuild true true true) args (mkConfig UDP []) = Ok (ti, config') ∧
    construct Ok (ti, new_layers) = Ok (ti', ls') ∧ good_transport ti' UDP ∧
    b_callback (m_broadcast (l_udp ls')) = true ∧ u_callback (l_udp ls') = true ∧ l_pcie ls' = [].
Proof.
  split; [done|].
  destruct (@gateway_assembled (example_layer []) 100 (mkBuild true true true) [mkOption Init.Byte.x75 []] (mkConfig UDP [])
    Ok new_layers) as (ti & config' & ti' & ls' & Hinit & He & _ & _ & Hop & _ & Hu & _ & Hp);
    [done|by right; right; left|].
  exists ti, config', ti', ls'. split; [exact Hinit|]. split; [exact He|].
  assert (@in_operation (example_layer []) (mkBuild true true true) [mkOption Init.Byte.x75 []] UDP) as Hin by done.
  split; [by apply (Hop UDP ltac:(set_solver))|].
  rewrite Hu, decide_True by done. split_and!; [done..|].
  rewrite Hp, decide_False; [done|]. by intros [[=] _].
Defined.
