(* ===== verification/DataWriter.v ===== *)
(** * DataWriter: sending a chunk as a sequence of segments

    include/p3com/generic/data_writer.hpp and source/p3com/generic/data_writer.cpp.

    The first half of the file translates the writer.  The second half states
    what a message on the wire is, independently of the loops: the user header
    and the user payload are [cut] into pieces of the largest size the
    transport takes, and each piece travels with a datagram header that says
    where it belongs.  The theorems relate the two. *)

From stdpp Require Import base list gmap.
From S2P Require Import Prelude.
From S2P Require Import Iox.
From S2P Require Import Types.
From S2P Require Import VectorMap.
From S2P Require Import Serialization.
From S2P Require Import TransportInfo.
From S2P Require PendingMessages.
From Stdlib Require Import Permutation.

Open Scope Z_scope.

(** Unsigned 32-bit arithmetic; a division by zero is undefined. *)
Definition divideAndRoundUp (divident divisor : Z) : Outcome Z :=
  if divisor =? 0 then UndefinedBehaviour
  else Ok (wrap32 (wrap32 (divident + divisor - 1) / divisor)).

Definition set_submessageCount (h : IoxChunkDatagramHeader_t) (n : Z) : IoxChunkDatagramHeader_t :=
  mkHeader (serviceHash h) (messageHash h) n (submessageOffset h) (submessageSize h)
    (userPayloadSize h) (userPayloadAlignment h) (userHeaderSize h).
Definition set_submessageOffset (h : IoxChunkDatagramHeader_t) (n : Z) : IoxChunkDatagramHeader_t :=
  mkHeader (serviceHash h) (messageHash h) (submessageCount h) n (submessageSize h)
    (userPayloadSize h) (userPayloadAlignment h) (userHeaderSize h).
Definition set_submessageSize (h : IoxChunkDatagramHeader_t) (n : Z) : IoxChunkDatagramHeader_t :=
  mkHeader (serviceHash h) (messageHash h) (submessageCount h) (submessageOffset h) n
    (userPayloadSize h) (userPayloadAlignment h) (userHeaderSize h).

(** The chunk behind a [ChunkHeader]: the address of the user payload, and the
    bytes of the user header and of the user payload. *)
Record Chunk := mkChunk {
  chunk_userPayload : Ptr;
  chunk_headerBytes : bytes;
  chunk_payloadBytes : bytes
}.

Section operations.
Context `{Iox} `{TransportLayer} `{NetWorld G}.
Implicit Types (h : IoxChunkDatagramHeader_t) (t : TransportType) (g : G).

(** [static_cast<uint32_t>(maxMessageSize() - maxIoxChunkDatagramHeaderSerializationSize())] *)
Definition maxTransportPayloadSize t : Z :=
  wrap32 (maxMessageSize t - Z.of_nat maxIoxChunkDatagramHeaderSerializationSize).

(** The locals of [writeSegmentedInternal] that its callable changes, whether
    the transport has failed, and the state of the gateway. *)
Record Sending := mkSending {
  datagramHeader : IoxChunkDatagramHeader_t;
  pendingCount : Z;
  failed : bool;
  world : G
}.

(** One iteration of a sending loop, with the source pointer at [src + position]. *)
Definition send_submessage t (maxPayload : Z) (src : bytes) (position : Z) (device remaining : Z)
    (s : Sending) : Outcome (Sending * Z) :=
  let h := set_submessageSize (datagramHeader s) (Z.min maxPayload remaining) in
  '(serializedDatagramHeaderBytes, _) ← serialize_Header h;
  payload ← (if position <? 0 then UndefinedBehaviour
             else memread src (Z.to_nat position) (Z.to_nat (submessageSize h)));
  let '(isPending, fails, g) :=
    sendUserData t serializedDatagramHeaderBytes payload device (world s) in
  let h' := set_submessageOffset h (wrap32 (submessageOffset h + submessageSize h)) in
  Ok (mkSending h' (wrap32 (pendingCount s + Z.b2z isPending)) (failed s || fails) g,
      wrap32 (remaining - submessageSize h)).

(** [while (remainingUserHeaderSize != 0U)]: a pending message is only logged. *)
Fixpoint header_loop (fuel : nat) t (maxPayload : Z) (userHeaderBytes : bytes) (device remaining : Z)
    (s : Sending) : Outcome Sending :=
  if remaining =? 0 then Ok s else
  match fuel with
  | O => OutOfFuel
  | S fuel =>
      let count := pendingCount s in
      '(s, remaining) ← send_submessage t maxPayload userHeaderBytes
                          (submessageOffset (datagramHeader s)) device remaining s;
      header_loop fuel t maxPayload userHeaderBytes device remaining
        (mkSending (datagramHeader s) count (failed s) (world s))
  end.

(** [while (remainingUserPayloadSize != 0U)] *)
Fixpoint payload_loop (fuel : nat) t (maxPayload : Z) (userPayloadBytes : bytes) (device remaining : Z)
    (s : Sending) : Outcome Sending :=
  if remaining =? 0 then Ok s else
  match fuel with
  | O => OutOfFuel
  | S fuel =>
      let h := datagramHeader s in
      '(s, remaining) ← send_submessage t maxPayload userPayloadBytes
                          (submessageOffset h - userHeaderSize h) device remaining s;
      payload_loop fuel t maxPayload userPayloadBytes device remaining s
  end.

(** The callable of [writeSegmentedInternal]. *)
Definition send_segments (userHeaderBytes userPayloadBytes : bytes) (device : Z) t
    (w : IoxChunkDatagramHeader_t * Z * G) : Outcome (bool * (IoxChunkDatagramHeader_t * Z * G)) :=
  let '(h, count, g) := w in
  let maxPayload := maxTransportPayloadSize t in
  a ← divideAndRoundUp (userHeaderSize h) maxPayload;
  b ← divideAndRoundUp (userPayloadSize h) maxPayload;
  let h := set_submessageOffset (set_submessageCount h (wrap32 (a + b))) 0 in
  s ← header_loop (Z.to_nat (userHeaderSize h)) t maxPayload userHeaderBytes device
        (userHeaderSize h) (mkSending h count false g);
  s ← payload_loop (Z.to_nat (userPayloadSize h)) t maxPayload userPayloadBytes device
        (userPayloadSize h) s;
  Ok (failed s, (datagramHeader s, pendingCount s, world s)).

(** The fail callback, run in a state extended with the locals of the caller. *)
Definition with_locals {L : Type} (cb : option (TransportInfo * G → Outcome (TransportInfo * G)))
    : option (TransportInfo * (L * G) → Outcome (TransportInfo * (L * G))) :=
  match cb with
  | None => None
  | Some callback => Some (fun '(ti, (locals, g)) =>
      '(ti, g) ← callback (ti, g); Ok (ti, (locals, g)))
  end.

Context (s_failCallback : option (TransportInfo * G → Outcome (TransportInfo * G))).

Definition writeSegmentedInternal h (userHeaderBytes userPayloadBytes : bytes)
    (deviceIndex : DeviceIndex_t) (ti : TransportInfo) (g : G)
    : Outcome (bool * IoxChunkDatagramHeader_t * TransportInfo * G) :=
  '(ti, (h, count, g)) ←
    doFor (with_locals s_failCallback) (di_type deviceIndex)
      (send_segments userHeaderBytes userPayloadBytes (di_device deviceIndex)) (ti, (h, 0, g));
  Ok (count =? 1, h, ti, g).

(** The state [writeSegmented] works on. *)
Record Writer := mkWriter {
  w_header : IoxChunkDatagramHeader_t;
  w_transports : TransportInfo;
  w_pending : PendingMessages.PendingMessageManager;
  w_calls : list IoxEvent;
  w_world : G
}.

(** The first callable of [writeSegmented], on [shouldBePending],
    [shouldDiscard] and the pending message manager. *)
Definition push_if_pending (payloadSize : Z) (userPayload : Ptr) (mutex : Mutex)
    (subscriber : UniquePortId) t (w : bool * bool * PendingMessages.PendingMessageManager * G)
    : Outcome (bool * (bool * bool * PendingMessages.PendingMessageManager * G)) :=
  let '(_, shouldDiscard, pm, g) := w in
  if willBePending t payloadSize then
    let '(pm, pushed) := PendingMessages.push pm userPayload mutex subscriber in
    Ok (false, (true, if pushed then shouldDiscard else true, pm, g))
  else Ok (false, (false, shouldDiscard, pm, g)).

(** The loop over [deviceIndices]. *)
Fixpoint writeSegmented (chunk : Chunk) (deviceIndices : list DeviceIndex_t) (mutex : Mutex)
    (subscriber : UniquePortId) (s : Writer) : Outcome Writer :=
  match deviceIndices with
  | [] => Ok s
  | i :: deviceIndices =>
      '(ti, (shouldBePending, shouldDiscard, pm, g)) ←
        doFor (with_locals s_failCallback) (di_type i)
          (push_if_pending (userPayloadSize (w_header s)) (chunk_userPayload chunk) mutex subscriber)
          (w_transports s, (false, false, w_pending s, w_world s));
      if (shouldDiscard : bool) then
        Ok (mkWriter (w_header s) ti pm
              (w_calls s ++ [SubscriberRelease subscriber (chunk_userPayload chunk)]) g)
      else
        '(isPending, h, ti, g) ←
          writeSegmentedInternal (w_header s) (chunk_headerBytes chunk) (chunk_payloadBytes chunk) i ti g;
        s ← (if negb isPending then
               if (shouldBePending : bool) then
                 '(pm, calls) ← PendingMessages.release pm (chunk_userPayload chunk);
                 Ok (mkWriter h ti pm (w_calls s ++ calls) g)
               else
                 Ok (mkWriter h ti pm
                       (w_calls s ++ [SubscriberRelease subscriber (chunk_userPayload chunk)]) g)
             else Ok (mkWriter h ti pm (w_calls s) g));
        writeSegmented chunk deviceIndices mutex subscriber s
  end.
End operations.
Arguments Sending G : clear implicits.
Arguments Writer G : clear implicits.

(** ** Specification: the segments of a message *)

(** [data] cut into pieces of [piece] bytes, the last one possibly shorter,
    each with its offset in the message. *)
Fixpoint cut_fuel (fuel : nat) (piece : nat) (offset : Z) (data : bytes) : list (Z * bytes) :=
  match fuel, data with
  | O, _ | _, [] => []
  | S fuel, _ => (offset, take piece data)
                 :: cut_fuel fuel piece (offset + Z.of_nat piece) (drop piece data)
  end.

Definition cut (piece : nat) (offset : Z) (data : bytes) : list (Z * bytes) :=
  cut_fuel (length data) piece offset data.

(** The header of the segment at [offset] of a message sent as [count] segments. *)
Definition submessage (h : IoxChunkDatagramHeader_t) (count offset size : Z)
    : IoxChunkDatagramHeader_t :=
  mkHeader (serviceHash h) (messageHash h) count offset size (userPayloadSize h)
    (userPayloadAlignment h) (userHeaderSize h).

Definition segment_header (h : IoxChunkDatagramHeader_t) (count : Z) (seg : Z * bytes)
    : IoxChunkDatagramHeader_t :=
  submessage h count seg.1 (Z.of_nat (length seg.2)).

Section wire.
Context `{Iox}.

Definition segment_event (t : TransportType) (h : IoxChunkDatagramHeader_t) (count device : Z)
    (seg : Z * bytes) : NetEvent :=
  UserData t (header_bytes (segment_header h count seg)) seg.2 device.

(** All segments of a message with user header [header] and payload [payload]. *)
Definition message_segments (piece : nat) (header payload : bytes) : list (Z * bytes) :=
  cut piece 0 header ++ cut piece (Z.of_nat (length header)) payload.
End wire.

(** *** Facts about [cut] *)

Lemma cut_fuel_enough f1 f2 piece offset data :
  (0 < piece)%nat → (length data ≤ f1)%nat → (length data ≤ f2)%nat →
  cut_fuel f1 piece offset data = cut_fuel f2 piece offset data.
Proof.
  intros Hp. revert f2 offset data. induction f1 as [|f1 IH]; intros [|f2] offset [|b data] H1 H2;
    simpl in *; try lia; try done.
  f_equal. apply IH; rewrite length_drop; simpl; lia.
Qed.

Lemma cut_nil piece offset : cut piece offset [] = [].
Proof. done. Qed.

Lemma cut_cons piece offset data :
  (0 < piece)%nat → data ≠ [] →
  cut piece offset data =
    (offset, take piece data) :: cut piece (offset + Z.of_nat piece) (drop piece data).
Proof.
  intros Hp Hd. destruct data as [|b data]; [done|]. unfold cut. cbn [length cut_fuel].
  f_equal. apply cut_fuel_enough; rewrite ?length_drop; simpl; lia.
Qed.

(** Induction along the pieces. *)
Lemma cut_ind piece (P : Z → bytes → Prop) :
  (0 < piece)%nat →
  (∀ offset, P offset []) →
  (∀ offset data, data ≠ [] → P (offset + Z.of_nat piece) (drop piece data) → P offset data) →
  ∀ offset data, P offset data.
Proof.
  intros Hp H0 HS offset data. remember (length data) as n eqn:Hn.
  revert offset data Hn. induction (lt_wf n) as [n _ IH]. intros offset data ->.
  destruct data as [|b data]; [done|]. apply HS; [done|].
  eapply IH; [|done]. rewrite length_drop. simpl. lia.
Qed.

Lemma cut_concat piece offset data :
  (0 < piece)%nat → concat (cut piece offset data).*2 = data.
Proof.
  intros Hp. revert offset data. apply (cut_ind piece); [done..|].
  intros offset data Hd IH. rewrite cut_cons by done. csimpl.
  rewrite IH. apply take_drop.
Qed.

Lemma cut_sizes piece offset data :
  (0 < piece)%nat → Forall (fun seg => 0 < length seg.2 ≤ piece)%nat (cut piece offset data).
Proof.
  intros Hp. revert offset data. apply (cut_ind piece); [done|intros; by rewrite cut_nil|].
  intros offset data Hd IH. rewrite cut_cons by done. constructor; [|done]. simpl.
  rewrite length_take. destruct data; [done|]. simpl. lia.
Qed.

(** A piece at offset [o] holds the bytes of [data] from [o] on. *)
Lemma cut_elem piece offset data o p :
  (0 < piece)%nat → (o, p) ∈ cut piece offset data →
  offset ≤ o ∧ o + Z.of_nat (length p) ≤ offset + Z.of_nat (length data) ∧
  p = take (length p) (drop (Z.to_nat (o - offset)) data).
Proof.
  intros Hp. revert offset data. apply (cut_ind piece (fun offset data => _ → _)); [done| |].
  { intros offset Hin. by apply elem_of_nil in Hin. }
  intros offset data Hd IH. rewrite cut_cons by done.
  assert (Z.of_nat (length (drop piece data)) =
          Z.max 0 (Z.of_nat (length data) - Z.of_nat piece)) as Hl
    by (rewrite length_drop; lia).
  intros [[= -> ->]|Hin]%elem_of_cons.
  - rewrite Z.sub_diag. simpl. rewrite drop_0, length_take. split_and!; [lia|lia|].
    destruct (decide (piece ≤ length data)%nat).
    + by rewrite Nat.min_l by lia.
    + by rewrite Nat.min_r, !take_ge by lia.
  - destruct (IH Hin) as (H1 & H2 & H3).
    assert (piece < length data)%nat.
    { destruct (decide (piece < length data)%nat); [done|].
      rewrite drop_ge in Hin by lia. by apply elem_of_nil in Hin. }
    split_and!; [lia|lia|]. rewrite H3 at 1. rewrite drop_drop.
    do 2 f_equal. lia.
Qed.

(** Different pieces do not overlap, and every position lies in some piece. *)
Lemma cut_cover piece offset data i :
  (0 < piece)%nat → (i < length data)%nat →
  ∃ o p, (o, p) ∈ cut piece offset data ∧ o ≤ offset + Z.of_nat i < o + Z.of_nat (length p).
Proof.
  intros Hp. revert offset data i. apply (cut_ind piece (fun offset data => ∀ i, _ → _)); [done|simpl; lia|].
  intros offset data Hd IH i Hi. rewrite cut_cons by done.
  destruct (decide (i < piece)%nat).
  - eexists _, _. split; [by left|]. rewrite length_take. lia.
  - destruct (IH (i - piece)%nat) as (o & p & Hin & Ho); [rewrite length_drop; lia|].
    exists o, p. split; [by right|]. lia.
Qed.

Lemma cut_count piece offset data :
  (0 < piece)%nat →
  Z.of_nat (length (cut piece offset data)) =
    (Z.of_nat (length data) + Z.of_nat piece - 1) / Z.of_nat piece.
Proof.
  intros Hp. revert offset data. apply (cut_ind piece); [done| |].
  - intros offset. rewrite cut_nil. simpl. symmetry. apply Z.div_small. lia.
  - intros offset data Hd IH. rewrite cut_cons by done. simpl length.
    rewrite Nat2Z.inj_succ, IH, length_drop.
    destruct (decide (piece ≤ length data)%nat).
    + replace (Z.of_nat (length data) + Z.of_nat piece - 1)
        with (Z.of_nat (length data - piece) + Z.of_nat piece - 1 + 1 * Z.of_nat piece) by lia.
      rewrite Z.div_add by lia. lia.
    + replace (length data - piece)%nat with 0%nat by lia.
      rewrite (Z.div_small (Z.of_nat 0 + _ - 1)) by lia.
      destruct data; [done|]. simpl length in *.
      replace (Z.of_nat (S (length data)) + Z.of_nat piece - 1)
        with (Z.of_nat (length data) + 1 * Z.of_nat piece) by lia.
      rewrite Z.div_add, Z.div_small by lia. lia.
Qed.

Lemma cut_first_offset piece offset data o p :
  (0 < piece)%nat → head (cut piece offset data) = Some (o, p) → o = offset.
Proof.
  intros Hp. destruct data as [|b data]; [done|]. rewrite cut_cons by done. by intros [= ->].
Qed.

Lemma cut_NoDup piece offset data : (0 < piece)%nat → NoDup (cut piece offset data).*1.
Proof.
  intros Hp. revert offset data. apply (cut_ind piece); [done|intros; rewrite cut_nil; constructor|].
  intros offset data Hd IH. rewrite cut_cons by done. csimpl. constructor; [|done].
  intros ([o p] & -> & Hin)%list_elem_of_fmap. apply cut_elem in Hin as (Hle & _); simpl in *; lia.
Qed.

(** ** Lemmas: the sending loops *)

(** The fields the writer does not set itself are in range. *)
Definition valid_message `{Iox} (h : IoxChunkDatagramHeader_t) : Prop :=
  valid_Header (submessage h 0 0 0).

Lemma submessage_valid `{Iox} h n off sz :
  valid_message h → is_u32 n → is_u32 off → is_u32 sz → valid_Header (submessage h n off sz).
Proof. unfold valid_message, valid_Header. simpl. tauto. Qed.

Section sending.
Context `{IoxSpec} `{TransportLayer} `{NetWorld G}.
Context (t : TransportType) (device : Z) (h0 : IoxChunkDatagramHeader_t) (n M : Z).
Context (h0_valid : valid_message h0) (n_u32 : is_u32 n) (M_pos : 0 < M).
Implicit Types (s : Sending G) (src : bytes).

Definition never_pending : Prop :=
  ∀ hist hd pl, (sendUserData_outcome hist t hd pl device).1 = false.
Definition never_fails : Prop :=
  ∀ hist hd pl, (sendUserData_outcome hist t hd pl device).2 = false.

Lemma send_submessage_spec src pos rem s off sz :
  datagramHeader s = submessage h0 n off sz →
  0 ≤ pos → 0 < rem → Z.of_nat (length src) = pos + rem → 0 ≤ off → off + rem < 2 ^ 32 →
  let data := take (Z.to_nat M) (drop (Z.to_nat pos) src) in
  let k := Z.min M rem in
  ∃ pend fails,
    sendUserData_outcome (net (world s)) t (header_bytes (segment_header h0 n (off, data))) data device
      = (pend, fails) ∧
    send_submessage t M src pos device rem s =
      Ok (mkSending (submessage h0 n (off + k) k) (wrap32 (pendingCount s + Z.b2z pend))
            (failed s || fails)
            (set_net (net (world s) ++ [segment_event t h0 n device (off, data)]) (world s)),
          rem - k).
Proof.
  intros Hh Hpos Hrem Hsrc Hoff Hlim data k.
  assert (Z.of_nat (length data) = k) as Hk
    by (unfold data, k; rewrite length_take, length_drop; lia).
  assert (take (Z.to_nat k) (drop (Z.to_nat pos) src) = data) as Hdata.
  { unfold data, k. destruct (decide (M ≤ rem)); [by rewrite Z.min_l|].
    rewrite Z.min_r, !take_ge; rewrite ?length_drop; done || lia. }
  unfold send_submessage. rewrite Hh.
  change (set_submessageSize (submessage h0 n off sz) (Z.min M rem)) with (submessage h0 n off k).
  assert (segment_header h0 n (off, data) = submessage h0 n off k) as Hseg
    by (unfold segment_header; simpl; by rewrite Hk).
  destruct (serialize_header_bytes (submessage h0 n off k)) as [Hser _].
  { apply submessage_valid; unfold is_u32 in *; done || lia. }
  rewrite Hser. ostep. rewrite (proj2 (Z.ltb_ge _ _)) by lia.
  unfold memread. cbn [submessageSize submessage]. rewrite decide_True by lia. ostep. rewrite Hdata.
  unfold sendUserData, segment_event. rewrite Hseg. cbn [fst snd].
  destruct (sendUserData_outcome _ _ _ _ _) as [pend fails]. exists pend, fails. split; [done|].
  unfold set_submessageOffset. cbn.
  rewrite (wrap32_small (off + k)), (wrap32_small (rem - k)) by (unfold is_u32; lia). done.
Qed.

(** What a loop does to the rest of the message: [src] from [pos] on is sent as
    the segments at offset [off]. *)
Definition loop_post src pos off rem s (s' : Sending G) : Prop :=
  (∃ sz', datagramHeader s' = submessage h0 n (off + rem) sz') ∧
  world s' = set_net (net (world s) ++
    (segment_event t h0 n device <$> cut (Z.to_nat M) off (drop (Z.to_nat pos) src))) (world s) ∧
  (never_fails → failed s' = failed s).

Lemma loop_post_done src pos off s sz :
  datagramHeader s = submessage h0 n off sz → Z.of_nat (length src) = pos →
  loop_post src pos off 0 s s.
Proof.
  intros Hh Hl. unfold loop_post. rewrite drop_ge by lia. rewrite cut_nil, app_nil_r.
  split_and!; [|by rewrite set_net_net|done]. exists sz. by rewrite Z.add_0_r.
Qed.

Lemma loop_post_step src pos off rem s s' fails c c' :
  0 ≤ pos → 0 < rem → Z.of_nat (length src) = pos + rem →
  (never_fails → fails = false) →
  let k := Z.min M rem in
  let data := take (Z.to_nat M) (drop (Z.to_nat pos) src) in
  loop_post src (pos + k) (off + k) (rem - k)
    (mkSending c c' (failed s || fails)
       (set_net (net (world s) ++ [segment_event t h0 n device (off, data)]) (world s))) s' →
  loop_post src pos off rem s s'.
Proof.
  intros Hpos Hrem Hsrc Hfails k data (Hh & Hw & Hf). simpl in Hw, Hf. split_and!.
  - destruct Hh as [sz' ->]. exists sz'. f_equal. lia.
  - rewrite Hw, net_set_net, set_net_set_net, <-app_assoc. f_equal. f_equal.
    assert (drop (Z.to_nat pos) src ≠ []) as Hne.
    { intros Hnil. apply (f_equal length) in Hnil. rewrite length_drop in Hnil. simpl in Hnil. lia. }
    rewrite (cut_cons (Z.to_nat M) off) by (done || lia).
    csimpl. f_equal. f_equal. rewrite drop_drop.
    destruct (decide (M ≤ rem)).
    + f_equal; [lia|]. f_equal. lia.
    + rewrite !drop_ge by lia. by rewrite !cut_nil.
  - intros Hn. rewrite Hf by done. by rewrite Hfails, orb_false_r.
Qed.

Lemma never_fails_outcome hist hd pl pend fails :
  sendUserData_outcome hist t hd pl device = (pend, fails) → never_fails → fails = false.
Proof. intros He Hn. specialize (Hn hist hd pl). by rewrite He in Hn. Qed.

Lemma never_pending_outcome hist hd pl pend fails :
  sendUserData_outcome hist t hd pl device = (pend, fails) → never_pending → pend = false.
Proof. intros He Hn. specialize (Hn hist hd pl). by rewrite He in Hn. Qed.

Lemma header_loop_spec fuel src off rem s sz :
  datagramHeader s = submessage h0 n off sz → 0 ≤ off → 0 ≤ rem → (Z.to_nat rem ≤ fuel)%nat →
  Z.of_nat (length src) = off + rem → off + rem < 2 ^ 32 →
  ∃ s', header_loop fuel t M src device rem s = Ok s' ∧ loop_post src off off rem s s' ∧
        pendingCount s' = pendingCount s.
Proof.
  revert off rem s sz. induction fuel as [|fuel IH]; intros off rem s sz Hh Hoff Hrem Hfuel Hsrc Hlim;
    unfold header_loop; fold header_loop; (destruct (Z.eqb_spec rem 0) as [->|Hne];
      [exists s; split_and!; [done|eapply loop_post_done; [done|lia]|done]|]); [lia|].
  rewrite Hh. cbn [submessageOffset submessage].
  destruct (send_submessage_spec src off rem s off sz) as (pend & fails & Hout & ->);
    [done|lia..|]. ostep.
  edestruct IH as (s' & -> & Hpost & Hc); cycle -1.
  - exists s'. split_and!; [done| |exact Hc].
    eapply loop_post_step; [lia..| |exact Hpost]. by eapply never_fails_outcome.
  - reflexivity.
  - lia.
  - lia.
  - lia.
  - lia.
  - lia.
Qed.

Lemma payload_loop_spec fuel src off rem s sz :
  datagramHeader s = submessage h0 n off sz → userHeaderSize h0 ≤ off → 0 ≤ rem →
  (Z.to_nat rem ≤ fuel)%nat → Z.of_nat (length src) = off - userHeaderSize h0 + rem →
  off + rem < 2 ^ 32 →
  ∃ s', payload_loop fuel t M src device rem s = Ok s' ∧
        loop_post src (off - userHeaderSize h0) off rem s s' ∧
        (never_pending → is_u32 (pendingCount s) → pendingCount s' = pendingCount s).
Proof.
  assert (0 ≤ userHeaderSize h0) as HH by (unfold valid_message, valid_Header, is_u32 in h0_valid; simpl in h0_valid; lia).
  revert off rem s sz. induction fuel as [|fuel IH]; intros off rem s sz Hh Hoff Hrem Hfuel Hsrc Hlim;
    unfold payload_loop; fold payload_loop; (destruct (Z.eqb_spec rem 0) as [->|Hne];
      [exists s; split_and!; [done|eapply loop_post_done; [done|lia]|done]|]); [lia|].
  rewrite Hh. cbn [submessageOffset userHeaderSize submessage].
  destruct (send_submessage_spec src (off - userHeaderSize h0) rem s off sz)
    as (pend & fails & Hout & ->); [done|lia..|]. ostep.
  edestruct IH as (s' & -> & Hpost & Hc); cycle -1.
  - exists s'. split_and!; [done| |].
    + eapply loop_post_step; [lia..| |].
      * by eapply never_fails_outcome.
      * replace (off - userHeaderSize h0 + Z.min M rem) with (off + Z.min M rem - userHeaderSize h0) by lia.
        exact Hpost.
    + intros Hn Hu. pose proof (never_pending_outcome _ _ _ _ _ Hout Hn) as ->.
      simpl in Hc. rewrite Z.add_0_r, wrap32_small in Hc by done. by apply Hc.
  - reflexivity.
  - lia.
  - lia.
  - lia.
  - lia.
  - lia.
Qed.
End sending.

Lemma divideAndRoundUp_spec a b :
  0 < b → 0 ≤ a → a + b ≤ 2 ^ 32 → divideAndRoundUp a b = Ok ((a + b - 1) / b).
Proof.
  intros Hb Ha Hab. unfold divideAndRoundUp. rewrite (proj2 (Z.eqb_neq _ _)) by lia.
  rewrite (wrap32_small (a + b - 1)) by (unfold is_u32; lia). rewrite wrap32_small; [done|].
  unfold is_u32. split; [apply Z.div_pos; lia|].
  apply Z.le_lt_trans with (a + b - 1); [apply Z.div_le_upper_bound; nia|lia].
Qed.

(** [remaining] is at most the number of segments times their size. *)
Lemma div_round_le a b : 0 < b → 0 ≤ a → (a + b - 1) / b ≤ a.
Proof. intros. destruct (decide (a = 0)) as [->|]; [rewrite Z.div_small; lia|].
  apply Z.div_le_upper_bound; [done|]. nia. Qed.

(** The messages the writer can segment: the header describes the chunk, and
    the 32-bit arithmetic of the writer does not overflow. *)
Definition sendable `{Iox} `{TransportLayer} (t : TransportType) (h : IoxChunkDatagramHeader_t)
    (header payload : bytes) : Prop :=
  valid_message h ∧
  Z.of_nat (length header) = userHeaderSize h ∧ Z.of_nat (length payload) = userPayloadSize h ∧
  userHeaderSize h + userPayloadSize h < 2 ^ 32 ∧
  0 < maxTransportPayloadSize t ∧
  userHeaderSize h + maxTransportPayloadSize t ≤ 2 ^ 32 ∧
  userPayloadSize h + maxTransportPayloadSize t ≤ 2 ^ 32.

#[export] Instance sendable_dec `{Iox} `{TransportLayer} t h header payload :
  Decision (sendable t h header payload).
Proof. unfold sendable, valid_message. apply _. Defined.

Section writing.
Context `{IoxSpec} `{TransportLayer} `{NetWorld G}.
Implicit Types (h : IoxChunkDatagramHeader_t) (g : G) (ti : TransportInfo).

Definition piece_of (t : TransportType) : nat := Z.to_nat (maxTransportPayloadSize t).

(** What is put on the wire for a message. *)
Definition wire_message (t : TransportType) (device : Z) h (header payload : bytes)
    : list NetEvent :=
  let segments := message_segments (piece_of t) header payload in
  segment_event t h (Z.of_nat (length segments)) device <$> segments.

Lemma message_segments_length t h header payload :
  sendable t h header payload →
  let M := maxTransportPayloadSize t in
  Z.of_nat (length (message_segments (piece_of t) header payload)) =
    (userHeaderSize h + M - 1) / M + (userPayloadSize h + M - 1) / M ∧
  is_u32 (Z.of_nat (length (message_segments (piece_of t) header payload))).
Proof.
  intros (Hv & Hh & Hp & Hsum & HM & _) M.
  assert (0 ≤ userHeaderSize h ∧ 0 ≤ userPayloadSize h) as [? ?]
    by (unfold valid_message, valid_Header, is_u32 in Hv; simpl in Hv; lia).
  assert (Z.of_nat (length (message_segments (piece_of t) header payload)) =
    (userHeaderSize h + M - 1) / M + (userPayloadSize h + M - 1) / M) as Heq.
  { unfold message_segments. rewrite length_app, Nat2Z.inj_add.
    unfold piece_of. rewrite !cut_count, Z2Nat.id, Hh, Hp by lia. done. }
  split; [done|]. unfold is_u32.
  pose proof (div_round_le (userHeaderSize h) M). pose proof (div_round_le (userPayloadSize h) M). lia.
Qed.

Lemma send_segments_spec t device h header payload count g :
  sendable t h header payload →
  ∃ fails h' count',
    send_segments header payload device t (h, count, g) =
      Ok (fails, (h', count', set_net (net g ++ wire_message t device h header payload) g)) ∧
    (∃ sz, h' = submessage h (Z.of_nat (length (message_segments (piece_of t) header payload)))
                  (userHeaderSize h + userPayloadSize h) sz) ∧
    (never_pending t device → is_u32 count → count' = count) ∧
    (never_fails t device → fails = false).
Proof.
  intros Hs. pose proof Hs as (Hv & Hh & Hp & Hsum & HM & Hov1 & Hov2).
  destruct (message_segments_length t h header payload Hs) as [Hcount Hn].
  assert (0 ≤ userHeaderSize h ∧ 0 ≤ userPayloadSize h) as [? ?]
    by (unfold valid_message, valid_Header, is_u32 in Hv; simpl in Hv; lia).
  unfold send_segments. rewrite !divideAndRoundUp_spec by lia. ostep.
  rewrite <-Hcount, wrap32_small by done. unfold wire_message.
  set (n := Z.of_nat (length (message_segments (piece_of t) header payload))) in *.
  change (set_submessageOffset (set_submessageCount h n) 0)
    with (submessage h n 0 (submessageSize h)).
  set (h1 := submessage h n 0 (submessageSize h)).
  change (userHeaderSize h1) with (userHeaderSize h).
  change (userPayloadSize h1) with (userPayloadSize h).
  set (s0 := mkSending h1 count false g).
  destruct (header_loop_spec t device h n (maxTransportPayloadSize t) Hv Hn HM
    (Z.to_nat (userHeaderSize h)) header 0 (userHeaderSize h) s0 (submessageSize h))
    as (s1 & -> & ([sz1 Hh1] & Hw1 & Hf1) & Hc1); [done|lia..|]. ostep.
  destruct (payload_loop_spec t device h n (maxTransportPayloadSize t) Hv Hn HM
    (Z.to_nat (userPayloadSize h)) payload (userHeaderSize h) (userPayloadSize h) s1 sz1)
    as (s2 & -> & ([sz2 Hh2] & Hw2 & Hf2) & Hc2); [done|lia..|]. ostep.
  exists (failed s2), (datagramHeader s2), (pendingCount s2).
  split; [|split; [by exists sz2|split]].
  - do 3 f_equal. rewrite Hw2, Hw1, net_set_net, set_net_set_net, <-app_assoc. f_equal. f_equal.
    unfold message_segments. rewrite fmap_app, Z.sub_diag, !drop_0, Hh. done.
  - intros Hnp Hu. rewrite Hc2; [done|done|by rewrite Hc1].
  - intros Hnf. by rewrite Hf2, Hf1.
Qed.

Context (s_failCallback : option (TransportInfo * G → Outcome (TransportInfo * G))).

Lemma writeSegmentedInternal_spec t device h header payload ti g :
  sendable t h header payload → good_transport ti t → never_fails t device →
  ∃ isPending sz,
    writeSegmentedInternal s_failCallback h header payload (mkDeviceIndex t device) ti g =
      Ok (isPending, submessage h (Z.of_nat (length (message_segments (piece_of t) header payload)))
                  (userHeaderSize h + userPayloadSize h) sz, ti,
          set_net (net g ++ wire_message t device h header payload) g) ∧
    (never_pending t device → isPending = false).
Proof.
  intros Hs Hg Hnf.
  destruct (send_segments_spec t device h header payload 0 g Hs)
    as (fails & h' & count' & Hseg & [sz ->] & Hnp & Hf).
  rewrite Hf in Hseg by done. unfold writeSegmentedInternal. cbn [di_type di_device].
  rewrite (doFor_good _ ti t _ _ _ Hg Hseg). ostep.
  eexists _, sz. split; [done|]. intros Hn. by rewrite Hnp.
Qed.

End writing.

(** ** Lemmas: the segments of a message *)

Section segments.
Context `{IoxSpec} `{TransportLayer}.
Context (t : TransportType) (h : IoxChunkDatagramHeader_t) (header payload : bytes).
Context (sendable_h : sendable t h header payload).
Let segments := message_segments (piece_of t) header payload.

Lemma piece_pos : (0 < piece_of t)%nat.
Proof. destruct sendable_h as (_ & _ & _ & _ & HM & _). unfold piece_of. lia. Qed.

Lemma segments_concat : concat segments.*2 = header ++ payload.
Proof.
  unfold segments, message_segments. rewrite fmap_app, concat_app.
  by rewrite !cut_concat by apply piece_pos.
Qed.

(** A segment lies in the user header or in the user payload, never across,
    and holds the bytes of its place. *)
Lemma segments_elem o p :
  (o, p) ∈ segments →
  (0 < length p ≤ piece_of t)%nat ∧ 0 ≤ o ∧
  ((o + Z.of_nat (length p) ≤ userHeaderSize h ∧
    p = take (length p) (drop (Z.to_nat o) header)) ∨
   (userHeaderSize h ≤ o ∧ o + Z.of_nat (length p) ≤ userHeaderSize h + userPayloadSize h ∧
    p = take (length p) (drop (Z.to_nat (o - userHeaderSize h)) payload))).
Proof.
  destruct sendable_h as (_ & Hh & Hp & _). unfold segments, message_segments.
  pose proof piece_pos as Hpos.
  intros [Hin|Hin]%elem_of_app.
  - pose proof (cut_elem _ _ _ _ _ Hpos Hin) as (? & ? & Hd).
    pose proof (proj1 (Forall_forall _ _) (cut_sizes (piece_of t) 0 header Hpos) _ Hin) as Hsz.
    simpl in Hsz. rewrite Z.sub_0_r in Hd. split_and!; [lia..|]. left. split; [lia|done].
  - pose proof (cut_elem _ _ _ _ _ Hpos Hin) as (? & ? & Hd).
    pose proof (proj1 (Forall_forall _ _) (cut_sizes (piece_of t) _ payload Hpos) _ Hin) as Hsz.
    simpl in Hsz. rewrite Hh in Hd. split_and!; [lia..|]. right. split_and!; [lia..|done].
Qed.

Lemma segments_NoDup : NoDup segments.*1.
Proof.
  destruct sendable_h as (_ & Hh & Hp & _). pose proof piece_pos as Hpos.
  unfold segments, message_segments. rewrite fmap_app. apply NoDup_app.
  split_and!; [by apply cut_NoDup| |by apply cut_NoDup].
  intros x ([o p] & -> & Hin)%list_elem_of_fmap ([o' p'] & Heq & Hin')%list_elem_of_fmap.
  simpl in Heq. subst o'.
  pose proof (proj1 (Forall_forall _ _) (cut_sizes (piece_of t) _ _ Hpos) _ Hin) as Hsz. simpl in Hsz.
  apply cut_elem in Hin as (_ & ? & _); [|done]. apply cut_elem in Hin' as (? & _); [|done]. lia.
Qed.

Lemma segment_header_valid o p :
  (o, p) ∈ segments → valid_Header (segment_header h (Z.of_nat (length segments)) (o, p)).
Proof.
  intros Hin. pose proof (segments_elem o p Hin) as (Hl & Ho & Hplace).
  destruct (message_segments_length t h header payload sendable_h) as [_ Hn].
  destruct sendable_h as (Hv & Hh & Hp & Hsum & _).
  apply submessage_valid; [done|done|..]; simpl; unfold valid_message, valid_Header, is_u32 in *; simpl in *; lia.
Qed.

(** Every position of the user header and of the user payload is in a segment. *)
Lemma segments_cover_header i :
  (i < length header)%nat →
  ∃ o p, (o, p) ∈ segments ∧ o < userHeaderSize h ∧ o ≤ Z.of_nat i < o + Z.of_nat (length p).
Proof.
  intros Hi. destruct sendable_h as (_ & Hh & _).
  destruct (cut_cover (piece_of t) 0 header i piece_pos Hi) as (o & p & Hin & Ho).
  exists o, p. split_and!; [apply elem_of_app; by left|lia..].
Qed.

Lemma segments_cover_payload i :
  (i < length payload)%nat →
  ∃ o p, (o, p) ∈ segments ∧ userHeaderSize h ≤ o ∧
         o ≤ userHeaderSize h + Z.of_nat i < o + Z.of_nat (length p).
Proof.
  intros Hi. destruct sendable_h as (_ & Hh & _).
  destruct (cut_cover (piece_of t) (Z.of_nat (length header)) payload i piece_pos Hi)
    as (o & p & Hin & Ho).
  pose proof (cut_elem _ _ _ _ _ piece_pos Hin) as (? & _).
  exists o, p. split_and!; [apply elem_of_app; by right|lia..].
Qed.
End segments.

(** ** Properties *)

Section properties.
Context `{IoxSpec} `{TransportLayer} `{NetWorld G}.
Context (s_failCallback : option (TransportInfo * G → Outcome (TransportInfo * G))).

(** A chunk is put on the wire exactly as its reference segmentation: the loops
    terminate, the segments concatenate to the user header followed by the user payload,
    each is non-empty, fits the transport, lies entirely in the header or entirely in the
    payload, and carries a well-formed datagram header with its own offset and size and
    the true number of segments; nothing else of the gateway's state changes. *)
Theorem message_sent_as_segments (t : TransportType) (device : Z)
    (h : IoxChunkDatagramHeader_t) (header payload : bytes) (ti : TransportInfo) (g : G) :
  sendable t h header payload → good_transport ti t → never_fails t device →
  let segments := message_segments (piece_of t) header payload in
  let count := Z.of_nat (length segments) in
  (∃ isPending h',
     writeSegmentedInternal s_failCallback h header payload (mkDeviceIndex t device) ti g =
       Ok (isPending, h', ti,
           set_net (net g ++ (segment_event t h count device <$> segments)) g)) ∧
  concat segments.*2 = header ++ payload ∧ NoDup segments.*1 ∧
  ∀ o p, (o, p) ∈ segments →
    0 < Z.of_nat (length p) ≤ maxTransportPayloadSize t ∧
    (o + Z.of_nat (length p) ≤ userHeaderSize h ∨ userHeaderSize h ≤ o) ∧
    valid_Header (segment_header h count (o, p)) ∧
    deserialize_Header (header_bytes (segment_header h count (o, p)) ++ p)
      (maxIoxChunkDatagramHeaderSerializationSize + length p) =
      Ok (submessage h count o (Z.of_nat (length p)),
          Z.of_nat maxIoxChunkDatagramHeaderSerializationSize).
Proof.
  intros Hs Hg Hnf segments count. split_and!.
  - destruct (writeSegmentedInternal_spec s_failCallback t device h header payload ti g Hs Hg Hnf)
      as (isPending & sz & Hw & _). eexists _, _. exact Hw.
  - by apply segments_concat with h.
  - by apply segments_NoDup with h.
  - intros o p Hin. pose proof (segment_header_valid t h header payload Hs o p Hin) as Hv.
    pose proof (segments_elem t h header payload Hs o p Hin) as (Hl & _ & Hplace).
    unfold piece_of in Hl. split_and!; [lia..|naive_solver|done|].
    apply deserialize_header_bytes; [done|lia].
Qed.

(** The result of handing one chunk to one device. *)
Definition handed_back_or_pending (chunk : Chunk) (subscriber : UniquePortId) (s s' : Writer G) : Prop :=
  (w_calls s' = w_calls s ++ [SubscriberRelease subscriber (chunk_userPayload chunk)] ∧
   PendingMessages.pending (w_pending s') = PendingMessages.pending (w_pending s)) ∨
  (w_calls s' = w_calls s ∧
   PendingMessages.pending (w_pending s') =
     <[chunk_userPayload chunk := subscriber]> (PendingMessages.pending (w_pending s))).

(** A chunk written to a single device is handed back to its subscriber exactly once,
    or is pending exactly once with that subscriber recorded: it is never leaked and
    never released twice, whether the message is pending or not, whether sending leaves
    it unexpectedly not pending, and when the pending store is full. *)
Theorem written_chunk_returned_once (t : TransportType) (device : Z) (chunk : Chunk)
    (mutex : Mutex) (subscriber : UniquePortId) (s : Writer G) :
  sendable t (w_header s) (chunk_headerBytes chunk) (chunk_payloadBytes chunk) →
  good_transport (w_transports s) t → never_fails t device →
  (willBePending t (userPayloadSize (w_header s)) = false → never_pending t device) →
  PendingMessages.pending_wf (w_pending s) →
  PendingMessages.pending (w_pending s) !! chunk_userPayload chunk = None →
  ∃ s', writeSegmented s_failCallback chunk [mkDeviceIndex t device] mutex subscriber s = Ok s' ∧
        PendingMessages.pending_wf (w_pending s') ∧
        handed_back_or_pending chunk subscriber s s'.
Proof.
  intros Hs Hg Hnf Hnp Hwf Hfresh. cbn [writeSegmented di_type].
  destruct (writeSegmentedInternal_spec s_failCallback t device (w_header s) (chunk_headerBytes chunk)
    (chunk_payloadBytes chunk) (w_transports s) (w_world s) Hs Hg Hnf) as (isPending & sz & Hw & Hpf).
  pose proof (PendingMessages.pending_push_spec (w_pending s) (chunk_userPayload chunk) mutex subscriber Hwf) as Hpush.
  destruct (PendingMessages.push (w_pending s) (chunk_userPayload chunk) mutex subscriber)
    as [pm' pushed] eqn:Ep.
  destruct (willBePending t (userPayloadSize (w_header s))) eqn:Hwill.
  - erewrite doFor_good; [|done|unfold push_if_pending; rewrite Hwill, Ep; done]. ostep.
    destruct Hpush as (Hwf' & _ & Hpend). destruct pushed; ostep.
    + rewrite Hw. ostep. destruct isPending; simpl.
      * eexists. split_and!; [done|done|]. by right.
      * destruct (PendingMessages.pending_release_spec pm' (chunk_userPayload chunk) Hwf')
          as (pm'' & Hrel & Hwf'' & Hpend'). rewrite Hrel. ostep.
        eexists. split_and!; [done|done|]. left. simpl.
        rewrite Hpend', Hpend, lookup_insert_eq. split; [done|]. by apply delete_insert_id.
    + eexists. split_and!; [done|done|]. by left.
  - erewrite doFor_good; [|done|unfold push_if_pending; rewrite Hwill; done]. ostep.
    rewrite Hw. ostep. rewrite Hpf by auto. simpl.
    eexists. split_and!; [done|done|]. by left.
Qed.

(** What is done with the chunk for devices whose transports keep nothing pending. *)
Lemma writeSegmented_not_pending (chunk : Chunk) (devices : list DeviceIndex_t)
    (mutex : Mutex) (subscriber : UniquePortId) (s : Writer G) :
  Forall (fun i => sendable (di_type i) (w_header s) (chunk_headerBytes chunk) (chunk_payloadBytes chunk) ∧
                   good_transport (w_transports s) (di_type i) ∧
                   never_fails (di_type i) (di_device i) ∧ never_pending (di_type i) (di_device i) ∧
                   willBePending (di_type i) (userPayloadSize (w_header s)) = false) devices →
  ∃ s', writeSegmented s_failCallback chunk devices mutex subscriber s = Ok s' ∧
        w_transports s' = w_transports s ∧ w_pending s' = w_pending s ∧
        w_calls s' = w_calls s ++
          replicate (length devices) (SubscriberRelease subscriber (chunk_userPayload chunk)) ∧
        w_world s' = set_net (net (w_world s) ++
          concat ((fun i => wire_message (di_type i) (di_device i) (w_header s)
                              (chunk_headerBytes chunk) (chunk_payloadBytes chunk)) <$> devices)) (w_world s).
Proof.
  revert s. induction devices as [|[t device] devices IH]; intros s Hall.
  { exists s. cbn. rewrite !app_nil_r. by rewrite set_net_net. }
  apply Forall_cons in Hall as [(Hs & Hg & Hnf & Hnp & Hwill) Hall]. cbn [di_type di_device] in *.
  destruct (writeSegmentedInternal_spec s_failCallback t device (w_header s) (chunk_headerBytes chunk)
    (chunk_payloadBytes chunk) (w_transports s) (w_world s) Hs Hg Hnf) as (isPending & sz & Hw & Hpf).
  cbn [writeSegmented di_type].
  erewrite doFor_good; [|done|unfold push_if_pending; rewrite Hwill; done]. ostep.
  rewrite Hw. ostep. rewrite Hpf by done. cbn [negb]. ostep.
  match goal with |- context [writeSegmented _ _ _ _ _ ?s1] => set (s1' := s1) end.
  destruct (IH s1') as (s' & -> & Ht & Hp & Hcalls & Hnet).
  { eapply Forall_impl; [exact Hall|]. intros [t' d'] (? & ? & ? & ? & ?). split_and!; try done. }
  exists s'. split_and!; [done..| |].
  - rewrite Hcalls. cbn [w_calls s1' length replicate]. by rewrite <-app_assoc.
  - rewrite Hnet. cbn [w_world s1']. rewrite net_set_net, set_net_set_net, <-app_assoc. csimpl. done.
Qed.

(** When the transports do not keep messages pending, the subscriber's chunk is
    released once per device index, so with two receiving devices it is released twice,
    the first time before the second device has been sent the message. *)
Theorem released_once_per_device (chunk : Chunk) (devices : list DeviceIndex_t)
    (mutex : Mutex) (subscriber : UniquePortId) (s : Writer G) :
  Forall (fun i => sendable (di_type i) (w_header s) (chunk_headerBytes chunk) (chunk_payloadBytes chunk) ∧
                   good_transport (w_transports s) (di_type i) ∧
                   never_fails (di_type i) (di_device i) ∧ never_pending (di_type i) (di_device i) ∧
                   willBePending (di_type i) (userPayloadSize (w_header s)) = false) devices →
  ∃ s', writeSegmented s_failCallback chunk devices mutex subscriber s = Ok s' ∧
        w_calls s' = w_calls s ++
          replicate (length devices) (SubscriberRelease subscriber (chunk_userPayload chunk)) ∧
        net (w_world s') = net (w_world s) ++
          concat ((fun i => wire_message (di_type i) (di_device i) (w_header s)
                              (chunk_headerBytes chunk) (chunk_payloadBytes chunk)) <$> devices).
Proof.
  intros Hall. destruct (writeSegmented_not_pending chunk devices mutex subscriber s Hall)
    as (s' & Hw & _ & _ & Hc & Hn). exists s'. split_and!; [done..|]. by rewrite Hn, net_set_net.
Qed.
End properties.

(** ** Witnesses *)

Definition example_message : IoxChunkDatagramHeader_t := mkHeader [1; 2; 3; 4] 77 0 0 0 12 8 20.

Definition example_chunk : Chunk :=
  mkChunk 64 (replicate 20 Init.Byte.xaa) (replicate 12 Init.Byte.xbb).

Definition example_pcie_ti : TransportInfo :=
  mkTransportInfo [None; Some (mkTransport PCIE GOOD); Some (mkTransport UDP GOOD); None] 6.

Definition example_writer : Writer (list NetEvent) :=
  mkWriter example_message example_pcie_ti vm_empty [] [].

Lemma example_sendable t :
  @sendable ref_iox (example_layer []) t example_message (chunk_headerBytes example_chunk)
    (chunk_payloadBytes example_chunk).
Proof. apply (bool_decide_unpack _). vm_compute. exact I. Qed.

Lemma message_sent_as_segments_witness :
  let layer := example_layer [] in
  let segs := @message_segments (@piece_of ref_iox layer UDP) (replicate 20 Init.Byte.xaa)
                (replicate 12 Init.Byte.xbb) in
  good_transport example_pcie_ti UDP ∧ length segs = 3%nat ∧ segs.*1 = [0; 16; 20] ∧
  concat segs.*2 = replicate 20 Init.Byte.xaa ++ replicate 12 Init.Byte.xbb ∧
  ∃ isPending h',
    @writeSegmentedInternal ref_iox layer (list NetEvent) _ None example_message
      (replicate 20 Init.Byte.xaa) (replicate 12 Init.Byte.xbb) (mkDeviceIndex UDP 3)
      example_pcie_ti [] =
      Ok (isPending, h', example_pcie_ti,
          set_net ([] ++ (@segment_event ref_iox UDP example_message 3 3 <$> segs)) []).
Proof.
  intros layer segs. assert (@good_transport example_pcie_ti UDP) as Hg by reflexivity.
  assert (@never_fails layer UDP 3) as Hnf by (intros hist hd pl; reflexivity).
  destruct (@message_sent_as_segments ref_iox ref_iox_spec layer (list NetEvent) _ None UDP 3
    example_message _ _ example_pcie_ti [] (example_sendable UDP) Hg Hnf) as (Hw & Hc & _).
  split; [exact Hg|]. split; [vm_compute; reflexivity|]. split; [vm_compute; reflexivity|].
  split; [exact Hc|]. exact Hw.
Defined.

Lemma written_chunk_returned_once_witness :
  let layer := example_layer [] in
  ∃ s', @writeSegmented ref_iox layer (list NetEvent) _ None example_chunk [mkDeviceIndex PCIE 3]
          Iceoryx2TransportEndpoints 5 example_writer = Ok s' ∧
        PendingMessages.pending_wf (w_pending s') ∧
        handed_back_or_pending example_chunk 5 example_writer s'.
Proof.
  intros layer.
  apply (@written_chunk_returned_once ref_iox ref_iox_spec layer (list NetEvent) _ None PCIE 3
           example_chunk Iceoryx2TransportEndpoints 5 example_writer).
  - apply example_sendable.
  - reflexivity.
  - intros hist hd pl. reflexivity.
  - vm_compute. discriminate.
  - apply PendingMessages.pending_empty_wf.
  - vm_compute. reflexivity.
Defined.

Lemma released_once_per_device_witness :
  let layer := example_layer [] in
  let devices := [mkDeviceIndex UDP 3; mkDeviceIndex UDP 4] in
  ∃ s', @writeSegmented ref_iox layer (list NetEvent) _ None example_chunk devices
          Iceoryx2TransportEndpoints 5 example_writer = Ok s' ∧
        w_calls s' = [SubscriberRelease 5 64; SubscriberRelease 5 64].
Proof.
  intros layer devices.
  destruct (@released_once_per_device ref_iox ref_iox_spec layer (list NetEvent) _ None
    example_chunk devices Iceoryx2TransportEndpoints 5 example_writer) as (s' & Hs & Hc & _).
  - repeat (constructor; [split; [apply example_sendable|split; [reflexivity|split;
      [intros hist hd pl; reflexivity|split; [intros hist hd pl; reflexivity|reflexivity]]]]|]).
    constructor.
  - exists s'. split; [exact Hs|exact Hc].
Defined.
