(* ===== verification/Gateway.v ===== *)
(** * Gateway: the channels of one direction

    include/p3com/gateway/gateway.hpp and internal/gateway/gateway.inl.

    [Gateway<Endpoint>] keeps one publisher or subscriber per service.  It is a
    base class: the two gateways call it with functions that work on their own
    state, so the operations are over any state that holds [m_endpoints], the
    class [GatewayState].  Every operation runs under [m_endpointsMutex]. *)

From stdpp Require Import base list gmap.
From S2P Require Import Prelude.
From S2P Require Import Iox.
From S2P Require Import Types.
From S2P Require Import VectorMap.
From Stdlib Require Import Permutation.

Open Scope Z_scope.

(** A publisher or subscriber, by what the gateway reads of it. *)
Record Endpoint := mkEndpoint {
  getServiceDescription : ServiceDescription;
  getUid : UniquePortId
}.

#[export] Instance Endpoint_eq_dec : EqDecision Endpoint.
Proof. solve_decision. Defined.

(** [make_endpoint] is [std::make_unique<Endpoint>(service, options)]: iceoryx
    gives the new port its identifier. *)
Class GatewayState (S : Type) := {
  m_endpoints : S → vector_map ClassHash Endpoint;
  set_endpoints : vector_map ClassHash Endpoint → S → S;
  make_endpoint : ServiceDescription → S → Endpoint * S;
  endpoints_set : ∀ m s, m_endpoints (set_endpoints m s) = m;
  make_endpoint_service : ∀ service s, getServiceDescription (make_endpoint service s).1 = service;
  make_endpoint_endpoints : ∀ service s, m_endpoints (make_endpoint service s).2 = m_endpoints s
}.

Section operations.
Context `{Iox} {S : Type} `{GatewayState S}.
Implicit Types (service : ServiceDescription) (s : S).

Definition addChannel service (f : Endpoint → S → Outcome S) s : Outcome S :=
  let '(endpoint, s) := make_endpoint service s in
  let '(m, emplaced) := vm_emplace MAX_TOPICS (m_endpoints s) (getClassHash service) endpoint in
  let s := set_endpoints m s in
  if negb emplaced then Ok s
  else back ← deref (vm_back (m_endpoints s)); f back s.

Definition discardChannel service (f : Endpoint → S → Outcome S) s : Outcome S :=
  let it := vm_find (m_endpoints s) (getClassHash service) in
  if (it =? vm_end (m_endpoints s))%nat then Ok s
  else
    endpoint ← deref (vm_at (m_endpoints s) it);
    s ← f endpoint s;
    Ok (set_endpoints (vm_erase (m_endpoints s) it) s).

Definition doForChannel (hash : ClassHash) (f : Endpoint → S → Outcome S) s : Outcome S :=
  let it := vm_find (m_endpoints s) hash in
  if negb (it =? vm_end (m_endpoints s))%nat
  then endpoint ← deref (vm_at (m_endpoints s) it); f endpoint s
  else Ok s.

(** The first two loops of [updateChannelsInternal]. *)
Definition collectServicesToDelete (endpoints : list Endpoint) (services : list ServiceDescription)
    : list ServiceDescription :=
  foldl (fun servicesToDelete endpoint =>
    let service := getServiceDescription endpoint in
    if negb (containsElement services service)
    then (push_back MAX_TOPICS servicesToDelete service).1 else servicesToDelete) [] endpoints.

Definition collectServicesToSetup (m : vector_map ClassHash Endpoint)
    (services : list ServiceDescription) : list ServiceDescription :=
  foldl (fun servicesToSetup service =>
    if (vm_find m (getClassHash service) =? vm_end m)%nat
    then (push_back MAX_TOPICS servicesToSetup service).1 else servicesToSetup) [] services.

Definition updateChannelsInternal (services : list ServiceDescription)
    (setupFn deleteFn : ServiceDescription → S → Outcome S) s : Outcome S :=
  let servicesToDelete := collectServicesToDelete (m_elems (m_endpoints s)) services in
  let servicesToSetup := collectServicesToSetup (m_endpoints s) services in
  s ← for_each deleteFn servicesToDelete s;
  for_each setupFn servicesToSetup s.

(** ** The invariant *)

Definition channels (s : S) : list (ClassHash * Endpoint) := entries (m_endpoints s).

Definition channel_services (s : S) : list ServiceDescription :=
  getServiceDescription <$> (channels s).*2.

Definition channel_uids (s : S) : list UniquePortId := getUid <$> (channels s).*2.

(** At most one channel per hash, filed under the hash of its service. *)
Definition channels_wf (s : S) : Prop :=
  vm_wf MAX_TOPICS (m_endpoints s) ∧ NoDup (m_keys (m_endpoints s)) ∧
  Forall (fun c => c.1 = getClassHash (getServiceDescription c.2)) (channels s).

(** What the functions given to [updateChannelsInternal] promise: they set up,
    respectively delete, the channel of one service and keep an invariant of
    their own. *)
Class ChannelFunctions (J : S → Prop) (setupFn deleteFn : ServiceDescription → S → Outcome S)
    : Prop := {
  setup_channel : ∀ service s,
    channels_wf s → J s → getClassHash service ∉ m_keys (m_endpoints s) →
    (length (channels s) < MAX_TOPICS)%nat →
    ∃ s' endpoint, setupFn service s = Ok s' ∧ channels_wf s' ∧ J s' ∧
      getServiceDescription endpoint = service ∧
      channels s' = channels s ++ [(getClassHash service, endpoint)];
  delete_channel : ∀ service s,
    channels_wf s → J s → getClassHash service ∈ m_keys (m_endpoints s) →
    ∃ s', deleteFn service s = Ok s' ∧ channels_wf s' ∧ J s' ∧
      channels s' = filter (fun c => c.1 ≠ getClassHash service) (channels s)
}.
End operations.

(** ** Lemmas *)

Section lemmas.
Context `{IoxSpec} {S : Type} `{GatewayState S}.
Implicit Types (service : ServiceDescription) (s : S) (services : list ServiceDescription).

Lemma channels_length s : channels_wf s → length (channels s) = vm_size (m_endpoints s).
Proof. intros (Hm & _). by apply entries_length with MAX_TOPICS. Qed.

Lemma channels_keys s : channels_wf s → (channels s).*1 = m_keys (m_endpoints s).
Proof. intros (Hm & _). by apply entries_keys with MAX_TOPICS. Qed.

Lemma channels_elems s : channels_wf s → (channels s).*2 = m_elems (m_endpoints s).
Proof. intros (Hm & _). by apply entries_elems with MAX_TOPICS. Qed.

Lemma collect_filter {A} (P : A → bool) (l acc : list A) :
  (length acc + length l ≤ MAX_TOPICS)%nat →
  foldl (fun acc x => if P x then (push_back MAX_TOPICS acc x).1 else acc) acc l =
    acc ++ filter (fun x => P x) l.
Proof.
  revert acc. induction l as [|x l IH]; intros acc Hl; simpl in *; [by rewrite app_nil_r|].
  destruct (P x) eqn:E.
  - rewrite push_back_room by lia. simpl. rewrite IH by (rewrite length_app; simpl; lia).
    rewrite filter_cons_True by (by rewrite E). by rewrite <-app_assoc.
  - rewrite IH by lia. rewrite filter_cons_False; [done|]. intros Hx. by rewrite E in Hx.
Qed.

Lemma collectServicesToDelete_spec s services :
  channels_wf s →
  collectServicesToDelete (m_elems (m_endpoints s)) services =
    filter (fun service => service ∉ services) (channel_services s).
Proof.
  intros Hs. unfold collectServicesToDelete, channel_services. rewrite channels_elems by done.
  pose proof (proj2 (proj1 Hs)) as Hc. set (es := m_elems (m_endpoints s)) in *. clearbody es. clear Hs.
  transitivity (foldl (fun acc service => if negb (containsElement services service)
    then (push_back MAX_TOPICS acc service).1 else acc) [] (getServiceDescription <$> es)).
  - clear Hc. generalize (@nil ServiceDescription).
    induction es as [|e es IH]; intros acc; csimpl; [done|]. apply IH.
  - rewrite (collect_filter (fun service => negb (containsElement services service)))
      by (rewrite length_fmap; simpl; lia).
    simpl. apply list_filter_iff. intros x.
    pose proof (containsElement_true services x). destruct (containsElement services x); naive_solver.
Qed.

Lemma collectServicesToSetup_spec s services :
  channels_wf s → (length services ≤ MAX_TOPICS)%nat →
  collectServicesToSetup (m_endpoints s) services =
    filter (fun service => getClassHash service ∉ m_keys (m_endpoints s)) services.
Proof.
  intros (Hm & _) Hl. unfold collectServicesToSetup.
  rewrite (collect_filter (fun service => vm_find (m_endpoints s) (getClassHash service)
    =? vm_end (m_endpoints s))%nat) by (simpl; lia). simpl. apply list_filter_iff. intros x.
  rewrite <-(vm_find_end MAX_TOPICS) by done.
  destruct (Nat.eqb_spec (vm_find (m_endpoints s) (getClassHash x)) (vm_end (m_endpoints s))); naive_solver.
Qed.

(** *** What the base operations do to the channels *)

Lemma addChannel_eq f service s :
  channels_wf s → getClassHash service ∉ m_keys (m_endpoints s) →
  (length (channels s) < MAX_TOPICS)%nat →
  let '(endpoint, s1) := make_endpoint service s in
  let m' := mkMap (m_keys (m_endpoints s) ++ [getClassHash service])
                  (m_elems (m_endpoints s) ++ [endpoint]) in
  addChannel service f s = f endpoint (set_endpoints m' s1) ∧
  channels_wf (set_endpoints m' s1) ∧
  channels (set_endpoints m' s1) = channels s ++ [(getClassHash service, endpoint)].
Proof.
  intros Hs Hk Hl. unfold addChannel.
  pose proof (make_endpoint_service service s) as Hserv.
  pose proof (make_endpoint_endpoints service s) as Hends.
  destruct (make_endpoint service s) as [endpoint s1]. simpl in *.
  rewrite channels_length in Hl by done. pose proof Hs as (Hm & Hnd & Hall).
  rewrite Hends. pose proof (vm_emplace_wf _ _ (getClassHash service) endpoint Hm) as Hm'.
  pose proof (vm_emplace_NoDup _ _ _ endpoint Hm Hnd Hk) as Hnd'.
  pose proof (entries_emplace _ _ (getClassHash service) endpoint Hm Hl) as He.
  rewrite vm_emplace_spec, decide_True in * by done. simpl in *.
  rewrite endpoints_set. unfold vm_back. simpl. rewrite last_snoc. ostep.
  unfold channels_wf, channels. rewrite endpoints_set, He. split_and!; try done.
  apply Forall_app. split; [done|]. constructor; [|done]. simpl. by rewrite Hserv.
Qed.

Lemma discardChannel_eq f service s :
  channels_wf s → getClassHash service ∈ m_keys (m_endpoints s) →
  ∃ endpoint it,
    (getClassHash service, endpoint) ∈ channels s ∧ (it < vm_end (m_endpoints s))%nat ∧
    channels s !! it = Some (getClassHash service, endpoint) ∧
    discardChannel service f s = (s ← f endpoint s; Ok (set_endpoints (vm_erase (m_endpoints s) it) s)) ∧
    ∀ s1, m_endpoints s1 = m_endpoints s →
      let s2 := set_endpoints (vm_erase (m_endpoints s1) it) s1 in
      channels_wf s2 ∧ channels s2 = filter (fun c => c.1 ≠ getClassHash service) (channels s).
Proof.
  intros Hs Hk. pose proof Hs as (Hm & Hnd & Hall). unfold discardChannel.
  pose proof (vm_find_found _ _ _ Hm Hk) as (Hlt & _).
  destruct (vm_find_entry _ _ _ Hm Hk) as (endpoint & Hat & He).
  rewrite (proj2 (Nat.eqb_neq _ _)) by lia. unfold vm_at. rewrite Hat. ostep.
  exists endpoint, (vm_find (m_endpoints s) (getClassHash service)).
  split_and!; [by eapply list_elem_of_lookup_2|done|done| |].
  { destruct (f endpoint s) as [s1| | |] eqn:Ef; [|done..]. simpl. done. }
  intros s1 Hends. unfold channels_wf, channels. rewrite endpoints_set, Hends.
  rewrite (entries_erase_delete MAX_TOPICS) by done.
  assert (NoDup (entries (m_endpoints s)).*1) as Hnd1 by (by rewrite (entries_keys MAX_TOPICS)).
  rewrite (delete_filter_key _ _ _ _ Hnd1 He).
  split_and!; [by apply vm_erase_wf|by eapply vm_erase_NoDup| |done].
  apply Forall_forall. intros c [_ Hc]%list_elem_of_filter.
  by apply (proj1 (Forall_forall _ _) Hall).
Qed.

(** Discarding the channel of a service takes its endpoint's identifier away. *)
Lemma discarded_uid s service endpoint it :
  channels_wf s → channels s !! it = Some (getClassHash service, endpoint) →
  getUid endpoint :: (getUid <$> (filter (fun c => c.1 ≠ getClassHash service) (channels s)).*2)
    ≡ₚ channel_uids s.
Proof.
  intros Hs Hlook. unfold channel_uids.
  assert (NoDup (channels s).*1) as Hndk by (rewrite channels_keys by done; apply Hs).
  rewrite <-(delete_filter_key _ _ _ _ Hndk Hlook).
  rewrite (list.delete_Permutation (channels s) it _ Hlook) at 2. done.
Qed.

(** A port has one channel. *)
Lemma channel_uid_inj s c1 c2 :
  NoDup (channel_uids s) → c1 ∈ channels s → c2 ∈ channels s → getUid c1.2 = getUid c2.2 → c1 = c2.
Proof.
  unfold channel_uids. rewrite <-list_fmap_compose.
  intros Hnd [i Hi]%list_elem_of_lookup [j Hj]%list_elem_of_lookup Heq.
  assert (i = j) as ->; [|by simplify_eq].
  eapply (NoDup_lookup _ _ _ (getUid c1.2) Hnd); rewrite list_lookup_fmap; [by rewrite Hi|by rewrite Hj, Heq].
Qed.

(** A channel can be found by its hash. *)
Definition channel_at (s : S) (hash : ClassHash) (endpoint : Endpoint) : Prop :=
  (hash, endpoint) ∈ channels s.

Lemma doForChannel_found hash endpoint f s :
  channels_wf s → channel_at s hash endpoint → doForChannel hash f s = f endpoint s.
Proof.
  intros (Hm & Hnd & _) Hc. unfold doForChannel.
  apply list_elem_of_lookup in Hc as [i Hi].
  rewrite (vm_find_unique MAX_TOPICS _ i hash endpoint Hm Hnd Hi).
  apply entries_lookup in Hi as [_ Hi]. pose proof (lookup_lt_Some _ _ _ Hi) as Hlt.
  unfold vm_end, vm_at. rewrite (proj2 (Nat.eqb_neq _ _)) by lia. simpl. by rewrite Hi.
Qed.

Lemma doForChannel_absent hash f s :
  channels_wf s → hash ∉ m_keys (m_endpoints s) → doForChannel hash f s = Ok s.
Proof.
  intros (Hm & Hnd & _) Hc. unfold doForChannel.
  apply (vm_find_end MAX_TOPICS) in Hc as ->; [|done]. by rewrite Nat.eqb_refl.
Qed.

(** *** The base operations keep the invariant *)

Context (J : S → Prop).

Lemma addChannel_spec f service s :
  (∀ endpoint s, channels_wf s → J s →
     ∃ s', f endpoint s = Ok s' ∧ J s' ∧ m_endpoints s' = m_endpoints s) →
  (∀ m s, J s → J (set_endpoints m s)) →
  J (make_endpoint service s).2 →
  channels_wf s → getClassHash service ∉ m_keys (m_endpoints s) →
  (length (channels s) < MAX_TOPICS)%nat →
  ∃ s' endpoint, addChannel service f s = Ok s' ∧ channels_wf s' ∧ J s' ∧
    getServiceDescription endpoint = service ∧
    channels s' = channels s ++ [(getClassHash service, endpoint)].
Proof.
  intros Hf HJset HJ Hs Hk Hl. pose proof (addChannel_eq f service s Hs Hk Hl) as He.
  pose proof (make_endpoint_service service s) as Hserv.
  destruct (make_endpoint service s) as [endpoint s1]. cbn [fst snd] in *. cbn zeta in He.
  destruct He as (-> & Hwf & Hch).
  destruct (Hf endpoint _ Hwf (HJset _ _ HJ)) as (s' & -> & HJ' & Hends').
  exists s', endpoint. unfold channels_wf, channels in *. rewrite Hends'. by split_and!; try apply Hwf.
Qed.

Lemma discardChannel_spec f service s :
  (∀ endpoint s, channels_wf s → J s →
     ∃ s', f endpoint s = Ok s' ∧ J s' ∧ m_endpoints s' = m_endpoints s) →
  (∀ m s, J s → J (set_endpoints m s)) →
  channels_wf s → J s → getClassHash service ∈ m_keys (m_endpoints s) →
  ∃ s', discardChannel service f s = Ok s' ∧ channels_wf s' ∧ J s' ∧
    channels s' = filter (fun c => c.1 ≠ getClassHash service) (channels s).
Proof.
  intros Hf HJset Hs HJ Hk.
  destruct (discardChannel_eq f service s Hs Hk) as (endpoint & it & _ & _ & _ & -> & Hafter).
  destruct (Hf endpoint s Hs HJ) as (s1 & -> & HJ1 & Hends). ostep.
  destruct (Hafter s1 Hends) as [Hwf Hch]. eexists. split; [done|]. split_and!; try apply Hwf; [|done].
  by apply HJset.
Qed.
End lemmas.

Lemma filter_ext_in {A} (P Q : A → Prop) `{∀ x, Decision (P x)} `{∀ x, Decision (Q x)} (l : list A) :
  (∀ x, x ∈ l → P x ↔ Q x) → filter P l = filter Q l.
Proof.
  induction l as [|x l IH]; intros Hl; [done|]. rewrite !filter_cons.
  pose proof (Hl x ltac:(by left)). rewrite IH by (intros; apply Hl; by right).
  repeat case_decide; naive_solver.
Qed.

Lemma services_filter {K : Type} (l : list (K * Endpoint)) (services : list ServiceDescription) :
  getServiceDescription <$> (filter (fun c => getServiceDescription c.2 ∈ services) l).*2 =
  filter (fun x => x ∈ services) (getServiceDescription <$> l.*2).
Proof.
  induction l as [|c l IH]; [done|]. csimpl. rewrite !filter_cons.
  repeat case_decide; try done. csimpl. by rewrite IH.
Qed.

Section updating.
Context `{IoxSpec} {S : Type} `{GatewayState S} (J : S → Prop).
Context (setupFn deleteFn : ServiceDescription → S → Outcome S).
Context `{!ChannelFunctions J setupFn deleteFn}.
Implicit Types (s : S) (l services : list ServiceDescription).

Lemma delete_all l s :
  channels_wf s → J s → NoDup (getClassHash <$> l) →
  Forall (fun service => getClassHash service ∈ m_keys (m_endpoints s)) l →
  ∃ s', for_each deleteFn l s = Ok s' ∧ channels_wf s' ∧ J s' ∧
    channels s' = filter (fun c => c.1 ∉ getClassHash <$> l) (channels s).
Proof.
  revert s. induction l as [|service l IH]; intros s Hs HJ Hnd Hall; simpl.
  { exists s. split_and!; [done..|]. symmetry. induction (channels s); [done|].
    rewrite filter_cons_True by set_solver. by f_equal. }
  apply NoDup_cons in Hnd as [Hn Hnd]. apply Forall_cons in Hall as [Hk Hall].
  destruct (delete_channel service s Hs HJ Hk) as (s1 & -> & Hs1 & HJ1 & Hch). ostep.
  destruct (IH s1 Hs1 HJ1 Hnd) as (s' & -> & Hs' & HJ' & Hch').
  { apply Forall_forall. intros x Hx. rewrite <-channels_keys, Hch by done.
    pose proof (proj1 (Forall_forall _ _) Hall x Hx) as Hkx. simpl in Hkx.
    rewrite <-channels_keys in Hkx by done. apply list_elem_of_fmap in Hkx as (c & Hc & Hin).
    apply list_elem_of_fmap. exists c. split; [done|]. apply list_elem_of_filter. split; [|done].
    rewrite <-Hc. intros He. apply Hn. rewrite <-He. by apply list_elem_of_fmap_2. }
  exists s'. split_and!; [done..|]. rewrite Hch', Hch. rewrite list_filter_filter.
  apply list_filter_iff. intros c. csimpl. set_solver.
Qed.

Lemma setup_all l s :
  channels_wf s → J s → NoDup (getClassHash <$> l) →
  Forall (fun service => getClassHash service ∉ m_keys (m_endpoints s)) l →
  (length (channels s) + length l ≤ MAX_TOPICS)%nat →
  ∃ s' new, for_each setupFn l s = Ok s' ∧ channels_wf s' ∧ J s' ∧
    channels s' = channels s ++ new ∧ getServiceDescription <$> new.*2 = l.
Proof.
  revert s. induction l as [|service l IH]; intros s Hs HJ Hnd Hall Hl; simpl in *.
  { exists s, []. by rewrite app_nil_r. }
  apply NoDup_cons in Hnd as [Hn Hnd]. apply Forall_cons in Hall as [Hk Hall].
  destruct (setup_channel service s Hs HJ Hk) as (s1 & e & -> & Hs1 & HJ1 & He & Hch); [lia|]. ostep.
  destruct (IH s1 Hs1 HJ1 Hnd) as (s' & new & -> & Hs' & HJ' & Hch' & Hnew).
  { apply Forall_forall. intros x Hx. rewrite <-channels_keys, Hch by done. csimpl.
    rewrite fmap_app, channels_keys by done. rewrite not_elem_of_app. split.
    - by apply (proj1 (Forall_forall _ _) Hall).
    - simpl. rewrite list_elem_of_singleton. intros He'. apply Hn. rewrite <-He'.
      by apply list_elem_of_fmap_2. }
  { rewrite Hch, length_app. simpl. lia. }
  exists s', ((getClassHash service, e) :: new). split_and!; [done..| |].
  - by rewrite Hch', Hch, <-app_assoc.
  - csimpl. by rewrite He, Hnew.
Qed.

Lemma channel_hash s e k : channels_wf s → (k, e) ∈ channels s → k = getClassHash (getServiceDescription e).
Proof. intros (_ & _ & Hall) Hin. by apply (proj1 (Forall_forall _ _) Hall) in Hin. Qed.

Lemma channel_services_elem s service :
  channels_wf s → service ∈ channel_services s → getClassHash service ∈ m_keys (m_endpoints s).
Proof.
  intros Hs (e & -> & He)%list_elem_of_fmap. apply list_elem_of_fmap in He as ([k e'] & -> & Hin).
  rewrite <-channels_keys by done. simpl. rewrite <-(channel_hash s e' k) by done.
  by apply (list_elem_of_fmap_2 fst _ (k, e')).
Qed.

Lemma channels_keys_services s :
  channels_wf s → m_keys (m_endpoints s) = getClassHash <$> channel_services s.
Proof.
  intros Hs. rewrite <-channels_keys by done. destruct Hs as (_ & _ & Hall).
  unfold channel_services. rewrite <-!list_fmap_compose. apply list_fmap_ext.
  intros i c Hc. simpl. by apply (proj1 (Forall_lookup _ _) Hall i c).
Qed.

Lemma channel_services_NoDup s : channels_wf s → NoDup (channel_services s).
Proof.
  intros Hs. eapply NoDup_fmap_1. rewrite <-channels_keys_services by done. by destruct Hs as (_ & ? & _).
Qed.

(** No two of the services in question share a class hash. *)
Definition no_collisions (l : list ServiceDescription) : Prop :=
  ∀ a b, a ∈ l → b ∈ l → getClassHash a = getClassHash b → a = b.

Lemma no_collisions_Forall l :
  Forall (fun a => Forall (fun b => getClassHash a = getClassHash b → a = b) l) l ↔ no_collisions l.
Proof.
  rewrite Forall_forall. setoid_rewrite Forall_forall. split.
  - intros Hl a b Ha Hb. exact (Hl a Ha b Hb).
  - intros Hl a Ha b Hb. exact (Hl a b Ha Hb).
Qed.

Lemma no_collisions_NoDup l l' :
  no_collisions l → (∀ x, x ∈ l' → x ∈ l) → NoDup l' → NoDup (getClassHash <$> l').
Proof.
  intros Hc Hsub Hnd. induction Hnd as [|x l' Hx Hnd IH]; [constructor|]. csimpl. constructor.
  - intros (y & Hy & Hin)%list_elem_of_fmap. apply Hc in Hy as ->; [done| |]; apply Hsub; set_solver.
  - apply IH. intros y Hy. apply Hsub. by right.
Qed.

Lemma kept_new_services services s :
  channels_wf s → NoDup services →
  filter (fun x => x ∈ services) (channel_services s) ++
    filter (fun x => x ∉ channel_services s) services ≡ₚ services.
Proof.
  intros Hs Hnd. apply list.NoDup_Permutation; [|done|].
  - apply NoDup_app. split_and!; [by apply NoDup_filter, channel_services_NoDup| |by apply NoDup_filter].
    intros x [_ Hx]%list_elem_of_filter [Hnx _]%list_elem_of_filter. done.
  - intros x. rewrite elem_of_app, !list_elem_of_filter. destruct (decide (x ∈ channel_services s)); tauto.
Qed.

(** No two services of [services] and of the channels share a hash. *)
Definition distinct_from services s : Prop :=
  ∀ a b, a ∈ services → b ∈ channel_services s → getClassHash a = getClassHash b → a = b.

Lemma kept_channels services s :
  channels_wf s → distinct_from services s →
  filter (fun c => c.1 ∉ getClassHash <$> filter (fun x => x ∉ services) (channel_services s)) (channels s) =
  filter (fun c => getServiceDescription c.2 ∈ services) (channels s).
Proof.
  intros Hs Hcol. apply filter_ext_in. intros [k e] Hin. simpl. rewrite (channel_hash s e k Hs Hin).
  assert (getServiceDescription e ∈ channel_services s) as Hes
    by (apply list_elem_of_fmap_2, (list_elem_of_fmap_2 snd _ (k, e)); done).
  split.
  - intros Hn. apply dec_stable. intros Hns. apply Hn, list_elem_of_fmap_2. by apply list_elem_of_filter.
  - intros Hin' (x & Hx & [Hxs Hxc]%list_elem_of_filter)%list_elem_of_fmap. apply Hxs. by rewrite <-(Hcol _ _ Hin' Hxc Hx).
Qed.

Lemma new_services services s :
  channels_wf s → distinct_from services s →
  filter (fun service => getClassHash service ∉ m_keys (m_endpoints s)) services =
  filter (fun service => service ∉ channel_services s) services.
Proof.
  intros Hs Hcol. apply filter_ext_in. intros x Hx. rewrite channels_keys_services by done. split.
  - intros Hn Hin. apply Hn. by apply list_elem_of_fmap_2.
  - intros Hn (y & Hy & Hin)%list_elem_of_fmap. apply Hn. by rewrite (Hcol x y Hx Hin Hy).
Qed.

Lemma update_channels_spec services s :
  channels_wf s → J s → NoDup services → (length services ≤ MAX_TOPICS)%nat →
  no_collisions (services ++ channel_services s) →
  ∃ s' new, updateChannelsInternal services setupFn deleteFn s = Ok s' ∧ channels_wf s' ∧ J s' ∧
    channels s' = filter (fun c => getServiceDescription c.2 ∈ services) (channels s) ++ new ∧
    getServiceDescription <$> new.*2 = filter (fun service => service ∉ channel_services s) services ∧
    channel_services s' ≡ₚ services.
Proof.
  intros Hs HJ Hnd Hl Hcol. unfold updateChannelsInternal.
  assert (distinct_from services s) as Hcol1
    by (intros a b Ha Hb; apply Hcol; apply elem_of_app; [by left|by right]).
  rewrite collectServicesToDelete_spec, collectServicesToSetup_spec, new_services by done.
  set (del := filter (fun service => service ∉ services) (channel_services s)).
  destruct (delete_all del s Hs HJ) as (s1 & -> & Hs1 & HJ1 & Hch1).
  { apply (no_collisions_NoDup (services ++ channel_services s) _ Hcol).
    - intros x [_ Hx]%list_elem_of_filter. apply elem_of_app. by right.
    - by apply NoDup_filter, channel_services_NoDup. }
  { apply Forall_forall. intros x [_ Hx]%list_elem_of_filter. by apply channel_services_elem. }
  ostep. unfold del in Hch1. rewrite kept_channels in Hch1 by done.
  set (new_services := filter (fun service => service ∉ channel_services s) services).
  assert (channel_services s1 = filter (fun x => x ∈ services) (channel_services s)) as Hserv1
    by (unfold channel_services; rewrite Hch1; apply services_filter).
  pose proof (kept_new_services services s Hs Hnd) as Hperm. rewrite <-Hserv1 in Hperm. fold new_services in Hperm.
  destruct (setup_all new_services s1 Hs1 HJ1) as (s' & new & He & Hs' & HJ' & Hch' & Hnew).
  { apply (no_collisions_NoDup (services ++ channel_services s) _ Hcol).
    - intros x [_ Hx]%list_elem_of_filter. apply elem_of_app. by left.
    - by apply NoDup_filter. }
  { apply Forall_forall. intros x [Hx Hxs]%list_elem_of_filter.
    rewrite channels_keys_services by done. rewrite Hserv1.
    intros (y & Hy & [_ Hin]%list_elem_of_filter)%list_elem_of_fmap. apply Hx.
    by rewrite (Hcol1 x y Hxs Hin Hy). }
  { apply (Permutation_length) in Hperm. rewrite length_app in Hperm.
    unfold channel_services in Hperm. rewrite !length_fmap in Hperm. lia. }
  exists s', new. split_and!; [done..| | |].
  - by rewrite Hch', Hch1.
  - done.
  - rewrite <-Hperm. unfold channel_services. rewrite Hch', !fmap_app. by rewrite Hnew.
Qed.
End updating.

(** [setupFn] and [deleteFn] are in both gateways an [addChannel] and a
    [discardChannel] with a function of the gateway. *)
Section instances.
Context `{IoxSpec} {S : Type} `{GatewayState S} (J : S → Prop).

(** A function run for an endpoint, which does not touch the channels. *)
Class EndpointFunction (f : Endpoint → S → Outcome S) : Prop := {
  endpoint_function : ∀ endpoint s, channels_wf s → J s →
    ∃ s', f endpoint s = Ok s' ∧ J s' ∧ m_endpoints s' = m_endpoints s
}.

(** An invariant of the rest of the state. *)
Class EndpointInvariant : Prop := {
  set_endpoints_inv : ∀ m s, J s → J (set_endpoints m s);
  make_endpoint_inv : ∀ service s, J s → J (make_endpoint service s).2
}.

#[export] Instance add_discard_functions f_add f_discard :
  EndpointFunction f_add → EndpointFunction f_discard → EndpointInvariant →
  ChannelFunctions J (fun service => addChannel service f_add)
                     (fun service => discardChannel service f_discard).
Proof.
  intros [Hadd] [Hdiscard] [Hset Hmake]. split.
  - intros service s Hs HJ Hk Hl. apply addChannel_spec; auto.
  - intros service s Hs HJ Hk. apply discardChannel_spec; auto.
Qed.
End instances.

(** ** Property *)

(** Unless two of the services involved share a class hash, updating the channels
    to a list of services returns with exactly one channel per listed service: the
    channels that are still needed are the same endpoints as before, those that are not
    are gone, the missing ones are added, and the container is never overrun. *)
Theorem channels_match_services `{IoxSpec} {S : Type} `{GatewayState S} (J : S → Prop)
    (f_add f_discard : Endpoint → S → Outcome S) `{!EndpointFunction J f_add}
    `{!EndpointFunction J f_discard} `{!EndpointInvariant J}
    (services : list ServiceDescription) (s : S) :
  channels_wf s → J s → NoDup services → (length services ≤ MAX_TOPICS)%nat →
  no_collisions (services ++ channel_services s) →
  ∃ s' new,
    updateChannelsInternal services (fun service => addChannel service f_add)
      (fun service => discardChannel service f_discard) s = Ok s' ∧
    channels_wf s' ∧ J s' ∧ channel_services s' ≡ₚ services ∧
    channels s' = filter (fun c => getServiceDescription c.2 ∈ services) (channels s) ++ new ∧
    getServiceDescription <$> new.*2 =
      filter (fun service => service ∉ channel_services s) services.
Proof.
  intros. edestruct (update_channels_spec J (fun service => addChannel service f_add)
    (fun service => discardChannel service f_discard)) as (s' & new & ? & ? & ? & ? & ? & ?); [done..|].
  exists s', new. by split_and!.
Qed.

(** ** Witness *)

(** The smallest gateway: its channels and the identifier of the next port. *)
Record ExampleGateway := mkExampleGateway {
  eg_endpoints : vector_map ClassHash Endpoint;
  eg_next : UniquePortId
}.

#[export] Program Instance ExampleGateway_state : GatewayState ExampleGateway := {|
  m_endpoints := eg_endpoints;
  set_endpoints m s := mkExampleGateway m (eg_next s);
  make_endpoint service s :=
    (mkEndpoint service (eg_next s), mkExampleGateway (eg_endpoints s) (eg_next s + 1))
|}.
Solve All Obligations with done.

Definition example_service (b : Init.Byte.byte) : ServiceDescription := mkService [b] [b] [b].

Definition example_services : list ServiceDescription :=
  [example_service Init.Byte.x41; example_service Init.Byte.x42].

Lemma channels_match_services_witness :
  let s0 := mkExampleGateway vm_empty 100 in
  let keep := fun (endpoint : Endpoint) (s : ExampleGateway) => Ok s in
  ∃ s' new,
    @updateChannelsInternal ref_iox _ _ example_services
      (fun service => @addChannel ref_iox _ _ service keep)
      (fun service => @discardChannel ref_iox _ _ service keep) s0 = Ok s' ∧
    @channels_wf ref_iox _ _ s' ∧ True ∧ channel_services s' ≡ₚ example_services ∧
    channels s' = [] ++ new ∧ getServiceDescription <$> new.*2 = example_services.
Proof.
  intros s0 keep.
  assert (@EndpointFunction ref_iox _ _ (fun _ => True) keep) as Hf.
  { split. intros endpoint s _ _. exists s. split; [reflexivity|]. split; [exact I|reflexivity]. }
  assert (EndpointInvariant (S := ExampleGateway) (fun _ => True)) as Hi by (split; auto).
  apply (@channels_match_services ref_iox ref_iox_spec ExampleGateway _ (fun _ => True) keep keep Hf Hf Hi
           example_services s0).
  - split; [apply vm_empty_wf|]. split; [constructor|constructor].
  - exact I.
  - apply (bool_decide_unpack _). vm_compute. exact I.
  - vm_compute. lia.
  - apply no_collisions_Forall. apply (bool_decide_unpack _). vm_compute. exact I.
Defined.
