(* ===== verification/Discovery.v ===== *)
(** * Discovery: who needs which service, and over which device it is reached

    include/p3com/generic/discovery.hpp and source/p3com/generic/discovery.cpp.

    The discovery manager keeps the local publishers and subscribers, a record
    per remote gateway, and a cache from service hashes to device indices.  It
    broadcasts the local subscribers and asks the gateways to open the channels
    that are needed.  Its operations run in a state that contains the manager,
    the network and the random device (class [DiscoveryState]), next to the
    transport registry, because every send can disable a transport.

    The callback that the registry runs on a failure sends discovery
    information itself, which can make further transports fail: [failCallback]
    is recursive, with a fuel that bounds the nesting.  File DiscoveryFailure
    shows that the fuel is enough. *)

From Stdlib Require Import String.
From stdpp Require Import base list gmap.
From S2P Require Import Prelude.
From S2P Require Import Iox.
From S2P Require Import Types.
From S2P Require Import VectorMap.
From S2P Require Import Serialization.
From S2P Require Import TransportInfo.

Open Scope Z_scope.

(** ** discovery.hpp *)

Record LocalState_t := mkLocalState {
  userPublishers : list ServiceDescription;
  localSubscribers : list ServiceDescription;
  userPublisherPorts : list Z
}.

Record DeviceRecord_t := mkRecord {
  info : PubSubInfo_t;
  deviceIndices : list DeviceIndex_t
}.

Abbreviation DeviceIndexVector_t := (list DeviceIndex_t).

Record RemoteState_t := mkRemoteState {
  records : list DeviceRecord_t;
  deviceIndicesCache : vector_map ClassHash DeviceIndexVector_t
}.

(** [MAX_PUBLISHERS] is iceoryx's; the field is large enough for the channels
    of the gateway. *)
Record DiscoveryManager := mkDiscovery {
  m_gatewayHash : hash_t;
  m_preferredType : TransportType;
  m_remoteState : RemoteState_t;
  m_localState : LocalState_t;
  m_gatewayPublisherUids : list UniquePortId;
  m_lastSentDiscoveryInfo : PubSubInfo_t;
  m_terminateFlag : bool
}.

(** What iceoryx's port introspection says of one port. *)
Record PortData := mkPortData {
  m_node : IdString;
  m_caproServiceID : IdString;
  m_caproInstanceID : IdString;
  m_caproEventMethodID : IdString;
  m_portID : Z
}.

Record PortIntrospection := mkPortIntrospection {
  m_publisherList : list PortData;
  m_subscriberList : list PortData
}.

(** What the gateway publishes about itself. *)
Record GwRegisteredData := mkGwRegisteredData {
  publisherUids : list Z;
  subscriberServices : list ServiceDescription
}.

Definition IOX_GW_NODE_NAME : IdString := String.list_byte_of_string "p3com-gw".
Definition ROUDI_ID : IdString := String.list_byte_of_string "RouDi_ID".

(** A state that contains the discovery manager and a random device. *)
Class DiscoveryState (W : Type) `{NetWorld W} := {
  discovery : W → DiscoveryManager;
  set_discovery : DiscoveryManager → W → W;
  generateHash : W → hash_t * W;
  discovery_set : ∀ d w, discovery (set_discovery d w) = d;
  net_set_discovery : ∀ d w, net (set_discovery d w) = net w;
  discovery_set_net : ∀ l w, discovery (set_net l w) = discovery w;
  discovery_generateHash : ∀ w, discovery (generateHash w).2 = discovery w;
  net_generateHash : ∀ w, net (generateHash w).2 = net w;
  generateHash_u32 : ∀ w, is_u32 (generateHash w).1;
  (* the rest of the state, which none of these operations touches *)
  Rest : Type;
  rest : W → Rest;
  rest_set_net : ∀ l w, rest (set_net l w) = rest w;
  rest_set_discovery : ∀ d w, rest (set_discovery d w) = rest w;
  rest_generateHash : ∀ w, rest (generateHash w).2 = rest w
}.

(** *** Field updates *)

Definition set_remote (r : RemoteState_t) (d : DiscoveryManager) : DiscoveryManager :=
  mkDiscovery (m_gatewayHash d) (m_preferredType d) r (m_localState d) (m_gatewayPublisherUids d)
    (m_lastSentDiscoveryInfo d) (m_terminateFlag d).
Definition set_local (l : LocalState_t) (d : DiscoveryManager) : DiscoveryManager :=
  mkDiscovery (m_gatewayHash d) (m_preferredType d) (m_remoteState d) l (m_gatewayPublisherUids d)
    (m_lastSentDiscoveryInfo d) (m_terminateFlag d).
Definition set_uids (l : list UniquePortId) (d : DiscoveryManager) : DiscoveryManager :=
  mkDiscovery (m_gatewayHash d) (m_preferredType d) (m_remoteState d) (m_localState d) l
    (m_lastSentDiscoveryInfo d) (m_terminateFlag d).
Definition set_lastSent (i : PubSubInfo_t) (d : DiscoveryManager) : DiscoveryManager :=
  mkDiscovery (m_gatewayHash d) (m_preferredType d) (m_remoteState d) (m_localState d)
    (m_gatewayPublisherUids d) i (m_terminateFlag d).
Definition set_terminate (d : DiscoveryManager) : DiscoveryManager :=
  mkDiscovery (m_gatewayHash d) (m_preferredType d) (m_remoteState d) (m_localState d)
    (m_gatewayPublisherUids d) (m_lastSentDiscoveryInfo d) true.

Definition set_records (rs : list DeviceRecord_t) (d : DiscoveryManager) : DiscoveryManager :=
  set_remote (mkRemoteState rs (deviceIndicesCache (m_remoteState d))) d.
Definition set_cache (c : vector_map ClassHash DeviceIndexVector_t) (d : DiscoveryManager)
    : DiscoveryManager :=
  set_remote (mkRemoteState (records (m_remoteState d)) c) d.

Lemma set_records_id d : set_records (records (m_remoteState d)) d = d.
Proof. by destruct d as [?? [] ????]. Qed.

Lemma set_cache_id d : set_cache (deviceIndicesCache (m_remoteState d)) d = d.
Proof. by destruct d as [?? [] ????]. Qed.

Definition emptyInfo : PubSubInfo_t := mkPubSubInfo [] 0 0 0 false.

Section pure.
Context `{Iox}.
Implicit Types (d : DiscoveryManager) (ti : TransportInfo).

(** The constructor; registering the callbacks is the wiring of the model. *)
Definition DiscoveryManager_init (hash : hash_t) (preferredTransport : TransportType)
    : DiscoveryManager :=
  mkDiscovery hash preferredTransport (mkRemoteState [] vm_empty) (mkLocalState [] [] []) []
    emptyInfo false.

Definition updateNeededChannels d : list ServiceDescription :=
  let neededServices := pushUnique MAX_TOPICS [] (localSubscribers (m_localState d)) in
  let neededServices := pushUnique MAX_TOPICS neededServices (userPublishers (m_localState d)) in
  foldl (fun neededServices record =>
           pushUnique MAX_TOPICS neededServices (userSubscribers (info record)))
    neededServices (records (m_remoteState d)).

(** [clear] of the cache. *)
Definition clearCache d : DiscoveryManager :=
  set_cache (vm_clear (deviceIndicesCache (m_remoteState d))) d.

(** The device index over which the gateway of a record is reached, if any:
    the body of the loops of [computeDeviceIndices] and
    [generateDeviceIndicesForwarding] once a record qualifies. *)
Definition matchingDeviceIndex ti d (r : DeviceRecord_t) : option DeviceIndex_t :=
  let preferredType := findMatchingType ti (gatewayBitset (info r)) (m_preferredType d) in
  if negb (bool_decide (preferredType = NONE)) then
    let indexIt := find_if (fun i => bool_decide (di_type i = preferredType)) (deviceIndices r) in
    deviceIndices r !! indexIt
  else None.

Definition push_index (indices : DeviceIndexVector_t) (i : option DeviceIndex_t)
    : DeviceIndexVector_t :=
  match i with Some i => (push_back MAX_DEVICE_COUNT indices i).1 | None => indices end.

Definition computeDeviceIndices ti d (serviceHash : ClassHash) : DeviceIndexVector_t :=
  foldl (fun indices r =>
    if containsElement_hash (userSubscribers (info r)) serviceHash
    then push_index indices (matchingDeviceIndex ti d r) else indices)
    [] (records (m_remoteState d)).

(** [it == end()] reads no element; a lookup after [emplace] is [back()]. *)
Definition generateDeviceIndices ti d (uid : UniquePortId) (serviceHash : ClassHash)
    : Outcome (DeviceIndexVector_t * DiscoveryManager) :=
  if containsElement (m_gatewayPublisherUids d) uid then Ok ([], d)
  else if negb (containsElement (userPublisherPorts (m_localState d)) uid) then Ok ([], d)
  else
    let cache := deviceIndicesCache (m_remoteState d) in
    let it := vm_find cache serviceHash in
    if (it =? vm_end cache)%nat then
      let '(cache, emplaced) :=
        vm_emplace MAX_TOPICS cache serviceHash (computeDeviceIndices ti d serviceHash) in
      let d := set_cache cache d in
      if negb emplaced then Ok ([], d)
      else back ← deref (vm_back cache); Ok (back, d)
    else indices ← deref (vm_at cache it); Ok (indices, d).

(** The first loop of [generateDeviceIndicesForwarding]: the last record that
    has the source device wins. *)
Definition fromDeviceBitset d (fromDeviceIndex : DeviceIndex_t) : bitset_t :=
  foldl (fun bitset r =>
    if containsElement (deviceIndices r) fromDeviceIndex then gatewayBitset (info r) else bitset)
    0 (records (m_remoteState d)).

Definition generateDeviceIndicesForwarding ti d (serviceHash : ClassHash)
    (fromDeviceIndex : DeviceIndex_t) : DeviceIndexVector_t :=
  let from := fromDeviceBitset d fromDeviceIndex in
  if from =? 0 then []
  else foldl (fun indices r =>
    let commonTransportLayers := Z.land from (gatewayBitset (info r)) in
    if (commonTransportLayers =? 0) && containsElement_hash (userSubscribers (info r)) serviceHash
    then push_index indices (matchingDeviceIndex ti d r) else indices)
    [] (records (m_remoteState d)).

Definition addGatewayPublisher (MAX_PUBLISHERS : nat) d (uid : UniquePortId) : DiscoveryManager :=
  set_uids (push_back MAX_PUBLISHERS (m_gatewayPublisherUids d) uid).1 d.

Definition discardGatewayPublisher d (uid : UniquePortId) : DiscoveryManager :=
  set_uids (deleteElement (m_gatewayPublisherUids d) uid) d.

(** The filter of [readPortSubscriber] and the service of a port. *)
Definition isUserPort (port : PortData) : bool :=
  negb (bool_decide (m_node port = IOX_GW_NODE_NAME))
  && negb (bool_decide (m_caproInstanceID port = ROUDI_ID)).

Definition portService (port : PortData) : ServiceDescription :=
  mkService (m_caproServiceID port) (m_caproInstanceID port) (m_caproEventMethodID port).

(** The new local state; [sample] is [None] when nothing could be taken. *)
Definition newLocalState (sample : option PortIntrospection) : LocalState_t :=
  match sample with
  | None => mkLocalState [] [] []
  | Some sample =>
      let '(pubs, ports) :=
        foldl (fun '(pubs, ports) port =>
          if isUserPort port
          then ((push_back MAX_TOPICS pubs (portService port)).1,
                (push_back MAX_TOPICS ports (m_portID port)).1)
          else (pubs, ports)) ([], []) (m_publisherList sample) in
      let subs :=
        foldl (fun subs port =>
          if isUserPort port then (push_back MAX_TOPICS subs (portService port)).1 else subs)
          [] (m_subscriberList sample) in
      mkLocalState pubs subs ports
  end.

(** [deleteElements] in both directions leaves nothing. *)
Definition localStateUnchanged (old new : LocalState_t) : bool :=
  bool_decide (deleteElements (userPublishers old) (userPublishers new) = [])
  && bool_decide (deleteElements (localSubscribers old) (localSubscribers new) = [])
  && bool_decide (deleteElements (userPublishers new) (userPublishers old) = [])
  && bool_decide (deleteElements (localSubscribers new) (localSubscribers old) = []).

(** What [waitsetLoop] publishes for introspection after an update. *)
Definition gwIntrospection d : GwRegisteredData :=
  mkGwRegisteredData (userPublisherPorts (m_localState d))
    (pushUnique MAX_TOPICS [] (localSubscribers (m_localState d))).

(** The record the message updates: found by hash, or appended.  When the
    vector is full, [emplace_back] adds nothing and [back()] is the last of
    the old records. *)
Definition findRecord (rs : list DeviceRecord_t) (hash : hash_t) : nat :=
  find_if (fun r => bool_decide (gatewayHash (info r) = hash)) rs.

Definition updateRecord (record : DeviceRecord_t) (i : PubSubInfo_t) (deviceIndex : DeviceIndex_t)
    : DeviceRecord_t :=
  let indexIt := find_if (fun j => bool_decide (di_type j = di_type deviceIndex))
                   (deviceIndices record) in
  mkRecord i
    (if (indexIt =? length (deviceIndices record))%nat
     then (push_back TRANSPORT_TYPE_COUNT (deviceIndices record) deviceIndex).1
     else deviceIndices record).
End pure.

(** ** The operations on the whole state *)

Section operations.
Context `{Iox} `{TransportLayer} `{DiscoveryState W}.
Abbreviation state := (TransportInfo * W)%type.
Implicit Types (s : state) (ti : TransportInfo) (w : W).

Definition generateDiscoveryInfo s : PubSubInfo_t * state :=
  let '(ti, w) := s in
  let '(hash, w) := generateHash w in
  let d := discovery w in
  (mkPubSubInfo (pushUnique MAX_TOPICS [] (localSubscribers (m_localState d)))
     (s_bitset ti) (m_gatewayHash d) hash false, (ti, w)).

Definition sendDiscoveryInfo (s_failCallback : option (state → Outcome state))
    (i : PubSubInfo_t) s : Outcome state :=
  '(serializedBytes, _) ← serialize_PubSubInfo i;
  doForAllEnabled s_failCallback (sendBroadcast serializedBytes) s.

Definition modify (f : DiscoveryManager → DiscoveryManager) s : state :=
  let '(ti, w) := s in (ti, set_discovery (f (discovery w)) w).

(** The callback the constructor registers with the transport registry. *)
Fixpoint failCallback (fuel : nat) s : Outcome state :=
  match fuel with
  | O => OutOfFuel
  | S fuel =>
      let s := modify clearCache s in
      if negb (m_terminateFlag (discovery s.2)) then
        let '(i, s) := generateDiscoveryInfo s in sendDiscoveryInfo (Some (failCallback fuel)) i s
      else Ok s
  end.

(** A failure disables a transport for good, so the callback nests at most
    once per transport. *)
Definition failFuel : nat := S TRANSPORT_TYPE_COUNT.

Definition registeredCallback : option (state → Outcome state) := Some (failCallback failFuel).

Definition sendGenerated s : Outcome state :=
  let '(i, s) := generateDiscoveryInfo s in sendDiscoveryInfo registeredCallback i s.

Definition initialize s : Outcome state := sendGenerated s.

Definition deinitialize s : Outcome state :=
  let s := modify set_terminate s in
  let '(i, s) := generateDiscoveryInfo s in
  sendDiscoveryInfo registeredCallback
    (mkPubSubInfo (userSubscribers i) (gatewayBitset i) (gatewayHash i) (infoHash i) true) s.

Definition resendDiscoveryInfoToTransport (type : TransportType) s : Outcome state :=
  let '(i, s) := generateDiscoveryInfo s in
  '(serializedBytes, _) ← serialize_PubSubInfo i;
  doFor registeredCallback type (sendBroadcast serializedBytes) s.

(** [m_updateCallback], [None] before [initialize]. *)
Context (m_updateCallback : option (list ServiceDescription → state → Outcome state)).

Definition update (neededServices : list ServiceDescription) s : Outcome state :=
  match m_updateCallback with Some callback => callback neededServices s | None => Ok s end.

(** The second critical section of [readPortSubscriber]: only the subscribers are announced. *)
Definition sendIfChanged s : Outcome state :=
  let '(i, s) := generateDiscoveryInfo s in
  if negb (bool_decide (userSubscribers i = userSubscribers (m_lastSentDiscoveryInfo (discovery s.2))))
  then s ← sendDiscoveryInfo registeredCallback i s; Ok (modify (set_lastSent i) s)
  else Ok s.

(** [sample] is what [m_portSubscriber.take()] returns. *)
Definition readPortSubscriber (sample : option PortIntrospection) s : Outcome state :=
  let old := m_localState (discovery s.2) in
  let new := newLocalState sample in
  let s := modify (set_local new) s in
  if localStateUnchanged old new then Ok s
  else
    s ← update (updateNeededChannels (discovery s.2)) s;
    sendIfChanged s.

(** One notification of [waitsetLoop]: the data published for introspection,
    if a sample could be loaned. *)
Definition waitsetLoop_body (sample : option PortIntrospection) (loaned : bool) s
    : Outcome (state * option GwRegisteredData) :=
  s ← readPortSubscriber sample s;
  Ok (s, if loaned then Some (gwIntrospection (discovery s.2)) else None).

(** Everything after the record has been found or created. *)
Definition storeRecord (recordIt : nat) (i : PubSubInfo_t) (deviceIndex : DeviceIndex_t) s
    : Outcome state :=
  let d := discovery s.2 in
  record ← deref (records (m_remoteState d) !! recordIt);
  let rs := <[recordIt := updateRecord record i deviceIndex]> (records (m_remoteState d)) in
  let s := modify (fun d => clearCache (set_records rs d)) s in
  update (updateNeededChannels (discovery s.2)) s.

Definition receiveRemoteDiscoveryInfo (mem : bytes) (size : nat) (deviceIndex : DeviceIndex_t) s
    : Outcome state :=
  '(i, _) ← deserialize_PubSubInfo mem size;
  let rs := records (m_remoteState (discovery s.2)) in
  let recordIt := findRecord rs (gatewayHash i) in
  if isTermination i then
    if negb (recordIt =? length rs)%nat
    then Ok (modify (set_records (vector_erase rs recordIt)) s)
    else Ok s
  else if (recordIt =? length rs)%nat then
    s ← (if negb (m_terminateFlag (discovery s.2)) then sendGenerated s else Ok s);
    let rs := records (m_remoteState (discovery s.2)) in
    let rs := (push_back MAX_DEVICE_COUNT rs (mkRecord emptyInfo [])).1 in
    let s := modify (set_records rs) s in
    storeRecord (length rs - 1) i deviceIndex s
  else storeRecord recordIt i deviceIndex s.
End operations.

(** ** The invariant *)

Section invariant.
Context `{Iox}.

Definition record_wf (r : DeviceRecord_t) : Prop :=
  NoDup (di_type <$> deviceIndices r) ∧
  (length (deviceIndices r) ≤ TRANSPORT_TYPE_COUNT)%nat ∧
  (length (userSubscribers (info r)) ≤ MAX_TOPICS)%nat.

(** One record per remote gateway, within the capacities. *)
Definition records_wf (rs : list DeviceRecord_t) : Prop :=
  (length rs ≤ MAX_DEVICE_COUNT)%nat ∧ NoDup ((fun r => gatewayHash (info r)) <$> rs) ∧
  Forall record_wf rs.

Definition cache_wf (c : vector_map ClassHash DeviceIndexVector_t) : Prop :=
  vm_wf MAX_TOPICS c ∧ NoDup (m_keys c).

(** What is cached is what would be computed now. *)
Definition cache_coherent (ti : TransportInfo) (d : DiscoveryManager) : Prop :=
  ∀ h v, to_map (deviceIndicesCache (m_remoteState d)) !! h = Some v →
         v = computeDeviceIndices ti d h.

Definition local_wf (d : DiscoveryManager) : Prop :=
  is_u32 (m_gatewayHash d) ∧ Forall valid_Service (localSubscribers (m_localState d)) ∧
  (length (localSubscribers (m_localState d)) ≤ MAX_TOPICS)%nat.

Definition discovery_wf (d : DiscoveryManager) : Prop :=
  local_wf d ∧ records_wf (records (m_remoteState d)) ∧ cache_wf (deviceIndicesCache (m_remoteState d)).
End invariant.

(** ** Lemmas: device indices *)

Section indices.
Context `{IoxSpec}.
Implicit Types (d : DiscoveryManager) (ti : TransportInfo) (rs : list DeviceRecord_t).

Lemma foldl_push_index (f : DeviceRecord_t → option DeviceIndex_t) rs acc :
  (length acc + length rs ≤ MAX_DEVICE_COUNT)%nat →
  foldl (fun indices r => push_index indices (f r)) acc rs = acc ++ omap f rs.
Proof.
  revert acc. induction rs as [|r rs IH]; intros acc Hl; csimpl in *; [by rewrite app_nil_r|].
  destruct (f r) as [i|]; simpl; [|apply IH; lia].
  rewrite push_back_room by lia. simpl. rewrite IH by (rewrite length_app; simpl; lia).
  by rewrite <-app_assoc.
Qed.

Lemma computeDeviceIndices_omap ti d h :
  records_wf (records (m_remoteState d)) →
  computeDeviceIndices ti d h =
    omap (fun r => if containsElement_hash (userSubscribers (info r)) h
                   then matchingDeviceIndex ti d r else None) (records (m_remoteState d)).
Proof.
  intros [Hl _]. unfold computeDeviceIndices.
  symmetry. etransitivity; [symmetry; apply (foldl_push_index _ _ []); simpl; lia|]. symmetry.
  generalize (@nil DeviceIndex_t). induction (records (m_remoteState d)) as [|r rs IH]; intros acc; [done|].
  simpl in *. rewrite IH by lia. f_equal. by destruct (containsElement_hash _ _).
Qed.

Lemma forwarding_omap ti d h from :
  records_wf (records (m_remoteState d)) →
  generateDeviceIndicesForwarding ti d h from =
    if decide (fromDeviceBitset d from = 0) then []
    else omap (fun r =>
           if (Z.land (fromDeviceBitset d from) (gatewayBitset (info r)) =? 0)
              && containsElement_hash (userSubscribers (info r)) h
           then matchingDeviceIndex ti d r else None) (records (m_remoteState d)).
Proof.
  intros [Hl _]. unfold generateDeviceIndicesForwarding.
  destruct (Z.eqb_spec (fromDeviceBitset d from) 0); [by rewrite decide_True|].
  rewrite decide_False by done. generalize (fromDeviceBitset d from). intros b.
  symmetry. etransitivity; [symmetry; apply (foldl_push_index _ _ []); simpl; lia|]. symmetry.
  generalize (@nil DeviceIndex_t). induction (records (m_remoteState d)) as [|r rs IH]; intros acc; [done|].
  simpl in *. rewrite IH by lia. f_equal. by destruct (_ && _).
Qed.

(** The index of a record for its matching type. *)
Lemma matchingDeviceIndex_Some ti d r i :
  record_wf r →
  matchingDeviceIndex ti d r = Some i ↔
  i ∈ deviceIndices r ∧ di_type i ≠ NONE ∧
  di_type i = findMatchingType ti (gatewayBitset (info r)) (m_preferredType d).
Proof.
  intros [Hnd _]. unfold matchingDeviceIndex.
  set (ty := findMatchingType ti (gatewayBitset (info r)) (m_preferredType d)).
  destruct (decide (ty = NONE)) as [He|He].
  { rewrite bool_decide_true by done. simpl. split; [done|]. intros (_ & Hn & Ht). congruence. }
  rewrite bool_decide_false by done. simpl. split.
  - intros Hi. pose proof (lookup_lt_Some _ _ _ Hi) as Hlt.
    destruct (find_if_found _ _ Hlt) as (x & Hx & Hp%bool_decide_eq_true).
    rewrite Hi in Hx. injection Hx as <-. split_and!; [by eapply list_elem_of_lookup_2|congruence|done].
  - intros (Hin & _ & Ht).
    assert (find_if (fun i => bool_decide (di_type i = ty)) (deviceIndices r)
            < length (deviceIndices r))%nat as Hlt.
    { pose proof (find_if_le (fun i => bool_decide (di_type i = ty)) (deviceIndices r)).
      enough (find_if (fun i => bool_decide (di_type i = ty)) (deviceIndices r)
              ≠ length (deviceIndices r)) by lia.
      apply find_if_not_end. exists i. split; [done|]. by apply bool_decide_eq_true. }
    destruct (find_if_found _ _ Hlt) as (x & Hx & Hp%bool_decide_eq_true). rewrite Hx. f_equal.
    apply list_elem_of_lookup in Hin as [k Hk].
    assert (find_if (fun i => bool_decide (di_type i = ty)) (deviceIndices r) = k) as Heq.
    { eapply (NoDup_lookup _ _ _ ty Hnd); rewrite list_lookup_fmap; [by rewrite Hx; simpl; rewrite Hp|].
      rewrite Hk. simpl. by rewrite Ht. }
    rewrite Heq in Hx. congruence.
Qed.

(** What a device index of a service stands for. *)
Definition reaches ti d h (r : DeviceRecord_t) (i : DeviceIndex_t) : Prop :=
  r ∈ records (m_remoteState d) ∧
  (∃ service, service ∈ userSubscribers (info r) ∧ getClassHash service = h) ∧
  i ∈ deviceIndices r ∧ di_type i ≠ NONE ∧
  di_type i = findMatchingType ti (gatewayBitset (info r)) (m_preferredType d).

Lemma elem_of_computeDeviceIndices ti d h i :
  records_wf (records (m_remoteState d)) →
  i ∈ computeDeviceIndices ti d h ↔ ∃ r, reaches ti d h r i.
Proof.
  intros Hwf. rewrite computeDeviceIndices_omap by done. rewrite list_elem_of_omap.
  destruct Hwf as (_ & _ & Hall). unfold reaches. split; intros (r & Hr); exists r.
  - destruct Hr as [Hin Hr]. destruct (containsElement_hash _ _) eqn:E; [|done].
    apply containsElement_hash_true in E.
    apply matchingDeviceIndex_Some in Hr as (? & ? & ?); [done|].
    by apply (proj1 (Forall_forall _ _) Hall).
  - destruct Hr as (Hin & Hs & Hr). split; [done|].
    rewrite (proj2 (containsElement_hash_true _ _) Hs). apply matchingDeviceIndex_Some; [|done].
    by apply (proj1 (Forall_forall _ _) Hall).
Qed.

Lemma elem_of_forwarding ti d h from i :
  records_wf (records (m_remoteState d)) →
  i ∈ generateDeviceIndicesForwarding ti d h from ↔
  fromDeviceBitset d from ≠ 0 ∧
  ∃ r, reaches ti d h r i ∧ Z.land (fromDeviceBitset d from) (gatewayBitset (info r)) = 0.
Proof.
  intros Hwf. rewrite forwarding_omap by done. case_decide as Hz.
  { split; [by intros ?%elem_of_nil|]. naive_solver. }
  rewrite list_elem_of_omap. destruct Hwf as (_ & _ & Hall). unfold reaches. split.
  - intros (r & Hin & Hr). split; [done|]. exists r.
    destruct (_ && _) eqn:E; [|done]. apply andb_prop in E as [E1%Z.eqb_eq E2].
    apply containsElement_hash_true in E2.
    apply matchingDeviceIndex_Some in Hr as (? & ? & ?); [done|].
    by apply (proj1 (Forall_forall _ _) Hall).
  - intros (_ & r & (Hin & Hs & Hr) & Hl). exists r. split; [done|].
    rewrite Hl. simpl. rewrite (proj2 (containsElement_hash_true _ _) Hs).
    apply matchingDeviceIndex_Some; [|done]. by apply (proj1 (Forall_forall _ _) Hall).
Qed.

(** The source bitset is that of a record that has the device. *)
Lemma fromDeviceBitset_spec d from :
  (∀ r, r ∈ records (m_remoteState d) → from ∉ deviceIndices r) ∧ fromDeviceBitset d from = 0 ∨
  ∃ r, r ∈ records (m_remoteState d) ∧ from ∈ deviceIndices r ∧
       fromDeviceBitset d from = gatewayBitset (info r).
Proof.
  unfold fromDeviceBitset. generalize 0 as b.
  induction (records (m_remoteState d)) as [|r rs IH]; intros b; simpl.
  { left. split; [by intros r ?%elem_of_nil|done]. }
  destruct (containsElement (deviceIndices r) from) eqn:E.
  - apply containsElement_true in E. destruct (IH (gatewayBitset (info r))) as [[Hn Hb]|(r' & ? & ? & ?)].
    + right. exists r. split_and!; [by left|done|done].
    + right. exists r'. split_and!; [by right|done|done].
  - apply containsElement_false in E. destruct (IH b) as [[Hn Hb]|(r' & ? & ? & ?)].
    + left. split; [|done]. intros r' [->|?]%elem_of_cons; [done|by apply Hn].
    + right. exists r'. split_and!; [by right|done|done].
Qed.
End indices.

(** ** Lemmas: needed channels and the cache *)

Section channels.
Context `{IoxSpec}.
Implicit Types (d : DiscoveryManager) (ti : TransportInfo).

(** Every service someone may publish or subscribe to, with repetitions. *)
Definition services_in_use d : list ServiceDescription :=
  localSubscribers (m_localState d) ++ userPublishers (m_localState d)
  ++ concat ((fun r => userSubscribers (info r)) <$> records (m_remoteState d)).

Lemma updateNeededChannels_pushUnique d :
  updateNeededChannels d = pushUnique MAX_TOPICS [] (services_in_use d).
Proof.
  unfold updateNeededChannels, services_in_use. rewrite app_assoc, !pushUnique_app.
  generalize (pushUnique MAX_TOPICS (pushUnique MAX_TOPICS [] (localSubscribers (m_localState d)))
                (userPublishers (m_localState d))).
  induction (records (m_remoteState d)) as [|r rs IH]; intros acc; csimpl; [done|].
  by rewrite IH, pushUnique_app.
Qed.

(** Whatever the cache holds. *)
Lemma generateDeviceIndices_returns ti d uid h :
  discovery_wf d →
  ∃ devices c', generateDeviceIndices ti d uid h = Ok (devices, set_cache c' d) ∧ cache_wf c' ∧
    ∀ i, i ∈ devices → (∃ r, r ∈ records (m_remoteState d) ∧ i ∈ deviceIndices r) ∨
      ∃ v : list DeviceIndex_t, to_map (deviceIndicesCache (m_remoteState d)) !! h = Some v ∧ i ∈ v.
Proof.
  intros (_ & Hrec & Hc & Hnd). unfold generateDeviceIndices.
  set (cache := deviceIndicesCache (m_remoteState d)) in *.
  pose proof (set_cache_id d : set_cache cache d = d) as Hid.
  assert (∀ P, ∃ devices c', Ok (@nil DeviceIndex_t, d) = Ok (devices, set_cache c' d) ∧ cache_wf c' ∧
    ∀ i : DeviceIndex_t, i ∈ devices → P i) as Hnone.
  { intros P. exists [], cache. rewrite Hid. split_and!; [done..|]. by intros i ?%elem_of_nil. }
  destruct (containsElement (m_gatewayPublisherUids d) uid); [apply Hnone|].
  destruct (containsElement (userPublisherPorts (m_localState d)) uid); simpl;
    [|apply Hnone].
  destruct (Nat.eqb_spec (vm_find cache h) (vm_end cache)) as [He|He].
  - apply (vm_find_end MAX_TOPICS) in He; [|done].
    pose proof (vm_emplace_wf _ cache h (computeDeviceIndices ti d h) Hc) as Hwf'.
    pose proof (vm_emplace_NoDup _ cache h (computeDeviceIndices ti d h) Hc Hnd He) as Hnd'.
    rewrite vm_emplace_spec in * by done. case_decide as Hroom; ostep;
      [|cbn [negb]; rewrite Hid; apply Hnone].
    unfold vm_back. cbn [m_elems]. rewrite last_snoc. ostep. eexists _, _. split; [done|]. split; [done|].
    intros i (r & Hr & _ & Hi & _)%elem_of_computeDeviceIndices; [|done]. left. by exists r.
  - destruct (vm_at cache (vm_find cache h)) as [v|] eqn:Hv.
    + ostep. exists v, cache. rewrite Hid. split_and!; [done..|]. intros i Hi. right. exists v.
      split; [|done]. by rewrite <-(vm_find_to_map MAX_TOPICS).
    + exfalso. assert (h ∈ m_keys cache) as Hk.
      { apply dec_stable. intros Hk. apply He. by apply (vm_find_end MAX_TOPICS). }
      destruct (vm_find_entry MAX_TOPICS cache h Hc Hk) as (v & Hv' & _). unfold vm_at in Hv. congruence.
Qed.

Lemma generateDeviceIndices_spec ti d uid h :
  discovery_wf d → cache_coherent ti d →
  let cache := deviceIndicesCache (m_remoteState d) in
  ∃ c', generateDeviceIndices ti d uid h =
    Ok (if decide (uid ∉ m_gatewayPublisherUids d ∧ uid ∈ userPublisherPorts (m_localState d) ∧
                   (h ∈ m_keys cache ∨ (vm_size cache < MAX_TOPICS)%nat))
        then computeDeviceIndices ti d h else [], set_cache c' d) ∧
    cache_wf c' ∧ cache_coherent ti (set_cache c' d).
Proof.
  intros (_ & _ & Hc & Hnd) Hco cache. unfold generateDeviceIndices.
  pose proof (set_cache_id d : set_cache cache d = d) as Hid.
  destruct (containsElement (m_gatewayPublisherUids d) uid) eqn:E1.
  { apply containsElement_true in E1. exists cache. rewrite Hid, decide_False by tauto. done. }
  apply containsElement_false in E1.
  destruct (containsElement (userPublisherPorts (m_localState d)) uid) eqn:E2; simpl.
  2:{ apply containsElement_false in E2. exists cache. rewrite Hid, decide_False by tauto. done. }
  apply containsElement_true in E2. fold cache.
  destruct (Nat.eqb_spec (vm_find cache h) (vm_end cache)) as [He|He].
  - apply (vm_find_end MAX_TOPICS) in He; [|done].
    pose proof (vm_emplace_wf _ cache h (computeDeviceIndices ti d h) Hc) as Hwf'.
    pose proof (vm_emplace_NoDup _ cache h (computeDeviceIndices ti d h) Hc Hnd He) as Hnd'.
    pose proof (vm_emplace_to_map MAX_TOPICS cache h (computeDeviceIndices ti d h) Hc He) as Hmap.
    rewrite vm_emplace_spec in * by done. case_decide as Hroom; ostep.
    + unfold vm_back. cbn [m_elems]. rewrite last_snoc. ostep. eexists.
      rewrite (decide_True (P := _ ∧ _)) by tauto. split; [done|]. split; [done|].
      intros h' v. cbn [set_cache set_remote m_remoteState deviceIndicesCache].
      cbn [fst] in Hmap. rewrite Hmap, lookup_insert_Some. intros [[-> <-]|[_ Hv]]; [done|].
      by apply Hco.
    + cbn [negb]. exists cache. rewrite Hid, (decide_False (P := _ ∧ _)) by tauto. done.
  - assert (h ∈ m_keys cache) as Hk.
    { apply dec_stable. intros Hk. apply He. by apply (vm_find_end MAX_TOPICS). }
    pose proof (vm_find_to_map MAX_TOPICS cache h Hc) as Hat.
    destruct (vm_find_entry MAX_TOPICS cache h Hc Hk) as (v & Hv & _).
    assert (vm_at cache (vm_find cache h) = Some v) as Hv' by done.
    rewrite Hv' in *. ostep. exists cache.
    rewrite (decide_True (P := _ ∧ _)), Hid by tauto. by rewrite (Hco h v).
Qed.
End channels.

(** ** Properties of the pure part *)

Section properties.
Context `{IoxSpec}.

(** C24: The device indices of a service are exact: an index is computed for a service
    exactly when some known gateway has a subscriber of that service and the index is
    the one of that gateway for the transport type that matches; no more indices are
    computed than there are gateways. *)
Theorem device_indices_exact (ti : TransportInfo) (d : DiscoveryManager) (h : ClassHash) :
  records_wf (records (m_remoteState d)) →
  (∀ i, i ∈ computeDeviceIndices ti d h ↔
     ∃ r, r ∈ records (m_remoteState d) ∧
          (∃ service, service ∈ userSubscribers (info r) ∧ getClassHash service = h) ∧
          i ∈ deviceIndices r ∧ di_type i ≠ NONE ∧
          di_type i = findMatchingType ti (gatewayBitset (info r)) (m_preferredType d)) ∧
  (length (computeDeviceIndices ti d h) ≤ length (records (m_remoteState d)))%nat.
Proof.
  intros Hwf. split; [intros i; by apply elem_of_computeDeviceIndices|].
  rewrite computeDeviceIndices_omap by done. clear Hwf.
  induction (records (m_remoteState d)) as [|r rs IH]; csimpl; [done|].
  destruct (containsElement_hash _ _); [destruct (matchingDeviceIndex _ _ _)|]; simpl; lia.
Qed.

(** C27: A forwarded message goes exactly to the subscribing gateways that share no
    transport with the gateway it came from, and so never over a transport type that
    the source gateway has: a message cannot be forwarded back, nor to a gateway that
    received it from the source directly. *)
Theorem forwarding_never_returns (ti : TransportInfo) (d : DiscoveryManager) (h : ClassHash)
    (from i : DeviceIndex_t) :
  records_wf (records (m_remoteState d)) →
  (i ∈ generateDeviceIndicesForwarding ti d h from ↔
     fromDeviceBitset d from ≠ 0 ∧
     ∃ r, reaches ti d h r i ∧ Z.land (fromDeviceBitset d from) (gatewayBitset (info r)) = 0) ∧
  (i ∈ generateDeviceIndicesForwarding ti d h from →
     ∃ source r, source ∈ records (m_remoteState d) ∧ from ∈ deviceIndices source ∧
       r ∈ records (m_remoteState d) ∧ i ∈ deviceIndices r ∧
       bit (gatewayBitset (info source)) (index (di_type i)) = false ∧
       ∀ t, bit (gatewayBitset (info source)) t && bit (gatewayBitset (info r)) t = false).
Proof.
  intros Hwf. split; [by apply elem_of_forwarding|].
  rewrite elem_of_forwarding by done. intros (Hnz & r & (Hr & _ & Hi & Hn & Ht) & Hland).
  destruct (fromDeviceBitset_spec d from) as [[_ Hz]|(source & Hs & Hf & Hb)]; [done|].
  assert (∀ t, bit (gatewayBitset (info source)) t && bit (gatewayBitset (info r)) t = false) as Hdis.
  { intros t. unfold bit. by rewrite <-Z.land_spec, <-Hb, Hland, Z.bits_0. }
  exists source, r. split_and!; [done..| |done].
  pose proof (findMatchingType_bit ti (gatewayBitset (info r)) (m_preferredType d)) as Hbit.
  rewrite <-Ht in Hbit. specialize (Hdis (index (di_type i))).
  rewrite Hbit in Hdis by done. by rewrite andb_true_r in Hdis.
Qed.

(** C25: The cache is transparent: while it is coherent, [generateDeviceIndices] returns
    what a computation from scratch would return, for messages of discovered user
    publishers, and nothing for the gateway's own and for unknown publishers; it stays
    coherent.  Only when 32 other services are cached is a message not sent. *)
Theorem cache_transparent (ti : TransportInfo) (d : DiscoveryManager) (uid : UniquePortId)
    (h : ClassHash) :
  discovery_wf d → cache_coherent ti d →
  let cache := deviceIndicesCache (m_remoteState d) in
  ∃ d', generateDeviceIndices ti d uid h =
    Ok (if decide (uid ∉ m_gatewayPublisherUids d ∧ uid ∈ userPublisherPorts (m_localState d) ∧
                   (h ∈ m_keys cache ∨ (vm_size cache < MAX_TOPICS)%nat))
        then computeDeviceIndices ti d h else [], d') ∧
    discovery_wf d' ∧ cache_coherent ti d' ∧
    records (m_remoteState d') = records (m_remoteState d) ∧ m_localState d' = m_localState d.
Proof.
  intros Hwf Hco cache. destruct (generateDeviceIndices_spec ti d uid h Hwf Hco) as (c' & He & Hc' & Hco').
  exists (set_cache c' d). destruct Hwf as (Hl & Hr & _). by split_and!.
Qed.

(** The channels asked for are pairwise different, at most 32, and each serves a
    local publisher, a local subscriber or a remote subscriber; unless 32 channels are in
    use, no such service is missing. *)
Theorem needed_channels_complete (d : DiscoveryManager) :
  NoDup (updateNeededChannels d) ∧ (length (updateNeededChannels d) ≤ MAX_TOPICS)%nat ∧
  (∀ s, s ∈ updateNeededChannels d → s ∈ services_in_use d) ∧
  ((length (updateNeededChannels d) < MAX_TOPICS)%nat →
   ∀ s, s ∈ services_in_use d → s ∈ updateNeededChannels d).
Proof.
  rewrite updateNeededChannels_pushUnique. split_and!.
  - apply pushUnique_NoDup. constructor.
  - apply pushUnique_length. simpl. lia.
  - intros s [?%elem_of_nil|?]%pushUnique_elem; done.
  - intros Hl s Hs. apply pushUnique_not_full; [done|by right].
Qed.
End properties.

(** The record of a terminating gateway is erased, and nothing else changes. *)
Lemma receive_termination_spec `{IoxSpec} `{TransportLayer} `{DiscoveryState W}
    (update : option (list ServiceDescription → TransportInfo * W → Outcome (TransportInfo * W)))
    (mem : bytes) (size : nat) (from : DeviceIndex_t) (ti : TransportInfo) (w : W)
    (i : PubSubInfo_t) (n : Z) :
  deserialize_PubSubInfo mem size = Ok (i, n) → isTermination i = true →
  NoDup ((fun r => gatewayHash (info r)) <$> records (m_remoteState (discovery w))) →
  ∃ w' rs', receiveRemoteDiscoveryInfo update mem size from (ti, w) = Ok (ti, w') ∧
    discovery w' = set_records rs' (discovery w) ∧
    (∀ r, r ∈ rs' → gatewayHash (info r) ≠ gatewayHash i) ∧
    rs' ⊆ records (m_remoteState (discovery w)).
Proof.
  intros Hdes Hterm Hnd. unfold receiveRemoteDiscoveryInfo. rewrite Hdes. ostep. rewrite Hterm.
  set (d := discovery w) in *. set (rs := records (m_remoteState d)) in *.
  pose proof (find_if_le (fun r => bool_decide (gatewayHash (info r) = gatewayHash i)) rs) as Hle.
  fold (findRecord rs (gatewayHash i)) in Hle. cbn [snd]. fold d rs.
  destruct (Nat.eqb_spec (findRecord rs (gatewayHash i)) (length rs)) as [He|He]; simpl.
  - exists w, rs. split_and!; [done|symmetry; apply set_records_id| |done].
    intros r Hr. unfold findRecord in He. rewrite find_if_end in He.
    apply He in Hr. by apply bool_decide_eq_false in Hr.
  - eexists _, _. split; [done|]. rewrite discovery_set. split; [done|].
    rewrite vector_erase_at by lia. split.
    + intros r Hr Heq.
      destruct (find_if_found (fun r => bool_decide (gatewayHash (info r) = gatewayHash i)) rs)
        as (r0 & Hr0 & Hp%bool_decide_eq_true); [unfold findRecord in *; lia|].
      fold (findRecord rs (gatewayHash i)) in Hr0.
      rewrite (delete_Permutation rs _ r0 Hr0) in Hnd. csimpl in Hnd.
      apply NoDup_cons in Hnd as [Hnin _]. apply Hnin.
      apply list_elem_of_fmap. exists r. split; [congruence|done].
    + intros r Hr. by eapply list_elem_of_delete_inv.
Qed.

(** A terminating gateway's record is erased, but its cached device indices are
    not: messages for its subscribers are still sent to it until the cache is next
    cleared. *)
Theorem stale_indices_after_termination `{IoxSpec} `{TransportLayer} `{DiscoveryState W}
    (update : option (list ServiceDescription → TransportInfo * W → Outcome (TransportInfo * W)))
    (mem : bytes) (size : nat) (from : DeviceIndex_t) (ti : TransportInfo) (w : W)
    (i : PubSubInfo_t) (n : Z) (uid : UniquePortId) (h : ClassHash) (v : list DeviceIndex_t) :
  let d := discovery w in
  deserialize_PubSubInfo mem size = Ok (i, n) → isTermination i = true →
  discovery_wf d → to_map (deviceIndicesCache (m_remoteState d)) !! h = Some v →
  uid ∉ m_gatewayPublisherUids d → uid ∈ userPublisherPorts (m_localState d) →
  ∃ w', receiveRemoteDiscoveryInfo update mem size from (ti, w) = Ok (ti, w') ∧
    (∀ r, r ∈ records (m_remoteState (discovery w')) → gatewayHash (info r) ≠ gatewayHash i) ∧
    generateDeviceIndices ti (discovery w') uid h = Ok (v, discovery w').
Proof.
  intros d Hdes Hterm (_ & (_ & Hnd & _) & Hc & Hcnd) Hv Hu1 Hu2.
  assert (∀ rs, let d' := set_records rs d in generateDeviceIndices ti d' uid h = Ok (v, d')) as Hgen.
  { intros rs d'. unfold generateDeviceIndices.
    change (m_gatewayPublisherUids d') with (m_gatewayPublisherUids d).
    change (m_localState d') with (m_localState d).
    change (deviceIndicesCache (m_remoteState d')) with (deviceIndicesCache (m_remoteState d)).
    rewrite (proj2 (containsElement_false _ _) Hu1), (proj2 (containsElement_true _ _) Hu2). simpl.
    rewrite <-(vm_find_to_map MAX_TOPICS) in Hv by done.
    destruct (Nat.eqb_spec (vm_find (deviceIndicesCache (m_remoteState d)) h)
      (vm_end (deviceIndicesCache (m_remoteState d)))) as [He|He]; [|by rewrite Hv].
    rewrite He in Hv. apply lookup_lt_Some in Hv. unfold vm_end in Hv. lia. }
  destruct (receive_termination_spec update mem size from ti w i n Hdes Hterm Hnd) as (w' & rs' & He & Hd' & Hgone & _).
  exists w'. rewrite Hd'. split_and!; [done| |apply Hgen]. exact Hgone.
Qed.

(** ** Witnesses *)

(** A state with nothing but the discovery manager, the network and a counter
    for a random device. *)
Record ExampleWorld := mkExampleWorld {
  ew_net : list NetEvent;
  ew_discovery : DiscoveryManager;
  ew_next : Z
}.

#[export] Program Instance ExampleWorld_net : NetWorld ExampleWorld := {|
  net := ew_net;
  set_net l w := mkExampleWorld l (ew_discovery w) (ew_next w)
|}.
Solve All Obligations with by try intros [].

#[export] Program Instance ExampleWorld_discovery : DiscoveryState ExampleWorld := {|
  discovery := ew_discovery;
  set_discovery d w := mkExampleWorld (ew_net w) d (ew_next w);
  generateHash w := (wrap32 (ew_next w), mkExampleWorld (ew_net w) (ew_discovery w) (ew_next w + 1));
  Rest := unit;
  rest _ := tt
|}.
Solve All Obligations with try done.
Next Obligation. intros w. apply wrap32_u32. Qed.

Definition svc (b : Init.Byte.byte) : ServiceDescription := mkService [b] [b] [b].

(** Two gateways: one over UDP and PCIe, one over TCP only. *)
Definition example_records : list DeviceRecord_t :=
  [mkRecord (mkPubSubInfo [svc Init.Byte.x41] 6 900 1 false) [mkDeviceIndex UDP 0];
   mkRecord (mkPubSubInfo [svc Init.Byte.x41; svc Init.Byte.x42] 8 901 2 false) [mkDeviceIndex TCP 3]].

Definition both_ti : TransportInfo :=
  mkTransportInfo [None; None; Some (mkTransport UDP GOOD); Some (mkTransport TCP GOOD)] 12.

Definition hash_of (b : Init.Byte.byte) : ClassHash := @getClassHash ref_iox (svc b).

Definition example_discovery : DiscoveryManager :=
  mkDiscovery 800 NONE
    (mkRemoteState example_records (mkMap [hash_of Init.Byte.x42] [[mkDeviceIndex TCP 3]]))
    (mkLocalState [svc Init.Byte.x42] [svc Init.Byte.x43] [70]) [50] emptyInfo false.

Lemma example_records_wf : records_wf example_records.
Proof.
  split_and!; [unfold MAX_DEVICE_COUNT; simpl; lia|apply (bool_decide_unpack _); vm_compute; exact I|].
  apply Forall_cons; split; [|apply Forall_singleton]; unfold record_wf; split_and!;
    try (unfold TRANSPORT_TYPE_COUNT, MAX_TOPICS; simpl; lia);
    apply (bool_decide_unpack _); vm_compute; exact I.
Qed.

Lemma example_discovery_wf : @discovery_wf ref_iox example_discovery.
Proof.
  split; [|split; [exact example_records_wf|]].
  - split_and!; [split; simpl; lia| |unfold MAX_TOPICS; simpl; lia].
    apply (bool_decide_unpack _). vm_compute. exact I.
  - split; [split; simpl; unfold MAX_TOPICS; lia|]. apply (bool_decide_unpack _). vm_compute. exact I.
Qed.

Lemma example_cache_coherent : @cache_coherent ref_iox both_ti example_discovery.
Proof.
  intros h v. unfold to_map. intros Hv%elem_of_list_to_map_2. simpl in Hv.
  apply elem_of_cons in Hv as [[= -> ->]|Hv]; [|by apply elem_of_nil in Hv].
  vm_compute. reflexivity.
Qed.

Lemma device_indices_exact_witness :
  records_wf example_records ∧
  @computeDeviceIndices ref_iox both_ti example_discovery (hash_of Init.Byte.x41) =
    [mkDeviceIndex UDP 0; mkDeviceIndex TCP 3] ∧
  (length (@computeDeviceIndices ref_iox both_ti example_discovery (hash_of Init.Byte.x41)) ≤ 2)%nat.
Proof.
  split; [exact example_records_wf|]. split; [vm_compute; reflexivity|].
  apply (@device_indices_exact ref_iox ref_iox_spec both_ti example_discovery (hash_of Init.Byte.x41)
           example_records_wf).
Defined.

Lemma forwarding_never_returns_witness :
  records_wf example_records ∧
  @generateDeviceIndicesForwarding ref_iox both_ti example_discovery (hash_of Init.Byte.x41)
    (mkDeviceIndex UDP 0) = [mkDeviceIndex TCP 3] ∧
  ∃ source r, source ∈ example_records ∧ mkDeviceIndex UDP 0 ∈ deviceIndices source ∧
    r ∈ example_records ∧ mkDeviceIndex TCP 3 ∈ deviceIndices r ∧
    bit (gatewayBitset (info source)) 3 = false ∧
    ∀ t, bit (gatewayBitset (info source)) t && bit (gatewayBitset (info r)) t = false.
Proof.
  split; [exact example_records_wf|]. split; [vm_compute; reflexivity|].
  apply (@forwarding_never_returns ref_iox ref_iox_spec both_ti example_discovery
    (hash_of Init.Byte.x41) (mkDeviceIndex UDP 0) (mkDeviceIndex TCP 3) example_records_wf).
  apply (bool_decide_unpack _). vm_compute. exact I.
Defined.

Lemma cache_transparent_witness :
  @discovery_wf ref_iox example_discovery ∧ @cache_coherent ref_iox both_ti example_discovery ∧
  ∃ d', @generateDeviceIndices ref_iox both_ti example_discovery 70 (hash_of Init.Byte.x41) =
          Ok ([mkDeviceIndex UDP 0; mkDeviceIndex TCP 3], d') ∧
    @discovery_wf ref_iox d' ∧ @cache_coherent ref_iox both_ti d' ∧
    records (m_remoteState d') = example_records ∧ m_localState d' = m_localState example_discovery.
Proof.
  split; [exact example_discovery_wf|]. split; [exact example_cache_coherent|].
  exact (@cache_transparent ref_iox ref_iox_spec both_ti example_discovery 70
           (hash_of Init.Byte.x41) example_discovery_wf example_cache_coherent).
Defined.

Lemma needed_channels_complete_witness :
  @updateNeededChannels ref_iox example_discovery =
    [svc Init.Byte.x43; svc Init.Byte.x42; svc Init.Byte.x41] ∧
  ∀ s, s ∈ services_in_use example_discovery → s ∈ @updateNeededChannels ref_iox example_discovery.
Proof.
  split; [vm_compute; reflexivity|].
  refine (proj2 (proj2 (proj2 (@needed_channels_complete ref_iox ref_iox_spec example_discovery))) _).
  apply (bool_decide_unpack _). vm_compute. exact I.
Defined.

Definition termination_message : bytes :=
  match @serialize_PubSubInfo ref_iox (mkPubSubInfo [] 8 901 3 true) with
  | Ok (buf, _) => buf | _ => [] end.

Lemma stale_indices_after_termination_witness :
  let w := mkExampleWorld [] example_discovery 0 in
  ∃ w', @receiveRemoteDiscoveryInfo ref_iox (example_layer []) ExampleWorld _ _ None
          termination_message (length termination_message) (mkDeviceIndex TCP 3) (both_ti, w)
        = Ok (both_ti, w') ∧
    (∀ r, r ∈ records (m_remoteState (discovery w')) → gatewayHash (info r) ≠ 901) ∧
    @generateDeviceIndices ref_iox both_ti (discovery w') 70 (hash_of Init.Byte.x42) =
      Ok ([mkDeviceIndex TCP 3], discovery w').
Proof.
  intros w.
  refine (@stale_indices_after_termination ref_iox ref_iox_spec (example_layer []) ExampleWorld _ _ None
    termination_message (length termination_message) (mkDeviceIndex TCP 3) both_ti w
    (mkPubSubInfo [] 8 901 3 true) 25 70 (hash_of Init.Byte.x42) [mkDeviceIndex TCP 3]
    _ eq_refl example_discovery_wf _ _ _).
  - vm_compute. reflexivity.
  - vm_compute. reflexivity.
  - apply (bool_decide_unpack _). vm_compute. exact I.
  - apply (bool_decide_unpack _). vm_compute. exact I.
Defined.
