(* ===== verification/DiscoveryFailure.v ===== *)
(** * DiscoveryFailure: sending discovery information while transports fail

    A transport that fails during a broadcast is disabled, and the callback
    that reports it broadcasts again, to the transports that are left, which
    can fail in turn.  This file shows that the cascade ends within the fuel of
    [failCallback], and in which state: no failure is unhandled, and every
    transport that is still good was last sent information with the final bit
    set.  It then derives what receiving a discovery message does. *)

From stdpp Require Import base list gmap.
From S2P Require Import Prelude.
From S2P Require Import Iox.
From S2P Require Import Types.
From S2P Require Import VectorMap.
From S2P Require Import Serialization.
From S2P Require Import TransportInfo.
From S2P Require Import Discovery.
From Stdlib Require Import Permutation.

Open Scope Z_scope.

(** The last broadcast over a transport. *)
Definition broadcast_on (t : TransportType) (e : NetEvent) : option bytes :=
  match e with Broadcast t' data => if decide (t' = t) then Some data else None | _ => None end.

Definition last_broadcast (t : TransportType) (history : list NetEvent) : option bytes :=
  last (omap (broadcast_on t) history).

Lemma last_broadcast_snoc t t' data history :
  last_broadcast t (history ++ [Broadcast t' data]) =
    if decide (t' = t) then Some data else last_broadcast t history.
Proof.
  unfold last_broadcast. rewrite omap_app. simpl. case_decide; simpl.
  - by rewrite last_snoc.
  - by rewrite app_nil_r.
Qed.

Section failure.
Context `{IoxSpec} `{TransportLayer} `{DiscoveryState W}.
Implicit Types (ti : TransportInfo) (w : W).

(** Everything but the cache is as in [d0], and the rest of the state is [r0]. *)
Definition unchanged (d0 : DiscoveryManager) (r0 : Rest) (w : W) : Prop :=
  clearCache (discovery w) = clearCache d0 ∧ cache_wf (deviceIndicesCache (m_remoteState (discovery w))) ∧
  rest w = r0.

Context (d0 : DiscoveryManager) (d0_local : local_wf d0) (r0 : Rest).

(** What a gateway announces in the state [d0] with the bit set [b]. *)
Definition announces (b : bitset_t) (i : PubSubInfo_t) : Prop :=
  userSubscribers i = pushUnique MAX_TOPICS [] (localSubscribers (m_localState d0)) ∧
  gatewayBitset i = b ∧ gatewayHash i = m_gatewayHash d0 ∧ isTermination i = false.

(** Every good transport was last sent what the gateway announces now. *)
Definition informed ti w : Prop :=
  ∀ k t, s_transports ti !! k = Some (Some (mkTransport t GOOD)) →
  ∃ i data n, last_broadcast t (net w) = Some data ∧ serialize_PubSubInfo i = Ok (data, n) ∧
              announces (s_bitset ti) i.

(** No transport becomes good. *)
Definition degrades ti ti' : Prop :=
  ∀ k t, s_transports ti' !! k = Some (Some (mkTransport t GOOD)) →
         s_transports ti !! k = Some (Some (mkTransport t GOOD)).

Lemma degrades_refl ti : degrades ti ti.
Proof. by intros k t. Qed.

Lemma degrades_trans ti1 ti2 ti3 : degrades ti1 ti2 → degrades ti2 ti3 → degrades ti1 ti3.
Proof. intros H12 H23 k t Hk. by apply H12, H23. Qed.

(** *** Small facts about [unchanged] *)

Lemma clearCache_fields (d d' : DiscoveryManager) :
  clearCache d = clearCache d' →
  m_localState d = m_localState d' ∧ m_gatewayHash d = m_gatewayHash d' ∧
  m_terminateFlag d = m_terminateFlag d' ∧ records (m_remoteState d) = records (m_remoteState d') ∧
  m_preferredType d = m_preferredType d' ∧ m_gatewayPublisherUids d = m_gatewayPublisherUids d'.
Proof. unfold clearCache, set_cache, set_remote. by intros [=]. Qed.

Lemma unchanged_net l w : unchanged d0 r0 w → unchanged d0 r0 (set_net l w).
Proof. unfold unchanged. by rewrite discovery_set_net, rest_set_net. Qed.

Lemma unchanged_clear w : unchanged d0 r0 w → unchanged d0 r0 (set_discovery (clearCache (discovery w)) w).
Proof.
  unfold unchanged. intros (Hc & Hw & Hr). rewrite discovery_set, rest_set_discovery.
  split; [by rewrite <-Hc|]. split; [|done]. split; [apply vm_clear_wf|constructor].
Qed.

Lemma unchanged_hash w : unchanged d0 r0 w → unchanged d0 r0 (generateHash w).2.
Proof. unfold unchanged. by rewrite discovery_generateHash, rest_generateHash. Qed.

Lemma generateDiscoveryInfo_spec ti w :
  unchanged d0 r0 w → transports_wf ti →
  ∃ i w', generateDiscoveryInfo (ti, w) = (i, (ti, w')) ∧ announces (s_bitset ti) i ∧
    valid_PubSubInfo i ∧ unchanged d0 r0 w' ∧ discovery w' = discovery w ∧ net w' = net w.
Proof.
  intros Hu (_ & _ & Hb). unfold generateDiscoveryInfo.
  pose proof (unchanged_hash w Hu) as Hu'. pose proof (discovery_generateHash w) as Hd.
  pose proof (net_generateHash w) as Hn. pose proof (generateHash_u32 w) as Hh.
  destruct (generateHash w) as [h w']. simpl in *.
  destruct (clearCache_fields _ _ (proj1 Hu)) as (Hl & Hg & _).
  destruct d0_local as (Hg0 & Hv & Hlen).
  eexists _, w'. split; [done|]. rewrite Hd, Hl, Hg. split_and!; try done.
  unfold valid_PubSubInfo. cbn [userSubscribers gatewayBitset gatewayHash infoHash].
  split_and!; try done.
  - apply pushUnique_length. simpl. lia.
  - apply Forall_forall. intros x [?%elem_of_nil|Hx]%pushUnique_elem; [done|].
    by apply (proj1 (Forall_forall _ _) Hv).
Qed.

(** *** One broadcast to every good transport *)

Lemma index_inj_slot ti k k' t st st' :
  transports_wf ti → s_transports ti !! k = Some (Some (mkTransport t st)) →
  s_transports ti !! k' = Some (Some (mkTransport t st')) → k = k'.
Proof.
  intros (_ & Hs & _) Hk Hk'. destruct (Hs _ _ Hk) as (_ & H1' & _).
  destruct (Hs _ _ Hk') as (_ & H2' & _). simpl in *. lia.
Qed.

(** The first loop: the transports below [k] that are still good have been
    sent [data]. *)
Definition sent_upto ti0 (data : bytes) (k : nat) (s : TransportInfo * W) : Prop :=
  transports_wf s.1 ∧ unchanged d0 r0 s.2 ∧ alive s.1 = alive ti0 ∧ s_bitset s.1 = s_bitset ti0 ∧
  degrades ti0 s.1 ∧
  ∀ j t, (j < k)%nat → s_transports s.1 !! j = Some (Some (mkTransport t GOOD)) →
         last_broadcast t (net s.2) = Some data.

Lemma send_step ti0 data k s :
  (k < TRANSPORT_TYPE_COUNT)%nat → sent_upto ti0 data k s →
  ∃ s', call_if_good (sendBroadcast data) k s = Ok s' ∧ sent_upto ti0 data (S k) s'.
Proof.
  destruct s as [ti w]. intros Hk (Hwf & Hu & Ha & Hb & Hdeg & Hsent). cbn [fst snd] in *.
  destruct (slot_Ok ti k Hwf Hk) as (o & _ & Ho).
  pose proof (call_if_good_cases (sendBroadcast data) k ti w o Ho) as Hcase.
  assert (∀ o', s_transports ti !! k = Some o' → (∀ t, o' ≠ Some (mkTransport t GOOD)) →
    sent_upto ti0 data (S k) (ti, w)) as Hskip.
  { intros o' Ho' Hno. split_and!; try done. cbn [fst snd]. intros j t Hj Hjt.
    destruct (decide (j = k)) as [->|]; [|apply (Hsent j); [lia|done]].
    rewrite Ho' in Hjt. injection Hjt as ->. by destruct (Hno t). }
  destruct o as [[t []]|].
  2-4: by eexists; split; [exact Hcase|eapply Hskip].
  specialize (Hcase _ _ eq_refl). eexists. split; [exact Hcase|].
  set (w' := set_net (net w ++ [Broadcast t data]) w).
  assert (∀ j t', (j < S k)%nat → s_transports ti !! j = Some (Some (mkTransport t' GOOD)) →
    last_broadcast t' (net w') = Some data) as Hlast.
  { intros j t' Hj Hjt. unfold w'. rewrite net_set_net, last_broadcast_snoc.
    case_decide as Ht; [done|]. apply (Hsent j); [|done].
    destruct (decide (j = k)) as [->|]; [congruence|lia]. }
  assert (unchanged d0 r0 w') as Hu' by (by apply unchanged_net).
  destruct (sendBroadcast_fails (net w) t data); cbn [fst snd]; [|by split_and!].
  destruct (mark_failed_wf ti k t Hwf Ho) as [Hwf' Ha'].
  assert (degrades ti (mark_failed ti k t)) as Hdeg'.
  { intros j t'. unfold mark_failed. simpl. rewrite list_lookup_insert_Some.
    intros [(_ & [=] & _)|[_ ?]]. done. }
  split_and!; cbn [fst snd]; [done|done|by rewrite Ha'|done|by eapply degrades_trans|].
  intros j t' Hj Hjt. apply (Hlast j); [done|]. by apply Hdeg'.
Qed.

(** The state after a cascade. *)
Definition settled ti0 (s : TransportInfo * W) : Prop :=
  transports_wf s.1 ∧ unchanged d0 r0 s.2 ∧ (alive s.1 ≤ alive ti0)%nat ∧ degrades ti0 s.1 ∧
  informed s.1 s.2 ∧ no_failed s.1.

Lemma settled_weaken ti0 ti1 s :
  (alive ti1 ≤ alive ti0)%nat → degrades ti0 ti1 → settled ti1 s → settled ti0 s.
Proof.
  intros Ha Hd (? & ? & ? & ? & ? & ?). split_and!; try done; [lia|]. by eapply degrades_trans.
Qed.

(** The second loop, with a callback that settles: the first failure found
    settles everything. *)
Lemma handle_step cb n ti1 w1 k s :
  (∀ ti w, transports_wf ti → unchanged d0 r0 w → (alive ti < n)%nat →
     ∃ s', cb (ti, w) = Ok s' ∧ settled ti s') →
  transports_wf ti1 → unchanged d0 r0 w1 → (alive ti1 ≤ n)%nat → (k < TRANSPORT_TYPE_COUNT)%nat →
  (s = (ti1, w1) ∧ no_failed_upto k ti1) ∨ settled ti1 s →
  ∃ s', disable_if_failed (Some cb) k s = Ok s' ∧
        ((s' = (ti1, w1) ∧ no_failed_upto (S k) ti1) ∨ settled ti1 s').
Proof.
  intros Hcb Hwf1 Hu1 Ha1 Hk [[-> Hup]|Hset].
  - destruct (slot_Ok ti1 k Hwf1 Hk) as (o & _ & Ho).
    pose proof (disable_if_failed_cases (Some cb) k ti1 w1 o Hwf1 Ho) as Hcase.
    assert (∀ o', s_transports ti1 !! k = Some o' → (∀ t, o' ≠ Some (mkTransport t FAILED)) →
      no_failed_upto (S k) ti1) as Hnf.
    { intros o' Ho' Hno j [ty st] Hj Hjt. simpl. destruct (decide (j = k)) as [->|];
        [|by apply (Hup j _ ltac:(lia) Hjt)].
      intros ->. rewrite Ho' in Hjt. injection Hjt as ->. by apply (Hno ty). }
    destruct o as [[t []]|].
    1, 3, 4: by eexists; split; [exact Hcase|left; split; [done|by eapply Hnf]].
    destruct (mark_disabled_wf ti1 k t Hwf1 Ho) as [Hwf' Ha'].
    destruct (Hcb (mark_disabled ti1 k t) w1 Hwf' Hu1 ltac:(lia)) as (s' & Hs' & Hset).
    exists s'. split; [by rewrite Hcase|]. right. eapply settled_weaken; [| |exact Hset]; [lia|].
    intros j t'. simpl. rewrite list_lookup_insert_Some. intros [(_ & [=] & _)|[_ ?]]. done.
  - destruct s as [ti w]. pose proof Hset as (Hwf & _ & _ & _ & _ & Hnf). cbn [fst] in *.
    destruct (slot_Ok ti k Hwf Hk) as (o & _ & Ho).
    pose proof (disable_if_failed_cases (Some cb) k ti w o Hwf Ho) as Hcase.
    exists (ti, w). split; [|by right]. destruct o as [[t []]|]; [done| |done|done].
    by destruct (Hnf _ _ Ho).
Qed.

Lemma sendDiscoveryInfo_settles cb n ti w i :
  (∀ ti w, transports_wf ti → unchanged d0 r0 w → (alive ti < n)%nat →
     ∃ s', cb (ti, w) = Ok s' ∧ settled ti s') →
  transports_wf ti → unchanged d0 r0 w → (alive ti ≤ n)%nat →
  valid_PubSubInfo i → announces (s_bitset ti) i →
  ∃ s', sendDiscoveryInfo (Some cb) i (ti, w) = Ok s' ∧ settled ti s'.
Proof.
  intros Hcb Hwf Hu Ha Hv Hann.
  destruct (serialize_PubSubInfo_length i Hv) as (data & Hser & _).
  unfold sendDiscoveryInfo, doForAllEnabled. rewrite Hser. ostep.
  destruct (for_slots_inv (call_if_good (sendBroadcast data)) (sent_upto ti data) 0
    TRANSPORT_TYPE_COUNT (ti, w)) as ([ti1 w1] & -> & Hwf1 & Hu1 & Ha1 & Hb1 & Hd1 & Hs1).
  { intros k s Hk. apply send_step. lia. }
  { split_and!; try done; [apply degrades_refl|]. intros ???. lia. }
  ostep. cbn [fst snd] in *.
  destruct (for_slots_inv (disable_if_failed (Some cb))
    (fun k s => (s = (ti1, w1) ∧ no_failed_upto k ti1) ∨ settled ti1 s) 0 TRANSPORT_TYPE_COUNT (ti1, w1))
    as (s' & -> & Hs').
  { intros k s Hk. apply (handle_step cb n); try done; lia. }
  { left. split; [done|]. intros ???. lia. }
  exists s'. split; [done|]. destruct Hs' as [[-> Hnf]|Hset].
  - assert (no_failed ti1) as Hnf1.
    { intros k t Hk. apply (Hnf k); [|done]. apply lookup_lt_Some in Hk.
      destruct Hwf1 as (Hl & _). lia. }
    split_and!; cbn [fst snd]; [done|done|lia|done| |done].
    intros k t Hk. exists i, data, (Z.of_nat (length data)). rewrite Hb1. split_and!; [|done|apply Hann..].
    apply (Hs1 k); [|done]. apply lookup_lt_Some in Hk. destruct Hwf1 as (Hl & _). lia.
  - eapply settled_weaken; [| |exact Hset]; [lia|done].
Qed.

(** The cascade settles when the fuel exceeds the number of live transports. *)
Lemma failCallback_settles fuel ti w :
  m_terminateFlag d0 = false → transports_wf ti → unchanged d0 r0 w → (alive ti < fuel)%nat →
  ∃ s', failCallback fuel (ti, w) = Ok s' ∧ settled ti s'.
Proof.
  intros Hterm. revert ti w. induction fuel as [|fuel IH]; intros ti w Hwf Hu Hf; [lia|].
  cbn [failCallback modify]. cbn [snd].
  pose proof (unchanged_clear w Hu) as Hu1.
  set (w1 := set_discovery (clearCache (discovery w)) w) in *.
  destruct (clearCache_fields _ _ (proj1 Hu1)) as (_ & _ & -> & _). rewrite Hterm. cbn [negb].
  destruct (generateDiscoveryInfo_spec ti w1 Hu1 Hwf) as (i & w2 & -> & Hann & Hv & Hu2 & _).
  apply (sendDiscoveryInfo_settles _ fuel); try done. lia.
Qed.

Lemma sendGenerated_settles ti w :
  m_terminateFlag d0 = false → transports_wf ti → unchanged d0 r0 w →
  ∃ s', sendGenerated (ti, w) = Ok s' ∧ settled ti s'.
Proof.
  intros Hterm Hwf Hu. unfold sendGenerated.
  destruct (generateDiscoveryInfo_spec ti w Hu Hwf) as (i & w2 & -> & Hann & Hv & Hu2 & _).
  pose proof (alive_le ti Hwf). unfold registeredCallback.
  apply (sendDiscoveryInfo_settles _ failFuel); try done; [|unfold failFuel; lia].
  intros ti' w' Hwf' Hu' Ha'. by apply failCallback_settles.
Qed.

(** Repeating the announcement over one transport. *)
Lemma resend_settles t ti w :
  m_terminateFlag d0 = false → transports_wf ti → unchanged d0 r0 w → t ∈ [PCIE; UDP; TCP] →
  ∃ ti' w', resendDiscoveryInfoToTransport t (ti, w) = Ok (ti', w') ∧ transports_wf ti' ∧
    unchanged d0 r0 w'.
Proof.
  intros Hterm Hwf Hu Ht. unfold resendDiscoveryInfoToTransport.
  destruct (generateDiscoveryInfo_spec ti w Hu Hwf) as (i & w1 & -> & _ & Hv & Hu1 & _).
  destruct (serialize_PubSubInfo_length i Hv) as (data & -> & _). ostep. unfold doFor.
  assert (Z.to_nat (index t) < TRANSPORT_TYPE_COUNT)%nat as Hk.
  { unfold TRANSPORT_TYPE_COUNT.
    repeat (apply elem_of_cons in Ht as [->|Ht]; [simpl; lia|]); by apply elem_of_nil in Ht. }
  destruct (slot_Ok ti _ Hwf Hk) as (o & _ & Ho).
  assert (∃ ti2 w2, call_if_good (sendBroadcast data) (Z.to_nat (index t)) (ti, w1) = Ok (ti2, w2) ∧
    transports_wf ti2 ∧ unchanged d0 r0 w2) as (ti2 & w2 & -> & Hwf2 & Hu2).
  { pose proof (call_if_good_cases (sendBroadcast data) _ ti w1 o Ho) as Hcase.
    destruct o as [[ty []]|]; try by eexists _, _.
    eexists _, _. split; [by apply Hcase|]. split; [|by apply unchanged_net].
    destruct (sendBroadcast_fails _ _ _); [|done]. by apply mark_failed_wf. }
  ostep. destruct (slot_Ok ti2 _ Hwf2 Hk) as (o2 & _ & Ho2).
  pose proof (disable_if_failed_cases registeredCallback _ ti2 w2 o2 Hwf2 Ho2) as Hcase.
  destruct o2 as [[ty []]|]; try by exists ti2, w2.
  destruct (mark_disabled_wf ti2 _ ty Hwf2 Ho2) as [Hwf3 _]. pose proof (alive_le _ Hwf3).
  destruct (failCallback_settles failFuel (mark_disabled ti2 (Z.to_nat (index t)) ty) w2)
    as ([ti' w'] & Hf & ? & ? & _); [done..|unfold failFuel; lia|].
  exists ti', w'. split; [by rewrite Hcase|done].
Qed.
End failure.

(** ** Lemmas: storing a record *)

Lemma loadServices_length `{Iox} n mem size offset l offset' :
  loadServices n mem size offset = Ok (l, offset') → length l = n.
Proof.
  revert offset l offset'. induction n as [|n IH]; intros offset l offset'; simpl; [by intros [= <- _]|].
  intros ([s o1] & _ & Hl)%bind_Ok. apply bind_Ok in Hl as ([ss o2] & Hss & [= <- _]).
  simpl. by rewrite (IH _ _ _ Hss).
Qed.

Lemma deserialize_subscribers_bound `{Iox} mem size i n :
  deserialize_PubSubInfo mem size = Ok (i, n) → (length (userSubscribers i) ≤ MAX_TOPICS)%nat.
Proof.
  unfold deserialize_PubSubInfo. intros ([k o] & _ & Hd)%bind_Ok.
  apply bind_Ok in Hd as (_ & Hk%Expects_Ok%Z.leb_le & Hd).
  apply bind_Ok in Hd as ([ss o1] & Hss%loadServices_length & Hd).
  do 4 (apply bind_Ok in Hd as ([? ?] & _ & Hd)). apply bind_Ok in Hd as (_ & _ & [= <- _]).
  simpl. lia.
Qed.

Section receiving.
Context `{IoxSpec} `{TransportLayer} `{DiscoveryState W}.
Implicit Types (ti : TransportInfo) (w : W) (rs : list DeviceRecord_t) (i : PubSubInfo_t).

(** The record of the sender is updated, or added at the end. *)
Definition upsert rs i (deviceIndex : DeviceIndex_t) : list DeviceRecord_t :=
  let k := findRecord rs (gatewayHash i) in
  if decide (k < length rs)%nat then alter (fun r => updateRecord r i deviceIndex) k rs
  else rs ++ [updateRecord (mkRecord emptyInfo []) i deviceIndex].

Lemma updateRecord_wf r i deviceIndex :
  record_wf r → (length (userSubscribers i) ≤ MAX_TOPICS)%nat → record_wf (updateRecord r i deviceIndex).
Proof.
  intros (Hnd & Hl & _) Hi. unfold updateRecord, record_wf. simpl.
  destruct (Nat.eqb_spec (find_if (fun j => bool_decide (di_type j = di_type deviceIndex))
    (deviceIndices r)) (length (deviceIndices r))) as [He|He]; [|done].
  rewrite push_back_spec. case_decide; simpl; [|done].
  rewrite length_app, fmap_app. simpl. split_and!; [|lia|done].
  apply NoDup_app. split_and!; [done| |apply NoDup_singleton].
  intros ty (j & -> & Hj)%list_elem_of_fmap Hty%list_elem_of_singleton.
  rewrite find_if_end in He. apply He in Hj. by apply bool_decide_eq_false in Hj.
Qed.

Lemma findRecord_found rs h :
  (findRecord rs h < length rs)%nat →
  ∃ r, rs !! findRecord rs h = Some r ∧ gatewayHash (info r) = h.
Proof.
  intros Hlt. destruct (find_if_found _ _ Hlt) as (r & Hr & Hp%bool_decide_eq_true). by exists r.
Qed.

Lemma findRecord_absent rs h :
  ¬ (findRecord rs h < length rs)%nat → h ∉ (fun r => gatewayHash (info r)) <$> rs.
Proof.
  intros Hlt (r & -> & Hr)%list_elem_of_fmap.
  pose proof (find_if_le (fun r0 => bool_decide (gatewayHash (info r0) = gatewayHash (info r))) rs).
  assert (findRecord rs (gatewayHash (info r)) = length rs) as He by (unfold findRecord in *; lia).
  unfold findRecord in He. rewrite find_if_end in He. apply He in Hr.
  by apply bool_decide_eq_false in Hr.
Qed.

Lemma hashes_alter rs i deviceIndex k r :
  rs !! k = Some r → gatewayHash (info r) = gatewayHash i →
  (fun r => gatewayHash (info r)) <$> alter (fun r => updateRecord r i deviceIndex) k rs =
  (fun r => gatewayHash (info r)) <$> rs.
Proof.
  intros Hk Hh. apply list_eq. intros j. rewrite !list_lookup_fmap.
  destruct (decide (j = k)) as [->|Hne].
  - rewrite list_lookup_alter_eq, Hk. simpl. by rewrite Hh.
  - by rewrite list_lookup_alter_ne.
Qed.

Lemma Forall_alter_record rs i deviceIndex k :
  Forall record_wf rs → (length (userSubscribers i) ≤ MAX_TOPICS)%nat →
  Forall record_wf (alter (fun r => updateRecord r i deviceIndex) k rs).
Proof.
  intros Hall Hi. apply Forall_lookup. intros j r.
  destruct (decide (j = k)) as [->|Hne].
  - rewrite list_lookup_alter_eq. intros (r0 & Hr & ->)%fmap_Some. apply updateRecord_wf; [|done].
    by eapply (proj1 (Forall_lookup _ _) Hall).
  - rewrite list_lookup_alter_ne by done. by apply (proj1 (Forall_lookup _ _) Hall).
Qed.

Lemma upsert_wf rs i deviceIndex :
  records_wf rs → (length (userSubscribers i) ≤ MAX_TOPICS)%nat →
  (findRecord rs (gatewayHash i) < length rs)%nat ∨ (length rs < MAX_DEVICE_COUNT)%nat →
  records_wf (upsert rs i deviceIndex).
Proof.
  intros (Hl & Hnd & Hall) Hi Hroom. unfold upsert. case_decide as Hk.
  - destruct (findRecord_found rs _ Hk) as (r & Hr & Hh). split_and!.
    + by rewrite length_alter.
    + by rewrite (hashes_alter _ _ _ _ r Hr Hh).
    + by apply Forall_alter_record.
  - split_and!.
    + rewrite length_app. simpl. lia.
    + rewrite fmap_app. simpl. apply NoDup_app. split_and!; [done| |apply NoDup_singleton].
      intros h Hin ->%list_elem_of_singleton. by apply findRecord_absent in Hk.
    + apply Forall_app. split; [done|]. apply Forall_singleton, updateRecord_wf; [|done].
      split_and!; [constructor|unfold TRANSPORT_TYPE_COUNT; simpl; lia|unfold MAX_TOPICS; simpl; lia].
Qed.

Context (update : option (list ServiceDescription → TransportInfo * W → Outcome (TransportInfo * W))).

(** [storeRecord] in a state whose record is there. *)
Lemma storeRecord_spec k i deviceIndex ti w r :
  records (m_remoteState (discovery w)) !! k = Some r →
  let d' := clearCache (set_records
    (alter (fun r => updateRecord r i deviceIndex) k (records (m_remoteState (discovery w))))
    (discovery w)) in
  storeRecord update k i deviceIndex (ti, w) =
    Discovery.update update (updateNeededChannels d') (ti, set_discovery d' w).
Proof.
  intros Hk d'. unfold storeRecord, modify. cbn [snd]. rewrite Hk. ostep.
  rewrite discovery_set.
  assert (<[k := updateRecord r i deviceIndex]> (records (m_remoteState (discovery w))) =
          alter (fun r => updateRecord r i deviceIndex) k (records (m_remoteState (discovery w)))) as ->.
  { apply list_eq. intros j. destruct (decide (j = k)) as [->|Hne].
    - rewrite list_lookup_alter_eq, Hk, list_lookup_insert_eq by (by eapply lookup_lt_Some). done.
    - by rewrite list_lookup_alter_ne, list_lookup_insert_ne by done. }
  done.
Qed.

(** The broadcast to a new gateway, in both modes. *)
Lemma greet_spec ti w :
  transports_wf ti → discovery_wf (discovery w) →
  ∃ ti' w', (if negb (m_terminateFlag (discovery w)) then sendGenerated (ti, w) else Ok (ti, w))
              = Ok (ti', w') ∧
    transports_wf ti' ∧ unchanged (discovery w) (rest w) w' ∧
    (m_terminateFlag (discovery w) = false → informed (discovery w) ti' w' ∧ no_failed ti').
Proof.
  intros Hwf (Hl & _ & Hc). assert (unchanged (discovery w) (rest w) w) as Hu by done.
  destruct (m_terminateFlag (discovery w)) eqn:Hterm; simpl.
  - exists ti, w. by split_and!.
  - destruct (sendGenerated_settles (discovery w) Hl (rest w) ti w Hterm Hwf Hu)
      as ([ti' w'] & -> & ? & ? & _ & _ & ? & ?). exists ti', w'. by split_and!.
Qed.

(** Storing the records [rs] and emptying the cache keeps the invariant. *)
Lemma stored_wf (d d1 : DiscoveryManager) rs :
  discovery_wf d → clearCache d1 = clearCache d → records_wf rs →
  discovery_wf (clearCache (set_records rs d1)).
Proof.
  intros (Hl & _ & _) Heq Hrs. destruct (clearCache_fields _ _ Heq) as (Hls & Hg & _).
  split; [|split; [done|split; [apply vm_clear_wf|constructor]]].
  unfold local_wf. simpl. by rewrite Hls, Hg.
Qed.

Lemma alter_snoc {A} (f : A → A) (l : list A) x :
  alter f (length l) (l ++ [x]) = l ++ [f x].
Proof. induction l as [|y l IH]; [done|]. csimpl. by rewrite IH. Qed.

Lemma receive_spec mem size deviceIndex ti w i n :
  transports_wf ti → discovery_wf (discovery w) →
  deserialize_PubSubInfo mem size = Ok (i, n) → isTermination i = false →
  let rs := records (m_remoteState (discovery w)) in
  (findRecord rs (gatewayHash i) < length rs)%nat ∨ (length rs < MAX_DEVICE_COUNT)%nat →
  ∃ ti' w', transports_wf ti' ∧ discovery_wf (discovery w') ∧
    receiveRemoteDiscoveryInfo update mem size deviceIndex (ti, w) =
      Discovery.update update (updateNeededChannels (discovery w')) (ti', w') ∧
    records (m_remoteState (discovery w')) = upsert rs i deviceIndex ∧
    deviceIndicesCache (m_remoteState (discovery w')) = vm_empty ∧
    m_localState (discovery w') = m_localState (discovery w) ∧
    m_gatewayPublisherUids (discovery w') = m_gatewayPublisherUids (discovery w) ∧
    m_terminateFlag (discovery w') = m_terminateFlag (discovery w) ∧ rest w' = rest w ∧
    (¬ (findRecord rs (gatewayHash i) < length rs)%nat → m_terminateFlag (discovery w) = false →
     informed (discovery w) ti' w').
Proof.
  intros Hti Hd Hdes Hterm rs Hroom. pose proof (deserialize_subscribers_bound _ _ _ _ Hdes) as Hsubs.
  pose proof Hd as (Hl & Hr & _). pose proof (upsert_wf rs i deviceIndex Hr Hsubs Hroom) as Hup.
  unfold receiveRemoteDiscoveryInfo. rewrite Hdes. ostep. rewrite Hterm. fold rs.
  pose proof (find_if_le (fun r => bool_decide (gatewayHash (info r) = gatewayHash i)) rs) as Hle.
  fold (findRecord rs (gatewayHash i)) in Hle. revert Hup. unfold upsert.
  destruct (Nat.eqb_spec (findRecord rs (gatewayHash i)) (length rs)) as [He|He].
  - rewrite decide_False by lia. intros Hup.
    destruct (greet_spec ti w Hti Hd) as (ti1 & w1 & -> & Hti1 & [Hu1 [_ Hrest1]] & Hinf1). ostep.
    destruct (clearCache_fields _ _ Hu1) as (Hloc & _ & Hflag & Hrec & _ & Huids).
    rewrite Hrec. fold rs. rewrite push_back_room by lia. cbn [fst modify].
    set (w2 := set_discovery (set_records (rs ++ [mkRecord emptyInfo []]) (discovery w1)) w1).
    assert (records (m_remoteState (discovery w2)) = rs ++ [mkRecord emptyInfo []]) as Hrec2
      by (unfold w2; by rewrite discovery_set).
    rewrite length_app. simpl length. replace (length rs + 1 - 1)%nat with (length rs) by lia.
    erewrite storeRecord_spec; [|rewrite Hrec2; by apply list_lookup_middle].
    rewrite Hrec2, alter_snoc. unfold w2 at 2. rewrite discovery_set.
    eexists ti1, _. split; [done|]. rewrite discovery_set. split_and!.
    + by apply (stored_wf (discovery w)).
    + unfold w2. by rewrite discovery_set.
    + done.
    + done.
    + done.
    + done.
    + done.
    + unfold w2. by rewrite !rest_set_discovery.
    + intros _ Hf. destruct (Hinf1 Hf) as [Hinf _]. intros k t Hk.
      destruct (Hinf k t Hk) as (j & data & m & Hlast & Hrest). exists j, data, m. split; [|done].
      rewrite net_set_discovery. unfold w2. by rewrite net_set_discovery.
  - rewrite decide_True by lia. intros Hup.
    destruct (findRecord_found rs (gatewayHash i)) as (r & Hk & Hh); [lia|].
    rewrite (storeRecord_spec _ i deviceIndex ti w r Hk). fold rs.
    match goal with |- context [set_discovery ?d' w] => exists ti, (set_discovery d' w) end.
    split; [done|]. rewrite discovery_set, rest_set_discovery. split_and!; try done.
    + by apply (stored_wf (discovery w)).
    + intros Hn. lia.
Qed.

(** *** The termination message *)

(** While the gateway terminates, the callback only empties the cache. *)
Lemma failCallback_terminating fuel ti w :
  m_terminateFlag (discovery w) = true →
  failCallback (S fuel) (ti, w) = Ok (ti, set_discovery (clearCache (discovery w)) w).
Proof.
  intros Hterm. cbn [failCallback modify snd]. rewrite discovery_set.
  change (m_terminateFlag (clearCache (discovery w))) with (m_terminateFlag (discovery w)). by rewrite Hterm.
Qed.

Lemma deinitialize_spec ti w :
  transports_wf ti → discovery_wf (discovery w) →
  ∃ ti' w' i data n, deinitialize (ti, w) = Ok (ti', w') ∧
    serialize_PubSubInfo i = Ok (data, n) ∧ valid_PubSubInfo i ∧ isTermination i = true ∧
    gatewayHash i = m_gatewayHash (discovery w) ∧
    transports_wf ti' ∧ unchanged (set_terminate (discovery w)) (rest w) w' ∧
    ∀ k t, s_transports ti' !! k = Some (Some (mkTransport t GOOD)) →
      s_transports ti !! k = Some (Some (mkTransport t GOOD)) ∧ last_broadcast t (net w') = Some data.
Proof.
  intros Hti (Hl & _ & Hc). unfold deinitialize. cbn [modify].
  set (w1 := set_discovery (set_terminate (discovery w)) w).
  assert (discovery w1 = set_terminate (discovery w)) as Hd1 by (unfold w1; apply discovery_set).
  destruct (generateDiscoveryInfo_spec (discovery w1) ltac:(by rewrite Hd1) (rest w1) ti w1)
    as (i0 & w2 & -> & (_ & _ & Hg & _) & Hv0 & Hu2 & _); [split_and!; rewrite ?Hd1; try done; apply Hc|done|].
  match goal with |- context [sendDiscoveryInfo _ ?j _] => set (i := j) end.
  assert (valid_PubSubInfo i) as Hv by exact Hv0.
  destruct (serialize_PubSubInfo_length i Hv) as (data & Hser & _).
  unfold sendDiscoveryInfo, doForAllEnabled. rewrite Hser. ostep.
  destruct (for_slots_inv (call_if_good (sendBroadcast data)) (sent_upto (discovery w1) (rest w1) ti data) 0
    TRANSPORT_TYPE_COUNT (ti, w2)) as ([ti3 w3] & -> & Hwf3 & Hu3 & _ & _ & Hdeg3 & Hs3).
  { intros k s Hk. apply send_step. lia. }
  { split_and!; try done; [apply degrades_refl|]. intros ???. lia. }
  ostep. cbn [fst snd] in *.
  destruct (for_slots_inv (disable_if_failed registeredCallback)
    (fun _ s => transports_wf s.1 ∧ unchanged (discovery w1) (rest w1) s.2 ∧ degrades ti3 s.1 ∧ net s.2 = net w3)
    0 TRANSPORT_TYPE_COUNT (ti3, w3)) as ([ti4 w4] & -> & Hwf4 & Hu4 & Hdeg4 & Hn4).
  { intros k [ti5 w5] Hk (Hwf5 & Hu5 & Hdeg5 & Hn5).
    destruct (clearCache_fields _ _ (proj1 Hu5)) as (_ & _ & Ht5 & _). rewrite Hd1 in Ht5. cbn [fst snd] in *.
    destruct (slot_Ok ti5 k Hwf5 ltac:(lia)) as (o & _ & Ho).
    pose proof (disable_if_failed_cases registeredCallback k ti5 w5 o Hwf5 Ho) as Hcase.
    destruct o as [[t []]|]; try by exists (ti5, w5).
    eexists. split; [rewrite Hcase; by apply failCallback_terminating|]. cbn [fst snd].
    rewrite net_set_discovery. split_and!; [| | |done].
    - by apply (mark_disabled_wf ti5 k t).
    - by apply unchanged_clear.
    - eapply degrades_trans; [exact Hdeg5|]. intros j t'. simpl. rewrite list_lookup_insert_Some.
      intros [(_ & [=] & _)|[_ ?]]. done. }
  { split_and!; [done..|apply degrades_refl|done]. }
  exists ti4, w4, i, data, (Z.of_nat (length data)). cbn [fst snd] in *. split_and!; [done..| |done| |].
  - change (gatewayHash i) with (gatewayHash i0). by rewrite Hg, Hd1.
  - rewrite Hd1 in Hu4. unfold w1 in Hu4. by rewrite rest_set_discovery in Hu4.
  - intros k t Hk. apply Hdeg4 in Hk. split; [by apply Hdeg3|]. rewrite Hn4. apply (Hs3 k); [|done].
    apply lookup_lt_Some in Hk. destruct Hwf3 as (Hlen & _). lia.
Qed.
End receiving.

(** ** Properties *)

Section properties.
Context `{IoxSpec} `{TransportLayer} `{DiscoveryState W}.
Context (update : option (list ServiceDescription → TransportInfo * W → Outcome (TransportInfo * W))).

(** C20: Announcing the gateway returns, however many transports fail while it is being
    announced and however often the failure callback announces it again.  Afterwards no
    failure is unhandled, the bit set is exactly the set of good transports, no transport
    has come back to life, every good transport was last sent an announcement with that
    final bit set and the local subscribers, and apart from the cache the discovery state
    is as before. *)
Theorem failure_cascade_settles (ti : TransportInfo) (w : W) :
  transports_wf ti → discovery_wf (discovery w) → m_terminateFlag (discovery w) = false →
  ∃ ti' w', initialize (ti, w) = Ok (ti', w') ∧ transports_wf ti' ∧
    clearCache (discovery w') = clearCache (discovery w) ∧
    (∀ k t, s_transports ti' !! k = Some (Some t) →
       m_status t ≠ FAILED ∧ bit (s_bitset ti') (index (getType t)) = isGood t) ∧
    (∀ k t, s_transports ti' !! k = Some (Some (mkTransport t GOOD)) →
       s_transports ti !! k = Some (Some (mkTransport t GOOD)) ∧
       ∃ i data n, last_broadcast t (net w') = Some data ∧ serialize_PubSubInfo i = Ok (data, n) ∧
         gatewayBitset i = s_bitset ti' ∧ gatewayHash i = m_gatewayHash (discovery w) ∧
         userSubscribers i = pushUnique MAX_TOPICS [] (localSubscribers (m_localState (discovery w)))).
Proof.
  intros Hti (Hl & _ & Hc) Hterm. assert (unchanged (discovery w) (rest w) w) as Hu by done.
  destruct (sendGenerated_settles (discovery w) Hl (rest w) ti w Hterm Hti Hu)
    as ([ti' w'] & He & Hti' & [Hu' _] & _ & Hdeg & Hinf & Hnf). cbn [fst snd] in *.
  exists ti', w'. split_and!; [done..| |].
  - intros k t Hk. split; [by apply (Hnf k)|]. destruct Hti' as (_ & Hs & _).
    destruct (Hs _ _ Hk) as (_ & _ & ->). pose proof (Hnf k t Hk) as Hn. unfold isGood.
    destruct (m_status t); simpl in *; congruence.
  - intros k t Hk. split; [by apply Hdeg|].
    destruct (Hinf k t Hk) as (i & data & n & ? & ? & ? & ? & ? & _). by exists i, data, n.
Qed.

(** A discovery message of a running gateway is stored: its record is updated in
    place when the gateway is known and appended otherwise, no other record changes, the
    gateways stay distinct, the cache is emptied, the needed channels are recomputed and
    handed to the gateways, and an unknown sender is announced to first. *)
Theorem receive_stores_record (mem : bytes) (size : nat) (deviceIndex : DeviceIndex_t)
    (ti : TransportInfo) (w : W) (i : PubSubInfo_t) (n : Z) :
  transports_wf ti → discovery_wf (discovery w) →
  deserialize_PubSubInfo mem size = Ok (i, n) → isTermination i = false →
  let rs := records (m_remoteState (discovery w)) in
  (findRecord rs (gatewayHash i) < length rs)%nat ∨ (length rs < MAX_DEVICE_COUNT)%nat →
  ∃ ti' w', transports_wf ti' ∧ discovery_wf (discovery w') ∧
    receiveRemoteDiscoveryInfo update mem size deviceIndex (ti, w) =
      Discovery.update update (updateNeededChannels (discovery w')) (ti', w') ∧
    records (m_remoteState (discovery w')) = upsert rs i deviceIndex ∧
    deviceIndicesCache (m_remoteState (discovery w')) = vm_empty ∧
    m_localState (discovery w') = m_localState (discovery w) ∧
    (¬ (findRecord rs (gatewayHash i) < length rs)%nat → m_terminateFlag (discovery w) = false →
     informed (discovery w) ti' w').
Proof.
  intros. destruct (receive_spec update mem size deviceIndex ti w i n)
    as (ti' & w' & ? & ? & ? & ? & ? & ? & _ & _ & _ & ?); [done..|].
  exists ti', w'. by split_and!.
Qed.

(** First contact connects two gateways: when a gateway receives, from a gateway it
    does not know, what that gateway announces, then the messages of every service the
    remote users subscribe to are sent to the device the announcement came from, as soon
    as the transport it came over is the matching one. *)
Lemma discovery_connects {W' : Type} `{DiscoveryState W'}
    (ti_remote : TransportInfo) (w_remote : W') (behind : bytes) (deviceIndex : DeviceIndex_t)
    (ti : TransportInfo) (w : W) :
  transports_wf ti → discovery_wf (discovery w) →
  transports_wf ti_remote → local_wf (discovery w_remote) →
  cache_wf (deviceIndicesCache (m_remoteState (discovery w_remote))) →
  let i := (generateDiscoveryInfo (ti_remote, w_remote)).1 in
  let rs := records (m_remoteState (discovery w)) in
  ¬ (findRecord rs (gatewayHash i) < length rs)%nat → (length rs < MAX_DEVICE_COUNT)%nat →
  ∃ data n ti' w', serialize_PubSubInfo i = Ok (data, n) ∧
    (length data ≤ maxPubSubInfoSerializationSize)%nat ∧
    receiveRemoteDiscoveryInfo update (data ++ behind) (length data) deviceIndex (ti, w) =
      Discovery.update update (updateNeededChannels (discovery w')) (ti', w') ∧
    ∀ service, service ∈ localSubscribers (m_localState (discovery w_remote)) →
      findMatchingType ti' (s_bitset ti_remote) (m_preferredType (discovery w')) = di_type deviceIndex →
      di_type deviceIndex ≠ NONE →
      deviceIndex ∈ computeDeviceIndices ti' (discovery w') (getClassHash service).
Proof.
  intros Hti Hd Htr Hlr Hcr i rs Hnew Hroom.
  destruct (generateDiscoveryInfo_spec (discovery w_remote) Hlr (rest w_remote) ti_remote w_remote ltac:(done) Htr)
    as (i' & w2 & Hgen & (Hsubs & Hbits & _ & Hterm) & Hv & _).
  assert (i = i') as <- by (unfold i; by rewrite Hgen). clear Hgen w2.
  destruct (serialize_PubSubInfo_length i Hv) as (data & Hser & Hlen).
  assert (deserialize_PubSubInfo (data ++ behind) (length data) = Ok (i, Z.of_nat (length data))) as Hdes
    by (by apply deserialize_PubSubInfo_at).
  destruct (receive_spec update _ _ deviceIndex ti w i _ Hti Hd Hdes Hterm (or_intror Hroom))
    as (ti' & w' & _ & Hd' & Hrecv & Hrec & _).
  exists data, (Z.of_nat (length data)), ti', w'. split_and!; [done..|].
  intros service Hs Hmatch Hne. pose proof Hd' as (_ & Hrw & _).
  apply elem_of_computeDeviceIndices; [done|].
  exists (updateRecord (mkRecord emptyInfo []) i deviceIndex). unfold reaches.
  assert (deviceIndices (updateRecord (mkRecord emptyInfo []) i deviceIndex) = [deviceIndex]) as Hdi
    by (unfold updateRecord; simpl; by rewrite push_back_room by (unfold TRANSPORT_TYPE_COUNT; simpl; lia)).
  split_and!.
  - rewrite Hrec. fold rs. unfold upsert. rewrite decide_False by done.
    apply elem_of_app. right. by apply list_elem_of_singleton.
  - exists service. split; [|done]. simpl. rewrite Hsubs.
    apply elem_of_pushUnique; [simpl; apply Hlr|by right].
  - rewrite Hdi. by apply list_elem_of_singleton.
  - done.
  - simpl. by rewrite Hbits, Hmatch.
Qed.

(** When ten gateways are known, a message of an eleventh is written over the record
    of the tenth, whose gateway is forgotten; if the record had an index for the
    transport the message came over, the old device is kept, so messages for the new
    gateway are sent to the forgotten one. *)
Theorem full_records_overwritten (mem : bytes) (size : nat) (deviceIndex : DeviceIndex_t)
    (ti : TransportInfo) (w : W) (i : PubSubInfo_t) (n : Z) (r : DeviceRecord_t) :
  transports_wf ti → discovery_wf (discovery w) →
  deserialize_PubSubInfo mem size = Ok (i, n) → isTermination i = false →
  let rs := records (m_remoteState (discovery w)) in
  ¬ (findRecord rs (gatewayHash i) < length rs)%nat → length rs = MAX_DEVICE_COUNT →
  rs !! (length rs - 1)%nat = Some r →
  ∃ ti' w', receiveRemoteDiscoveryInfo update mem size deviceIndex (ti, w) =
      Discovery.update update (updateNeededChannels (discovery w')) (ti', w') ∧
    let rs' := records (m_remoteState (discovery w')) in
    length rs' = MAX_DEVICE_COUNT ∧
    rs' !! (length rs - 1)%nat = Some (updateRecord r i deviceIndex) ∧
    (∀ j, j ∈ deviceIndices r → di_type j = di_type deviceIndex →
       deviceIndices (updateRecord r i deviceIndex) = deviceIndices r).
Proof.
  intros Hti Hd Hdes Hterm rs Hnew Hfull Hr.
  unfold receiveRemoteDiscoveryInfo. rewrite Hdes. ostep. rewrite Hterm. fold rs.
  pose proof (find_if_le (fun r => bool_decide (gatewayHash (info r) = gatewayHash i)) rs) as Hle.
  fold (findRecord rs (gatewayHash i)) in Hle.
  rewrite (proj2 (Nat.eqb_eq _ _)) by lia.
  destruct (greet_spec ti w Hti Hd) as (ti1 & w1 & -> & _ & [Hu1 _] & _). ostep.
  destruct (clearCache_fields _ _ Hu1) as (_ & _ & _ & Hrec & _).
  rewrite Hrec. fold rs. rewrite push_back_full by lia. cbn [fst modify].
  set (w2 := set_discovery (set_records rs (discovery w1)) w1).
  assert (records (m_remoteState (discovery w2)) = rs) as Hrec2 by (unfold w2; by rewrite discovery_set).
  erewrite storeRecord_spec; [|rewrite Hrec2; exact Hr]. rewrite Hrec2. unfold w2 at 2. rewrite discovery_set.
  match goal with |- context [set_discovery ?d' w2] => exists ti1, (set_discovery d' w2) end.
  unfold w2. rewrite !discovery_set. split; [done|]. simpl. split_and!.
  - by rewrite length_alter.
  - by rewrite list_lookup_alter_eq, Hr.
  - intros j Hj Ht. unfold updateRecord. simpl.
    match goal with |- context [(?a =? ?b)%nat] => destruct (Nat.eqb_spec a b) as [He|He] end; [|done].
    rewrite find_if_end in He. apply He in Hj. by apply bool_decide_eq_false in Hj.
Qed.
End properties.

(** ** Witnesses *)

(** UDP fails on every broadcast. *)
Definition failing_layer : TransportLayer := example_layer [UDP].

Definition example_world : ExampleWorld := mkExampleWorld [] example_discovery 7.

Lemma both_ti_wf : transports_wf both_ti.
Proof.
  split_and!; [reflexivity| |by vm_compute]. intros [|[|[|[|i]]]] t [=]; subst;
    (split_and!; [set_solver|reflexivity|reflexivity]).
Qed.

Lemma failure_cascade_settles_witness :
  transports_wf both_ti ∧ @discovery_wf ref_iox example_discovery ∧
  ∃ ti' w', @initialize ref_iox failing_layer ExampleWorld _ _ (both_ti, example_world) = Ok (ti', w') ∧
    s_bitset ti' = 8 ∧ length (net w') = 3%nat ∧
    (∀ k t, s_transports ti' !! k = Some (Some t) →
       m_status t ≠ FAILED ∧ bit (s_bitset ti') (index (getType t)) = isGood t).
Proof.
  split; [exact both_ti_wf|]. split; [exact example_discovery_wf|].
  destruct (@failure_cascade_settles ref_iox ref_iox_spec failing_layer ExampleWorld ExampleWorld_net ExampleWorld_discovery both_ti
    example_world both_ti_wf example_discovery_wf eq_refl) as (ti' & w' & He & _ & _ & Hbits & _).
  exists ti', w'. split; [exact He|]. vm_compute in He. injection He as <- <-.
  split; [reflexivity|]. split; [reflexivity|exact Hbits].
Defined.

(** A message of the gateway 902, which the example gateway does not know. *)
Definition new_gateway_info : PubSubInfo_t := mkPubSubInfo [svc Init.Byte.x44] 4 902 5 false.

Definition new_gateway_message : bytes :=
  match @serialize_PubSubInfo ref_iox new_gateway_info with Ok (buf, _) => buf | _ => [] end.

Lemma receive_stores_record_witness :
  ∃ ti' w', transports_wf ti' ∧ @discovery_wf ref_iox (discovery w') ∧
    @receiveRemoteDiscoveryInfo ref_iox failing_layer ExampleWorld _ _ None new_gateway_message
      (length new_gateway_message) (mkDeviceIndex UDP 4) (both_ti, example_world) = Ok (ti', w') ∧
    records (m_remoteState (discovery w')) =
      example_records ++ [mkRecord new_gateway_info [mkDeviceIndex UDP 4]] ∧
    deviceIndicesCache (m_remoteState (discovery w')) = vm_empty.
Proof.
  destruct (@receive_stores_record ref_iox ref_iox_spec failing_layer ExampleWorld
    ExampleWorld_net ExampleWorld_discovery None
    new_gateway_message (length new_gateway_message) (mkDeviceIndex UDP 4) both_ti example_world
    new_gateway_info (Z.of_nat (length new_gateway_message)) both_ti_wf example_discovery_wf
    eq_refl eq_refl) as (ti' & w' & ? & ? & Hrecv & Hrec & Hc & _).
  { right. vm_compute. lia. }
  exists ti', w'. split; [assumption|]. split; [assumption|]. split; [exact Hrecv|].
  split; [exact Hrec|exact Hc].
Defined.

(** The remote gateway of the next witness. *)
Definition remote_world : ExampleWorld :=
  mkExampleWorld [] (mkDiscovery 902 NONE (mkRemoteState [] vm_empty)
    (mkLocalState [] [svc Init.Byte.x44] []) [] emptyInfo false) 40.

Lemma discovery_connects_witness :
  ∃ data n ti' w',
    @serialize_PubSubInfo ref_iox
      (@generateDiscoveryInfo ref_iox ExampleWorld _ _ (both_ti, remote_world)).1 = Ok (data, n) ∧
    @receiveRemoteDiscoveryInfo ref_iox (example_layer []) ExampleWorld _ _ None (data ++ [])
      (length data) (mkDeviceIndex UDP 4) (both_ti, example_world) = Ok (ti', w') ∧
    mkDeviceIndex UDP 4 ∈
      @computeDeviceIndices ref_iox ti' (discovery w') (hash_of Init.Byte.x44).
Proof.
  destruct (@discovery_connects ref_iox ref_iox_spec (example_layer []) ExampleWorld
    ExampleWorld_net ExampleWorld_discovery None ExampleWorld ExampleWorld_net ExampleWorld_discovery both_ti remote_world [] (mkDeviceIndex UDP 4) both_ti example_world
    both_ti_wf example_discovery_wf both_ti_wf) as (data & n & ti' & w' & Hser & _ & Hrecv & Hconn).
  - split; [split; simpl; lia|]. split; [|unfold MAX_TOPICS; simpl; lia].
    apply (bool_decide_unpack _). vm_compute. exact I.
  - split; [split; simpl; unfold MAX_TOPICS; lia|constructor].
  - vm_compute. lia.
  - vm_compute. lia.
  - exists data, n, ti', w'. split; [exact Hser|]. split; [exact Hrecv|].
    apply Hconn; [by left| |discriminate].
    vm_compute in Hser. injection Hser as <- <-. vm_compute in Hrecv. injection Hrecv as <- <-.
    vm_compute. reflexivity.
Defined.

(** Ten known gateways. *)
Definition ten_records : list DeviceRecord_t :=
  (fun k => mkRecord (mkPubSubInfo [] 4 (900 + Z.of_nat k) 0 false) [mkDeviceIndex UDP (Z.of_nat k)])
  <$> seq 0 10.

Definition full_discovery : DiscoveryManager := set_records ten_records example_discovery.

Lemma full_discovery_wf : @discovery_wf ref_iox full_discovery.
Proof.
  destruct example_discovery_wf as (Hl & _ & Hc). split; [exact Hl|]. split; [|exact Hc].
  split; [simpl; unfold MAX_DEVICE_COUNT; lia|]. split; [apply (bool_decide_unpack _); vm_compute; exact I|].
  apply Forall_forall. intros r (k & -> & _)%list_elem_of_fmap.
  split_and!; [apply NoDup_singleton|unfold TRANSPORT_TYPE_COUNT; simpl; lia|unfold MAX_TOPICS; simpl; lia].
Qed.

Lemma full_records_overwritten_witness :
  let w := mkExampleWorld [] full_discovery 7 in
  let dev := mkDeviceIndex UDP 77 in
  ∃ ti' w', @receiveRemoteDiscoveryInfo ref_iox (example_layer []) ExampleWorld _ _ None
      (match @serialize_PubSubInfo ref_iox (mkPubSubInfo [] 4 999 0 false) with
       | Ok (buf, _) => buf | _ => [] end) 25 dev (both_ti, w) = Ok (ti', w') ∧
    records (m_remoteState (discovery w')) !! 9%nat =
      Some (mkRecord (mkPubSubInfo [] 4 999 0 false) [mkDeviceIndex UDP 9]).
Proof.
  intros w dev.
  destruct (@full_records_overwritten ref_iox ref_iox_spec (example_layer []) ExampleWorld
    ExampleWorld_net ExampleWorld_discovery None
    (match @serialize_PubSubInfo ref_iox (mkPubSubInfo [] 4 999 0 false) with
     | Ok (buf, _) => buf | _ => [] end) 25 dev both_ti w (mkPubSubInfo [] 4 999 0 false) 25
    (mkRecord (mkPubSubInfo [] 4 909 0 false) [mkDeviceIndex UDP 9])
    both_ti_wf full_discovery_wf eq_refl eq_refl) as (ti' & w' & Hrecv & _ & Hlast & _).
  - vm_compute. lia.
  - reflexivity.
  - vm_compute. reflexivity.
  - exists ti', w'. split; [exact Hrecv|exact Hlast].
Defined.
