(* ===== verification/Coherence.v ===== *)
(** * Coherence: the cache of device indices while the gateway runs

    [generateDeviceIndices] answers from a cache (discovery.cpp).  The answer
    depends on the discovery records and on which transports are good, so the
    cache has to be emptied when either changes.  Here: no operation of the
    transport registry leaves a cache behind that disagrees with the
    transports, however many of them fail.  A failed transport makes the cache
    stale for a moment; the registry then calls the failure callback, which
    empties it. *)

From stdpp Require Import base list gmap.
From S2P Require Import Prelude.
From S2P Require Import Iox.
From S2P Require Import Types.
From S2P Require Import VectorMap.
From S2P Require Import Serialization.
From S2P Require Import TransportInfo.
From S2P Require Import Discovery.
From S2P Require Import DiscoveryFailure.

Open Scope Z_scope.

(** ** Lemmas: when the cache stays coherent *)

Section fields.
Context `{Iox}.
Implicit Types (ti : TransportInfo) (d : DiscoveryManager).

Lemma coherent_empty ti d :
  deviceIndicesCache (m_remoteState d) = vm_empty → cache_coherent ti d.
Proof. intros He h v. rewrite He. unfold to_map, entries. simpl. by rewrite lookup_empty. Qed.

Lemma clearCache_coherent ti d : cache_coherent ti (clearCache d).
Proof. by apply coherent_empty. Qed.

(** Only the records, the cache and the preferred transport matter. *)
Lemma coherent_fields ti d d' :
  m_remoteState d' = m_remoteState d → m_preferredType d' = m_preferredType d →
  cache_coherent ti d → cache_coherent ti d'.
Proof.
  intros Hr Hp Hco h v. unfold computeDeviceIndices, matchingDeviceIndex in *. rewrite Hr, Hp. apply Hco.
Qed.
End fields.

(** ** Lemmas: the operations of the registry *)

(** The callables of the registry run in a state [V] that contains the
    discovery manager, possibly with locals of the caller. *)
Section registry.
Context `{Iox} {V : Type} (view : V → DiscoveryManager).
Context (fn : TransportType → V → Outcome (bool * V)).
Context (fn_view : ∀ t v failed v', fn t v = Ok (failed, v') → view v' = view v).
Context (cb : TransportInfo * V → Outcome (TransportInfo * V)).
Implicit Types (ti : TransportInfo) (v : V) (s : TransportInfo * V).

Definition coherent_in s : Prop := cache_coherent s.1 (view s.2).

Context (cb_coherent : ∀ s s', cb s = Ok s' → coherent_in s').

(** A transport from slot [k] on has failed, and its failure is not handled. *)
Definition failed_from (k : nat) ti : Prop :=
  ∃ j t, (k ≤ j < TRANSPORT_TYPE_COUNT)%nat ∧ s_transports ti !! j = Some (Some (mkTransport t FAILED)).

(** What one call does to the registry and the discovery manager. *)
Lemma call_if_good_effect k s s' :
  call_if_good fn k s = Ok s' →
  (s'.1 = s.1 ∧ view s'.2 = view s.2) ∨
  ∃ t, s_transports s.1 !! k = Some (Some (mkTransport t GOOD)) ∧ s'.1 = mark_failed s.1 k t.
Proof.
  destruct s as [ti v]. intros Hcall. destruct (s_transports ti !! k) as [o|] eqn:Ho;
    [|unfold call_if_good, slot in Hcall; by rewrite Ho in Hcall].
  pose proof (call_if_good_cases fn k ti v o Ho) as Hcase.
  destruct o as [[t []]|]; [|left; rewrite Hcase in Hcall; by injection Hcall as <-..].
  destruct (fn t v) as [[failed v']| | |] eqn:Hfn;
    [|unfold call_if_good, slot, call in Hcall; rewrite Ho in Hcall; simpl in Hcall; by rewrite Hfn in Hcall..].
  rewrite (Hcase failed v' eq_refl) in Hcall. injection Hcall as <-.
  destruct failed; [right; by exists t|]. left. split; [done|]. by apply (fn_view t v false).
Qed.

(** Handling a slot runs the callback exactly when its transport has failed. *)
Lemma disable_if_failed_effect k s s' :
  disable_if_failed (Some cb) k s = Ok s' →
  coherent_in s' ∨
  (s' = s ∧ ∀ t, s_transports s.1 !! k ≠ Some (Some (mkTransport t FAILED))).
Proof.
  destruct s as [ti v]. unfold disable_if_failed, slot. cbn [fst].
  destruct (s_transports ti !! k) as [[[t st]|]|] eqn:Ho; [|by intros [= <-]; right|done]. ostep.
  unfold hasFailedSetDisabled, compare_exchange. cbn [m_status getType]. case_decide as Hst.
  - intros (ti' & _ & Hcb)%bind_Ok. left. by eapply cb_coherent.
  - intros [= <-]. right. split; [|by intros t' [= -> ->]].
    unfold set_slot. rewrite list_insert_id by done. by destruct ti.
Qed.

Lemma calls_coherent slots s s' :
  for_slots (call_if_good fn) slots s = Ok s' → Forall (fun k => k < TRANSPORT_TYPE_COUNT)%nat slots →
  coherent_in s ∨ failed_from 0 s.1 → coherent_in s' ∨ failed_from 0 s'.1.
Proof.
  revert s. induction slots as [|k slots IH]; intros s; [by intros [= <-]|].
  intros (s1 & Hcall & Hrest)%bind_Ok [Hk Hall]%Forall_cons Hs. apply (IH s1 Hrest Hall).
  destruct (call_if_good_effect k s s1 Hcall) as [[Heq Hview]|(t & Ht & Heq)].
  - unfold coherent_in. rewrite Heq, Hview. exact Hs.
  - right. exists k, t. split; [lia|]. rewrite Heq. unfold mark_failed. cbn.
    apply list_lookup_insert_eq. by eapply lookup_lt_Some.
Qed.

Lemma disables_coherent k n s s' :
  for_slots (disable_if_failed (Some cb)) (seq k n) s = Ok s' →
  coherent_in s ∨ failed_from k s.1 → coherent_in s' ∨ failed_from (k + n) s'.1.
Proof.
  revert k s. induction n as [|n IH]; intros k s; [rewrite Nat.add_0_r; by intros [= <-]|].
  intros (s1 & Hd & Hrest)%bind_Ok Hs. replace (k + S n)%nat with (S k + n)%nat by lia.
  apply (IH (S k) s1 Hrest).
  destruct (disable_if_failed_effect k s s1 Hd) as [?|[-> Hno]]; [by left|].
  destruct Hs as [?|(j & t & Hj & Ht)]; [by left|]. right. exists j, t.
  split; [|done]. destruct (decide (j = k)) as [->|]; [by destruct (Hno t)|lia].
Qed.

Lemma doForAllEnabled_coherent_in s s' :
  doForAllEnabled (Some cb) fn s = Ok s' → coherent_in s → coherent_in s'.
Proof.
  intros (s1 & Hcalls & Hd)%bind_Ok Hs.
  destruct (disables_coherent 0 _ s1 s' Hd) as [?|(j & t & Hj & _)]; [|done|lia].
  eapply calls_coherent; [exact Hcalls| |by left].
  apply Forall_forall. intros k Hk%elem_of_seq. lia.
Qed.

Lemma doFor_coherent_in t s s' :
  doFor (Some cb) t fn s = Ok s' → coherent_in s → coherent_in s'.
Proof.
  intros (s1 & Hcall & Hd)%bind_Ok Hs.
  destruct (disable_if_failed_effect _ s1 s' Hd) as [?|[-> Hno]]; [done|].
  destruct (call_if_good_effect _ s s1 Hcall) as [[Heq Hview]|(t' & Ht & Heq)].
  - unfold coherent_in. by rewrite Heq, Hview.
  - destruct (Hno t'). rewrite Heq. unfold mark_failed. cbn. apply list_lookup_insert_eq.
    by eapply lookup_lt_Some.
Qed.
End registry.

(** What holds of the state before and after the callable and the callback. *)
Section kept.
Context {V : Type} (P : V → Prop) (fn : TransportType → V → Outcome (bool * V)).
Context (fn_keeps : ∀ t v failed v', fn t v = Ok (failed, v') → P v → P v').
Context (cb : TransportInfo * V → Outcome (TransportInfo * V)).
Context (cb_keeps : ∀ s s', cb s = Ok s' → P s.2 → P s'.2).
Implicit Types (s : TransportInfo * V).

Lemma call_if_good_keeps k s s' : call_if_good fn k s = Ok s' → P s.2 → P s'.2.
Proof.
  destruct s as [ti v]. intros ([t|] & _ & Hrest)%bind_Ok; [|by injection Hrest as <-].
  case_match; [|by injection Hrest as <-]. apply bind_Ok in Hrest as ([t' v1] & Hcall & [= <-]).
  apply bind_Ok in Hcall as ([failed v2] & Hfn & [= _ <-]). exact (fn_keeps _ _ _ _ Hfn).
Qed.

Lemma disable_if_failed_keeps k s s' : disable_if_failed (Some cb) k s = Ok s' → P s.2 → P s'.2.
Proof.
  destruct s as [ti v]. intros ([t|] & _ & Hrest)%bind_Ok; [|by injection Hrest as <-].
  destruct (hasFailedSetDisabled t) as [t' []]; [|by injection Hrest as <-].
  apply bind_Ok in Hrest as (ti' & _ & Hcb). exact (cb_keeps _ _ Hcb).
Qed.

Lemma for_slots_keeps body slots s s' :
  (∀ k s s', body k s = Ok s' → P s.2 → P s'.2) → for_slots body slots s = Ok s' → P s.2 → P s'.2.
Proof.
  intros Hbody. revert s. induction slots as [|k slots IH]; intros s; [by intros [= <-]|].
  intros (s1 & Hone & Hrest)%bind_Ok Hs. apply (IH s1 Hrest). by eapply Hbody.
Qed.

Lemma doForAllEnabled_keeps s s' : doForAllEnabled (Some cb) fn s = Ok s' → P s.2 → P s'.2.
Proof.
  intros (s1 & Hcalls & Hd)%bind_Ok Hs. apply (for_slots_keeps _ _ _ _ disable_if_failed_keeps Hd).
  by apply (for_slots_keeps _ _ _ _ call_if_good_keeps Hcalls).
Qed.

Lemma doFor_keeps t s s' : doFor (Some cb) t fn s = Ok s' → P s.2 → P s'.2.
Proof.
  intros (s1 & Hcall & Hd)%bind_Ok Hs. apply (disable_if_failed_keeps _ _ _ Hd). by eapply call_if_good_keeps.
Qed.
End kept.

(** What neither the callable nor the callback changes. *)
Section untouched.
Context {V A : Type} (view : V → A) (fn : TransportType → V → Outcome (bool * V)).
Context (fn_view : ∀ t v failed v', fn t v = Ok (failed, v') → view v' = view v).
Context (cb : TransportInfo * V → Outcome (TransportInfo * V)).
Context (cb_view : ∀ s s', cb s = Ok s' → view s'.2 = view s.2).
Implicit Types (s : TransportInfo * V).

Lemma doForAllEnabled_view s s' : doForAllEnabled (Some cb) fn s = Ok s' → view s'.2 = view s.2.
Proof.
  intros Hdo. apply (doForAllEnabled_keeps (fun v => view v = view s.2) fn) in Hdo; [exact Hdo|..|done].
  - by intros t v failed v' ->%fn_view.
  - by intros s1 s2 ->%cb_view.
Qed.

Lemma doFor_view t s s' : doFor (Some cb) t fn s = Ok s' → view s'.2 = view s.2.
Proof.
  intros Hdo. apply (doFor_keeps (fun v => view v = view s.2) fn) in Hdo; [exact Hdo|..|done].
  - by intros t' v failed v' ->%fn_view.
  - by intros s1 s2 ->%cb_view.
Qed.
End untouched.

(** ** Lemmas: the operations of the discovery manager *)

Section discovery.
Context `{IoxSpec} `{TransportLayer} `{DiscoveryState W}.
Implicit Types (ti : TransportInfo) (w : W) (s : TransportInfo * W).

Abbreviation coherent := (coherent_in (discovery : W → DiscoveryManager)).

Lemma sendBroadcast_view data t w failed w' :
  sendBroadcast data t w = Ok (failed, w') → discovery w' = discovery w.
Proof. intros [= _ <-]. apply discovery_set_net. Qed.

Lemma generateDiscoveryInfo_coherent s : coherent s → coherent (generateDiscoveryInfo s).2.
Proof.
  destruct s as [ti w]. unfold generateDiscoveryInfo.
  pose proof (discovery_generateHash w) as Hd. destruct (generateHash w) as [h w1]. simpl in *.
  unfold coherent_in. simpl. by rewrite Hd.
Qed.

Lemma sendDiscoveryInfo_coherent cb i s s' :
  (∀ s s', cb s = Ok s' → coherent s') →
  sendDiscoveryInfo (Some cb) i s = Ok s' → coherent s → coherent s'.
Proof.
  intros Hcb ([data n] & _ & Hall)%bind_Ok Hs.
  eapply (doForAllEnabled_coherent_in _ (sendBroadcast data)); [|exact Hcb|exact Hall|exact Hs].
  intros t w failed w'. apply sendBroadcast_view.
Qed.

(** Whatever failed, the cache is coherent when the callback returns. *)
Lemma failCallback_coherent fuel s s' : failCallback fuel s = Ok s' → coherent s'.
Proof.
  revert s s'. induction fuel as [|fuel IH]; intros [ti w] s'; [done|]. cbn [failCallback modify].
  set (w1 := set_discovery (clearCache (discovery w)) w).
  assert (coherent (ti, w1)) as Hs1.
  { unfold coherent_in, w1. cbn [fst snd]. rewrite discovery_set. apply clearCache_coherent. }
  destruct (negb _); [|by intros [= <-]].
  pose proof (generateDiscoveryInfo_coherent (ti, w1) Hs1) as Hs2.
  destruct (generateDiscoveryInfo (ti, w1)) as [i s2]. intros Hsend.
  by eapply (sendDiscoveryInfo_coherent (failCallback fuel)).
Qed.

Lemma sendRegistered_coherent i s s' :
  sendDiscoveryInfo registeredCallback i s = Ok s' → coherent s → coherent s'.
Proof. apply sendDiscoveryInfo_coherent. intros ??. apply failCallback_coherent. Qed.

Lemma sendGenerated_coherent s s' : sendGenerated s = Ok s' → coherent s → coherent s'.
Proof.
  unfold sendGenerated. intros Hsend Hs. apply generateDiscoveryInfo_coherent in Hs.
  destruct (generateDiscoveryInfo s) as [i s1]. by eapply sendRegistered_coherent.
Qed.

Lemma resend_coherent t s s' : resendDiscoveryInfoToTransport t s = Ok s' → coherent s → coherent s'.
Proof.
  unfold resendDiscoveryInfoToTransport. intros Hsend Hs. apply generateDiscoveryInfo_coherent in Hs.
  destruct (generateDiscoveryInfo s) as [i s1]. apply bind_Ok in Hsend as ([data n] & _ & Hfor).
  eapply (doFor_coherent_in _ (sendBroadcast data)); [|apply failCallback_coherent|exact Hfor|exact Hs].
  intros ????. apply sendBroadcast_view.
Qed.

(** A message that is not a termination empties the cache. *)
Lemma receive_coherent (update : option (list ServiceDescription → TransportInfo * W → Outcome (TransportInfo * W)))
    mem size deviceIndex s s' i n :
  (∀ services s s', Discovery.update update services s = Ok s' → coherent s → coherent s') →
  deserialize_PubSubInfo mem size = Ok (i, n) → isTermination i = false →
  receiveRemoteDiscoveryInfo update mem size deviceIndex s = Ok s' → coherent s'.
Proof.
  intros Hup Hdes Hterm. unfold receiveRemoteDiscoveryInfo. rewrite Hdes. ostep. rewrite Hterm.
  assert (∀ k s s', storeRecord update k i deviceIndex s = Ok s' → coherent s') as Hstore.
  { intros k [ti w] s1 (r & _ & Hu)%bind_Ok. apply Hup in Hu; [done|]. unfold coherent_in, modify. cbn [fst snd].
    rewrite discovery_set. apply clearCache_coherent. }
  case_match; [|by intros ?%Hstore]. by intros (s1 & _ & ?%Hstore)%bind_Ok.
Qed.

(** The rest of the gateway's state is untouched by announcing. *)
Lemma generateDiscoveryInfo_rest s : rest (generateDiscoveryInfo s).2.2 = rest s.2.
Proof.
  destruct s as [ti w]. unfold generateDiscoveryInfo. pose proof (rest_generateHash w) as Hr.
  by destruct (generateHash w).
Qed.

Lemma sendBroadcast_rest data t w failed w' : sendBroadcast data t w = Ok (failed, w') → rest w' = rest w.
Proof. intros [= _ <-]. apply rest_set_net. Qed.

Lemma sendDiscoveryInfo_rest cb i s s' :
  (∀ s s', cb s = Ok s' → rest s'.2 = rest s.2) →
  sendDiscoveryInfo (Some cb) i s = Ok s' → rest s'.2 = rest s.2.
Proof.
  intros Hcb ([data n] & _ & Hall)%bind_Ok. eapply (doForAllEnabled_view rest (sendBroadcast data)); [|exact Hcb|exact Hall].
  intros ????. apply sendBroadcast_rest.
Qed.

Lemma failCallback_rest fuel s s' : failCallback fuel s = Ok s' → rest s'.2 = rest s.2.
Proof.
  revert s s'. induction fuel as [|fuel IH]; intros [ti w] s'; [done|]. cbn [failCallback modify].
  set (w1 := set_discovery (clearCache (discovery w)) w).
  assert (rest w1 = rest w) as Hw by apply rest_set_discovery.
  destruct (negb _); [|by intros [= <-]].
  pose proof (generateDiscoveryInfo_rest (ti, w1)) as Hg. destruct (generateDiscoveryInfo (ti, w1)) as [i s2].
  cbn [fst snd] in *. rewrite <-Hw, <-Hg. by apply sendDiscoveryInfo_rest.
Qed.

Lemma sendRegistered_rest i s s' : sendDiscoveryInfo registeredCallback i s = Ok s' → rest s'.2 = rest s.2.
Proof. apply sendDiscoveryInfo_rest, failCallback_rest. Qed.

Lemma resend_rest t s s' : resendDiscoveryInfoToTransport t s = Ok s' → rest s'.2 = rest s.2.
Proof.
  unfold resendDiscoveryInfoToTransport. intros Hsend. rewrite <-(generateDiscoveryInfo_rest s).
  destruct (generateDiscoveryInfo s) as [i s1]. apply bind_Ok in Hsend as ([data n] & _ & Hfor).
  eapply (doFor_view rest (sendBroadcast data)); [|apply failCallback_rest|exact Hfor].
  intros ????. apply sendBroadcast_rest.
Qed.
End discovery.
