(* ===== verification/Unlocked.v ===== *)
(** * Unlocked: what is used after its mutex was released

    Two operations use a position in a container after they have given up the
    mutex that protects the container, or without taking it.
    [generateDeviceIndices] of discovery.cpp returns a reference into the cache
    of device indices, which [Iceoryx2Transport::waitsetLoop] copies after the
    mutex of the discovery manager was released; [sendUserData] of
    tcp_transport.cpp checks the index of a session and uses it without the
    mutex that the other accesses to the sessions hold.  Here the two halves are
    steps of their own, and what other threads may do comes in between. *)

From stdpp Require Import base list gmap.
From S2P Require Import Prelude.
From S2P Require Import Iox.
From S2P Require Import Types.
From S2P Require Import VectorMap.
From S2P Require Import Serialization.
From S2P Require Import TransportInfo.
From S2P Require Import Udp.
From S2P Require Import TcpSession.
From S2P Require Import Tcp.
From S2P Require Import Discovery.
From S2P Require Import DiscoveryFailure.
From S2P Require Import Coherence.

Open Scope Z_scope.

(** ** The reference into the cache *)

Section reference.
Context `{Iox}.
Implicit Types (ti : TransportInfo) (d : DiscoveryManager).

(** [generateDeviceIndices] as it is written: it returns [EMPTY_DEVICE_INDICES]
    ([None]) or a place in the cache. *)
Definition generateDeviceIndices_ref ti d (uid : UniquePortId) (serviceHash : ClassHash)
    : option nat * DiscoveryManager :=
  if containsElement (m_gatewayPublisherUids d) uid then (None, d)
  else if negb (containsElement (userPublisherPorts (m_localState d)) uid) then (None, d)
  else
    let cache := deviceIndicesCache (m_remoteState d) in
    let it := vm_find cache serviceHash in
    if (it =? vm_end cache)%nat then
      let '(cache, emplaced) :=
        vm_emplace MAX_TOPICS cache serviceHash (computeDeviceIndices ti d serviceHash) in
      let d := set_cache cache d in
      if negb emplaced then (None, d) else (Some (vm_size cache - 1)%nat, d)
    else (Some it, d).

(** The copy the caller makes. *)
Definition copy_deviceIndices (reference : option nat) d : Outcome DeviceIndexVector_t :=
  match reference with
  | None => Ok []
  | Some it => deref (vm_at (deviceIndicesCache (m_remoteState d)) it)
  end.

(** Copied at once, it is what file Discovery computes. *)
Lemma copied_at_once ti d uid h :
  generateDeviceIndices ti d uid h =
    (let '(reference, d) := generateDeviceIndices_ref ti d uid h in
     indices ← copy_deviceIndices reference d; Ok (indices, d)).
Proof.
  unfold generateDeviceIndices, generateDeviceIndices_ref. destruct (containsElement _ _); [done|].
  destruct (negb _); [done|]. destruct (vm_find _ _ =? _)%nat; [|done].
  destruct (vm_emplace _ _ _ _) as [cache [|]]; [|done]. cbn [negb copy_deviceIndices].
  unfold vm_back, vm_at, vm_size. rewrite last_lookup, <-Nat.sub_1_r. done.
Qed.
End reference.

Section emptied.
Context `{Iox} `{TransportLayer} `{DiscoveryState W}.
Implicit Types (ti : TransportInfo) (w : W) (s : TransportInfo * W).

Definition cached w : vector_map ClassHash DeviceIndexVector_t := deviceIndicesCache (m_remoteState (discovery w)).

(** A failed transport empties the cache, however many others fail with it. *)
Lemma failCallback_empties fuel s s' : failCallback fuel s = Ok s' → cached s'.2 = vm_empty.
Proof.
  revert s s'. induction fuel as [|fuel IH]; intros [ti w] s'; [done|]. cbn [failCallback modify].
  set (w1 := set_discovery (clearCache (discovery w)) w).
  assert (cached w1 = vm_empty) as Hw by (unfold cached, w1; by rewrite discovery_set).
  destruct (negb _); [|by intros [= <-]]. unfold generateDiscoveryInfo.
  pose proof (discovery_generateHash w1) as Hd. destruct (generateHash w1) as [h w2]. cbn [snd] in Hd.
  assert (cached w2 = vm_empty) as Hw2 by (unfold cached; by rewrite Hd).
  intros ([data n] & _ & Hall)%bind_Ok.
  apply (doForAllEnabled_keeps (fun v => cached v = vm_empty) (TransportInfo.sendBroadcast data)) in Hall; [exact Hall|..|exact Hw2].
  - intros t v failed v' Hsend. unfold cached. by rewrite (sendBroadcast_view data t v failed v' Hsend).
  - by intros s1 s2 ?%IH.
Qed.

(** So does a message of another gateway that does not terminate. *)
Lemma receive_empties mem size from s s' i n :
  deserialize_PubSubInfo mem size = Ok (i, n) → isTermination i = false →
  receiveRemoteDiscoveryInfo None mem size from s = Ok s' → cached s'.2 = vm_empty.
Proof.
  intros Hdes Hterm. unfold receiveRemoteDiscoveryInfo. rewrite Hdes. ostep. rewrite Hterm.
  assert (∀ k s s', storeRecord None k i from s = Ok s' → cached s'.2 = vm_empty) as Hstore.
  { intros k [ti w] s1 (r & _ & [= <-])%bind_Ok. unfold cached. cbn [snd]. by rewrite discovery_set. }
  case_match; [|by intros ?%Hstore]. by intros (s1 & _ & ?%Hstore)%bind_Ok.
Qed.
End emptied.

(** ** The session a message is sent on *)

Section sending.
Context `{TcpSockets}.
Implicit Types (t : TCPTransport) (s : Session).

(** [sendUserData] until it has compared the index, and from then on. *)
Definition index_valid (deviceIndex : Z) t : bool := negb (Z.of_nat (length (m_transportSessions t)) <=? deviceIndex).

Definition send_on_session (data1 data2 : bytes) (deviceIndex : Z) t : Outcome (TCPTransport * bool) :=
  s ← deref (m_transportSessions t !! Z.to_nat deviceIndex);
  let '(out, res) := sendData data1 data2 (s_out s) in
  Ok (set_sessions (alter (set_out out) (Z.to_nat deviceIndex) (m_transportSessions t)) t, res).

Lemma sent_at_once data1 data2 deviceIndex t :
  t_sendUserData data1 data2 deviceIndex t =
    if index_valid deviceIndex t then send_on_session data1 data2 deviceIndex t else Ok (t, false).
Proof. unfold t_sendUserData, index_valid. by destruct (_ <=? _). Qed.

Lemma send_on_session_at data1 data2 k t s :
  m_transportSessions t !! k = Some s →
  ∃ out, send_on_session data1 data2 (Z.of_nat k) t =
      Ok (set_sessions (<[k := set_out out s]> (m_transportSessions t)) t, false) ∧
    ((∀ out data, write_accepts out data = None) → out = s_out s ++ frame (data1 ++ data2)).
Proof.
  intros Hk. destruct (t_sendUserData_at t k s data1 data2 Hk) as (out & He & Hout). exists out. split; [|exact Hout].
  rewrite sent_at_once in He. unfold index_valid in He. pose proof (lookup_lt_Some _ _ _ Hk).
  by rewrite (proj2 (Z.leb_gt _ _)) in He by lia.
Qed.
End sending.

(** ** Properties *)

Section properties.
Context `{IoxSpec}.

(** C34: The reference that [generateDeviceIndices] returns is good as long as nobody empties the
    cache.  For a message of a local publisher it refers to the devices of the gateways that
    subscribe; copied at once, or after another gateway announced its termination, it gives
    just these.  But the mutex is released before the caller copies: if in between, on
    another thread, a transport fails or the message of another gateway arrives, the caller
    reads an element that no longer exists. *)
Theorem cached_indices_race `{TransportLayer} `{DiscoveryState W} (ti : TransportInfo) (w : W) (uid : UniquePortId)
    (h : ClassHash) :
  let d := discovery w in
  discovery_wf d → cache_coherent ti d → uid ∉ m_gatewayPublisherUids d → uid ∈ userPublisherPorts (m_localState d) →
  (vm_size (deviceIndicesCache (m_remoteState d)) < MAX_TOPICS)%nat →
  ∃ it d', generateDeviceIndices_ref ti d uid h = (Some it, d') ∧
    copy_deviceIndices (Some it) d' = Ok (computeDeviceIndices ti d h) ∧
    (∀ rs, copy_deviceIndices (Some it) (set_records rs d') = Ok (computeDeviceIndices ti d h)) ∧
    ∀ s', (∃ fuel, failCallback fuel (ti, set_discovery d' w) = Ok s') ∨
      (∃ mem size from i n, deserialize_PubSubInfo mem size = Ok (i, n) ∧ isTermination i = false ∧
         receiveRemoteDiscoveryInfo None mem size from (ti, set_discovery d' w) = Ok s') →
      copy_deviceIndices (Some it) (discovery s'.2) = UndefinedBehaviour.
Proof.
  intros d Hd Hco Hgw Hport Hroom.
  destruct (generateDeviceIndices_spec ti d uid h Hd Hco) as (c & He & _).
  rewrite decide_True in He by tauto. rewrite copied_at_once in He.
  destruct (generateDeviceIndices_ref ti d uid h) as [reference d'] eqn:Href.
  assert (∃ it, reference = Some it) as [it ->].
  { revert Href. unfold generateDeviceIndices_ref. apply containsElement_false in Hgw. apply containsElement_true in Hport.
    rewrite Hgw, Hport. cbn [negb]. destruct (vm_find _ _ =? _)%nat; [|intros [= <- _]; by eexists].
    rewrite vm_emplace_spec by apply Hd. rewrite decide_True by done. intros [= <- _]. by eexists. }
  exists it, d'. apply bind_Ok in He as (v & Hv & [= -> _]). split; [done|]. split; [exact Hv|].
  split; [intros rs; exact Hv|]. intros s' Hempty. cbn [copy_deviceIndices].
  assert (cached s'.2 = vm_empty) as Hc.
  { destruct Hempty as [[fuel Hf]|(mem & size & from & i & n & Hdes & Hit & Hr)];
      [by eapply failCallback_empties|by eapply receive_empties]. }
  unfold cached in Hc. by rewrite Hc.
Qed.

(** C35: A session that closes while user data is sent.  The index is checked and used without the
    mutex; if a session closes between the two, a message for a session in front of it
    still goes out on that session, but a message for the one that closes, or for a later
    one, is written to the connection of the next peer, and to a destroyed object if there
    is none. *)
Theorem send_races_close `{Sockets} `{TcpSockets} (t : TCPTransport) (j k : nat) (closing target : Session)
    (header payload : bytes) :
  tcp_wf t → m_transportSessions t !! j = Some closing → m_transportSessions t !! k = Some target →
  let t1 := handleSessionClose (s_id closing) t in
  index_valid (Z.of_nat k) t = true ∧
  ((k < j)%nat → ∃ out, send_on_session header payload (Z.of_nat k) t1 =
     Ok (set_sessions (<[k := set_out out target]> (m_transportSessions t1)) t1, false)) ∧
  ((j ≤ k)%nat → ∀ other, m_transportSessions t !! S k = Some other → s_remote other ≠ s_remote target ∧
     ∃ out, send_on_session header payload (Z.of_nat k) t1 =
         Ok (set_sessions (<[k := set_out out other]> (m_transportSessions t1)) t1, false) ∧
       ((∀ out data, write_accepts out data = None) → out = s_out other ++ frame (header ++ payload))) ∧
  ((j ≤ k)%nat → m_transportSessions t !! S k = None →
     send_on_session header payload (Z.of_nat k) t1 = UndefinedBehaviour).
Proof.
  intros Ht Hj Hk t1. pose proof (lookup_lt_Some _ _ _ Hk).
  assert (m_transportSessions t1 = delete j (m_transportSessions t)) as Hl
    by (unfold t1; by rewrite (handleSessionClose_at t j closing Ht Hj)).
  split; [unfold index_valid; by rewrite (proj2 (Z.leb_gt _ _)) by lia|]. split; [|split].
  - intros Hlt. destruct (send_on_session_at header payload k t1 target) as (out & He & _).
    { rewrite Hl. by rewrite list_lookup_delete_lt. }
    by exists out.
  - intros Hle other Ho. split.
    { intros Heq. destruct Ht as [(_ & _ & Hnd & _) _]. enough (S k = k) by lia.
      apply (proj1 (NoDup_alt _) Hnd _ _ (s_remote target)); rewrite list_lookup_fmap; [by rewrite Ho, <-Heq|by rewrite Hk]. }
    apply send_on_session_at. rewrite Hl. by rewrite list_lookup_delete_ge.
  - intros Hle Hnone. unfold send_on_session. rewrite Nat2Z.id, Hl, list_lookup_delete_ge, Hnone by lia. done.
Qed.
End properties.

(** ** Witnesses *)

(** The example after the devices were computed. *)
Definition devices_cached : DiscoveryManager :=
  (@generateDeviceIndices_ref ref_iox both_ti example_discovery 70 (hash_of Init.Byte.x41)).2.

(** A transport fails before the caller has copied the devices. *)
Lemma cached_indices_race_witness :
  @discovery_wf ref_iox example_discovery ∧ @cache_coherent ref_iox both_ti example_discovery ∧
  ∃ it d' s', @generateDeviceIndices_ref ref_iox both_ti example_discovery 70 (hash_of Init.Byte.x41) = (Some it, d') ∧
    copy_deviceIndices (Some it) d' = Ok [mkDeviceIndex UDP 0; mkDeviceIndex TCP 3] ∧
    @failCallback ref_iox (example_layer []) ExampleWorld _ _ failFuel
      (both_ti, set_discovery d' (mkExampleWorld [] example_discovery 0)) = Ok s' ∧
    copy_deviceIndices (Some it) (discovery s'.2) = UndefinedBehaviour.
Proof.
  split; [exact example_discovery_wf|]. split; [exact example_cache_coherent|].
  destruct (@cached_indices_race ref_iox ref_iox_spec (example_layer []) ExampleWorld ExampleWorld_net ExampleWorld_discovery both_ti
    (mkExampleWorld [] example_discovery 0) 70 (hash_of Init.Byte.x41) example_discovery_wf example_cache_coherent)
    as (it & d' & Href & Hcopy & _ & Hrace).
  - apply (bool_decide_unpack _). vm_compute. exact I.
  - apply (bool_decide_unpack _). vm_compute. exact I.
  - vm_compute. lia.
  - assert (@generateDeviceIndices_ref ref_iox both_ti example_discovery 70 (hash_of Init.Byte.x41) =
      (Some 1%nat, devices_cached)) as Hat by (vm_compute; reflexivity).
    pose proof (eq_trans (eq_sym Href) Hat) as Heq. injection Heq as -> ->. clear Href.
    destruct (@failCallback ref_iox (example_layer []) ExampleWorld _ _ failFuel
      (both_ti, set_discovery devices_cached (mkExampleWorld [] example_discovery 0))) as [s'| | |] eqn:Hf.
    { exists 1%nat, devices_cached, s'. split; [exact Hat|]. split; [rewrite Hcopy; vm_compute; reflexivity|]. split; [done|].
      apply Hrace. left. by exists failFuel. }
    all: vm_compute in Hf; discriminate Hf.
Defined.

(** The second of three sessions closes while a message for it is being sent: the
    third gets it. *)
Lemma send_races_close_witness :
  let t := example_tcp (gateways 1 3) (gateways 1 3) in
  tcp_wf t ∧
  ∃ t1 t2 other, @handleSessionClose ref_iox 1 t = t1 ∧
    @send_on_session quiet_tcp [Init.Byte.x01] [Init.Byte.x02] 1 t1 = Ok (t2, false) ∧
    m_transportSessions t2 !! 1%nat = Some other ∧ s_remote other = address (gateway_at 3) ∧
    s_out other = frame [Init.Byte.x01; Init.Byte.x02].
Proof.
  intros t. assert (tcp_wf t) as Ht by (split; split_and!; apply (bool_decide_unpack _); vm_compute; exact I). split; [exact Ht|].
  destruct (@send_races_close ref_iox ref_iox_spec quiet_sockets quiet_tcp t 1 1 _ _ [Init.Byte.x01] [Init.Byte.x02]
    Ht eq_refl eq_refl) as (_ & _ & Hother & _).
  destruct (Hother ltac:(lia) _ eq_refl) as (_ & out & Hs & Hout).
  eexists _, _, _. split; [reflexivity|]. split; [exact Hs|]. split; [reflexivity|]. split; [reflexivity|].
  exact (Hout (fun _ _ => eq_refl)).
Defined.
