(* ===== verification/Chunks.v ===== *)
(** * Chunks: iceoryx's shared-memory chunks as the gateway sees them

    What the gateway reads from a [mepoo::ChunkHeader], the datagram header it
    derives from it, and the memory of the chunks it fills. *)

From stdpp Require Import base list gmap.
From S2P Require Import Prelude.
From S2P Require Import Iox.
From S2P Require Import Types.
From S2P Require Import VectorMap.
From S2P Require Import Serialization.
From S2P Require Import TransportInfo.
From S2P Require Import DataWriter.

Open Scope Z_scope.

Record ChunkHeader := mkChunkHeader {
  ch_chunk : Chunk;
  originId : UniquePortId;
  ch_userPayloadSize : Z;
  ch_userPayloadAlignment : Z;
  ch_hasUserHeader : bool;
  ch_userHeaderSize : Z
}.

(** The header fields that [waitsetLoop] sets; the submessage fields are filled
    by [writeSegmented]. *)
Definition datagramHeaderOf (serviceHash : ClassHash) (messageHash : hash_t) (chunkHeader : ChunkHeader)
    : IoxChunkDatagramHeader_t :=
  mkHeader serviceHash messageHash 0 0 0 (ch_userPayloadSize chunkHeader)
    (ch_userPayloadAlignment chunkHeader)
    (if negb (ch_hasUserHeader chunkHeader) then 0 else ch_userHeaderSize chunkHeader).

(** What iceoryx_posh decides: where the user header of a chunk lies
    ([ChunkHeader::fromUserPayload(p)->userHeader()]) and how many publishers
    there may be. *)
Class IoxPosh := {
  userHeaderOf : Ptr → Ptr;
  MAX_PUBLISHERS : nat
}.

(** A chunk [publisher.loan] returned: its payload pointer and the unspecified
    contents of its payload and user header. *)
Record Loan := mkLoan {
  loan_userPayload : Ptr;
  loan_payloadBytes : bytes;
  loan_headerBytes : bytes
}.

(** The memory of the loaned chunks, an object per payload and per user header. *)
Abbreviation Memory := (gmap Ptr bytes).

Section memory.
Context `{IoxPosh}.

(** The user header pointer the gateway obtains with a loan. *)
Definition userHeaderPtr (hasUserHeader : bool) (p : Ptr) : Ptr :=
  if hasUserHeader then userHeaderOf p else nullptr.

Definition allocate (hasUserHeader : bool) (l : Loan) (mem : Memory) : Memory :=
  let mem := <[loan_userPayload l := loan_payloadBytes l]> mem in
  if hasUserHeader then <[userHeaderOf (loan_userPayload l) := loan_headerBytes l]> mem else mem.

(** [publisher.release]: the chunk goes back to its pool. *)
Definition free (p : Ptr) (mem : Memory) : Memory := delete (userHeaderOf p) (delete p mem).

Definition free_released (calls : list IoxEvent) (mem : Memory) : Memory :=
  foldl (fun mem c => match c with PublisherRelease _ p => free p mem | _ => mem end) mem calls.

(** What iceoryx guarantees of a loan. *)
Definition loan_ok (payloadSize headerSize : Z) (l : Loan) (mem : Memory) : Prop :=
  let p := loan_userPayload l in
  p ≠ nullptr ∧ userHeaderOf p ≠ nullptr ∧ userHeaderOf p ≠ p ∧
  mem !! p = None ∧ mem !! userHeaderOf p = None ∧
  Z.of_nat (length (loan_payloadBytes l)) = payloadSize ∧
  Z.of_nat (length (loan_headerBytes l)) = headerSize.
End memory.

(** What iceoryx guarantees of a chunk: the sizes are those of its memory, and
    in 32 bits. *)
Definition chunk_wf (c : ChunkHeader) : Prop :=
  Z.of_nat (length (chunk_payloadBytes (ch_chunk c))) = ch_userPayloadSize c ∧
  Z.of_nat (length (chunk_headerBytes (ch_chunk c))) =
    (if ch_hasUserHeader c then ch_userHeaderSize c else 0) ∧
  is_u32 (ch_userPayloadSize c) ∧ is_u32 (ch_userHeaderSize c) ∧ is_u32 (ch_userPayloadAlignment c).

#[export] Instance chunk_wf_dec c : Decision (chunk_wf c).
Proof. unfold chunk_wf. apply _. Defined.

Lemma datagramHeaderOf_sendable `{IoxSpec} `{TransportLayer} t s hash c :
  chunk_wf c → is_u32 hash → 0 < maxTransportPayloadSize t →
  let H := if ch_hasUserHeader c then ch_userHeaderSize c else 0 in
  H + ch_userPayloadSize c < 2 ^ 32 → H + maxTransportPayloadSize t ≤ 2 ^ 32 →
  ch_userPayloadSize c + maxTransportPayloadSize t ≤ 2 ^ 32 →
  sendable t (datagramHeaderOf (getClassHash s) hash c) (chunk_headerBytes (ch_chunk c))
    (chunk_payloadBytes (ch_chunk c)).
Proof.
  intros (Hp & Hh & Hu1 & Hu2 & Hu3) Hhash HM H' Hsum Ho1 Ho2. unfold H' in *.
  unfold sendable, valid_message, valid_Header, submessage, datagramHeaderOf.
  destruct (ch_hasUserHeader c); cbn in *; split_and!; try done; apply getClassHash_valid.
Qed.
