(* ===== verification/TransportForwarder.v ===== *)
(** * TransportForwarder: passing messages on between transports

    include/p3com/generic/transport_forwarder.hpp and
    source/p3com/generic/transport_forwarder.cpp.

    When a message of a forwarded service arrives over a transport, its chunk
    and source device are remembered; the forwarder's own subscribers then
    receive the chunk through iceoryx and send it to the gateways that share no
    transport with the source. *)

From stdpp Require Import base list gmap.
From S2P Require Import Prelude.
From S2P Require Import Iox.
From S2P Require Import Types.
From S2P Require Import VectorMap.
From S2P Require Import Serialization.
From S2P Require Import TransportInfo.
From S2P Require Import DataWriter.
From S2P Require Import Discovery.
From S2P Require Import Gateway.
From S2P Require Import Chunks.
From S2P Require PendingMessages.

Open Scope Z_scope.

Record TransportForwarder := mkForwarder {
  m_forwardedServiceHashes : list ClassHash;
  m_messagesToForward : vector_map Ptr DeviceIndex_t
}.

Section operations.
Context `{Iox}.
Implicit Types (f : TransportForwarder).

(** The constructor; the subscribers it creates are the endpoints whose
    messages [waitsetLoop_body] handles. *)
Definition TransportForwarder_init (forwardedServices : list ServiceDescription)
    : TransportForwarder :=
  mkForwarder
    (foldl (fun hashes service => (push_back MAX_FORWARDED_SERVICES hashes (getClassHash service)).1)
       [] forwardedServices)
    vm_empty.

Definition push f (userPayload : Ptr) (hash : ClassHash) (deviceIndex : DeviceIndex_t)
    : TransportForwarder :=
  if containsElement (m_forwardedServiceHashes f) hash
  then mkForwarder (m_forwardedServiceHashes f)
         (vm_emplace MAX_FORWARDED_SERVICES (m_messagesToForward f) userPayload deviceIndex).1
  else f.

(** The block of [waitsetLoop] that determines [deviceIndex].  [find] returns
    [end()] and not a null pointer when there is no entry, so the null check
    does not guard the dereference; a service that is not forwarded leaves
    [deviceIndex] uninitialised. *)
Definition sourceDevice f (userPayload : Ptr) (hash : ClassHash)
    : Outcome (DeviceIndex_t * TransportForwarder) :=
  if containsElement (m_forwardedServiceHashes f) hash then
    let deviceIndexPtr := vm_find (m_messagesToForward f) userPayload in
    deviceIndex ← deref (vm_at (m_messagesToForward f) deviceIndexPtr);
    Ok (deviceIndex, mkForwarder (m_forwardedServiceHashes f)
                       (vm_erase (m_messagesToForward f) deviceIndexPtr))
  else UndefinedBehaviour.

Context `{TransportLayer} `{DiscoveryState W}.

(** What the two waitset loops do with a chunk they took, once the device
    indices are known. *)
Definition releaseOrWrite (hash : ClassHash) (deviceIndices : list DeviceIndex_t) (mutex : Mutex)
    (subscriber : Endpoint) (chunkHeader : ChunkHeader) (ti : TransportInfo)
    (pm : PendingMessages.PendingMessageManager) (w : W)
    : Outcome (TransportInfo * PendingMessages.PendingMessageManager * list IoxEvent * W) :=
  match deviceIndices with
  | [] => Ok (ti, pm, [SubscriberRelease (getUid subscriber) (chunk_userPayload (ch_chunk chunkHeader))], w)
  | _ =>
      let '(messageHash, w) := generateHash w in
      let datagramHeader := datagramHeaderOf hash messageHash chunkHeader in
      s ← writeSegmented registeredCallback (ch_chunk chunkHeader) deviceIndices mutex
            (getUid subscriber) (mkWriter datagramHeader ti pm [] w);
      Ok (w_transports s, w_pending s, w_calls s, w_world s)
  end.

(** The body of [waitsetLoop] for one notification; [taken] is the result of
    [subscriber.take()]. *)
Definition waitsetLoop_body (subscriber : Endpoint) (taken : option ChunkHeader) f
    (ti : TransportInfo) (pm : PendingMessages.PendingMessageManager) (w : W)
    : Outcome (TransportForwarder * TransportInfo * PendingMessages.PendingMessageManager
               * list IoxEvent * W) :=
  match taken with
  | None => Ok (f, ti, pm, [], w)
  | Some chunkHeader =>
      let hash := getClassHash (getServiceDescription subscriber) in
      '(deviceIndex, f) ← sourceDevice f (chunk_userPayload (ch_chunk chunkHeader)) hash;
      '(ti, pm, calls, w) ←
        releaseOrWrite hash (generateDeviceIndicesForwarding ti (discovery w) hash deviceIndex)
          ForwardedServiceSubscribers subscriber chunkHeader ti pm w;
      Ok (f, ti, pm, calls, w)
  end.
End operations.

(** ** Lemmas *)

Definition forwarder_wf (f : TransportForwarder) : Prop :=
  vm_wf MAX_FORWARDED_SERVICES (m_messagesToForward f) ∧ NoDup (m_keys (m_messagesToForward f)).

Section lemmas.
Context `{IoxSpec}.

Lemma init_hashes services :
  (length services ≤ MAX_FORWARDED_SERVICES)%nat →
  m_forwardedServiceHashes (TransportForwarder_init services) = getClassHash <$> services.
Proof.
  intros Hl. simpl. enough (∀ acc, (length acc + length services ≤ MAX_FORWARDED_SERVICES)%nat →
    foldl (fun hashes service => (push_back MAX_FORWARDED_SERVICES hashes (getClassHash service)).1)
      acc services = acc ++ (getClassHash <$> services)) as Hg by (apply (Hg []); simpl; lia).
  clear Hl. induction services as [|s services IH]; intros acc Hl; csimpl in *; [by rewrite app_nil_r|].
  rewrite push_back_room by lia. simpl. rewrite IH by (rewrite length_app; simpl; lia).
  by rewrite <-app_assoc.
Qed.

Lemma push_map f p h dev :
  forwarder_wf f → h ∈ m_forwardedServiceHashes f → p ∉ m_keys (m_messagesToForward f) →
  (vm_size (m_messagesToForward f) < MAX_FORWARDED_SERVICES)%nat →
  forwarder_wf (push f p h dev) ∧
  to_map (m_messagesToForward (push f p h dev)) = <[p := dev]> (to_map (m_messagesToForward f)).
Proof.
  intros [Hm Hnd] Hh Hp Hs. unfold push. rewrite (proj2 (containsElement_true _ _) Hh).
  unfold forwarder_wf. simpl. split_and!; [by apply vm_emplace_wf|by apply vm_emplace_NoDup|].
  rewrite (vm_emplace_to_map MAX_FORWARDED_SERVICES) by done. by rewrite decide_True.
Qed.

(** The entries made by the pushes [l]. *)
Definition pushes (l : list (Ptr * ClassHash * DeviceIndex_t)) f : TransportForwarder :=
  foldl (fun f '(p, h, dev) => push f p h dev) f l.

Definition inserts (l : list (Ptr * ClassHash * DeviceIndex_t)) (m : gmap Ptr DeviceIndex_t) : gmap Ptr DeviceIndex_t :=
  foldl (fun m '(p, _, dev) => <[p := dev]> m) m l.

Lemma push_hashes f p h dev : m_forwardedServiceHashes (push f p h dev) = m_forwardedServiceHashes f.
Proof. unfold push. by destruct (containsElement _ _). Qed.

Lemma pushes_map l f :
  forwarder_wf f → Forall (fun x => x.1.2 ∈ m_forwardedServiceHashes f) l → NoDup l.*1.*1 →
  (∀ q, q ∈ l.*1.*1 → to_map (m_messagesToForward f) !! q = None) →
  (size (to_map (m_messagesToForward f)) + length l ≤ MAX_FORWARDED_SERVICES)%nat →
  forwarder_wf (pushes l f) ∧ m_forwardedServiceHashes (pushes l f) = m_forwardedServiceHashes f ∧
  to_map (m_messagesToForward (pushes l f)) = inserts l (to_map (m_messagesToForward f)).
Proof.
  unfold pushes, inserts. revert f. induction l as [|[[p h] dev] l IH]; intros f Hf Hl Hnd Hnone Hsz; [done|].
  apply Forall_cons in Hl as [Hh Hl]. csimpl in *. apply NoDup_cons in Hnd as [Hp Hnd].
  assert (to_map (m_messagesToForward f) !! p = None) as Hpn by (apply Hnone; by left).
  destruct (push_map f p h dev Hf Hh) as [Hf1 Hm1].
  { apply (to_map_None MAX_FORWARDED_SERVICES); [apply Hf|done]. }
  { rewrite <-(vm_size_to_map MAX_FORWARDED_SERVICES) by apply Hf. lia. }
  rewrite <-(push_hashes f p h dev), <-Hm1. apply IH; [done| |done| |].
  - by rewrite push_hashes.
  - intros q Hq. rewrite Hm1, lookup_insert_ne by (intros ->; done). apply Hnone. by right.
  - rewrite Hm1, map_size_insert_None by done. lia.
Qed.

Lemma inserts_insert p dev l m : p ∉ l.*1.*1 → inserts l (<[p := dev]> m) = <[p := dev]> (inserts l m).
Proof.
  unfold inserts. revert m. induction l as [|[[q h] dev'] l IH]; intros m Hp; csimpl in *; [done|].
  apply not_elem_of_cons in Hp as [Hne Hp]. by rewrite insert_insert_ne, IH.
Qed.

Lemma inserts_None p l m : p ∉ l.*1.*1 → m !! p = None → inserts l m !! p = None.
Proof.
  unfold inserts. revert m. induction l as [|[[q h] dev'] l IH]; intros m Hp Hm; csimpl in *; [done|].
  apply not_elem_of_cons in Hp as [Hne Hp]. apply IH; [done|]. by rewrite lookup_insert_ne.
Qed.

Lemma sourceDevice_found f p h dev :
  forwarder_wf f → h ∈ m_forwardedServiceHashes f → to_map (m_messagesToForward f) !! p = Some dev →
  ∃ f', sourceDevice f p h = Ok (dev, f') ∧ forwarder_wf f' ∧
        to_map (m_messagesToForward f') = delete p (to_map (m_messagesToForward f)) ∧
        m_forwardedServiceHashes f' = m_forwardedServiceHashes f.
Proof.
  intros [Hm Hnd] Hh Hp. unfold sourceDevice. rewrite (proj2 (containsElement_true _ _) Hh).
  rewrite (vm_find_to_map MAX_FORWARDED_SERVICES), Hp by done. ostep.
  assert (p ∈ m_keys (m_messagesToForward f)) as Hk.
  { apply dec_stable. intros Hk. apply (to_map_None MAX_FORWARDED_SERVICES) in Hk; [congruence|done]. }
  pose proof (vm_find_found _ _ _ Hm Hk) as (Hlt & _).
  eexists. split; [done|]. unfold forwarder_wf. simpl.
  split_and!; [by apply vm_erase_wf|by eapply vm_erase_NoDup|by apply (vm_erase_to_map MAX_FORWARDED_SERVICES)|done].
Qed.
End lemmas.

(** ** Properties *)

Section properties.
Context `{IoxSpec}.

(** The source of a forwarded message is recovered: after a chunk of a forwarded
    service was pushed with the device it came from, and whatever other chunks are pushed
    in between while there is room, the forwarder finds that device when it receives the
    chunk, and forgets the entry, keeping the others. *)
Theorem forwarded_source_recovered (f : TransportForwarder) (p : Ptr) (h : ClassHash)
    (dev : DeviceIndex_t) (others : list (Ptr * ClassHash * DeviceIndex_t)) :
  forwarder_wf f → h ∈ m_forwardedServiceHashes f →
  Forall (fun '(_, h', _) => h' ∈ m_forwardedServiceHashes f) others →
  NoDup (p :: others.*1.*1) → (∀ q, q ∈ p :: others.*1.*1 → q ∉ m_keys (m_messagesToForward f)) →
  (vm_size (m_messagesToForward f) + length others < MAX_FORWARDED_SERVICES)%nat →
  ∃ f', sourceDevice (foldl (fun f '(p', h', dev') => push f p' h' dev') (push f p h dev) others) p h
          = Ok (dev, f') ∧ forwarder_wf f' ∧
        to_map (m_messagesToForward f') =
          foldl (fun m '(p', _, dev') => <[p' := dev']> m) (to_map (m_messagesToForward f)) others.
Proof.
  intros Hf Hh Hoth Hnd Hfresh Hroom.
  assert (∀ q, q ∈ p :: others.*1.*1 → to_map (m_messagesToForward f) !! q = None) as Hnone.
  { intros q Hq. apply (to_map_None MAX_FORWARDED_SERVICES); [apply Hf|by apply Hfresh]. }
  destruct (pushes_map ((p, h, dev) :: others) f Hf) as (Hw & Hhs & Hm); [|exact Hnd|exact Hnone| |].
  { constructor; [exact Hh|]. eapply Forall_impl; [exact Hoth|]. by intros [[??]?]. }
  { rewrite (vm_size_to_map MAX_FORWARDED_SERVICES) by apply Hf. simpl. lia. }
  apply NoDup_cons in Hnd as [Hp _].
  assert (to_map (m_messagesToForward (pushes ((p, h, dev) :: others) f)) =
    <[p := dev]> (inserts others (to_map (m_messagesToForward f)))) as Hm2 by (rewrite Hm; by apply inserts_insert).
  destruct (sourceDevice_found (pushes ((p, h, dev) :: others) f) p h dev Hw) as (f' & Hs & Hw' & Hm' & _).
  { by rewrite Hhs. }
  { rewrite Hm2. apply lookup_insert_eq. }
  exists f'. split; [exact Hs|]. split; [exact Hw'|]. rewrite Hm', Hm2.
  apply delete_insert_id, inserts_None; [done|]. apply Hnone. by left.
Qed.

(** A chunk of a forwarded service that was not pushed, such as every message of a
    local publisher and every message that arrived while eight were outstanding, makes
    the forwarder dereference the end iterator of its container. *)
Theorem unpushed_chunk_undefined `{TransportLayer} `{DiscoveryState W} (f : TransportForwarder)
    (subscriber : Endpoint) (chunkHeader : ChunkHeader) (ti : TransportInfo)
    (pm : PendingMessages.PendingMessageManager) (w : W) :
  forwarder_wf f →
  getClassHash (getServiceDescription subscriber) ∈ m_forwardedServiceHashes f →
  chunk_userPayload (ch_chunk chunkHeader) ∉ m_keys (m_messagesToForward f) →
  waitsetLoop_body subscriber (Some chunkHeader) f ti pm w = UndefinedBehaviour.
Proof.
  intros [Hm _] Hh Hp. unfold waitsetLoop_body, sourceDevice.
  rewrite (proj2 (containsElement_true _ _) Hh).
  apply (vm_find_end MAX_FORWARDED_SERVICES) in Hp as ->; [|done].
  unfold vm_at, vm_end. by rewrite lookup_ge_None_2 by done.
Qed.
End properties.

(** ** Witnesses *)

Definition example_forwarder : TransportForwarder :=
  @TransportForwarder_init ref_iox [svc Init.Byte.x41; svc Init.Byte.x42].

Lemma example_forwarder_wf : forwarder_wf example_forwarder.
Proof. split; [apply vm_empty_wf|constructor]. Qed.

Lemma forwarded_source_recovered_witness :
  ∃ f', @sourceDevice ref_iox
      (@push ref_iox (@push ref_iox example_forwarder 64 (hash_of Init.Byte.x41) (mkDeviceIndex UDP 3))
         96 (hash_of Init.Byte.x42) (mkDeviceIndex TCP 4)) 64 (hash_of Init.Byte.x41)
      = Ok (mkDeviceIndex UDP 3, f') ∧ forwarder_wf f' ∧
    to_map (m_messagesToForward f') = {[ 96 := mkDeviceIndex TCP 4 ]}.
Proof.
  apply (@forwarded_source_recovered ref_iox ref_iox_spec example_forwarder 64 (hash_of Init.Byte.x41)
           (mkDeviceIndex UDP 3) [(96, hash_of Init.Byte.x42, mkDeviceIndex TCP 4)] example_forwarder_wf).
  - apply (bool_decide_unpack _). vm_compute. exact I.
  - constructor; [|constructor]. apply (bool_decide_unpack _). vm_compute. exact I.
  - apply (bool_decide_unpack _). vm_compute. exact I.
  - intros q _. apply not_elem_of_nil.
  - vm_compute. lia.
Defined.

Lemma unpushed_chunk_undefined_witness :
  forwarder_wf example_forwarder ∧
  @waitsetLoop_body ref_iox (example_layer []) ExampleWorld _ _ (mkEndpoint (svc Init.Byte.x41) 9)
    (Some (mkChunkHeader (mkChunk 64 [] []) 70 0 1 false 0)) example_forwarder both_ti vm_empty
    (mkExampleWorld [] example_discovery 0) = UndefinedBehaviour.
Proof.
  split; [exact example_forwarder_wf|].
  apply (@unpushed_chunk_undefined ref_iox (example_layer []) ExampleWorld _ _).
  - exact example_forwarder_wf.
  - apply (bool_decide_unpack _). vm_compute. exact I.
  - apply not_elem_of_nil.
Defined.
