(* ===== verification/IoxToTransport.v ===== *)
(** * IoxToTransport: sending local messages to the transports

    include/p3com/gateway/iox_to_transport.hpp and
    source/p3com/gateway/iox_to_transport.cpp.

    [Iceoryx2Transport] keeps a subscriber per needed service, attached to a
    waitset.  The waitset thread takes the chunks they receive and writes them
    to the devices the discovery manager lists.  A channel is deleted only when
    no message of its subscriber is pending any more.

    [updateChannels] holds [m_endpointsMutex] throughout, and that mutex is also
    the one [PendingMessageManager::release] takes before it hands a chunk back.
    So the hand-backs of the messages that are sent while [deleteChannel] waits
    for them are blocked until [updateChannels] is done. *)

From stdpp Require Import base list gmap.
From S2P Require Import Prelude.
From S2P Require Import Iox.
From S2P Require Import Types.
From S2P Require Import VectorMap.
From S2P Require Import Serialization.
From S2P Require Import TransportInfo.
From S2P Require Import DataWriter.
From S2P Require Import Discovery.
From S2P Require Import Gateway.
From S2P Require Import Chunks.
From S2P Require TransportForwarder.
From S2P Require PendingMessages.
From Stdlib Require Import Permutation.

Open Scope Z_scope.

(** [i_waitset] holds the subscribers attached to [m_waitset], [i_subscribed]
    those that receive from iceoryx.  [i_upcoming] is the future the gateway
    does not control: the chunks the transports report as sent, grouped by the
    moments at which [deleteChannel] yields.  [i_blocked] holds the hand-backs
    that were due while [updateChannels] ran, [i_forwarded] the subscribers of
    the transport forwarder, which share the pending message manager. *)
Record Iceoryx2Transport := mkI2T {
  i_endpoints : vector_map ClassHash Endpoint;
  i_waitset : list UniquePortId;
  i_subscribed : list UniquePortId;
  i_pending : PendingMessages.PendingMessageManager;
  i_calls : list IoxEvent;
  i_blocked : list IoxEvent;
  i_upcoming : list (list Ptr);
  i_forwarded : list UniquePortId;
  i_nextPort : UniquePortId
}.

Abbreviation I2T := Iceoryx2Transport.

(** A new subscriber is subscribed at once. *)
#[export] Program Instance I2T_gateway : GatewayState I2T := {|
  m_endpoints := i_endpoints;
  set_endpoints m s := mkI2T m (i_waitset s) (i_subscribed s) (i_pending s) (i_calls s) (i_blocked s)
                         (i_upcoming s) (i_forwarded s) (i_nextPort s);
  make_endpoint service s :=
    (mkEndpoint service (i_nextPort s),
     mkI2T (i_endpoints s) (i_waitset s) (i_subscribed s ++ [i_nextPort s]) (i_pending s) (i_calls s)
       (i_blocked s) (i_upcoming s) (i_forwarded s) (i_nextPort s + 1))
|}.
Solve All Obligations with done.

Section operations.
Context `{Iox}.
Implicit Types (s : I2T).

(** [m_waitset.attachState]; an error is only logged. *)
Definition attachState (subscriber : UniquePortId) s : I2T :=
  mkI2T (i_endpoints s) (push_back MAX_TOPICS (i_waitset s) subscriber).1 (i_subscribed s) (i_pending s)
    (i_calls s) (i_blocked s) (i_upcoming s) (i_forwarded s) (i_nextPort s).

(** [m_waitset.detachState], then [subscriber.unsubscribe]. *)
Definition detachState (subscriber : UniquePortId) s : I2T :=
  mkI2T (i_endpoints s) (filter (fun u => u ≠ subscriber) (i_waitset s)) (i_subscribed s) (i_pending s)
    (i_calls s) (i_blocked s) (i_upcoming s) (i_forwarded s) (i_nextPort s).
Definition unsubscribe (subscriber : UniquePortId) s : I2T :=
  mkI2T (i_endpoints s) (i_waitset s) (filter (fun u => u ≠ subscriber) (i_subscribed s)) (i_pending s)
    (i_calls s) (i_blocked s) (i_upcoming s) (i_forwarded s) (i_nextPort s).

(** The transports report the chunks [sent] as sent. *)
Fixpoint release_sent (sent : list Ptr) (pm : PendingMessages.PendingMessageManager)
    : Outcome (PendingMessages.PendingMessageManager * list IoxEvent) :=
  match sent with
  | [] => Ok (pm, [])
  | userPayload :: sent =>
      '(pm, calls) ← PendingMessages.release pm userPayload;
      '(pm, calls') ← release_sent sent pm;
      Ok (pm, calls ++ calls')
  end.

(** The loop of [deleteChannel]; while it yields, the transports report chunks. *)
Fixpoint wait_until_sent (subscriber : UniquePortId) (upcoming : list (list Ptr))
    (pm : PendingMessages.PendingMessageManager)
    : Outcome (PendingMessages.PendingMessageManager * list IoxEvent * list (list Ptr)) :=
  if PendingMessages.anyPending pm subscriber then
    match upcoming with
    | [] => OutOfFuel
    | sent :: upcoming =>
        '(pm, calls) ← release_sent sent pm;
        '(pm, calls', upcoming) ← wait_until_sent subscriber upcoming pm;
        Ok (pm, calls ++ calls', upcoming)
    end
  else Ok (pm, [], upcoming).

Definition setupChannel (service : ServiceDescription) s : Outcome I2T :=
  addChannel service (fun subscriber s => Ok (attachState (getUid subscriber) s)) s.

Definition deleteChannel (service : ServiceDescription) s : Outcome I2T :=
  discardChannel service (fun subscriber s =>
    let s := detachState (getUid subscriber) s in
    let s := unsubscribe (getUid subscriber) s in
    '(pm, calls, upcoming) ← wait_until_sent (getUid subscriber) (i_upcoming s) (i_pending s);
    Ok (mkI2T (i_endpoints s) (i_waitset s) (i_subscribed s) pm (i_calls s) (i_blocked s ++ calls)
          upcoming (i_forwarded s) (i_nextPort s))) s.

Definition alive s (subscriber : UniquePortId) : Prop :=
  subscriber ∈ channel_uids s ∨ subscriber ∈ i_forwarded s.

#[export] Instance alive_dec s u : Decision (alive s u).
Proof. unfold alive. apply _. Defined.

Definition event_alive s (e : IoxEvent) : Prop :=
  match e with SubscriberRelease u _ => alive s u | _ => True end.

#[export] Instance event_alive_dec s e : Decision (event_alive s e).
Proof. destruct e; apply _. Defined.

(** The blocked hand-backs, once the mutex is free: a call on a subscriber that
    was destroyed is undefined.  (Those to the forwarder's subscribers take
    another mutex and were not blocked; the model makes them here too.) *)
Definition hand_back_blocked s : Outcome I2T :=
  if forallb (fun e => bool_decide (event_alive s e)) (i_blocked s)
  then Ok (mkI2T (i_endpoints s) (i_waitset s) (i_subscribed s) (i_pending s) (i_calls s ++ i_blocked s) []
             (i_upcoming s) (i_forwarded s) (i_nextPort s))
  else UndefinedBehaviour.

Definition updateChannels (services : list ServiceDescription) s : Outcome I2T :=
  s ← updateChannelsInternal services setupChannel deleteChannel s;
  hand_back_blocked s.

Context `{TransportLayer} `{DiscoveryState W}.

(** The body of [waitsetLoop] for one notification; [taken] is the result of
    [subscriber.take()]. *)
Definition waitsetLoop_body (subscriber : Endpoint) (taken : option ChunkHeader)
    (ti : TransportInfo) (pm : PendingMessages.PendingMessageManager) (w : W)
    : Outcome (TransportInfo * PendingMessages.PendingMessageManager * list IoxEvent * W) :=
  match taken with
  | None => Ok (ti, pm, [], w)
  | Some chunkHeader =>
      let hash := getClassHash (getServiceDescription subscriber) in
      '(deviceIndices, d) ← generateDeviceIndices ti (discovery w) (originId chunkHeader) hash;
      TransportForwarder.releaseOrWrite hash deviceIndices Iceoryx2TransportEndpoints subscriber
        chunkHeader ti pm (set_discovery d w)
  end.
End operations.

(** ** Lemmas: waiting for pending messages *)

Section waiting.
Context `{IoxSpec}.
Implicit Types (pm : PendingMessages.PendingMessageManager).

(** [pm'] is what is left of [pm] after the hand-backs [calls]. *)
Definition handed_back pm (calls : list IoxEvent) pm' : Prop :=
  PendingMessages.pending_wf pm' ∧
  PendingMessages.pending pm' ⊆ PendingMessages.pending pm ∧ NoDup calls ∧
  ∀ e, e ∈ calls ↔ ∃ p u, e = SubscriberRelease u p ∧
    PendingMessages.pending pm !! p = Some u ∧ PendingMessages.pending pm' !! p = None.

Lemma handed_back_refl pm : PendingMessages.pending_wf pm → handed_back pm [] pm.
Proof.
  intros Hwf. split_and!; [done..|constructor|]. intros e. split; [by intros ?%elem_of_nil|].
  intros (p & u & _ & Hs & Hn). congruence.
Qed.

Lemma handed_back_trans pm1 pm2 pm3 c1 c2 :
  handed_back pm1 c1 pm2 → handed_back pm2 c2 pm3 → handed_back pm1 (c1 ++ c2) pm3.
Proof.
  intros (Hw2 & Hs2 & Hn1 & Hc1) (Hw3 & Hs3 & Hn2 & Hc2).
  split_and!; [done|by transitivity (PendingMessages.pending pm2)| |].
  - apply NoDup_app. split_and!; [done| |done]. intros e He1 He2.
    apply Hc1 in He1 as (p & u & -> & _ & Hnone). apply Hc2 in He2 as (p' & u' & [= -> ->] & Hsome & _).
    congruence.
  - intros e. rewrite elem_of_app, Hc1, Hc2. split.
    + intros [(p & u & -> & Hp & Hn)|(p & u & -> & Hp & Hn)]; exists p, u.
      * split_and!; [done..|]. apply eq_None_not_Some. intros [u' Hu'].
        apply (lookup_weaken _ _ _ _ Hu') in Hs3. congruence.
      * split_and!; [done| |done]. by eapply lookup_weaken.
    + intros (p & u & -> & Hp & Hn). destruct (PendingMessages.pending pm2 !! p) as [u'|] eqn:Hp2.
      * right. exists p, u. split_and!; [done| |done].
        apply (lookup_weaken _ _ _ _ Hp2) in Hs2. congruence.
      * left. by exists p, u.
Qed.

Lemma release_handed_back pm p :
  PendingMessages.pending_wf pm →
  ∃ pm' calls, PendingMessages.release pm p = Ok (pm', calls) ∧ handed_back pm calls pm' ∧
    PendingMessages.pending pm' = delete p (PendingMessages.pending pm).
Proof.
  intros Hwf. destruct (PendingMessages.pending_release_spec pm p Hwf) as (pm' & Hr & Hwf' & Hp').
  eexists pm', _. split; [exact Hr|]. split; [|done]. split_and!; [done| | |].
  - rewrite Hp'. apply delete_subseteq.
  - destruct (_ !! p); [apply NoDup_singleton|constructor].
  - intros e. rewrite Hp'. destruct (PendingMessages.pending pm !! p) as [u|] eqn:Hu.
    + rewrite list_elem_of_singleton. split.
      * intros ->. exists p, u. by rewrite lookup_delete_eq.
      * intros (q & u' & -> & Hq & Hn). destruct (decide (q = p)) as [->|Hne]; [congruence|].
        rewrite lookup_delete_ne in Hn by done. congruence.
    + split; [by intros ?%elem_of_nil|]. intros (q & u' & _ & Hq & Hn).
      rewrite delete_id in Hn by done. congruence.
Qed.

Lemma release_sent_spec sent pm :
  PendingMessages.pending_wf pm →
  ∃ pm' calls, release_sent sent pm = Ok (pm', calls) ∧ handed_back pm calls pm' ∧
    ∀ p u, PendingMessages.pending pm' !! p = Some u → p ∉ sent.
Proof.
  revert pm. induction sent as [|p sent IH]; intros pm Hwf; simpl.
  { exists pm, []. split_and!; [done|by apply handed_back_refl|]. intros. apply not_elem_of_nil. }
  destruct (release_handed_back pm p Hwf) as (pm1 & c1 & -> & Hb1 & Hp1). ostep.
  destruct (IH pm1) as (pm2 & c2 & -> & Hb2 & Hp2); [apply Hb1|]. ostep.
  exists pm2, (c1 ++ c2). split_and!; [done|by eapply handed_back_trans|].
  intros q u Hq. apply not_elem_of_cons. split; [|by eapply Hp2].
  intros ->. destruct Hb2 as (_ & Hsub & _). apply (lookup_weaken _ _ _ _ Hq) in Hsub.
  rewrite Hp1, lookup_delete_eq in Hsub. done.
Qed.

(** Every pending chunk is reported as sent some time. *)
Definition all_sent pm (upcoming : list (list Ptr)) : Prop :=
  ∀ p u, PendingMessages.pending pm !! p = Some u → p ∈ concat upcoming.

Lemma wait_until_sent_spec subscriber upcoming pm :
  PendingMessages.pending_wf pm → all_sent pm upcoming →
  ∃ pm' calls upcoming', wait_until_sent subscriber upcoming pm = Ok (pm', calls, upcoming') ∧
    handed_back pm calls pm' ∧ all_sent pm' upcoming' ∧
    ∀ p, PendingMessages.pending pm' !! p ≠ Some subscriber.
Proof.
  revert pm. induction upcoming as [|sent upcoming IH]; intros pm Hwf Hall; simpl;
    (destruct (PendingMessages.anyPending pm subscriber) eqn:Hany;
     [|eexists pm, [], _; split_and!; [done|by apply handed_back_refl|done|];
       intros p Hp; apply Bool.not_true_iff_false in Hany; apply Hany;
       apply PendingMessages.anyPending_spec; [done|by exists p]]).
  - apply PendingMessages.anyPending_spec in Hany as (p & Hp); [|done].
    apply Hall in Hp. by apply elem_of_nil in Hp.
  - destruct (release_sent_spec sent pm Hwf) as (pm1 & c1 & -> & Hb1 & Hp1). ostep.
    destruct (IH pm1) as (pm2 & c2 & up2 & -> & Hb2 & Hall2 & Hnone); [apply Hb1| |].
    { intros p u Hp. specialize (Hp1 p u Hp). destruct Hb1 as (_ & Hsub & _).
      apply (lookup_weaken _ _ _ _ Hp) in Hsub. apply Hall in Hsub. simpl in Hsub.
      by apply elem_of_app in Hsub as [?|?]. }
    ostep. exists pm2, (c1 ++ c2), up2. split_and!; [done|by eapply handed_back_trans|done..].
Qed.
End waiting.

(** ** Lemmas: the channels *)

Section channels.
Context `{IoxSpec}.
Implicit Types (s : I2T).

(** What every step of [updateChannels] keeps, [s0] being the state it started
    in: the attached and the subscribed ports are those of the channels, what
    is pending belongs to a port that exists, and what is no longer pending is
    to be handed back. *)
Definition subscribers_wf (s0 : I2T) s : Prop :=
  i_waitset s ≡ₚ channel_uids s ∧ i_subscribed s ≡ₚ channel_uids s ∧ NoDup (channel_uids s) ∧
  (∀ u, u ∈ channel_uids s → u < i_nextPort s) ∧
  (∀ e, e ∈ (channels s).*2 → e ∈ (channels s0).*2 ∨ i_nextPort s0 ≤ getUid e) ∧
  (i_nextPort s0 ≤ i_nextPort s) ∧ i_forwarded s = i_forwarded s0 ∧ i_calls s = i_calls s0 ∧
  (∀ u, u ∈ i_forwarded s → u ∉ channel_uids s ∧ u < i_nextPort s) ∧
  handed_back (i_pending s0) (i_blocked s) (i_pending s) ∧
  all_sent (i_pending s) (i_upcoming s) ∧
  (∀ p u, PendingMessages.pending (i_pending s) !! p = Some u → alive s u).

Lemma setup_channel_spec (s0 : I2T) service s :
  channels_wf s → subscribers_wf s0 s → getClassHash service ∉ m_keys (m_endpoints s) →
  (length (channels s) < MAX_TOPICS)%nat →
  ∃ s' endpoint, setupChannel service s = Ok s' ∧ channels_wf s' ∧ subscribers_wf s0 s' ∧
    getServiceDescription endpoint = service ∧
    channels s' = channels s ++ [(getClassHash service, endpoint)].
Proof.
  intros Hs (Hw & Hsub & Hnd & Hlt & Hold & Hn0 & Hf0 & Hc0 & Hfw & Hb & Hall & Hal) Hk Hl. unfold setupChannel.
  match goal with |- context [addChannel service ?f s] =>
    pose proof (addChannel_eq f service s Hs Hk Hl) as He end.
  cbn [make_endpoint I2T_gateway] in He. destruct He as (-> & Hwf & Hch).
  match type of Hwf with channels_wf ?s1' => set (s1 := s1') in * end.
  set (endpoint := mkEndpoint service (i_nextPort s)) in *.
  eexists _, endpoint. split; [done|].
  match goal with |- channels_wf ?s2' ∧ _ => set (s2 := s2') end.
  assert (channel_uids s2 = channel_uids s ++ [i_nextPort s]) as Huids.
  { change (channel_uids s2) with (channel_uids s1). unfold channel_uids. rewrite Hch, !fmap_app. done. }
  split; [exact Hwf|]. split; [|split; [done|exact Hch]].
  assert (length (i_waitset s) < MAX_TOPICS)%nat as Hroom.
  { rewrite Hw. unfold channel_uids. by rewrite !length_fmap. }
  unfold subscribers_wf, alive. rewrite Huids. split_and!; try done.
  - simpl. rewrite push_back_room by done. simpl. by rewrite Hw.
  - simpl. by rewrite Hsub.
  - apply NoDup_app. split_and!; [done| |apply NoDup_singleton].
    intros x Hx ->%list_elem_of_singleton. apply Hlt in Hx. lia.
  - intros u [Hu| ->%list_elem_of_singleton]%elem_of_app; simpl; [apply Hlt in Hu|]; lia.
  - intros e. change (channels s2) with (channels s1). rewrite Hch, fmap_app.
    intros [He| ->%list_elem_of_singleton]%elem_of_app; [by apply Hold|right; simpl; lia].
  - simpl. lia.
  - intros u Hu. apply Hfw in Hu as [Hn Hu]. simpl. split; [|lia].
    intros [?| ->%list_elem_of_singleton]%elem_of_app; [done|lia].
  - intros p u Hp. destruct (Hal p u Hp) as [?|?]; [|by right]. left. apply elem_of_app. by left.
Qed.

Lemma delete_channel_spec (s0 : I2T) service s :
  channels_wf s → subscribers_wf s0 s → getClassHash service ∈ m_keys (m_endpoints s) →
  ∃ s', deleteChannel service s = Ok s' ∧ channels_wf s' ∧ subscribers_wf s0 s' ∧
    channels s' = filter (fun c => c.1 ≠ getClassHash service) (channels s).
Proof.
  intros Hs (Hw & Hsub & Hnd & Hlt & Hold & Hn0 & Hf0 & Hc0 & Hfw & Hb & Hall & Hal) Hk. unfold deleteChannel.
  match goal with |- context [discardChannel service ?f s] =>
    destruct (discardChannel_eq f service s Hs Hk) as (endpoint & it & Hin & Hit & Hlook & -> & Hafter) end.
  cbn [i_upcoming i_pending unsubscribe detachState].
  destruct (wait_until_sent_spec (getUid endpoint) (i_upcoming s) (i_pending s))
    as (pm & calls & up & -> & Hb' & Hall' & Hnone); [apply Hb|done|]. ostep.
  match goal with |- context [set_endpoints (vm_erase (m_endpoints ?s1') it)] => set (s1 := s1') in * end.
  destruct (Hafter s1 eq_refl) as [Hwf Hch]. eexists. split; [done|]. split; [exact Hwf|].
  split; [|exact Hch]. match goal with |- subscribers_wf s0 ?s' => set (s2 := s') in * end.
  assert (getUid endpoint :: channel_uids s2 ≡ₚ channel_uids s) as Hp2.
  { unfold channel_uids at 1. rewrite Hch. by apply (discarded_uid s service endpoint it). }
  assert (∀ u, u ∈ channel_uids s2 ↔ u ∈ channel_uids s ∧ u ≠ getUid endpoint) as Hin2.
  { intros u. rewrite <-Hp2. rewrite elem_of_cons. rewrite <-Hp2 in Hnd.
    apply NoDup_cons in Hnd as [Hn _]. split; [|naive_solver].
    intros Hu. split; [by right|]. by intros ->. }
  assert (∀ l, l ≡ₚ channel_uids s → filter (fun u => u ≠ getUid endpoint) l ≡ₚ channel_uids s2) as Hfilter.
  { intros l Hp. apply list.NoDup_Permutation.
    - apply NoDup_filter. by rewrite Hp.
    - rewrite <-Hp2 in Hnd. by apply NoDup_cons in Hnd as [_ ?].
    - intros u. rewrite list_elem_of_filter, Hin2, Hp. tauto. }
  unfold subscribers_wf, alive. setoid_rewrite Hin2. split_and!; try done.
  - by apply Hfilter.
  - by apply Hfilter.
  - rewrite <-Hp2 in Hnd. by apply NoDup_cons in Hnd as [_ ?].
  - intros u [Hu _]. by apply Hlt in Hu.
  - intros e. rewrite Hch. intros (c & -> & [_ Hc]%list_elem_of_filter)%list_elem_of_fmap.
    by apply Hold, list_elem_of_fmap_2.
  - intros u Hu. apply Hfw in Hu as [Hn Hu]. split; [tauto|done].
  - by eapply handed_back_trans.
  - intros p u Hp. simpl in Hp. assert (u ≠ getUid endpoint) by (by intros ->; apply (Hnone p)).
    destruct Hb' as (_ & Hsubset & _). apply (lookup_weaken _ _ _ _ Hp) in Hsubset.
    destruct (Hal p u Hsubset); [by left|by right].
Qed.

#[export] Instance I2T_channel_functions s0 :
  ChannelFunctions (subscribers_wf s0) setupChannel deleteChannel.
Proof.
  split.
  - intros. by apply setup_channel_spec.
  - intros. by apply delete_channel_spec.
Qed.
End channels.

(** ** Properties *)

Section properties.
Context `{IoxSpec}.

(** The channel [e] is deleted by an update to [services] while its message [p]
    is still pending. *)
Definition deleted_while_pending (services : list ServiceDescription) (s : I2T) (p : Ptr) (e : Endpoint)
    : Prop :=
  e ∈ (channels s).*2 ∧ getServiceDescription e ∉ services ∧
  PendingMessages.pending (i_pending s) !! p = Some (getUid e).

Lemma uid_injective (l : list Endpoint) a b :
  NoDup (getUid <$> l) → a ∈ l → b ∈ l → getUid a = getUid b → a = b.
Proof.
  intros Hnd Ha Hb Heq. induction l as [|x l IH]; [by apply elem_of_nil in Ha|].
  csimpl in Hnd. apply NoDup_cons in Hnd as [Hx Hnd].
  apply elem_of_cons in Ha as [->|Ha]; apply elem_of_cons in Hb as [->|Hb]; try done.
  - destruct Hx. rewrite Heq. by apply list_elem_of_fmap_2.
  - destruct Hx. rewrite <-Heq. by apply list_elem_of_fmap_2.
  - by apply IH.
Qed.

Lemma update_internal_spec services (s : I2T) :
  channels_wf s → subscribers_wf s s → NoDup services → (length services ≤ MAX_TOPICS)%nat →
  no_collisions (services ++ channel_services s) →
  ∃ s', updateChannelsInternal services setupChannel deleteChannel s = Ok s' ∧
    channels_wf s' ∧ subscribers_wf s s' ∧ channel_services s' ≡ₚ services ∧
    (∀ e, e ∈ (channels s).*2 →
       getUid e ∈ channel_uids s' ↔ getServiceDescription e ∈ services).
Proof.
  intros Hs Hsub Hnd Hl Hcol.
  destruct (update_channels_spec (subscribers_wf s) setupChannel deleteChannel services s)
    as (s' & new & He & Hs' & Hsub' & Hch & Hnew & Hserv); [done..|].
  exists s'. split_and!; [done..|]. intros e Hin.
  destruct Hsub as (_ & _ & Hnds & Hlt & _).
  destruct Hsub' as (_ & _ & Hnd' & _ & Hold & _). split.
  - intros (e' & Heq & Hin')%list_elem_of_fmap.
    assert (e ∈ (channels s').*2) as Hin2.
    { destruct (Hold e' Hin') as [Hin0|Hge].
      - by rewrite (uid_injective (channels s).*2 e e' Hnds Hin Hin0 Heq).
      - assert (getUid e < i_nextPort s) by (by apply Hlt, list_elem_of_fmap_2). lia. }
    rewrite <-Hserv. by apply list_elem_of_fmap_2.
  - intros Hserve. apply list_elem_of_fmap_2. rewrite Hch, fmap_app. apply elem_of_app. left.
    apply list_elem_of_fmap in Hin as (c & -> & Hc). apply list_elem_of_fmap_2.
    by apply list_elem_of_filter.
Qed.

Lemma hand_back_blocked_ok (s : I2T) :
  (∀ u p, SubscriberRelease u p ∈ i_blocked s → alive s u) →
  (∀ e, e ∈ i_blocked s → ∃ u p, e = SubscriberRelease u p) →
  hand_back_blocked s =
    Ok (mkI2T (i_endpoints s) (i_waitset s) (i_subscribed s) (i_pending s) (i_calls s ++ i_blocked s) []
          (i_upcoming s) (i_forwarded s) (i_nextPort s)).
Proof.
  intros Hal Hrel. unfold hand_back_blocked. rewrite (proj2 (forallb_forall _ _)); [done|].
  intros e He%list_elem_of_In. destruct (Hrel e He) as (u & p & ->).
  apply bool_decide_eq_true. by apply (Hal u p).
Qed.


(** C36: A pending message outlives its channel: the wait of [deleteChannel] ends when the
    transports have reported the message as sent, but the hand-back of its chunk needs
    the mutex that [updateChannels] holds, so it is made after the subscriber was
    destroyed, which is undefined. *)
Theorem pending_hand_back_undefined (services : list ServiceDescription) (s : I2T) (p : Ptr) (e : Endpoint) :
  channels_wf s → subscribers_wf s s →
  NoDup services → (length services ≤ MAX_TOPICS)%nat →
  no_collisions (services ++ channel_services s) →
  deleted_while_pending services s p e →
  (∃ s', updateChannelsInternal services setupChannel deleteChannel s = Ok s' ∧
         SubscriberRelease (getUid e) p ∈ i_blocked s' ∧ getUid e ∉ channel_uids s') ∧
  updateChannels services s = UndefinedBehaviour.
Proof.
  intros Hs Hsub Hnd Hl Hcol (Hin & Hserve & Hp).
  pose proof Hsub as (_ & _ & _ & _ & _ & _ & _ & _ & Hfw & _).
  destruct (update_internal_spec services s Hs Hsub Hnd Hl Hcol) as (s' & He & Hs' & Hsub' & Hserv & Hkept).
  destruct Hsub' as (_ & _ & _ & _ & _ & _ & Hf & _ & _ & Hb & _ & Hal).
  assert (¬ alive s' (getUid e)) as Hdead.
  { intros [Hu|Hu]; [by apply Hserve, Hkept|]. rewrite Hf in Hu. apply Hfw in Hu as [Hn _].
    apply Hn. by apply list_elem_of_fmap_2. }
  pose proof Hb as (_ & Hsubset & _ & Hcalls).
  assert (SubscriberRelease (getUid e) p ∈ i_blocked s') as Hblocked.
  { apply Hcalls. exists p, (getUid e). split_and!; [done..|].
    apply eq_None_not_Some. intros [u Hu]. pose proof (lookup_weaken _ _ _ _ Hu Hsubset) as Hu'.
    simplify_eq. by apply Hdead, (Hal p). }
  split.
  - exists s'. split_and!; [done..|]. intros Hu. apply Hdead. by left.
  - unfold updateChannels. rewrite He. ostep. unfold hand_back_blocked.
    destruct (forallb _ _) eqn:Hall; [|done].
    rewrite forallb_forall in Hall. apply list_elem_of_In, Hall in Hblocked.
    by apply bool_decide_eq_true in Hblocked.
Qed.
End properties.

(** ** Properties of the waitset loop *)

Section forwarding.
Context `{IoxSpec} `{TransportLayer} `{DiscoveryState W}.

(** A device whose transport takes the whole message at once. *)
Definition takes_at_once (ti : TransportInfo) (c : ChunkHeader) (i : DeviceIndex_t) : Prop :=
  let t := di_type i in
  let headerSize := if ch_hasUserHeader c then ch_userHeaderSize c else 0 in
  good_transport ti t ∧ never_fails t (di_device i) ∧ never_pending t (di_device i) ∧
  willBePending t (ch_userPayloadSize c) = false ∧ 0 < maxTransportPayloadSize t ∧
  headerSize + ch_userPayloadSize c < 2 ^ 32 ∧ headerSize + maxTransportPayloadSize t ≤ 2 ^ 32 ∧
  ch_userPayloadSize c + maxTransportPayloadSize t ≤ 2 ^ 32.

(** The devices a chunk is for. *)
Definition receivers (ti : TransportInfo) (d : DiscoveryManager) (c : ChunkHeader) (h : ClassHash)
    : list DeviceIndex_t :=
  if decide (originId c ∉ m_gatewayPublisherUids d ∧ originId c ∈ userPublisherPorts (m_localState d) ∧
             (h ∈ m_keys (deviceIndicesCache (m_remoteState d)) ∨
              (vm_size (deviceIndicesCache (m_remoteState d)) < MAX_TOPICS)%nat))
  then computeDeviceIndices ti d h else [].

Lemma generateDeviceIndices_receivers ti d c h :
  discovery_wf d → cache_coherent ti d →
  ∃ d', generateDeviceIndices ti d (originId c) h = Ok (receivers ti d c h, d') ∧
    discovery_wf d' ∧ cache_coherent ti d' ∧ m_localState d' = m_localState d.
Proof.
  intros Hwf Hco. destruct (generateDeviceIndices_spec ti d (originId c) h Hwf Hco) as (c' & He & Hc' & Hco').
  exists (set_cache c' d). destruct Hwf as (Hl & Hr & _). by split_and!.
Qed.

(** Writing a chunk to transports that take messages at once. *)
Lemma written_at_once (ti : TransportInfo) (pm : PendingMessages.PendingMessageManager) (w : W)
    (subscriber : Endpoint) (c : ChunkHeader) (mutex : Mutex) (devices : list DeviceIndex_t) :
  let hash := getClassHash (getServiceDescription subscriber) in
  chunk_wf c → Forall (takes_at_once ti c) devices →
  ∃ w' messageHash,
    TransportForwarder.releaseOrWrite hash devices mutex subscriber c ti pm w =
      Ok (ti, pm, replicate (Nat.max 1 (length devices))
                    (SubscriberRelease (getUid subscriber) (chunk_userPayload (ch_chunk c))), w') ∧
    is_u32 messageHash ∧ discovery w' = discovery w ∧
    net w' = net w ++ concat ((fun i =>
      wire_message (di_type i) (di_device i) (datagramHeaderOf hash messageHash c)
        (chunk_headerBytes (ch_chunk c)) (chunk_payloadBytes (ch_chunk c))) <$> devices).
Proof.
  intros hash Hc Hall. unfold TransportForwarder.releaseOrWrite.
  destruct devices as [|i devices'] eqn:Ed; [exists w, 0; by rewrite app_nil_r|].
  rewrite <-Ed in *. pose proof (generateHash_u32 w) as Hu.
  pose proof (net_generateHash w) as Hnet. pose proof (discovery_generateHash w) as Hd.
  destruct (generateHash w) as [messageHash w1]. cbn [fst snd] in Hu, Hnet, Hd.
  destruct (writeSegmented_not_pending registeredCallback (ch_chunk c) devices mutex
    (getUid subscriber) (mkWriter (datagramHeaderOf hash messageHash c) ti pm [] w1))
    as (s' & -> & Ht & Hp & Hcalls & Hw).
  { eapply Forall_impl; [exact Hall|]. intros [t dev] (? & ? & ? & ? & ? & ? & ? & ?).
    split; [by apply datagramHeaderOf_sendable|done]. }
  ostep. exists (w_world s'), messageHash. rewrite Ht, Hp, Hcalls, Hw. simpl.
  rewrite net_set_net, discovery_set_net, Hd, Hnet. split_and!; [|done..].
  do 2 f_equal. rewrite Nat.max_r; [done|]. rewrite Ed. simpl. lia.
Qed.

(** What the waitset thread does with a chunk, for transports that take messages
    at once. *)
Lemma local_chunk_written (ti : TransportInfo) (pm : PendingMessages.PendingMessageManager)
    (w : W) (subscriber : Endpoint) (c : ChunkHeader) :
  let hash := getClassHash (getServiceDescription subscriber) in
  let devices := receivers ti (discovery w) c hash in
  discovery_wf (discovery w) → cache_coherent ti (discovery w) → chunk_wf c →
  Forall (takes_at_once ti c) devices →
  ∃ w' messageHash,
    waitsetLoop_body subscriber (Some c) ti pm w =
      Ok (ti, pm, replicate (Nat.max 1 (length devices))
                    (SubscriberRelease (getUid subscriber) (chunk_userPayload (ch_chunk c))), w') ∧
    is_u32 messageHash ∧ discovery_wf (discovery w') ∧ cache_coherent ti (discovery w') ∧
    net w' = net w ++ concat ((fun i =>
      wire_message (di_type i) (di_device i) (datagramHeaderOf hash messageHash c)
        (chunk_headerBytes (ch_chunk c)) (chunk_payloadBytes (ch_chunk c))) <$> devices).
Proof.
  intros hash devices Hwf Hco Hc Hall. unfold waitsetLoop_body. fold hash.
  destruct (generateDeviceIndices_receivers ti (discovery w) c hash Hwf Hco) as (d' & -> & Hwf' & Hco' & _).
  ostep. destruct (written_at_once ti pm (set_discovery d' w) subscriber c Iceoryx2TransportEndpoints devices Hc Hall)
    as (w' & messageHash & He & Hu & Hd & Hnet).
  rewrite discovery_set in Hd. rewrite net_set_discovery in Hnet. exists w', messageHash.
  rewrite Hd. by split_and!; [exact He|..].
Qed.

End forwarding.

(** ** The waitset thread and the thread that updates the channels

    The two threads share [m_waitset] under [m_waitsetMutex], [m_suspendFlag],
    and the endpoints under [m_endpointsMutex].  The actions between two
    synchronisation points are one step. *)

Inductive WaitsetThread :=
  | Idle                                      (* at the head of the loop *)
  | InWait                                    (* in timedWait, with m_waitsetMutex *)
  | Suspendable (notified : list UniquePortId)  (* before the test of m_suspendFlag *)
  | Handling (notified : list UniquePortId).    (* in the loop over the notifications *)

#[export] Instance WaitsetThread_eq_dec : EqDecision WaitsetThread.
Proof. solve_decision. Defined.

Inductive ChannelOperation := Attaching (uid : UniquePortId) | Detaching (uid : UniquePortId).

Inductive ChannelThread :=
  | NoUpdate                                  (* m_endpointsMutex not held *)
  | Updating                                  (* in updateChannelsInternal *)
  | Suspended (op : ChannelOperation)         (* m_suspendFlag set, before m_waitsetMutex *)
  | Detached (uid : UniquePortId).            (* after unsubscribe, before the erase *)

Record Threads := mkThreads {
  waitset_thread : WaitsetThread;
  channel_thread : ChannelThread;
  attached : list UniquePortId;
  existing : list UniquePortId;
  m_suspendFlag : bool
}.

(** The label is the subscriber on which [take] is called, if any. *)
Inductive thread_step : Threads → option UniquePortId → Threads → Prop :=
  | step_wait c a e f :
      thread_step (mkThreads Idle c a e f) None (mkThreads InWait c a e f)
  | step_notified ns c a e f :
      ns ⊆ a → thread_step (mkThreads InWait c a e f) None (mkThreads (Suspendable ns) c a e f)
  | step_resumed ns c a e :
      thread_step (mkThreads (Suspendable ns) c a e false) None (mkThreads (Handling ns) c a e false)
  | step_take n ns a e f :
      thread_step (mkThreads (Handling (n :: ns)) NoUpdate a e f) (Some n)
                  (mkThreads (Handling ns) NoUpdate a e f)
  | step_handled c a e f :
      thread_step (mkThreads (Handling []) c a e f) None (mkThreads Idle c a e f)
  | step_lock w a e f :
      thread_step (mkThreads w NoUpdate a e f) None (mkThreads w Updating a e f)
  | step_unlock w a e f :
      thread_step (mkThreads w Updating a e f) None (mkThreads w NoUpdate a e f)
  | step_create uid w a e f :
      uid ∉ e → thread_step (mkThreads w Updating a e f) None
                            (mkThreads w (Suspended (Attaching uid)) a (uid :: e) true)
  | step_attach uid w a e f :
      w ≠ InWait → thread_step (mkThreads w (Suspended (Attaching uid)) a e f) None
                               (mkThreads w Updating (uid :: a) e false)
  | step_discard uid w a e f :
      uid ∈ e → thread_step (mkThreads w Updating a e f) None
                            (mkThreads w (Suspended (Detaching uid)) a e true)
  | step_detach uid w a e f :
      w ≠ InWait → thread_step (mkThreads w (Suspended (Detaching uid)) a e f) None
                     (mkThreads w (Detached uid) (filter (fun u => u ≠ uid) a) e false)
  | step_erase uid w a e f :
      thread_step (mkThreads w (Detached uid) a e f) None
                  (mkThreads w Updating a (filter (fun u => u ≠ uid) e) f).

Inductive threads_reach : Threads → Prop :=
  | reach_init : threads_reach (mkThreads Idle NoUpdate [] [] false)
  | reach_step s l s' : threads_reach s → thread_step s l s' → threads_reach s'.

(** What holds between the threads; the last two conditions are the channel
    thread's own knowledge. *)
Definition threads_wf (s : Threads) : Prop :=
  (∀ u, u ∈ attached s → u ∈ existing s) ∧
  (m_suspendFlag s = true ↔ ∃ op, channel_thread s = Suspended op) ∧
  (∀ uid, channel_thread s = Suspended (Attaching uid) → uid ∈ existing s) ∧
  (∀ uid, channel_thread s = Detached uid → uid ∉ attached s).

Lemma not_suspended c f :
  (f = true ↔ ∃ op, c = Suspended op) → (∀ op, c ≠ Suspended op) → f = false.
Proof. intros [Hf _] Hc. destruct f; [|done]. destruct Hf as [op Hop]; [done|]. by destruct (Hc op). Qed.

Lemma suspended_false c : (∀ op, c ≠ Suspended op) → false = true ↔ ∃ op, c = Suspended op.
Proof. intros Hc. split; [done|]. intros [op ?]. by destruct (Hc op). Qed.

Lemma suspended_true op : true = true ↔ ∃ op', Suspended op = Suspended op'.
Proof. split; [by exists op|done]. Qed.

Lemma thread_step_wf s l s' : threads_wf s → thread_step s l s' → threads_wf s'.
Proof.
  intros (Ha & Hf & Hat & Hde) Hst. unfold threads_wf.
  destruct Hst; simpl in *;
    try (pose proof (not_suspended _ _ Hf ltac:(done)) as ->);
    (split_and!; [|first [exact Hf|apply suspended_true|by apply suspended_false]|try done..]); try done.
  - intros u Hu. right. by apply Ha.
  - intros u [= <-]. by left.
  - intros u [->|Hu]%elem_of_cons; [by apply Hat|by apply Ha].
  - intros u [_ Hu]%list_elem_of_filter. by apply Ha.
  - intros u [= <-] [? _]%list_elem_of_filter. done.
  - intros u Hu. apply list_elem_of_filter. split; [|by apply Ha]. intros ->. by apply (Hde uid).
Qed.

Lemma threads_reach_wf s : threads_reach s → threads_wf s.
Proof.
  induction 1 as [|s l s' _ IH Hst]; [|by eapply thread_step_wf].
  split_and!; try done. by apply suspended_false.
Qed.

Local Abbreviation steps := (rtc (fun s s' => ∃ l, thread_step s l s')).

Lemma step_one s l s1 s2 : thread_step s l s1 → steps s1 s2 → steps s s2.
Proof. intros Hst Hr. eapply rtc_l; [by exists l|done]. Qed.

(** The channel thread can always finish its update. *)
Lemma update_completes s : threads_wf s → ∃ s', steps s s' ∧ threads_wf s' ∧ channel_thread s' = NoUpdate.
Proof.
  intros Hwf.
  enough (∃ s', steps s s' ∧ channel_thread s' = NoUpdate) as (s' & Hr & Hc).
  { exists s'. split_and!; [done| |done]. clear Hc. induction Hr as [|s s1 s' [l Hst] _ IH]; [done|].
    apply IH. by eapply thread_step_wf. }
  clear Hwf. destruct s as [w c a e f].
  assert (∀ w a e f, ∃ s', steps (mkThreads w Updating a e f) s' ∧ channel_thread s' = NoUpdate) as Hup.
  { intros. eexists. split; [eapply step_one; [apply step_unlock|apply rtc_refl]|done]. }
  assert (∀ w op a e f, w ≠ InWait →
    ∃ s', steps (mkThreads w (Suspended op) a e f) s' ∧ channel_thread s' = NoUpdate) as Hsus.
  { intros w' [u|u] a' e' f' Hw; edestruct Hup as (s' & Hr & Hc); exists s'; (split; [|exact Hc]).
    - eapply step_one; [by apply step_attach|exact Hr].
    - eapply step_one; [by apply step_detach|]. eapply step_one; [apply step_erase|exact Hr]. }
  destruct c as [| |op|u].
  - eexists. split; [apply rtc_refl|done].
  - apply Hup.
  - destruct (decide (w = InWait)) as [->|Hw]; [|by apply Hsus].
    destruct (Hsus (Suspendable []) op a e f) as (s' & Hr & Hc); [done|]. exists s'. split; [|done].
    eapply step_one; [apply (step_notified []), list_subseteq_nil|exact Hr].
  - destruct (Hup w a (filter (fun x => x ≠ u) e) f) as (s' & Hr & Hc). exists s'. split; [|exact Hc].
    eapply step_one; [apply step_erase|exact Hr].
Qed.

(** When no update runs, the waitset thread can finish its iteration. *)
Lemma iteration_completes s :
  threads_wf s → channel_thread s = NoUpdate →
  ∃ s', steps s s' ∧ channel_thread s' = NoUpdate ∧ waitset_thread s' = Idle.
Proof.
  intros (_ & Hf & _) Hc. destruct s as [w c a e f]. simpl in *. subst c.
  apply not_suspended in Hf as ->; [|done].
  assert (∀ ns, ∃ s', steps (mkThreads (Handling ns) NoUpdate a e false) s' ∧
    channel_thread s' = NoUpdate ∧ waitset_thread s' = Idle) as Hh.
  { induction ns as [|n ns (s' & Hr & Hs')].
    - eexists. split; [eapply step_one; [apply step_handled|apply rtc_refl]|done].
    - exists s'. split; [|done]. eapply step_one; [apply step_take|exact Hr]. }
  destruct w as [| |ns|ns]; [eexists; split; [apply rtc_refl|done]| | |apply Hh].
  - destruct (Hh []) as (s' & Hr & Hs'). exists s'. split; [|done].
    eapply step_one; [apply (step_notified []), list_subseteq_nil|]. eapply step_one; [apply step_resumed|exact Hr].
  - destruct (Hh ns) as (s' & Hr & Hs'). exists s'. split; [|done].
    eapply step_one; [apply step_resumed|exact Hr].
Qed.

(** C13: The waitset is attached only to subscribers that exist, it never changes while the
    waitset thread waits on it, the suspend flag is set exactly while a change is
    waiting for it, and there is no deadlock: from every reachable state both threads can
    get back to the start of their work. *)
Theorem waitset_threads_sound (s : Threads) :
  threads_reach s →
  (∀ u, u ∈ attached s → u ∈ existing s) ∧
  (m_suspendFlag s = true ↔ ∃ op, channel_thread s = Suspended op) ∧
  (waitset_thread s = InWait → ∀ l s', thread_step s l s' →
     waitset_thread s' = InWait → attached s' = attached s) ∧
  ∃ s', rtc (fun s s' => ∃ l, thread_step s l s') s s' ∧
        channel_thread s' = NoUpdate ∧ waitset_thread s' = Idle.
Proof.
  intros Hr%threads_reach_wf. pose proof Hr as (Ha & Hf & _).
  split_and!; [done|done| |].
  - intros Hw l s' Hst Hw'. destruct Hst; simpl in *; done.
  - destruct (update_completes s Hr) as (s1 & Hr1 & Hwf1 & Hc1).
    destruct (iteration_completes s1 Hwf1 Hc1) as (s2 & Hr2 & Hs2).
    exists s2. split; [|done]. by transitivity s1.
Qed.

(** C39: A notification outlives its subscriber: the suspend flag does not cover the
    notifications that the waitset thread took before it was set, so [take] can be called
    on a subscriber that was destroyed. *)
Theorem notification_outlives_subscriber :
  ∃ s s' uid, threads_reach s ∧ thread_step s (Some uid) s' ∧ uid ∉ existing s.
Proof.
  exists (mkThreads (Handling [7]) NoUpdate [] [] false), (mkThreads (Handling []) NoUpdate [] [] false), 7.
  split; [|split; [constructor|apply not_elem_of_nil]].
  eapply reach_step; [|apply step_unlock].
  eapply reach_step; [|apply (step_erase 7 _ [] [7])].
  eapply reach_step; [|apply (step_detach 7 _ [7]); done].
  eapply reach_step; [|apply step_discard; by left].
  eapply reach_step; [|apply step_lock].
  eapply reach_step; [|apply step_resumed].
  eapply reach_step; [|by apply (step_notified [7])].
  eapply reach_step; [|apply step_wait].
  eapply reach_step; [|apply step_unlock].
  eapply reach_step; [|by apply (step_attach 7)].
  eapply reach_step; [|apply (step_create 7); apply not_elem_of_nil].
  eapply reach_step; [|apply step_lock]. apply reach_init.
Qed.

(** ** Witnesses *)

(** Two channels, of which the first has a message pending. *)
Definition example_i2t : I2T :=
  mkI2T (mkMap [hash_of Init.Byte.x41; hash_of Init.Byte.x42]
               [mkEndpoint (svc Init.Byte.x41) 80; mkEndpoint (svc Init.Byte.x42) 81])
    [80; 81] [80; 81] (mkMap [64] [PendingMessages.mkPending 1 Iceoryx2TransportEndpoints 80]) [] []
    [[]; [64]] [90] 91.

Lemma example_i2t_channels : @channels_wf ref_iox _ _ example_i2t.
Proof.
  split; [split; simpl; unfold MAX_TOPICS; lia|]. split; [apply (bool_decide_unpack _); vm_compute; exact I|].
  repeat constructor.
Qed.

Lemma example_i2t_pending p u :
  PendingMessages.pending (i_pending example_i2t) !! p = Some u → p = 64 ∧ u = 80.
Proof.
  unfold PendingMessages.pending, to_map. simpl. rewrite fmap_insert, fmap_empty.
  rewrite lookup_insert_Some. intros [[<- <-]|[_ Hn]]; [done|]. by rewrite lookup_empty in Hn.
Qed.

Lemma example_i2t_wf : subscribers_wf example_i2t example_i2t.
Proof.
  unfold subscribers_wf. split; [done|]. split; [done|].
  split; [apply (bool_decide_unpack _); vm_compute; exact I|].
  split; [intros u Hu; repeat (apply elem_of_cons in Hu as [->|Hu]; [simpl; lia|]); by apply elem_of_nil in Hu|].
  split; [by left|]. split; [done|]. split; [done|]. split; [done|].
  split; [intros u ->%list_elem_of_singleton; split; [|simpl; lia];
          apply (bool_decide_unpack _); vm_compute; exact I|].
  split; [apply handed_back_refl; split_and!; [split; simpl; unfold PendingMessages.MAX_PENDING_MESSAGE_COUNT; lia
    |apply NoDup_singleton|repeat constructor]|].
  split.
  - intros p u [-> ->]%example_i2t_pending. simpl. by left.
  - intros p u [-> ->]%example_i2t_pending. left. by left.
Qed.


Lemma pending_hand_back_undefined_witness :
  let services := [svc Init.Byte.x42] in
  deleted_while_pending services example_i2t 64 (mkEndpoint (svc Init.Byte.x41) 80) ∧
  @updateChannels ref_iox services example_i2t = UndefinedBehaviour.
Proof.
  intros services.
  assert (deleted_while_pending services example_i2t 64 (mkEndpoint (svc Init.Byte.x41) 80)) as Hd.
  { split; [by left|]. split; [|reflexivity]. apply (bool_decide_unpack _). vm_compute. exact I. }
  split; [exact Hd|].
  refine (proj2 (@pending_hand_back_undefined ref_iox ref_iox_spec services example_i2t 64 _ _ _ _ _ _ Hd)).
  - exact example_i2t_channels.
  - exact example_i2t_wf.
  - apply NoDup_singleton.
  - unfold MAX_TOPICS. simpl. lia.
  - apply no_collisions_Forall. apply (bool_decide_unpack _). vm_compute. exact I.
Defined.

(** A chunk of twelve bytes that the local publisher 70 published. *)
Definition example_published : ChunkHeader :=
  mkChunkHeader (mkChunk 64 [] (replicate 12 Init.Byte.xbb)) 70 12 8 false 0.


Lemma waitset_threads_sound_witness :
  let s := mkThreads InWait (Suspended (Attaching 7)) [] [7] true in
  threads_reach s ∧
  ∃ s', rtc (fun s s' => ∃ l, thread_step s l s') s s' ∧
        channel_thread s' = NoUpdate ∧ waitset_thread s' = Idle.
Proof.
  intros s. assert (threads_reach s) as Hr.
  { eapply reach_step; [|apply step_wait].
    eapply reach_step; [|apply (step_create 7 _ []); apply not_elem_of_nil].
    eapply reach_step; [|apply step_lock]. apply reach_init. }
  split; [exact Hr|]. exact (proj2 (proj2 (proj2 (@waitset_threads_sound s Hr)))).
Defined.
