(* ===== verification/TransportToIox.v ===== *)
(** * TransportToIox: from the transports to iceoryx

    include/p3com/gateway/transport_to_iox.hpp,
    source/p3com/gateway/transport_to_iox.cpp and
    source/p3com/generic/data_reader.cpp.

    A received datagram carries one segment.  The first segment of a message
    loans a chunk, every segment is copied to its place, and the last one
    publishes the chunk.  The state is everything the callbacks touch: the
    channels, the segmented messages, the forwarder, the discovery manager
    (for the publisher identifiers), the memory of the loaned chunks, the calls
    made on publishers and the chunks that were published.  The result of a loan and the time are arguments.
    Writing through a pointer to a chunk that is not loaned, or beyond its end,
    is undefined. *)

From stdpp Require Import base list gmap.
From S2P Require Import Prelude.
From S2P Require Import Iox.
From S2P Require Import Types.
From S2P Require Import VectorMap.
From S2P Require Import Serialization.
From S2P Require Import TransportInfo.
From S2P Require Import Gateway.
From S2P Require Import Discovery.
From S2P Require Import DataWriter.
From S2P Require Import Chunks.
From S2P Require SegmentedMessages.
From S2P Require TransportForwarder.
From Stdlib Require Import Permutation.

Open Scope Z_scope.

Definition NS_PER_BYTE : Z := 500.

(** A chunk handed to iceoryx, with the contents it had then. *)
Record Published := mkPublished {
  pub_publisher : UniquePortId;
  pub_userPayload : Ptr;
  pub_header : bytes;
  pub_payload : bytes
}.

Record Transport2Iceoryx := mkT2I {
  t_endpoints : vector_map ClassHash Endpoint;
  t_segmented : SegmentedMessages.SegmentedMessageManager;
  t_forwarder : TransportForwarder.TransportForwarder;
  t_discovery : DiscoveryManager;
  t_memory : Memory;
  t_calls : list IoxEvent;
  t_published : list Published;
  t_nextPort : UniquePortId
}.

Abbreviation T2I := Transport2Iceoryx.

Definition t_set_endpoints m (s : T2I) : T2I :=
  mkT2I m (t_segmented s) (t_forwarder s) (t_discovery s) (t_memory s) (t_calls s) (t_published s) (t_nextPort s).
Definition t_set_segmented m (s : T2I) : T2I :=
  mkT2I (t_endpoints s) m (t_forwarder s) (t_discovery s) (t_memory s) (t_calls s) (t_published s) (t_nextPort s).
Definition t_set_forwarder f (s : T2I) : T2I :=
  mkT2I (t_endpoints s) (t_segmented s) f (t_discovery s) (t_memory s) (t_calls s) (t_published s) (t_nextPort s).
Definition t_set_discovery d (s : T2I) : T2I :=
  mkT2I (t_endpoints s) (t_segmented s) (t_forwarder s) d (t_memory s) (t_calls s) (t_published s) (t_nextPort s).
Definition t_set_memory m (s : T2I) : T2I :=
  mkT2I (t_endpoints s) (t_segmented s) (t_forwarder s) (t_discovery s) m (t_calls s) (t_published s) (t_nextPort s).

(** iceoryx numbers the ports it creates. *)
#[export] Program Instance T2I_gateway : GatewayState T2I := {|
  m_endpoints := t_endpoints;
  set_endpoints := t_set_endpoints;
  make_endpoint service s :=
    (mkEndpoint service (t_nextPort s),
     mkT2I (t_endpoints s) (t_segmented s) (t_forwarder s) (t_discovery s) (t_memory s) (t_calls s)
       (t_published s) (t_nextPort s + 1))
|}.
Solve All Obligations with done.

(** A gateway state with a local variable that a callable captures. *)
#[export] Program Instance GatewayState_prod {S A} `{GatewayState S} : GatewayState (S * A) := {|
  m_endpoints s := m_endpoints s.1;
  set_endpoints m s := (set_endpoints m s.1, s.2);
  make_endpoint service s := let '(e, s') := make_endpoint service s.1 in (e, (s', s.2))
|}.
Next Obligation. intros S A G m [s a]. apply endpoints_set. Qed.
Next Obligation.
  intros S A G service [s a]. simpl. pose proof (make_endpoint_service service s).
  by destruct (make_endpoint service s).
Qed.
Next Obligation.
  intros S A G service [s a]. simpl. pose proof (make_endpoint_endpoints service s).
  by destruct (make_endpoint service s).
Qed.

(** ** data_reader.cpp *)

Definition takeNext (h : IoxChunkDatagramHeader_t) (data : bytes) (userHeaderBuffer userPayloadBuffer : Ptr)
    (mem : Memory) : Outcome Memory :=
  if submessageOffset h <? userHeaderSize h then
    if negb (userHeaderBuffer =? nullptr) then
      buf ← deref (mem !! userHeaderBuffer);
      buf ← neonMemcpy buf (Z.to_nat (submessageOffset h)) data 0 (Z.to_nat (submessageSize h));
      Ok (<[userHeaderBuffer := buf]> mem)
    else Ok mem
  else
    if negb (userPayloadBuffer =? nullptr) then
      buf ← deref (mem !! userPayloadBuffer);
      buf ← neonMemcpy buf (Z.to_nat (submessageOffset h - userHeaderSize h)) data 0
              (Z.to_nat (submessageSize h));
      Ok (<[userPayloadBuffer := buf]> mem)
    else Ok mem.

(** ** transport_to_iox.cpp *)

Section operations.
Context `{Iox} `{IoxPosh}.
Implicit Types (s : T2I) (h : IoxChunkDatagramHeader_t).

(** The calls an operation of the segmented message manager made. *)
Definition record_calls (calls : list IoxEvent) s : T2I :=
  mkT2I (t_endpoints s) (t_segmented s) (t_forwarder s) (t_discovery s)
    (free_released calls (t_memory s)) (t_calls s ++ calls) (t_published s) (t_nextPort s).

(** [publisher.publish]: the chunk passes to its subscribers as it is. *)
Definition publish (publisher : Endpoint) (userPayload : Ptr) s : Outcome T2I :=
  payload ← deref (t_memory s !! userPayload);
  let header := default [] (t_memory s !! userHeaderOf userPayload) in
  Ok (mkT2I (t_endpoints s) (t_segmented s) (t_forwarder s) (t_discovery s)
        (free userPayload (t_memory s))
        (t_calls s ++ [PublisherPublish (getUid publisher) userPayload])
        (t_published s ++ [mkPublished (getUid publisher) userPayload header payload])
        (t_nextPort s)).

Definition hasUserHeader h : bool := negb (userHeaderSize h =? 0).

Definition deadlineOf (now : Z) h : Z :=
  now + NS_PER_BYTE * wrap32 (userHeaderSize h + userPayloadSize h).

(** [m_segmentedMessageManager.push] of a newly loaned chunk. *)
Definition push_segmented (publisher : Endpoint) (remainingSegments : Z) h (now : Z)
    (userHeader userPayload : Ptr) s : T2I :=
  let '(m, calls) :=
    SegmentedMessages.push (t_segmented s) (messageHash h)
      (SegmentedMessages.mkSegmented remainingSegments userHeader userPayload
         Transport2IceoryxEndpoints (getUid publisher) (deadlineOf now h)) in
  record_calls calls (t_set_segmented m s).

(** The callable of [receive] from the [takeNext] on. *)
Definition store_segment (publisher : Endpoint) h (data : bytes) (deviceIndex : DeviceIndex_t)
    (userHeader userPayload : Ptr) (shouldPublish : bool) s : Outcome T2I :=
  if negb (userPayload =? nullptr) then
    mem ← takeNext h data userHeader userPayload (t_memory s);
    let s := t_set_memory mem s in
    if shouldPublish then
      let s := t_set_forwarder
                 (TransportForwarder.push (t_forwarder s) userPayload (serviceHash h) deviceIndex) s in
      publish publisher userPayload s
    else Ok s
  else Ok s.

(** [loan] is what [publisher.loan] returns if it is called. *)
Definition receive_in_channel h (data : bytes) (deviceIndex : DeviceIndex_t) (loan : option Loan)
    (now : Z) (publisher : Endpoint) s : Outcome T2I :=
  '(m, found) ← SegmentedMessages.findAndDecrement (t_segmented s) (messageHash h);
  let s := t_set_segmented m s in
  match found with
  | Some (userHeader, userPayload, shouldPublish) =>
      store_segment publisher h data deviceIndex userHeader userPayload shouldPublish s
  | None =>
      match loan with
      | None => Ok s
      | Some l =>
          let userPayload := loan_userPayload l in
          let userHeader := userHeaderPtr (hasUserHeader h) userPayload in
          let s := t_set_memory (allocate (hasUserHeader h) l (t_memory s)) s in
          if 1 <? submessageCount h then
            let s := push_segmented publisher (wrap32 (submessageCount h - 1)) h now
                       userHeader userPayload s in
            store_segment publisher h data deviceIndex userHeader userPayload false s
          else store_segment publisher h data deviceIndex userHeader userPayload true s
      end
  end.

(** [mem] is the memory from the received pointer on. *)
Definition receive (mem : bytes) (size : nat) (deviceIndex : DeviceIndex_t) (loan : option Loan)
    (now : Z) s : Outcome T2I :=
  '(h, serializedDatagramHeaderSize) ← deserialize_Header mem size;
  let data := drop (Z.to_nat serializedDatagramHeaderSize) mem in
  if negb (Z.of_nat size =? wrap32 (submessageSize h + serializedDatagramHeaderSize)) then Ok s
  else doForChannel (serviceHash h) (receive_in_channel h data deviceIndex loan now) s.

Definition loan_in_channel h (loan : option Loan) (now : Z) (publisher : Endpoint)
    (s : T2I * Ptr) : Outcome (T2I * Ptr) :=
  let '(s, bufferPtr) := s in
  let buffer (userHeader userPayload : Ptr) :=
    if submessageOffset h <? userHeaderSize h then userHeader else userPayload in
  found ← SegmentedMessages.find (t_segmented s) (messageHash h);
  match found with
  | Some (userHeader, userPayload) => Ok (s, buffer userHeader userPayload)
  | None =>
      match loan with
      | None => Ok (s, bufferPtr)
      | Some l =>
          let userPayload := loan_userPayload l in
          let userHeader := userHeaderPtr (hasUserHeader h) userPayload in
          let s := t_set_memory (allocate (hasUserHeader h) l (t_memory s)) s in
          let s := push_segmented publisher (submessageCount h) h now userHeader userPayload s in
          Ok (s, buffer userHeader userPayload)
      end
  end.

Definition loanBuffer (mem : bytes) (size : nat) (loan : option Loan) (now : Z) s
    : Outcome (T2I * Ptr) :=
  '(h, _) ← deserialize_Header mem size;
  doForChannel (serviceHash h) (loan_in_channel h loan now) (s, nullptr).

Definition release_in_channel h (shouldRelease : bool) (deviceIndex : DeviceIndex_t)
    (publisher : Endpoint) s : Outcome T2I :=
  if shouldRelease then
    '(m, calls) ← SegmentedMessages.release (t_segmented s) (messageHash h);
    Ok (record_calls calls (t_set_segmented m s))
  else
    '(m, found) ← SegmentedMessages.findAndDecrement (t_segmented s) (messageHash h);
    let s := t_set_segmented m s in
    match found with
    | Some (_, userPayload, true) =>
        let s := t_set_forwarder
                   (TransportForwarder.push (t_forwarder s) userPayload (serviceHash h) deviceIndex) s in
        publish publisher userPayload s
    | _ => Ok s
    end.

Definition releaseBuffer (mem : bytes) (size : nat) (shouldRelease : bool)
    (deviceIndex : DeviceIndex_t) s : Outcome T2I :=
  '(h, _) ← deserialize_Header mem size;
  doForChannel (serviceHash h) (release_in_channel h shouldRelease deviceIndex) s.

Definition setupChannel (service : ServiceDescription) s : Outcome T2I :=
  addChannel service (fun publisher s =>
    Ok (t_set_discovery (addGatewayPublisher MAX_PUBLISHERS (t_discovery s) (getUid publisher)) s)) s.

Definition deleteChannel (service : ServiceDescription) s : Outcome T2I :=
  discardChannel service (fun publisher s =>
    '(m, calls) ← SegmentedMessages.releaseAll (t_segmented s) (getUid publisher);
    let s := record_calls calls (t_set_segmented m s) in
    Ok (t_set_discovery (discardGatewayPublisher (t_discovery s) (getUid publisher)) s)) s.

Definition updateChannels (services : list ServiceDescription) s : Outcome T2I :=
  updateChannelsInternal services setupChannel deleteChannel s.

(** [checkSegmentedMessages], as the main loop of the gateway runs it. *)
Definition checkSegmentedMessages (now : Z) s : Outcome T2I :=
  '(m, calls) ← SegmentedMessages.checkSegmentedMessages (S (vm_size (t_segmented s))) now (t_segmented s);
  Ok (record_calls calls (t_set_segmented m s)).
End operations.

(** ** Lemmas: the channels *)

Section channels.
Context `{IoxSpec} `{IoxPosh} (enough_publishers : (MAX_TOPICS ≤ MAX_PUBLISHERS)%nat).
Implicit Types (s : T2I).

(** The identifiers the discovery manager ignores are those of the channels, no
    port exists that iceoryx has not created yet, and every segmented message
    belongs to a publisher that exists. *)
Definition ports_wf s : Prop :=
  SegmentedMessages.segmented_wf (t_segmented s) ∧
  m_gatewayPublisherUids (t_discovery s) ≡ₚ channel_uids s ∧
  NoDup (channel_uids s) ∧
  Forall (fun uid => uid < t_nextPort s) (channel_uids s) ∧
  Forall (fun e => SegmentedMessages.sm_publisher e.2 ∈ channel_uids s) (entries (t_segmented s)).

(** Apart from these identifiers the discovery manager is [d0]. *)
Definition ports_of (d0 : DiscoveryManager) s : Prop :=
  ports_wf s ∧ set_uids [] (t_discovery s) = set_uids [] d0.

Lemma setupChannel_spec d0 service s :
  channels_wf s → ports_of d0 s → getClassHash service ∉ m_keys (m_endpoints s) →
  (length (channels s) < MAX_TOPICS)%nat →
  ∃ s' endpoint, setupChannel service s = Ok s' ∧ channels_wf s' ∧ ports_of d0 s' ∧
    getServiceDescription endpoint = service ∧
    channels s' = channels s ++ [(getClassHash service, endpoint)] ∧
    getUid endpoint = t_nextPort s ∧ t_nextPort s' = t_nextPort s + 1.
Proof.
  intros Hs ((Hseg & Hperm & Hnd & Hlt & Hpub) & Hd0) Hk Hl. unfold setupChannel.
  match goal with |- context [addChannel service ?f s] => pose proof (addChannel_eq f service s Hs Hk Hl) as He end.
  cbn [make_endpoint T2I_gateway] in He. destruct He as (-> & Hwf & Hch).
  match type of Hwf with channels_wf ?s1' => set (s1 := s1') in * end.
  set (endpoint := mkEndpoint service (t_nextPort s)) in *.
  eexists _, endpoint. split; [done|].
  assert (channel_uids s1 = channel_uids s ++ [t_nextPort s]) as Huids
    by (unfold channel_uids; rewrite Hch, !fmap_app; done).
  split; [exact Hwf|]. split; [|split; [done|split; [exact Hch|done]]].
  split; [|exact Hd0].
  match goal with |- ports_wf ?s' => assert (channel_uids s' = channel_uids s1) as Heq by done end.
  assert ((length (m_gatewayPublisherUids (t_discovery s)) < MAX_PUBLISHERS)%nat) as Hroom.
  { rewrite (Permutation_length Hperm). unfold channel_uids. rewrite !length_fmap. lia. }
  unfold ports_wf. rewrite Heq, Huids. split_and!; [done| | | |].
  - cbn [t_discovery t_set_discovery addGatewayPublisher set_uids m_gatewayPublisherUids s1 set_endpoints
        T2I_gateway t_set_endpoints].
    unfold addGatewayPublisher. cbn. rewrite push_back_room by done. simpl. by rewrite Hperm.
  - apply NoDup_app. split_and!; [done| |apply NoDup_singleton].
    intros x Hx ->%list_elem_of_singleton. apply (proj1 (Forall_forall _ _) Hlt) in Hx. lia.
  - simpl. apply Forall_app. split; [|apply Forall_singleton; lia].
    eapply Forall_impl; [exact Hlt|]. intros x ?. simpl in *. lia.
  - eapply Forall_impl; [exact Hpub|]. intros e He. by apply elem_of_app; left.
Qed.

Lemma deleteChannel_spec d0 service s :
  channels_wf s → ports_of d0 s → getClassHash service ∈ m_keys (m_endpoints s) →
  ∃ s', deleteChannel service s = Ok s' ∧ channels_wf s' ∧ ports_of d0 s' ∧
    channels s' = filter (fun c => c.1 ≠ getClassHash service) (channels s) ∧ t_nextPort s' = t_nextPort s.
Proof.
  intros Hs ((Hseg & Hperm & Hnd & Hlt & Hpub) & Hd0) Hk. unfold deleteChannel.
  match goal with |- context [discardChannel service ?f s] =>
    destruct (discardChannel_eq f service s Hs Hk) as (endpoint & it & Hin & Hit & Hlook & -> & Hafter) end.
  destruct (SegmentedMessages.releaseAll_spec (t_segmented s) (getUid endpoint) (proj1 Hseg))
    as (m & -> & Hm & Hent). ostep.
  match goal with |- context [set_endpoints (vm_erase (m_endpoints ?s1') it)] => set (s1 := s1') in * end.
  destruct (Hafter s1 eq_refl) as [Hwf Hch]. eexists. split; [done|]. split; [exact Hwf|].
  split; [|split; [exact Hch|done]]. split; [|exact Hd0].
  match goal with |- ports_wf ?s' => set (s2 := s') in * end.
  assert (getUid endpoint :: channel_uids s2 ≡ₚ channel_uids s) as Hp2.
  { unfold channel_uids. rewrite Hch. by apply (discarded_uid s service endpoint it). }
  assert (NoDup (getUid endpoint :: channel_uids s2)) as Hnd2 by (by rewrite Hp2).
  apply NoDup_cons in Hnd2 as [Hnin Hnd2].
  unfold ports_wf. split_and!.
  - simpl. by eapply SegmentedMessages.keys_filter_NoDup.
  - simpl. apply (Permutation_cons_inv (a := getUid endpoint)). rewrite Hp2, <-Hperm.
    apply deleteElement_perm. rewrite Hperm, <-Hp2. by left.
  - done.
  - simpl. apply Forall_forall. intros x Hx.
    apply (proj1 (Forall_forall _ _) Hlt). rewrite <-Hp2. by right.
  - simpl. rewrite Hent. apply Forall_forall. intros e [Hne He]%list_elem_of_filter.
    apply (proj1 (Forall_forall _ _) Hpub) in He. simpl in He. rewrite <-Hp2 in He.
    by apply elem_of_cons in He as [?|?].
Qed.

#[export] Instance T2I_channel_functions d0 : ChannelFunctions (ports_of d0) setupChannel deleteChannel.
Proof.
  split.
  - intros. destruct (setupChannel_spec d0 service s) as (s' & e & ? & ? & ? & ? & ? & _); [done..|]. by exists s', e.
  - intros. destruct (deleteChannel_spec d0 service s) as (s' & ? & ? & ? & ? & _); [done..|]. by exists s'.
Qed.

(** The publishers that exist at a point of time are told apart from those that
    are created later. *)
Definition ports_since (d0 : DiscoveryManager) (n : UniquePortId) (old : list (ClassHash * Endpoint)) s : Prop :=
  ports_of d0 s ∧ n ≤ t_nextPort s ∧ ∀ c, c ∈ channels s → c ∈ old ∨ n ≤ getUid c.2.

Lemma ports_since_functions d0 n old : ChannelFunctions (ports_since d0 n old) setupChannel deleteChannel.
Proof.
  split; intros service s Hs (Hp & Hn & Hold) Hk.
  - intros Hl. destruct (setupChannel_spec d0 service s Hs Hp Hk Hl)
      as (s' & e & ? & ? & ? & ? & Hch & Hu & Hn'). exists s', e. split_and!; [done..| |done|done].
    split; [done|]. split; [lia|]. intros c. rewrite Hch.
    intros [Hc|Hc%list_elem_of_singleton]%elem_of_app; [by apply Hold|]. subst c. right. cbn. lia.
  - destruct (deleteChannel_spec d0 service s Hs Hp Hk) as (s' & ? & ? & ? & Hch & Hn').
    exists s'. split_and!; [done..| |done]. split; [done|]. split; [lia|]. intros c. rewrite Hch.
    intros [_ Hc]%list_elem_of_filter. by apply Hold.
Qed.
End channels.

(** ** Lemmas: copying a segment into its chunk *)

(** [buf'] is [buf] with [data] at [offset]. *)
Definition overwritten (buf buf' : bytes) (offset : nat) (data : bytes) : Prop :=
  length buf' = length buf ∧
  ∀ i, buf' !! i = if decide (offset ≤ i < offset + length data)%nat
                   then data !! (i - offset)%nat else buf !! i.

Lemma memcpy_overwritten buf offset data rest :
  (offset + length data ≤ length buf)%nat →
  ∃ buf', neonMemcpy buf offset (data ++ rest) 0 (length data) = Ok buf' ∧
          overwritten buf buf' offset data.
Proof.
  intros Hl. unfold neonMemcpy. eexists.
  assert (memcpy buf offset (data ++ rest) 0 (length data) =
    Ok (list_inserts offset (take (length data) (drop 0 (data ++ rest))) buf)) as He.
  { apply memcpy_total; [done|]. rewrite length_app. lia. }
  split; [exact He|]. split; [by eapply memcpy_length|].
  intros i. rewrite (memcpy_lookup _ _ _ _ _ _ i He). case_decide as Hi; [|done].
  rewrite lookup_app_l by lia. f_equal.
Qed.

(** Where a segment goes: an object, an offset in it and the object's size. *)
Definition segment_target (h : IoxChunkDatagramHeader_t) (userHeader userPayload : Ptr) : Ptr * Z :=
  if submessageOffset h <? userHeaderSize h then (userHeader, submessageOffset h)
  else (userPayload, submessageOffset h - userHeaderSize h).

Lemma takeNext_spec h data rest userHeader userPayload mem buf ptr offset :
  segment_target h userHeader userPayload = (ptr, offset) →
  0 ≤ submessageOffset h → submessageSize h = Z.of_nat (length data) →
  ptr ≠ nullptr → mem !! ptr = Some buf →
  offset + Z.of_nat (length data) ≤ Z.of_nat (length buf) →
  ∃ buf', takeNext h (data ++ rest) userHeader userPayload mem = Ok (<[ptr := buf']> mem) ∧
          overwritten buf buf' (Z.to_nat offset) data.
Proof.
  unfold segment_target, takeNext. intros Ht Ho Hs Hne Hbuf Hfit.
  destruct (Z.ltb_spec (submessageOffset h) (userHeaderSize h)) as [Hlt|Hge];
    injection Ht as -> <-; rewrite (proj2 (Z.eqb_neq _ _)) by done; cbn [negb]; rewrite Hbuf; ostep;
    rewrite Hs, Nat2Z.id.
  - destruct (memcpy_overwritten buf (Z.to_nat (submessageOffset h)) data rest) as (buf' & -> & Ho');
      [lia|]. ostep. by exists buf'.
  - destruct (memcpy_overwritten buf (Z.to_nat (submessageOffset h - userHeaderSize h)) data rest)
      as (buf' & -> & Ho'); [lia|]. ostep. by exists buf'.
Qed.

(** A segment that would not fit its object is an out-of-bounds write. *)
Lemma takeNext_out_of_bounds h data userHeader userPayload mem buf ptr offset :
  segment_target h userHeader userPayload = (ptr, offset) →
  0 ≤ submessageOffset h → 0 ≤ submessageSize h →
  ptr ≠ nullptr → mem !! ptr = Some buf →
  Z.of_nat (length buf) < offset + submessageSize h →
  takeNext h data userHeader userPayload mem = UndefinedBehaviour.
Proof.
  unfold segment_target, takeNext. intros Ht Ho Hs Hne Hbuf Hfit.
  destruct (Z.ltb_spec (submessageOffset h) (userHeaderSize h)) as [Hlt|Hge];
    injection Ht as -> <-; rewrite (proj2 (Z.eqb_neq _ _)) by done; cbn [negb]; rewrite Hbuf; ostep;
    unfold neonMemcpy, memcpy; rewrite decide_False by lia; done.
Qed.

(** ** Lemmas: receiving a datagram *)

Section receiving.
Context `{IoxSpec} `{IoxPosh}.
Implicit Types (s : T2I) (h : IoxChunkDatagramHeader_t) (mem data rest : bytes).

Definition headerSize : Z := Z.of_nat maxIoxChunkDatagramHeaderSerializationSize.

Lemma headerSize_small : 0 < headerSize < 2 ^ 31.
Proof.
  unfold headerSize, maxIoxChunkDatagramHeaderSerializationSize.
  pose proof CLASS_HASH_ELEMENT_COUNT_bound. lia.
Qed.

(** The check of the size is exact, although the sum is taken in 32 bits. *)
Lemma size_check_exact h (size : nat) :
  is_u32 (submessageSize h) → headerSize ≤ Z.of_nat size →
  (Z.of_nat size =? wrap32 (submessageSize h + headerSize)) =
    (Z.of_nat size =? submessageSize h + headerSize) && (Z.of_nat size <? 2 ^ 32).
Proof.
  intros Hu Hs. pose proof headerSize_small as Hh. unfold is_u32, wrap32 in *.
  destruct (decide (submessageSize h + headerSize < 2 ^ 32)) as [Hlt|Hge].
  - rewrite Z.mod_small by lia.
    destruct (Z.eqb_spec (Z.of_nat size) (submessageSize h + headerSize)); [|done].
    symmetry. apply Z.ltb_lt. lia.
  - assert ((submessageSize h + headerSize) mod 2 ^ 32 = submessageSize h + headerSize - 2 ^ 32) as ->.
    { symmetry. apply (Z.mod_unique _ _ 1); lia. }
    destruct (Z.eqb_spec (Z.of_nat size) (submessageSize h + headerSize - 2 ^ 32)); [lia|].
    destruct (Z.eqb_spec (Z.of_nat size) (submessageSize h + headerSize)); [|done].
    symmetry. apply Z.ltb_ge. lia.
Qed.

(** What [receive] does with a well-formed datagram. *)
Lemma receive_datagram h data rest deviceIndex loan now s :
  valid_Header h → submessageSize h = Z.of_nat (length data) →
  headerSize + Z.of_nat (length data) < 2 ^ 32 →
  receive (header_bytes h ++ data ++ rest)
    (maxIoxChunkDatagramHeaderSerializationSize + length data) deviceIndex loan now s =
  doForChannel (serviceHash h) (receive_in_channel h (data ++ rest) deviceIndex loan now) s.
Proof.
  intros Hv Hs Hlim. unfold receive.
  rewrite deserialize_header_bytes by (done || lia). ostep. fold headerSize.
  rewrite size_check_exact; [|apply Hv|unfold headerSize; lia].
  rewrite (proj2 (Z.eqb_eq _ _)), (proj2 (Z.ltb_lt _ _)) by (unfold headerSize in *; lia).
  cbn [negb andb].
  destruct (serialize_header_bytes h Hv) as [_ Hl].
  unfold headerSize. rewrite Nat2Z.id, <-Hl. by rewrite drop_app_length.
Qed.

Lemma store_segment_spec publisher h data rest deviceIndex userHeader userPayload s ptr offset buf :
  segment_target h userHeader userPayload = (ptr, offset) →
  0 ≤ submessageOffset h → submessageSize h = Z.of_nat (length data) →
  userPayload ≠ nullptr → ptr ≠ nullptr → t_memory s !! ptr = Some buf →
  offset + Z.of_nat (length data) ≤ Z.of_nat (length buf) →
  ∃ buf', overwritten buf buf' (Z.to_nat offset) data ∧
    store_segment publisher h (data ++ rest) deviceIndex userHeader userPayload false s =
      Ok (t_set_memory (<[ptr := buf']> (t_memory s)) s) ∧
    store_segment publisher h (data ++ rest) deviceIndex userHeader userPayload true s =
      publish publisher userPayload
        (t_set_forwarder
           (TransportForwarder.push (t_forwarder s) userPayload (serviceHash h) deviceIndex)
           (t_set_memory (<[ptr := buf']> (t_memory s)) s)).
Proof.
  intros Ht Ho Hs Hne Hpne Hbuf Hfit.
  destruct (takeNext_spec h data rest userHeader userPayload (t_memory s) buf ptr offset)
    as (buf' & Htake & Hover); [done..|].
  exists buf'. split; [done|]. unfold store_segment.
  rewrite (proj2 (Z.eqb_neq _ _)) by done. cbn [negb]. rewrite Htake. ostep. done.
Qed.
End receiving.

(** ** Properties *)

Section properties.
Context `{IoxSpec} `{IoxPosh}.

(** Updating the channels keeps the receiving gateway consistent: there is exactly
    one publisher per needed service, the discovery manager ignores exactly the
    identifiers of these publishers, and no segmented message is left whose publisher
    has been destroyed. *)
Theorem channels_stay_consistent (s : T2I) (services : list ServiceDescription) :
  (MAX_TOPICS ≤ MAX_PUBLISHERS)%nat →
  channels_wf s → ports_wf s → NoDup services → (length services ≤ MAX_TOPICS)%nat →
  no_collisions (services ++ channel_services s) →
  ∃ s', updateChannels services s = Ok s' ∧ channels_wf s' ∧
    channel_services s' ≡ₚ services ∧
    m_gatewayPublisherUids (t_discovery s') ≡ₚ channel_uids s' ∧ NoDup (channel_uids s') ∧
    Forall (fun e => SegmentedMessages.sm_publisher e.2 ∈ channel_uids s') (entries (t_segmented s')).
Proof.
  intros Hpubs Hs Hp Hnd Hl Hcol. pose proof (T2I_channel_functions Hpubs).
  destruct (update_channels_spec (ports_of (t_discovery s)) setupChannel deleteChannel services s)
    as (s' & new & He & Hwf & ((_ & ? & ? & _ & ?) & _) & _ & _ & ?); [done..|].
  exists s'. by split_and!.
Qed.

(** For every received buffer that holds a header, the size check accepts exactly
    the buffers whose size is the header's plus the announced segment size, even where
    the 32-bit sum wraps around, so that copying the segment never reads beyond the
    datagram; a buffer that fails the check is ignored. *)
Theorem received_size_exact (mem : bytes) (size : nat) (deviceIndex : DeviceIndex_t)
    (loan : option Loan) (now : Z) (s : T2I) :
  (size ≤ length mem)%nat → (maxIoxChunkDatagramHeaderSerializationSize ≤ size)%nat →
  Z.of_nat size < 2 ^ 32 →
  ∃ h, deserialize_Header mem size = Ok (h, headerSize) ∧ valid_Header h ∧
    (Z.of_nat size = submessageSize h + headerSize →
       submessageSize h = Z.of_nat (length (take (size - Z.to_nat headerSize) (drop (Z.to_nat headerSize) mem))) ∧
       receive mem size deviceIndex loan now s =
         doForChannel (serviceHash h)
           (receive_in_channel h (drop (Z.to_nat headerSize) mem) deviceIndex loan now) s) ∧
    (Z.of_nat size ≠ submessageSize h + headerSize → receive mem size deviceIndex loan now s = Ok s).
Proof.
  intros Hm Hs Hlim. pose proof (deserialize_Header_spec mem size Hm) as Hdes. cbn zeta in Hdes.
  rewrite decide_True in Hdes by done. destruct Hdes as (h & Hdes & Hv & _).
  exists h. fold headerSize in Hdes. unfold receive. rewrite Hdes. ostep.
  assert (is_u32 (submessageSize h)) as Hu by apply Hv.
  rewrite size_check_exact by (done || unfold headerSize; lia).
  rewrite (proj2 (Z.ltb_lt _ _) Hlim), andb_true_r. split_and!; [done..| |].
  - intros Heq. rewrite (proj2 (Z.eqb_eq _ _)) by done. split; [|done].
    rewrite length_take, length_drop. unfold headerSize in *. lia.
  - intros Hne. by rewrite (proj2 (Z.eqb_neq _ _)).
Qed.

(** The announced place of a segment is not checked against the chunk: a received
    single-segment message that announces a place beyond the payload it asks for makes
    the gateway write outside the loaned chunk. *)
Theorem segment_place_unchecked (h : IoxChunkDatagramHeader_t) (data rest : bytes)
    (deviceIndex : DeviceIndex_t) (l : Loan) (now : Z) (s : T2I) (publisher : Endpoint) :
  valid_Header h → submessageSize h = Z.of_nat (length data) → submessageCount h = 1 →
  headerSize + Z.of_nat (length data) < 2 ^ 32 →
  channels_wf s → channel_at s (serviceHash h) publisher →
  SegmentedMessages.segmented_wf (t_segmented s) → to_map (t_segmented s) !! messageHash h = None →
  loan_ok (userPayloadSize h) (userHeaderSize h) l (t_memory s) →
  userHeaderSize h ≤ submessageOffset h →
  userHeaderSize h + userPayloadSize h < submessageOffset h + submessageSize h →
  receive (header_bytes h ++ data ++ rest)
    (maxIoxChunkDatagramHeaderSerializationSize + length data) deviceIndex (Some l) now s
  = UndefinedBehaviour.
Proof.
  intros Hv Hsize Hcount Hlim Hs Hch Hseg Hnew (Hp & Hup & Hne & Hfresh & _ & Hlen & _) Hoff Hbeyond.
  rewrite receive_datagram by done. rewrite (doForChannel_found _ publisher) by done.
  unfold receive_in_channel.
  destruct (SegmentedMessages.findAndDecrement_spec (t_segmented s) (messageHash h) Hseg)
    as (m' & _ & Hf). rewrite Hnew in Hf. destruct Hf as [-> ->]. ostep. rewrite Hcount.
  cbn [Z.ltb Z.compare Pos.compare Pos.compare_cont]. unfold store_segment.
  rewrite (proj2 (Z.eqb_neq _ _)) by done. cbn [negb].
  erewrite takeNext_out_of_bounds; [done| | | | | |].
  - unfold segment_target. rewrite (proj2 (Z.ltb_ge _ _)) by done. reflexivity.
  - unfold valid_Header, is_u32 in Hv. lia.
  - lia.
  - done.
  - simpl. unfold allocate. destruct (hasUserHeader h);
      [rewrite lookup_insert_ne by done|]; apply lookup_insert_eq.
  - rewrite Hsize, Hlen in *. lia.
Qed.
End properties.

(** ** Witnesses *)

Definition example_posh : IoxPosh := {| userHeaderOf := fun p => p + 1; MAX_PUBLISHERS := 512 |}.

Definition example_publisher : Endpoint := mkEndpoint (svc Init.Byte.x41) 50.

(** One channel, no message under way. *)
Definition example_t2i : T2I :=
  mkT2I (mkMap [hash_of Init.Byte.x41] [example_publisher]) vm_empty
    (@TransportForwarder.TransportForwarder_init ref_iox []) example_discovery ∅ [] [] 51.

Lemma example_t2i_channels : @channels_wf ref_iox _ _ example_t2i.
Proof.
  split; [split; simpl; unfold MAX_TOPICS; lia|]. split; [apply NoDup_singleton|].
  apply Forall_singleton. reflexivity.
Qed.

Lemma example_t2i_channel : channel_at example_t2i (hash_of Init.Byte.x41) example_publisher.
Proof. by left. Qed.

Lemma example_t2i_ports : ports_wf example_t2i.
Proof.
  split; [apply SegmentedMessages.segmented_empty_wf|]. split; [done|].
  split; [apply NoDup_singleton|]. split; [apply Forall_singleton; simpl; lia|constructor].
Qed.

Lemma channels_stay_consistent_witness :
  let services := [svc Init.Byte.x42; svc Init.Byte.x43] in
  ∃ s', @updateChannels ref_iox example_posh services example_t2i = Ok s' ∧
    @channels_wf ref_iox _ _ s' ∧ channel_services s' ≡ₚ services ∧
    m_gatewayPublisherUids (t_discovery s') ≡ₚ channel_uids s' ∧ NoDup (channel_uids s') ∧
    Forall (fun e => SegmentedMessages.sm_publisher e.2 ∈ channel_uids s') (entries (t_segmented s')).
Proof.
  intros services.
  apply (@channels_stay_consistent ref_iox ref_iox_spec example_posh example_t2i services).
  - unfold MAX_TOPICS. simpl. lia.
  - exact example_t2i_channels.
  - exact example_t2i_ports.
  - apply (bool_decide_unpack _). vm_compute. exact I.
  - unfold MAX_TOPICS. simpl. lia.
  - apply no_collisions_Forall. apply (bool_decide_unpack _). vm_compute. exact I.
Defined.

(** A single segment of eight bytes for a payload of sixteen, at offset
    [offset]. *)
Definition single_segment (offset : Z) : IoxChunkDatagramHeader_t :=
  mkHeader (hash_of Init.Byte.x41) 77 1 offset 8 16 8 0.

(** The first of two segments of eight bytes. *)
Definition first_of_two : IoxChunkDatagramHeader_t := mkHeader (hash_of Init.Byte.x41) 77 2 0 8 16 8 0.

Definition example_loan : Loan := mkLoan 640 (replicate 16 Init.Byte.x00) [].

Lemma received_size_exact_witness :
  let mem := @header_bytes ref_iox (single_segment 0) ++ replicate 8 Init.Byte.xcc in
  (52 ≤ length mem)%nat ∧
  ∃ h, @deserialize_Header ref_iox mem 52 = Ok (h, 44) ∧
    (Z.of_nat 52 ≠ submessageSize h + 44 →
     @receive ref_iox example_posh mem 52 (mkDeviceIndex UDP 0) None 0 example_t2i = Ok example_t2i).
Proof.
  intros mem. assert (52 ≤ length mem)%nat as Hl by (vm_compute; lia).
  split; [exact Hl|].
  destruct (@received_size_exact ref_iox ref_iox_spec example_posh mem 52 (mkDeviceIndex UDP 0)
    None 0 example_t2i Hl) as (h & Hdes & _ & _ & Hbad).
  - vm_compute. lia.
  - simpl. lia.
  - exists h. split; [exact Hdes|exact Hbad].
Defined.

Lemma segment_place_unchecked_witness :
  let h := single_segment 12 in
  @receive ref_iox example_posh (@header_bytes ref_iox h ++ replicate 8 Init.Byte.xcc ++ [])
    (44 + 8) (mkDeviceIndex UDP 0) (Some example_loan) 0 example_t2i = UndefinedBehaviour.
Proof.
  intros h.
  apply (@segment_place_unchecked ref_iox ref_iox_spec example_posh h (replicate 8 Init.Byte.xcc) []
           (mkDeviceIndex UDP 0) example_loan 0 example_t2i example_publisher).
  - apply (bool_decide_unpack _). vm_compute. exact I.
  - reflexivity.
  - reflexivity.
  - vm_compute. reflexivity.
  - exact example_t2i_channels.
  - exact example_t2i_channel.
  - apply SegmentedMessages.segmented_empty_wf.
  - reflexivity.
  - split_and!; try done; lia.
  - simpl. lia.
  - simpl. lia.
Defined.
