(* ===== verification/Expiry.v ===== *)
(** * Expiry: releasing late messages while other threads run

    [SegmentedMessageManager::checkSegmentedMessages] of
    source/p3com/generic/segmented_messages.cpp, run by the main loop of
    gateway_app.cpp, is not one critical section: under [m_mutex] it takes one
    expired message out of the list, and afterwards, under the mutex of the
    channels, it hands the chunk back through the publisher it has copied.  In
    between the callbacks of the transports and [updateChannels] may run, each
    of which holds the mutex of the channels from its beginning to its end. *)

From stdpp Require Import base list gmap.
From S2P Require Import Prelude.
From S2P Require Import Iox.
From S2P Require Import Types.
From S2P Require Import VectorMap.
From S2P Require Import Serialization.
From S2P Require Import Discovery.
From S2P Require Import Gateway.
From S2P Require Import Chunks.
From S2P Require Import TransportToIox.
From S2P Require TransportForwarder.
From S2P Require SegmentedMessages.
From Stdlib Require Import Permutation.

Open Scope Z_scope.

(** The gateway, and what the main loop holds between the critical sections. *)
Abbreviation Config := (T2I * option SegmentedMessages.SegmentedMessage_t)%type.

Section operations.
Context `{Iox} `{IoxPosh}.
Implicit Types (s : T2I) (msg : SegmentedMessages.SegmentedMessage_t).

(** The first critical section: the message to release, if there is one. *)
Definition take_expired (now : Z) s : Outcome (T2I * option SegmentedMessages.SegmentedMessage_t) :=
  let m := t_segmented s in
  let msgIt := find_if (SegmentedMessages.expired now) (m_elems m) in
  if negb (msgIt =? vm_end m)%nat then
    msgToRelease ← deref (vm_at m msgIt);
    Ok (t_set_segmented (vm_erase m msgIt) s, Some msgToRelease)
  else Ok (s, None).

(** The second one: [msgToRelease->publisher->release(...)], a call on an object
    that exists only while the channel does. *)
Definition release_expired msg s : Outcome T2I :=
  if bool_decide (SegmentedMessages.sm_publisher msg ∈ channel_uids s)
  then Ok (record_calls [SegmentedMessages.release_call msg] s) else UndefinedBehaviour.

(** The loop, when nothing runs in between. *)
Fixpoint check_in_steps (fuel : nat) (now : Z) s : Outcome T2I :=
  match fuel with
  | O => OutOfFuel
  | S fuel =>
      '(s, msgToRelease) ← take_expired now s;
      match msgToRelease with
      | Some msg => s ← release_expired msg s; check_in_steps fuel now s
      | None => Ok s
      end
  end.

(** ** The threads *)

(** Whether [publisher.loan] is called for the header [h]. *)
Definition loan_called (h : IoxChunkDatagramHeader_t) s : bool :=
  negb (vm_find (t_endpoints s) (serviceHash h) =? vm_end (t_endpoints s))%nat &&
  (vm_find (t_segmented s) (messageHash h) =? vm_end (t_segmented s))%nat.

(** The chunks that a callback takes from iceoryx. *)
Definition taken_for (h : IoxChunkDatagramHeader_t) (loan : option Loan) s : list Ptr :=
  if loan_called h s then match loan with Some l => [loan_userPayload l] | None => [] end else [].

Definition taken_by_receive (mem : bytes) (size : nat) (loan : option Loan) s : list Ptr :=
  match deserialize_Header mem size with
  | Ok (h, n) => if Z.of_nat size =? wrap32 (submessageSize h + n) then taken_for h loan s else []
  | _ => []
  end.

Definition taken_by_loanBuffer (mem : bytes) (size : nat) (loan : option Loan) s : list Ptr :=
  match deserialize_Header mem size with Ok (h, _) => taken_for h loan s | _ => [] end.

(** The first index is the list of chunks taken from iceoryx. *)
Inductive expiry_step : list Ptr → Config → Config → Prop :=
  | step_take now s s' found :
      take_expired now s = Ok (s', found) → expiry_step [] (s, None) (s', found)
  | step_release msg s s' :
      release_expired msg s = Ok s' → expiry_step [] (s, Some msg) (s', None)
  | step_receive mem size deviceIndex loan now s s' taken :
      receive mem size deviceIndex loan now s = Ok s' →
      expiry_step (taken_by_receive mem size loan s) (s, taken) (s', taken)
  | step_loanBuffer mem size loan now s s' buffer taken :
      loanBuffer mem size loan now s = Ok (s', buffer) →
      expiry_step (taken_by_loanBuffer mem size loan s) (s, taken) (s', taken)
  | step_releaseBuffer mem size shouldRelease deviceIndex s s' taken :
      releaseBuffer mem size shouldRelease deviceIndex s = Ok s' → expiry_step [] (s, taken) (s', taken)
  | step_updateChannels services s s' taken :
      updateChannels services s = Ok s' → expiry_step [] (s, taken) (s', taken).

Inductive expiry_run : list Ptr → Config → Config → Prop :=
  | run_done c : expiry_run [] c c
  | run_step loans used c1 c2 c3 :
      expiry_run loans c1 c2 → expiry_step used c2 c3 → expiry_run (loans ++ used) c1 c3.
End operations.

(** ** Lemmas: the loop without interruption *)

Section sequential.
Context `{IoxSpec} `{IoxPosh}.
Implicit Types (s : T2I).

Lemma check_in_steps_eq fuel now s m calls :
  SegmentedMessages.checkSegmentedMessages fuel now (t_segmented s) = Ok (m, calls) →
  vm_wf SegmentedMessages.MAX_SEGMENTED_MESSAGE_COUNT (t_segmented s) →
  Forall (fun e => SegmentedMessages.sm_publisher e.2 ∈ channel_uids s) (entries (t_segmented s)) →
  check_in_steps fuel now s = Ok (record_calls calls (t_set_segmented m s)).
Proof.
  revert s m calls. induction fuel as [|fuel IH]; intros s m calls Hc Hwf Hall; [done|].
  cbn [check_in_steps SegmentedMessages.checkSegmentedMessages] in *. unfold take_expired.
  destruct (negb _) eqn:Hend.
  2:{ injection Hc as <- <-. ostep. unfold record_calls. cbn. rewrite app_nil_r. by destruct s. }
  apply bind_Ok in Hc as (msg & Hat & Hc). apply deref_Ok in Hat. rewrite Hat. ostep.
  apply bind_Ok in Hc as ([m1 calls1] & Hc & [= <- <-]).
  destruct (SegmentedMessages.vm_at_entry _ _ _ Hwf Hat) as [k Hent].
  pose proof (SegmentedMessages.entries_vm_at _ _ _ _ Hent) as [_ Hlt].
  assert (SegmentedMessages.sm_publisher msg ∈ channel_uids s) as Hpub.
  { rewrite Forall_forall in Hall. apply (Hall (k, msg)). by eapply list_elem_of_lookup_2. }
  unfold release_expired. rewrite bool_decide_true by done. ostep.
  rewrite (IH _ m1 calls1); [|done|by apply vm_erase_wf|].
  - unfold record_calls. cbn. by rewrite <-app_assoc.
  - cbn [t_segmented record_calls t_set_segmented]. rewrite (entries_erase_delete _ _ _ Hwf Hlt). by apply Forall_delete.
Qed.
End sequential.

(** ** Lemmas: the chunks *)

Section chunks.
Context `{IoxSpec} `{IoxPosh}.
Implicit Types (s : T2I) (m : SegmentedMessages.SegmentedMessageManager).

Abbreviation list_wf s := (vm_wf SegmentedMessages.MAX_SEGMENTED_MESSAGE_COUNT (t_segmented s)).

(** The chunks that were given back to iceoryx, and those the list holds. *)
Definition accounted s : list Ptr :=
  SegmentedMessages.released_by (t_calls s) ++ SegmentedMessages.held (t_segmented s).

(** [s'] accounts for the chunks [extra] on top of those of [s]. *)
Definition accounts (extra : list Ptr) s s' : Prop :=
  list_wf s → Forall (.≠ nullptr) (extra ++ accounted s) → list_wf s' ∧ accounted s' ≡ₚ extra ++ accounted s.

Lemma accounts_refl s : accounts [] s s.
Proof. by intros Hwf Hnn. Qed.

Lemma accounts_trans extra s1 s2 s3 : accounts extra s1 s2 → accounts [] s2 s3 → accounts extra s1 s3.
Proof.
  intros H12 H23 Hwf Hnn. destruct (H12 Hwf Hnn) as [Hwf2 Hp2].
  destruct (H23 Hwf2) as [Hwf3 Hp3]; [by rewrite Hp2|]. split; [done|]. by rewrite Hp3.
Qed.

#[export] Instance accounts_preorder : PreOrder (accounts []).
Proof. split; [exact accounts_refl|]. intros s1 s2 s3. apply accounts_trans. Qed.

Lemma released_app a b :
  SegmentedMessages.released_by (a ++ b) = SegmentedMessages.released_by a ++ SegmentedMessages.released_by b.
Proof. apply fmap_app. Qed.

(** Handing over to the list of segmented messages. *)
Lemma accounts_list (l : SegmentedMessages.SegmentedLabel) calls s m :
  SegmentedMessages.segmented_step (t_segmented s) l m →
  SegmentedMessages.given_up l = SegmentedMessages.released_by calls →
  accounts (SegmentedMessages.taken_in l) s (record_calls calls (t_set_segmented m s)).
Proof.
  intros Hst Hg Hwf _. destruct (SegmentedMessages.segmented_step_held _ _ _ Hwf Hst) as [Hwf' Hp].
  split; [done|]. unfold accounted. cbn. rewrite Hg in Hp.
  rewrite released_app, <-app_assoc, <-Hp. apply Permutation_app_swap_app.
Qed.
(** The list as an optional update of the entry [k]. *)
Lemma counted m (k : hash_t) m' found :
  SegmentedMessages.findAndDecrement m k = Ok (m', found) →
  vm_wf SegmentedMessages.MAX_SEGMENTED_MESSAGE_COUNT m →
  vm_wf SegmentedMessages.MAX_SEGMENTED_MESSAGE_COUNT m' ∧
  SegmentedMessages.held m ≡ₚ
    SegmentedMessages.given_up (SegmentedMessages.LFindAndDecrement k found) ++ SegmentedMessages.held m' ∧
  (vm_find m k =? vm_end m)%nat = match found with Some _ => false | None => true end ∧
  (found = None → m' = m).
Proof.
  intros Hf Hm.
  destruct (SegmentedMessages.segmented_step_held m (SegmentedMessages.LFindAndDecrement k found) m') as [Hm' Hp];
    [done|by constructor|]. split; [done|]. split; [exact Hp|].
  unfold SegmentedMessages.findAndDecrement in Hf. destruct (vm_find m k =? vm_end m)%nat.
  - by injection Hf as <- <-.
  - cbn [negb] in Hf. apply bind_Ok in Hf as (msg & _ & Hf).
    cbv zeta in Hf. case_match; injection Hf as <- <-; by split.
Qed.

Lemma publish_calls publisher p s s' :
  publish publisher p s = Ok s' →
  t_segmented s' = t_segmented s ∧ t_calls s' = t_calls s ++ [PublisherPublish (getUid publisher) p].
Proof. by intros (payload & _ & [= <-])%bind_Ok. Qed.

Lemma publish_accounts publisher p s s' :
  publish publisher p s = Ok s' → t_segmented s' = t_segmented s ∧ accounted s' ≡ₚ p :: accounted s.
Proof.
  intros [Hseg Hcalls]%publish_calls. split; [done|]. unfold accounted.
  rewrite Hseg, Hcalls, released_app, <-app_assoc. apply Permutation_app_swap_app.
Qed.

(** Storing a segment gives the chunk away when it is the last one. *)
Lemma store_accounts publisher h data deviceIndex userHeader userPayload shouldPublish s s' :
  store_segment publisher h data deviceIndex userHeader userPayload shouldPublish s = Ok s' →
  (shouldPublish = true → userPayload ≠ nullptr) →
  t_segmented s' = t_segmented s ∧
  accounted s' ≡ₚ (if shouldPublish then [userPayload] else []) ++ accounted s.
Proof.
  unfold store_segment. destruct (Z.eqb_spec userPayload nullptr) as [Hz|Hz]; cbn [negb].
  - intros [= <-] Hnn. split; [done|]. destruct shouldPublish; [by destruct Hnn|done].
  - intros (mem & _ & Hrest)%bind_Ok _. destruct shouldPublish.
    + by apply publish_accounts in Hrest as [-> ->].
    + by injection Hrest as <-.
Qed.

Lemma accounted_counted s m gone :
  SegmentedMessages.held (t_segmented s) ≡ₚ gone ++ SegmentedMessages.held m →
  accounted s ≡ₚ gone ++ accounted (t_set_segmented m s).
Proof.
  intros Hheld. unfold accounted. cbn [t_calls t_segmented t_set_segmented]. rewrite Hheld.
  apply Permutation_app_swap_app.
Qed.

(** A message is known, or a chunk is loaned for it. *)
Definition taken_new (h : IoxChunkDatagramHeader_t) (loan : option Loan) s : list Ptr :=
  if (vm_find (t_segmented s) (messageHash h) =? vm_end (t_segmented s))%nat
  then match loan with Some l => [loan_userPayload l] | None => [] end else [].

Lemma push_segmented_accounts publisher n h now userHeader p s :
  accounts [p] s (push_segmented publisher n h now userHeader p s).
Proof.
  unfold push_segmented. destruct (SegmentedMessages.push _ _ _) as [m calls] eqn:Hp.
  apply (accounts_list (SegmentedMessages.LPush _ _ _) calls s m (SegmentedMessages.sstep_push _ _ _ _ _ Hp)). done.
Qed.

Lemma receive_in_channel_accounts h data deviceIndex loan now publisher s s' :
  receive_in_channel h data deviceIndex loan now publisher s = Ok s' → accounts (taken_new h loan s) s s'.
Proof.
  intros ([m found] & Hf & Hrest)%bind_Ok Hwf Hnn.
  destruct (counted _ _ _ _ Hf Hwf) as (Hwf' & Hheld & Hend & Hsame).
  unfold taken_new in *. rewrite Hend in *. destruct found as [[[userHeader userPayload] last]|].
  - assert (accounted s ≡ₚ (if last then [userPayload] else []) ++ accounted (t_set_segmented m s)) as Hacc.
    { rewrite (accounted_counted _ _ _ Hheld). by destruct last. }
    apply store_accounts in Hrest as [Hseg Hcalls].
    + rewrite Hseg. split; [exact Hwf'|]. by rewrite Hcalls, <-Hacc.
    + intros ->. cbn [app] in Hnn. rewrite Hacc in Hnn. by apply Forall_cons in Hnn as [? _].
  - rewrite (Hsame eq_refl) in *. destruct loan as [l|]; [|by injection Hrest as <-].
    assert (loan_userPayload l ≠ nullptr) by (by apply Forall_cons in Hnn as [? _]).
    cbv zeta in Hrest. destruct (1 <? submessageCount h); apply store_accounts in Hrest as [Hseg Hcalls]; try done.
    + match type of Hseg with _ = t_segmented (push_segmented ?e ?n ?h ?now ?uh ?p ?s1) =>
        destruct (push_segmented_accounts e n h now uh p s1 Hwf Hnn) as [Hwf2 Hacc2] end.
      rewrite Hseg. split; [exact Hwf2|]. by rewrite Hcalls.
    + rewrite Hseg. by split.
Qed.

Lemma loan_in_channel_accounts h loan now publisher s s' buffer buffer' :
  loan_in_channel h loan now publisher (s, buffer) = Ok (s', buffer') → accounts (taken_new h loan s) s s'.
Proof.
  intros (found & Hf & Hrest)%bind_Ok. unfold taken_new. unfold SegmentedMessages.find in Hf.
  destruct (vm_find _ _ =? vm_end _)%nat.
  - injection Hf as <-. destruct loan as [l|]; injection Hrest as <- _; [|apply accounts_refl].
    intros Hwf Hnn. exact (push_segmented_accounts _ _ _ _ _ _ (t_set_memory _ s) Hwf Hnn).
  - cbn [negb] in Hf. apply bind_Ok in Hf as (msg & _ & [= <-]). injection Hrest as <- _. apply accounts_refl.
Qed.

Lemma release_in_channel_accounts h shouldRelease deviceIndex publisher s s' :
  release_in_channel h shouldRelease deviceIndex publisher s = Ok s' → accounts [] s s'.
Proof.
  intros Hrest. destruct shouldRelease.
  - apply bind_Ok in Hrest as ([m calls] & Hm & [= <-]).
    by apply (accounts_list (SegmentedMessages.LRelease _ _) calls s m (SegmentedMessages.sstep_release _ _ _ _ Hm)).
  - apply bind_Ok in Hrest as ([m found] & Hf & Hrest). intros Hwf Hnn.
    destruct (counted _ _ _ _ Hf Hwf) as (Hwf' & Hheld & _ & _).
    rewrite (accounted_counted _ _ _ Hheld). destruct found as [[[userHeader userPayload] []]|]; [|by injection Hrest as <-..].
    apply publish_accounts in Hrest as [Hseg Hcalls]. rewrite Hseg. split; [exact Hwf'|]. by rewrite Hcalls.
Qed.

(** *** Whole operations *)

Lemma doForChannel_taken {S} `{GatewayState S} hash (f : Endpoint → S → Outcome S) (s s' : S) :
  doForChannel hash f s = Ok s' →
  if negb (vm_find (m_endpoints s) hash =? vm_end (m_endpoints s))%nat
  then ∃ e, f e s = Ok s' else s' = s.
Proof.
  unfold doForChannel. destruct (negb _); [|by intros [= <-]].
  intros (e & _ & He)%bind_Ok. by exists e.
Qed.

Lemma taken_for_new h loan s :
  taken_for h loan s =
    if negb (vm_find (t_endpoints s) (serviceHash h) =? vm_end (t_endpoints s))%nat then taken_new h loan s else [].
Proof. unfold taken_for, loan_called, taken_new. by destruct (negb _). Qed.

Lemma receive_accounts mem size deviceIndex loan now s s' :
  receive mem size deviceIndex loan now s = Ok s' → accounts (taken_by_receive mem size loan s) s s'.
Proof.
  intros ([h n] & Hdes & Hrest)%bind_Ok. unfold taken_by_receive. rewrite Hdes.
  destruct (Z.of_nat size =? _); cbn [negb] in Hrest; [|injection Hrest as <-; apply accounts_refl].
  rewrite taken_for_new. apply doForChannel_taken in Hrest. cbn [m_endpoints T2I_gateway] in Hrest.
  destruct (negb _); [|subst; apply accounts_refl].
  destruct Hrest as [e He]. by eapply receive_in_channel_accounts.
Qed.

Lemma loanBuffer_accounts mem size loan now s s' buffer :
  loanBuffer mem size loan now s = Ok (s', buffer) → accounts (taken_by_loanBuffer mem size loan s) s s'.
Proof.
  intros ([h n] & Hdes & Hrest)%bind_Ok. unfold taken_by_loanBuffer. rewrite Hdes, taken_for_new.
  apply doForChannel_taken in Hrest. cbn [m_endpoints GatewayState_prod T2I_gateway fst] in Hrest.
  destruct (negb _); [|injection Hrest as -> _; apply accounts_refl].
  destruct Hrest as [e He]. by eapply loan_in_channel_accounts.
Qed.

Lemma releaseBuffer_accounts mem size shouldRelease deviceIndex s s' :
  releaseBuffer mem size shouldRelease deviceIndex s = Ok s' → accounts [] s s'.
Proof.
  intros ([h n] & _ & Hrest)%bind_Ok. apply doForChannel_taken in Hrest.
  destruct (negb _); [|subst; apply accounts_refl].
  destruct Hrest as [e He]. by eapply release_in_channel_accounts.
Qed.

Lemma updateChannels_accounts services s s' : updateChannels services s = Ok s' → accounts [] s s'.
Proof.
  intros (s1 & Hdel & Hset)%bind_Ok. transitivity s1.
  - apply (for_each_rel (accounts [])) in Hdel; [done|]. clear Hdel Hset s s' s1. intros service s s'.
    unfold deleteChannel, discardChannel. case_match; [intros [= <-]; apply accounts_refl|].
    intros (e & _ & (s2 & ([m calls] & Hm & [= <-])%bind_Ok & [= <-])%bind_Ok)%bind_Ok.
    by apply (accounts_list (SegmentedMessages.LReleaseAll _ _) calls s m
      (SegmentedMessages.sstep_releaseAll _ _ _ _ Hm)).
  - apply (for_each_rel (accounts [])) in Hset; [done|]. clear Hdel Hset s s' s1. intros service s s'.
    unfold setupChannel, addChannel. cbn [make_endpoint T2I_gateway].
    destruct (vm_emplace _ _ _ _) as [m emplaced]. destruct (negb emplaced); [by intros [= <-]|].
    by intros (e & _ & [= <-])%bind_Ok.
Qed.

Lemma take_expired_ports now s s1 msg :
  ports_wf s → take_expired now s = Ok (s1, Some msg) →
  ∃ m, s1 = t_set_segmented m s ∧ ports_wf s1.
Proof.
  unfold take_expired. intros ([Hm Hndk] & Hperm & Hnd & Hlt & Hpub) Htake.
  destruct (negb _) eqn:Hend; [|done]. apply bind_Ok in Htake as (msg' & Hat%deref_Ok & [= <- <-]).
  destruct (SegmentedMessages.vm_at_entry _ _ _ Hm Hat) as [k Hent].
  pose proof (SegmentedMessages.entries_vm_at _ _ _ _ Hent) as [_ Hle].
  eexists. split; [done|]. split_and!; [split|done..|].
  - by apply vm_erase_wf.
  - by eapply vm_erase_NoDup.
  - cbn [t_segmented t_set_segmented]. rewrite (entries_erase_delete _ _ _ Hm Hle). by apply Forall_delete.
Qed.

(** ** Lemma: a step *)

Definition in_flight (found : option SegmentedMessages.SegmentedMessage_t) : list Ptr :=
  match found with Some msg => [SegmentedMessages.sm_userPayload msg] | None => [] end.

(** Every chunk the gateway has to do with. *)
Definition owns (c : Config) : list Ptr := accounted c.1 ++ in_flight c.2.

Lemma take_expired_accounts now s s' found :
  take_expired now s = Ok (s', found) → list_wf s →
  list_wf s' ∧ accounted s ≡ₚ in_flight found ++ accounted s'.
Proof.
  unfold take_expired. intros Htake Hwf. destruct (negb _) eqn:Hend; [|by injection Htake as <- <-].
  apply bind_Ok in Htake as (msg & Hat%deref_Ok & [= <- <-]).
  destruct (SegmentedMessages.vm_at_entry _ _ _ Hwf Hat) as [k Hent].
  pose proof (SegmentedMessages.entries_vm_at _ _ _ _ Hent) as [_ Hlt].
  split; [by apply vm_erase_wf|]. apply accounted_counted. symmetry. exact (SegmentedMessages.held_erase _ _ _ _ Hwf Hent).
Qed.

Lemma expiry_step_owns used c c' :
  expiry_step used c c' → list_wf c.1 → Forall (.≠ nullptr) (used ++ owns c) →
  list_wf c'.1 ∧ owns c' ≡ₚ used ++ owns c.
Proof.
  intros Hst. assert (∀ used s s' taken, accounts used s s' → list_wf s →
    Forall (.≠ nullptr) (used ++ owns (s, taken)) → list_wf s' ∧ owns (s', taken) ≡ₚ used ++ owns (s, taken)) as Hacc.
  { intros u s s' taken Ha Hwf Hnn. unfold owns in *. cbn [fst snd] in *. rewrite app_assoc in Hnn |- *.
    apply Forall_app in Hnn as [Hnn _]. destruct (Ha Hwf Hnn) as [Hwf' Hp]. by rewrite Hp. }
  destruct Hst as [now s s' found Ht|msg s s' Hr|mem size dev loan now s s' taken Ho|mem size loan now s s' buffer taken Ho
    |mem size rel dev s s' taken Ho|services s s' taken Ho]; cbn [fst]; intros Hwf Hnn.
  - destruct (take_expired_accounts _ _ _ _ Ht Hwf) as [Hwf' Hp]. split; [done|].
    unfold owns. cbn [fst snd in_flight app]. rewrite Hp, app_nil_r. apply Permutation_app_comm.
  - unfold release_expired in Hr. case_bool_decide; [|done]. injection Hr as <-. split; [done|].
    unfold owns, accounted. cbn. rewrite released_app, !app_nil_r, <-!app_assoc. apply Permutation_app_head.
    apply Permutation_app_comm.
  - by apply Hacc; [apply receive_accounts in Ho|..].
  - by apply Hacc; [apply loanBuffer_accounts in Ho|..].
  - by apply Hacc; [apply releaseBuffer_accounts in Ho|..].
  - by apply Hacc; [apply updateChannels_accounts in Ho|..].
Qed.

Lemma expiry_run_owns loans c c' :
  expiry_run loans c c' → list_wf c.1 → Forall (.≠ nullptr) (loans ++ owns c) →
  list_wf c'.1 ∧ owns c' ≡ₚ loans ++ owns c.
Proof.
  intros Hrun Hwf. induction Hrun as [c|loans used c1 c2 c3 Hrun IH Hst]; [done|].
  intros ((Hnn1 & Hnn2)%Forall_app & Hnn)%Forall_app.
  destruct (IH Hwf) as [Hwf2 Hp]; [by apply Forall_app|].
  destruct (expiry_step_owns _ _ _ Hst Hwf2) as [Hwf3 Hp3].
  - rewrite Hp. by rewrite !Forall_app.
  - split; [done|]. rewrite Hp3, Hp, !app_assoc. apply Permutation_app_tail, Permutation_app_comm.
Qed.
End chunks.

(** ** Properties *)

Section properties.
Context `{IoxSpec} `{IoxPosh}.

(** C14: Releasing late messages in two critical sections loses no chunk and returns
    none twice, however the callbacks of the transports and the updates of the channels
    run in between: at any time, the chunks that the gateway has loaned are, each
    exactly once, those it has published or released, those the list holds, and the one
    the main loop has taken out of the list and not yet released. *)
Theorem chunks_conserved_while_expiring (loans : list Ptr) (s0 s : T2I)
    (msgToRelease : option SegmentedMessages.SegmentedMessage_t) :
  t_segmented s0 = vm_empty → t_calls s0 = [] → Forall (.≠ nullptr) loans →
  expiry_run loans (s0, None) (s, msgToRelease) →
  loans ≡ₚ SegmentedMessages.released_by (t_calls s) ++ SegmentedMessages.held (t_segmented s) ++
           in_flight msgToRelease.
Proof.
  intros Hm Hc Hnn Hrun.
  destruct (expiry_run_owns _ _ _ Hrun) as [_ Hp].
  - cbn [fst]. rewrite Hm. apply vm_empty_wf.
  - unfold owns, accounted. cbn [fst snd]. rewrite Hm, Hc. by rewrite app_nil_r.
  - unfold owns, accounted in Hp. cbn [fst snd] in Hp. rewrite Hm, Hc in Hp. cbn in Hp.
    rewrite app_nil_r, <-app_assoc in Hp. by symmetry.
Qed.

(** The two critical sections are one check when nothing runs in between: the
    loop ends, and its effect is that of [checkSegmentedMessages] as an atomic
    operation. *)
Theorem check_in_steps_atomic (now : Z) (s : T2I) :
  ports_wf s → ∃ s', check_in_steps (S (vm_size (t_segmented s))) now s = Ok s' ∧
                     checkSegmentedMessages now s = Ok s'.
Proof.
  intros ((Hm & _) & _ & _ & _ & Hpub).
  destruct (SegmentedMessages.check_spec (S (vm_size (t_segmented s))) now (t_segmented s) Hm)
    as (m & He & _); [lia|]. eexists. split; [by apply check_in_steps_eq|].
  unfold checkSegmentedMessages. by rewrite He.
Qed.

(** C37: Between the two critical sections the publisher of the message may be destroyed:
    right after the message was taken out of the list its release is fine, but when the
    channels are updated first, it is if and only if the service of the message is still
    needed.  Otherwise [releaseAll] does not find the message any more, the publisher is
    destroyed, and the release is a call on a destroyed object. *)
Theorem expired_release_outlives_publisher (now : Z) (s s1 : T2I) (hash : ClassHash) (e : Endpoint)
    (msg : SegmentedMessages.SegmentedMessage_t) (services : list ServiceDescription) :
  (MAX_TOPICS ≤ MAX_PUBLISHERS)%nat → channels_wf s → ports_wf s →
  take_expired now s = Ok (s1, Some msg) → channel_at s hash e → getUid e = SegmentedMessages.sm_publisher msg →
  NoDup services → (length services ≤ MAX_TOPICS)%nat → no_collisions (services ++ channel_services s) →
  release_expired msg s1 = Ok (record_calls [SegmentedMessages.release_call msg] s1) ∧
  ∃ s2, updateChannels services s1 = Ok s2 ∧
    release_expired msg s2 =
      if decide (getServiceDescription e ∈ services)
      then Ok (record_calls [SegmentedMessages.release_call msg] s2) else UndefinedBehaviour.
Proof.
  intros Hpubs Hs Hports Htake He Hu Hnd Hl Hcol. pose proof Hports as (_ & _ & Hndu & Hlt & _).
  destruct (take_expired_ports now s s1 msg Hports Htake) as (m & -> & Hports1).
  assert (SegmentedMessages.sm_publisher msg ∈ channel_uids s) as Hin.
  { rewrite <-Hu. apply list_elem_of_fmap_2, (list_elem_of_fmap_2 snd _ (hash, e)). exact He. }
  split; [unfold release_expired; by rewrite bool_decide_true|].
  pose proof (ports_since_functions Hpubs (t_discovery s) (t_nextPort s) (channels s)) as Hfun.
  destruct (update_channels_spec _ setupChannel deleteChannel services (t_set_segmented m s))
    as (s2 & new & He2 & _ & (_ & _ & Hold) & Hch & _ & Hserv); [done| |done..|].
  { split; [by split|]. split; [done|]. intros c Hc. by left. }
  exists s2. split; [exact He2|]. unfold release_expired. case_decide as Hneed.
  - rewrite bool_decide_true; [done|]. rewrite <-Hu.
    apply list_elem_of_fmap_2, (list_elem_of_fmap_2 snd _ (hash, e)). rewrite Hch.
    apply elem_of_app. left. by apply list_elem_of_filter.
  - rewrite bool_decide_false; [done|]. intros Hin2. apply Hneed. rewrite <-Hserv.
    apply list_elem_of_fmap in Hin2 as (e2 & Hu2 & ([k2 e2'] & -> & Hc2)%list_elem_of_fmap).
    apply list_elem_of_fmap_2, (list_elem_of_fmap_2 snd _ (hash, e)).
    destruct (Hold _ Hc2) as [Hc|Hge].
    + enough ((k2, e2') = (hash, e)) as <- by done. apply (channel_uid_inj s); [done..|]. cbn in *. congruence.
    + rewrite Forall_forall in Hlt. apply Hlt in Hin. cbn in *. lia.
Qed.
End properties.

(** ** Witnesses *)

(** A message of which a segment is missing, with deadline 1000. *)
Definition late_message : SegmentedMessages.SegmentedMessage_t :=
  SegmentedMessages.mkSegmented 1 0 640 Transport2IceoryxEndpoints 50 1000.

Definition late_t2i : T2I := t_set_segmented (mkMap [77] [late_message]) example_t2i.

Lemma late_t2i_ports : ports_wf late_t2i.
Proof.
  split; [split; [split; simpl; unfold SegmentedMessages.MAX_SEGMENTED_MESSAGE_COUNT; lia|apply NoDup_singleton]|].
  split; [done|]. split; [apply NoDup_singleton|]. split; [apply Forall_singleton; simpl; lia|].
  apply Forall_singleton. by left.
Qed.

(** The first segment of a message arrives, the deadline passes, and the chunk is
    in the hands of the main loop. *)
Lemma chunks_conserved_while_expiring_witness :
  ∃ s msg, @expiry_run ref_iox example_posh [640] (example_t2i, None) (s, Some msg) ∧
    [640] ≡ₚ SegmentedMessages.released_by (t_calls s) ++ SegmentedMessages.held (t_segmented s) ++
             [SegmentedMessages.sm_userPayload msg].
Proof.
  pose (mem := @header_bytes ref_iox first_of_two ++ replicate 8 Init.Byte.xcc).
  destruct (@receive ref_iox example_posh mem 52 (mkDeviceIndex UDP 0) (Some example_loan) 0 example_t2i)
    as [s1| | |] eqn:E1; [|by vm_compute in E1..].
  destruct (@take_expired ref_iox 1000000 s1) as [[s2 [msg|]]| | |] eqn:E2;
    [|vm_compute in E1; injection E1 as <-; by vm_compute in E2..].
  exists s2, msg.
  assert (@expiry_run ref_iox example_posh [640] (example_t2i, None) (s2, Some msg)) as Hrun.
  { apply (run_step ([] ++ [640]) [] _ (s1, None)); [|by apply step_take with 1000000].
    apply (run_step [] [640] _ (example_t2i, None)); [apply run_done|].
    assert (@taken_by_receive ref_iox mem 52 (Some example_loan) example_t2i = [640]) as <-
      by (vm_compute; reflexivity).
    by eapply step_receive. }
  split; [exact Hrun|].
  apply (@chunks_conserved_while_expiring ref_iox ref_iox_spec example_posh [640] example_t2i s2 (Some msg)).
  - reflexivity.
  - reflexivity.
  - by apply Forall_singleton.
  - exact Hrun.
Defined.

Lemma check_in_steps_atomic_witness :
  ∃ s', @check_in_steps ref_iox example_posh 2 1001 late_t2i = Ok s' ∧
    @checkSegmentedMessages ref_iox example_posh 1001 late_t2i = Ok s' ∧ t_calls s' = [PublisherRelease 50 640].
Proof.
  destruct (@check_in_steps_atomic ref_iox ref_iox_spec example_posh 1001 late_t2i late_t2i_ports)
    as (s' & He & Hc). exists s'. split; [exact He|]. split; [exact Hc|].
  vm_compute in He. injection He as <-. reflexivity.
Defined.

Lemma expired_release_outlives_publisher_witness :
  ∃ s1 s2, @take_expired ref_iox 1001 late_t2i = Ok (s1, Some late_message) ∧
    @updateChannels ref_iox example_posh [] s1 = Ok s2 ∧
    @release_expired example_posh late_message s2 = UndefinedBehaviour.
Proof.
  destruct (@take_expired ref_iox 1001 late_t2i) as [[s1 found]| | |] eqn:Ht; [|by vm_compute in Ht..].
  assert (found = Some late_message) as -> by (vm_compute in Ht; injection Ht as _ <-; reflexivity).
  destruct (@expired_release_outlives_publisher ref_iox ref_iox_spec example_posh 1001 late_t2i s1
    (hash_of Init.Byte.x41) example_publisher late_message []) as (_ & s2 & Hu & Hr).
  - unfold MAX_TOPICS. simpl. lia.
  - exact example_t2i_channels.
  - exact late_t2i_ports.
  - exact Ht.
  - exact example_t2i_channel.
  - reflexivity.
  - constructor.
  - simpl. lia.
  - apply no_collisions_Forall. apply (bool_decide_unpack _). vm_compute. exact I.
  - exists s1, s2. split; [reflexivity|]. split; [exact Hu|exact Hr].
Defined.
