(* ===== verification/Traffic.v ===== *)
(** * Traffic: user data leaves both gateways in order

    The operations of file GatewayApp change the channels; here are the
    lemmas on those that run in between, on the threads of the transports and
    of the two waitsets.  The first part is about the callbacks of
    transport_to_iox.cpp, the second about writing a chunk (data_writer.cpp)
    when any transport may fail meanwhile. *)

From stdpp Require Import base list gmap.
From S2P Require Import Prelude.
From S2P Require Import Iox.
From S2P Require Import Types.
From S2P Require Import VectorMap.
From S2P Require Import Serialization.
From S2P Require Import TransportInfo.
From S2P Require Import DataWriter.
From S2P Require Import Gateway.
From S2P Require Import Discovery.
From S2P Require Import DiscoveryFailure.
From S2P Require Import Chunks.
From S2P Require Import Coherence.
From S2P Require TransportForwarder.
From S2P Require PendingMessages.
From S2P Require SegmentedMessages.
From S2P Require Import TransportToIox.
From Stdlib Require Import Permutation.

Open Scope Z_scope.

(** ** Receiving: the channels stay as they are *)

Section receiving.
Context `{IoxSpec} `{IoxPosh}.
Implicit Types (s : T2I) (h : IoxChunkDatagramHeader_t).

Lemma doForChannel_cases {S} `{GatewayState S} hash (f : Endpoint → S → Outcome S) (s s' : S) :
  channels_wf s → doForChannel hash f s = Ok s' →
  s' = s ∨ ∃ e, channel_at s hash e ∧ f e s = Ok s'.
Proof.
  intros Hs Hdo. destruct (decide (hash ∈ m_keys (m_endpoints s))) as [Hk|Hk].
  - destruct (vm_find_entry MAX_TOPICS _ _ (proj1 Hs) Hk) as (e & _ & He).
    apply list_elem_of_lookup_2 in He. right. exists e. split; [exact He|].
    by rewrite (doForChannel_found hash e) in Hdo.
  - rewrite doForChannel_absent in Hdo by done. injection Hdo as <-. by left.
Qed.

(** Every segmented message satisfies [P]. *)
Definition each (P : hash_t → SegmentedMessages.SegmentedMessage_t → Prop)
    (m : SegmentedMessages.SegmentedMessageManager) : Prop :=
  ∀ (k : hash_t) msg, to_map m !! k = Some msg → P k msg.

(** The number of missing segments does not matter for [P]. *)
Definition uncounted (P : hash_t → SegmentedMessages.SegmentedMessage_t → Prop) : Prop :=
  ∀ k msg n, P k msg → P k (SegmentedMessages.set_remaining msg n).

Lemma each_entries (P : SegmentedMessages.SegmentedMessage_t → Prop) m :
  SegmentedMessages.segmented_wf m → Forall (fun e => P e.2) (entries m) ↔ each (fun _ => P) m.
Proof.
  intros [Hm Hnd]. rewrite Forall_forall. unfold each. split.
  - intros Hall k msg Hin%(to_map_Some SegmentedMessages.MAX_SEGMENTED_MESSAGE_COUNT); [|done..].
    exact (Hall _ Hin).
  - intros Hall [k msg] Hin. apply (Hall k).
    by apply (to_map_Some SegmentedMessages.MAX_SEGMENTED_MESSAGE_COUNT).
Qed.

Lemma each_subset P m m' :
  (∀ (k : hash_t) msg, to_map m' !! k = Some msg → to_map m !! k = Some msg) → each P m → each P m'.
Proof. intros Hsub Hm k msg Hk. by apply Hm, Hsub. Qed.

Lemma findAndDecrement_each P m (k : hash_t) m' found :
  uncounted P → SegmentedMessages.segmented_wf m → SegmentedMessages.findAndDecrement m k = Ok (m', found) →
  each P m → SegmentedMessages.segmented_wf m' ∧ each P m' ∧ (found = None → m' = m ∧ to_map m !! k = None).
Proof.
  intros HP Hm Hf. destruct (SegmentedMessages.findAndDecrement_spec m k Hm) as (m1 & Hm1 & Hspec).
  destruct (to_map m !! k) as [msg|] eqn:Hk; destruct Hspec as [He Hmap]; rewrite He in Hf;
    injection Hf as <- <-; [|by intros]. intros Hall. split_and!; [done| |done].
  intros k' msg'. rewrite Hmap. case_match.
  - intros [_ Hk']%lookup_delete_Some. by apply Hall.
  - intros [[<- <-]|[_ Hk']]%lookup_insert_Some; [by apply HP, Hall|by apply Hall].
Qed.

Lemma push_each P m (h : hash_t) msg :
  SegmentedMessages.segmented_wf m → to_map m !! h = None → P h msg → each P m →
  SegmentedMessages.segmented_wf (SegmentedMessages.push m h msg).1 ∧ each P (SegmentedMessages.push m h msg).1.
Proof.
  intros Hm Hh Hp Hall. pose proof (SegmentedMessages.segmented_push_spec m h msg Hm Hh) as Hspec.
  destruct (SegmentedMessages.push m h msg) as [m' calls]. destruct Hspec as [Hm' Hspec]. split; [done|].
  case_decide; destruct Hspec as [Hmap _]; [|by subst].
  intros k msg'. cbn [fst]. rewrite Hmap. intros [[<- <-]|[_ Hk]]%lookup_insert_Some; [done|by apply Hall].
Qed.

(** Filling in a segment and publishing touch neither the channels nor the
    segmented messages. *)
Lemma store_segment_same publisher h data deviceIndex userHeader userPayload shouldPublish s s' :
  store_segment publisher h data deviceIndex userHeader userPayload shouldPublish s = Ok s' →
  t_endpoints s' = t_endpoints s ∧ t_discovery s' = t_discovery s ∧ t_nextPort s' = t_nextPort s ∧
  t_segmented s' = t_segmented s.
Proof.
  unfold store_segment. case_match; [|by intros [= <-]]. intros (mem & _ & Hrest)%bind_Ok.
  destruct shouldPublish; [|by injection Hrest as <-]. unfold publish in Hrest.
  apply bind_Ok in Hrest as (payload & _ & Hrest). by injection Hrest as <-.
Qed.

(** What a loan for the header [h] in the channel of [e] pushes. *)
Definition pushed_message (e : Endpoint) (n : Z) h (now : Z) (l : Loan) : SegmentedMessages.SegmentedMessage_t :=
  SegmentedMessages.mkSegmented n (userHeaderPtr (hasUserHeader h) (loan_userPayload l)) (loan_userPayload l)
    Transport2IceoryxEndpoints (getUid e) (deadlineOf now h).

(** No callback touches the channels, and the segmented messages keep a
    property that new ones have. *)
Definition traffic_kept (P : hash_t → SegmentedMessages.SegmentedMessage_t → Prop) s s' : Prop :=
  t_endpoints s' = t_endpoints s ∧ t_discovery s' = t_discovery s ∧ t_nextPort s' = t_nextPort s ∧
  (SegmentedMessages.segmented_wf (t_segmented s) → each P (t_segmented s) →
   SegmentedMessages.segmented_wf (t_segmented s') ∧ each P (t_segmented s')).

Lemma traffic_refl P s : traffic_kept P s s.
Proof. by split_and!. Qed.

Definition owned (uids : list UniquePortId) (k : hash_t) (msg : SegmentedMessages.SegmentedMessage_t) : Prop :=
  SegmentedMessages.sm_publisher msg ∈ uids.

Lemma traffic_wf s s' :
  traffic_kept (owned (channel_uids s)) s s' → channels_wf s → ports_wf s →
  channels_wf s' ∧ ports_wf s' ∧ channels s' = channels s.
Proof.
  intros (He & Hd & Hn & Hk) Hs (Hseg & Hperm & Hnd & Hlt & Hpub).
  destruct (Hk Hseg) as [Hseg' Hown]; [by apply (each_entries (fun msg => SegmentedMessages.sm_publisher msg ∈ _))|].
  assert (channels s' = channels s) as Hch by (unfold channels; cbn; by rewrite He).
  assert (channel_uids s' = channel_uids s) as Hu by (unfold channel_uids; by rewrite Hch).
  split; [|split; [|done]].
  - unfold channels_wf in *. rewrite Hch. cbn in Hs |- *. by rewrite He.
  - unfold ports_wf. rewrite Hu, Hd, Hn. split_and!; [done..|].
    by apply (each_entries (fun msg => SegmentedMessages.sm_publisher msg ∈ _)).
Qed.

Lemma push_segmented_same P e n h now l s :
  let s' := push_segmented e n h now (userHeaderPtr (hasUserHeader h) (loan_userPayload l)) (loan_userPayload l) s in
  t_endpoints s' = t_endpoints s ∧ t_discovery s' = t_discovery s ∧ t_nextPort s' = t_nextPort s ∧
  (SegmentedMessages.segmented_wf (t_segmented s) → to_map (t_segmented s) !! messageHash h = None →
   P (messageHash h) (pushed_message e n h now l) → each P (t_segmented s) →
   SegmentedMessages.segmented_wf (t_segmented s') ∧ each P (t_segmented s')).
Proof.
  unfold push_segmented. fold (pushed_message e n h now l).
  destruct (SegmentedMessages.push (t_segmented s) (messageHash h) _) as [m calls] eqn:Ep.
  split_and!; [done..|]. intros Hm Hh HP Hall.
  pose proof (push_each P (t_segmented s) (messageHash h) _ Hm Hh HP Hall) as Hk. by rewrite Ep in Hk.
Qed.

Lemma channel_uid s hash e : channel_at s hash e → getUid e ∈ channel_uids s.
Proof. intros He. apply list_elem_of_fmap_2, (list_elem_of_fmap_2 snd _ (hash, e)). exact He. Qed.

Context (P : hash_t → SegmentedMessages.SegmentedMessage_t → Prop) (P_uncounted : uncounted P).

(** [P] holds of every message that [h] can begin. *)
Definition begins h (loan : option Loan) (now : Z) s : Prop :=
  ∀ e n l, channel_at s (serviceHash h) e → loan = Some l → P (messageHash h) (pushed_message e n h now l).

Lemma receive_in_channel_kept h data deviceIndex loan now e s s' :
  channel_at s (serviceHash h) e → begins h loan now s →
  receive_in_channel h data deviceIndex loan now e s = Ok s' → traffic_kept P s s'.
Proof.
  intros He Hnew ([m found] & Hf & Hrest)%bind_Ok.
  destruct found as [[[userHeader userPayload] shouldPublish]|].
  { apply store_segment_same in Hrest as (? & ? & ? & Hseg'). split_and!; [done..|]. rewrite Hseg'.
    intros Hseg Hall. by destruct (findAndDecrement_each _ _ _ _ _ P_uncounted Hseg Hf Hall) as (? & ? & _). }
  assert (SegmentedMessages.segmented_wf (t_segmented s) → each P (t_segmented s) →
    m = t_segmented s ∧ to_map (t_segmented s) !! messageHash h = None) as Hnone.
  { intros Hseg Hall. destruct (findAndDecrement_each _ _ _ _ _ P_uncounted Hseg Hf Hall) as (_ & _ & Hn). by apply Hn. }
  destruct loan as [l|].
  2:{ injection Hrest as <-. split_and!; [done..|]. intros Hseg Hall. by destruct (Hnone Hseg Hall) as [-> _]. }
  case_match; apply store_segment_same in Hrest as (He' & Hd' & Hn' & Hseg').
  - match type of Hseg' with _ = t_segmented (push_segmented _ ?n _ _ _ _ ?s1) =>
      destruct (push_segmented_same P e n h now l s1) as (He2 & Hd2 & Hn2 & Hm2) end.
    rewrite He2 in He'. rewrite Hd2 in Hd'. rewrite Hn2 in Hn'. split_and!; [done..|]. rewrite Hseg'.
    intros Hseg Hall. destruct (Hnone Hseg Hall) as [-> Hh]. apply Hm2; try done. by apply Hnew.
  - split_and!; [done..|]. rewrite Hseg'. intros Hseg Hall. by destruct (Hnone Hseg Hall) as [-> _].
Qed.

Lemma receive_kept mem size deviceIndex loan now s s' :
  channels_wf s → (∀ h n, deserialize_Header mem size = Ok (h, n) → begins h loan now s) →
  receive mem size deviceIndex loan now s = Ok s' → traffic_kept P s s'.
Proof.
  intros Hs Hnew ([h n] & Hdes & Hrest)%bind_Ok. case_match; [injection Hrest as <-; apply traffic_refl|].
  apply doForChannel_cases in Hrest as [->|(e & He & Hrest)]; [apply traffic_refl| |done].
  eapply receive_in_channel_kept; [exact He|by eapply Hnew|exact Hrest].
Qed.

Lemma loanBuffer_kept mem size loan now s s' buffer :
  channels_wf s → (∀ h n, deserialize_Header mem size = Ok (h, n) → begins h loan now s) →
  loanBuffer mem size loan now s = Ok (s', buffer) → traffic_kept P s s'.
Proof.
  intros Hs Hnew ([h n] & Hdes & Hrest)%bind_Ok.
  apply doForChannel_cases in Hrest as [[= -> ->]|(e & He & Hrest)]; [apply traffic_refl| |done].
  apply bind_Ok in Hrest as (found & Hf & Hrest).
  destruct found as [[userHeader userPayload]|]; [injection Hrest as <- _; apply traffic_refl|].
  destruct loan as [l|]; [|injection Hrest as <- _; apply traffic_refl]. injection Hrest as <- _.
  match goal with |- traffic_kept P s (push_segmented _ ?n _ _ _ _ ?s1) =>
    destruct (push_segmented_same P e n h now l s1) as (He2 & Hd2 & Hn2 & Hm2) end.
  split_and!; [done..|]. intros Hseg Hall. apply Hm2; try done; [|by eapply Hnew].
  rewrite SegmentedMessages.segmented_find_spec in Hf by done. cbn [t_segmented t_set_memory].
  by destruct (to_map (t_segmented s) !! messageHash h).
Qed.

Lemma releaseBuffer_kept mem size shouldRelease deviceIndex s s' :
  channels_wf s → releaseBuffer mem size shouldRelease deviceIndex s = Ok s' → traffic_kept P s s'.
Proof.
  intros Hs ([h n] & _ & Hrest)%bind_Ok.
  apply doForChannel_cases in Hrest as [->|(e & He & Hrest)]; [apply traffic_refl| |done].
  destruct shouldRelease; apply bind_Ok in Hrest as ([m x] & Hm & Hrest).
  - injection Hrest as <-. split_and!; [done..|]. intros Hseg Hall.
    destruct (SegmentedMessages.segmented_release_spec (t_segmented s) (messageHash h) Hseg)
      as (m' & Hr & Hm' & Hmap). rewrite Hr in Hm. injection Hm as <- <-. split; [done|].
    eapply each_subset; [|exact Hall]. intros k msg. cbn [t_segmented record_calls t_set_segmented]. rewrite Hmap.
    by intros [_ Hk]%lookup_delete_Some.
  - assert (t_endpoints s' = t_endpoints s ∧ t_discovery s' = t_discovery s ∧ t_nextPort s' = t_nextPort s ∧
      t_segmented s' = m) as (? & ? & ? & Hseg').
    { destruct x as [[[userHeader userPayload] []]|]; [|by injection Hrest as <-..].
      unfold publish in Hrest. apply bind_Ok in Hrest as (payload & _ & Hrest). by injection Hrest as <-. }
    split_and!; [done..|]. rewrite Hseg'. intros Hseg Hall.
    by destruct (findAndDecrement_each _ _ _ _ _ P_uncounted Hseg Hm Hall) as (? & ? & _).
Qed.
End receiving.

Lemma owned_uncounted uids : uncounted (owned uids).
Proof. by intros k msg n Hk. Qed.

(** A message that begins belongs to the channel's publisher. *)
Lemma owned_begins `{IoxSpec} `{IoxPosh} h loan now s : begins (owned (channel_uids s)) h loan now s.
Proof. intros e n l He _. by eapply channel_uid. Qed.

(** ** Writing: any transport may fail *)

Lemma compiled_index_inj t t' :
  t ∈ [PCIE; UDP; TCP] → t' ∈ [PCIE; UDP; TCP] → index t = index t' → t = t'.
Proof.
  rewrite !elem_of_cons, !elem_of_nil.
  intros [->|[->|[->|[]]]] [->|[->|[->|[]]]]; simpl; intros Heq; done || lia.
Qed.

(** [doFor] when [fn] works for the type [t], with a callback that works. *)
Lemma doFor_outcome {W} (K : W → Prop) (cb : TransportInfo * W → Outcome (TransportInfo * W))
    (fn : TransportType → W → Outcome (bool * W)) t ti w :
  transports_wf ti → t ∈ [PCIE; UDP; TCP] → K w →
  (∃ failed w', fn t w = Ok (failed, w') ∧ K w') →
  (∀ ti w, transports_wf ti → K w → ∃ ti' w', cb (ti, w) = Ok (ti', w') ∧ transports_wf ti' ∧ K w') →
  ∃ ti' w', doFor (Some cb) t fn (ti, w) = Ok (ti', w') ∧ transports_wf ti' ∧ K w'.
Proof.
  intros Hti Ht HK (failed & wf & Hfn & HKf) Hcb. unfold doFor.
  assert (Z.to_nat (index t) < TRANSPORT_TYPE_COUNT)%nat as Hk
    by (pose proof (index_small t Ht); unfold TRANSPORT_TYPE_COUNT; lia).
  set (k := Z.to_nat (index t)) in *.
  destruct (slot_Ok ti k Hti Hk) as (o & _ & Ho).
  assert (∃ ti1 w1, call_if_good fn k (ti, w) = Ok (ti1, w1) ∧ transports_wf ti1 ∧ K w1)
    as (ti1 & w1 & -> & Hti1 & HK1).
  { pose proof (call_if_good_cases fn k ti w o Ho) as Hcase.
    destruct o as [[t' []]|]; try by eexists _, _.
    assert (t' = t) as ->.
    { destruct Hti as (_ & Hs & _). destruct (Hs _ _ Ho) as (Ht' & Hix & _). cbn [getType] in Ht', Hix.
      pose proof (index_small t Ht). apply compiled_index_inj; [done..|]. unfold k in Hix. lia. }
    eexists _, wf. split; [by apply Hcase|]. split; [|done].
    destruct failed; [by apply mark_failed_wf|done]. }
  ostep. destruct (slot_Ok ti1 k Hti1 Hk) as (o1 & _ & Ho1).
  pose proof (disable_if_failed_cases (Some cb) k ti1 w1 o1 Hti1 Ho1) as Hcase.
  destruct o1 as [[t' []]|]; try by exists ti1, w1.
  rewrite Hcase. apply Hcb; [|done]. by apply (mark_disabled_wf ti1 k t').
Qed.

Section writing.
Context `{IoxSpec} `{TransportLayer} `{DiscoveryState W}.
Implicit Types (ti : TransportInfo) (w : W) (h : IoxChunkDatagramHeader_t).

(** Headers that differ in the fields the writer fills in only. *)
Definition same_message h h' : Prop := ∃ n o z, h' = submessage h n o z.

Lemma same_message_refl h : same_message h h.
Proof. exists (submessageCount h), (submessageOffset h), (submessageSize h). by destruct h. Qed.

Lemma same_message_trans h1 h2 h3 : same_message h1 h2 → same_message h2 h3 → same_message h1 h3.
Proof. intros (n & o & z & ->) (n' & o' & z' & ->). by exists n', o', z'. Qed.

Lemma sendable_same h h' t header payload :
  same_message h h' → sendable t h header payload → sendable t h' header payload.
Proof. intros (n & o & z & ->) Hs. exact Hs. Qed.

Context (d0 : DiscoveryManager) (d0_wf : local_wf d0) (r0 : Rest).

Lemma registered_returns ti w :
  transports_wf ti → unchanged d0 r0 w →
  ∃ ti' w', failCallback failFuel (ti, w) = Ok (ti', w') ∧ transports_wf ti' ∧ unchanged d0 r0 w'.
Proof.
  intros Hti Hu. destruct (m_terminateFlag d0) eqn:Hflag.
  - destruct (clearCache_fields _ _ (proj1 Hu)) as (_ & _ & Ht & _).
    unfold failFuel. rewrite failCallback_terminating by (by rewrite Ht).
    eexists _, _. split; [done|]. split; [done|]. by apply unchanged_clear.
  - pose proof (alive_le ti Hti).
    destruct (failCallback_settles d0 d0_wf r0 failFuel ti w) as ([ti' w'] & He & ? & ? & _);
      [done..|unfold failFuel; lia|]. by exists ti', w'.
Qed.

Lemma writeSegmentedInternal_returns h header payload i ti w :
  transports_wf ti → unchanged d0 r0 w → di_type i ∈ [PCIE; UDP; TCP] →
  sendable (di_type i) h header payload →
  ∃ isPending h' ti' w',
    writeSegmentedInternal registeredCallback h header payload i ti w = Ok (isPending, h', ti', w') ∧
    same_message h h' ∧ transports_wf ti' ∧ unchanged d0 r0 w'.
Proof.
  intros Hti Hu Ht Hs. unfold writeSegmentedInternal, registeredCallback. cbn [with_locals].
  match goal with |- context [doFor (Some ?cb) ?t ?fn _] =>
    destruct (doFor_outcome (fun v : IoxChunkDatagramHeader_t * Z * W => same_message h v.1.1 ∧ unchanged d0 r0 v.2)
      cb fn t ti (h, 0, w)) as (ti' & [[h' count] w'] & -> & Hti' & Hsame & Hu') end; [done..| | | |].
  - split; [apply same_message_refl|done].
  - destruct (send_segments_spec (di_type i) (di_device i) h header payload 0 w Hs)
      as (fails & h' & count & -> & [z ->] & _).
    eexists _, _. split; [done|]. split; [by eexists _, _, _|]. by apply unchanged_net.
  - intros ti1 [[h1 c1] w1] Hti1 [Hsame1 Hu1]. cbn [snd] in Hu1.
    destruct (registered_returns ti1 w1 Hti1 Hu1) as (ti2 & w2 & -> & Hti2 & Hu2). ostep.
    by exists ti2, (h1, c1, w2).
  - ostep. by eexists _, h', ti', w'.
Qed.

(** Of what is pending in [pm'], at most the chunk [p] of [u] is new, and only
    if some transport keeps a payload of its size pending. *)
Definition pending_grows (size : Z) (p : Ptr) (u : UniquePortId)
    (pm pm' : PendingMessages.PendingMessageManager) : Prop :=
  PendingMessages.pending_wf pm' ∧
  ∀ q v, PendingMessages.pending pm' !! q = Some v →
    PendingMessages.pending pm !! q = Some v ∨
    (q = p ∧ v = u ∧ ∃ t, willBePending t size = true).

Lemma pending_grows_trans size p u pm1 pm2 pm3 :
  pending_grows size p u pm1 pm2 → pending_grows size p u pm2 pm3 → pending_grows size p u pm1 pm3.
Proof.
  intros [_ H12] [Hwf H23]. split; [done|]. intros q v Hq. destruct (H23 q v Hq) as [?|?]; [by apply H12|by right].
Qed.

Lemma push_if_pending_returns size p mutex u t ti pm w :
  transports_wf ti → unchanged d0 r0 w → t ∈ [PCIE; UDP; TCP] → PendingMessages.pending_wf pm →
  ∃ b1 b2 pm' ti' w',
    doFor (with_locals registeredCallback) t (push_if_pending size p mutex u) (ti, (false, false, pm, w)) =
      Ok (ti', (b1, b2, pm', w')) ∧ pending_grows size p u pm pm' ∧ transports_wf ti' ∧ unchanged d0 r0 w'.
Proof.
  intros Hti Hu Ht Hpm. unfold registeredCallback. cbn [with_locals].
  match goal with |- context [doFor (Some ?cb) _ ?fn _] =>
    destruct (doFor_outcome (fun v : bool * bool * PendingMessages.PendingMessageManager * W =>
      pending_grows size p u pm v.1.2 ∧ unchanged d0 r0 v.2) cb fn t ti (false, false, pm, w))
      as (ti' & [[[b1 b2] pm'] w'] & -> & Hti' & Hg & Hu') end; [done..| | | |].
  - split; [|done]. split; [done|]. by left.
  - unfold push_if_pending.
    pose proof (PendingMessages.pending_push_spec pm p mutex u Hpm) as Hpush.
    destruct (PendingMessages.push pm p mutex u) as [pm1 pushed]. destruct Hpush as (Hwf1 & _ & Hmap).
    destruct (willBePending t size) eqn:Hwill; eexists _, _; (split; [done|]; split; [split|done]);
      cbn [fst snd]; [done| |done|by left].
    intros q v. rewrite Hmap. destruct pushed; [|by left].
    intros [[-> ->]|[_ ?]]%lookup_insert_Some; [right; split_and!; [done..|by exists t]|by left].
  - intros ti1 [[[c1 c2] pm1] w1] Hti1 [Hg1 Hu1]. cbn [fst snd] in Hu1, Hg1.
    destruct (registered_returns ti1 w1 Hti1 Hu1) as (ti2 & w2 & -> & Hti2 & Hu2). ostep.
    by exists ti2, (c1, c2, pm1, w2).
  - by exists b1, b2, pm', ti', w'.
Qed.

(** Whatever fails, writing a chunk returns, and at most this chunk is pending more. *)
Lemma writeSegmented_returns chunk devices mutex u s :
  transports_wf (w_transports s) → unchanged d0 r0 (w_world s) → PendingMessages.pending_wf (w_pending s) →
  Forall (fun i => di_type i ∈ [PCIE; UDP; TCP] ∧
    sendable (di_type i) (w_header s) (chunk_headerBytes chunk) (chunk_payloadBytes chunk)) devices →
  ∃ s', writeSegmented registeredCallback chunk devices mutex u s = Ok s' ∧
    transports_wf (w_transports s') ∧ unchanged d0 r0 (w_world s') ∧
    pending_grows (userPayloadSize (w_header s)) (chunk_userPayload chunk) u (w_pending s) (w_pending s').
Proof.
  revert s. induction devices as [|i devices IH]; intros s Hti Hu Hpm Hall.
  { exists s. split_and!; [done..|]. split; [done|by left]. }
  apply Forall_cons in Hall as [[Ht Hs] Hall]. cbn [writeSegmented].
  destruct (push_if_pending_returns (userPayloadSize (w_header s)) (chunk_userPayload chunk) mutex u
    (di_type i) (w_transports s) (w_pending s) (w_world s)) as (b1 & b2 & pm1 & ti1 & w1 & -> & Hg1 & Hti1 & Hu1);
    [done..|]. ostep. destruct b2; [by eexists|].
  destruct (writeSegmentedInternal_returns (w_header s) (chunk_headerBytes chunk) (chunk_payloadBytes chunk)
    i ti1 w1 Hti1 Hu1 Ht Hs) as (isPending & h2 & ti2 & w2 & -> & Hsame & Hti2 & Hu2). ostep.
  assert (∃ pm2 calls, (if negb isPending then
      if b1 then '(pm, calls) ← PendingMessages.release pm1 (chunk_userPayload chunk);
                 Ok (mkWriter h2 ti2 pm (w_calls s ++ calls) w2)
      else Ok (mkWriter h2 ti2 pm1 (w_calls s ++ [SubscriberRelease u (chunk_userPayload chunk)]) w2)
    else Ok (mkWriter h2 ti2 pm1 (w_calls s) w2)) = Ok (mkWriter h2 ti2 pm2 calls w2) ∧
    pending_grows (userPayloadSize (w_header s)) (chunk_userPayload chunk) u (w_pending s) pm2) as (pm2 & calls & -> & Hg2).
  { destruct isPending; [by eexists _, _|]. destruct b1; [|by eexists _, _]. cbn [negb].
    destruct (PendingMessages.pending_release_spec pm1 (chunk_userPayload chunk)) as (pm2 & -> & Hwf2 & Hmap);
      [apply Hg1|]. ostep. eexists _, _. split; [done|]. eapply pending_grows_trans; [exact Hg1|].
    split; [done|]. intros q v. rewrite Hmap. intros [_ ?]%lookup_delete_Some. by left. }
  ostep. destruct (IH (mkWriter h2 ti2 pm2 calls w2)) as (s' & He & Hti' & Hu' & Hg'); [done|done|apply Hg2| |].
  { eapply Forall_impl; [exact Hall|]. intros j [??]. split; [done|]. by eapply sendable_same. }
  exists s'. split_and!; [done..|]. eapply pending_grows_trans; [exact Hg2|].
  destruct Hsame as (? & ? & ? & ->). exact Hg'.
Qed.

(** The same for what the waitset loops do with a chunk. *)
Lemma releaseOrWrite_returns s devices mutex subscriber c ti pm w :
  transports_wf ti → unchanged d0 r0 w → PendingMessages.pending_wf pm →
  Forall (fun i => di_type i ∈ [PCIE; UDP; TCP] ∧ ∀ messageHash, is_u32 messageHash →
    sendable (di_type i) (datagramHeaderOf (getClassHash s) messageHash c)
      (chunk_headerBytes (ch_chunk c)) (chunk_payloadBytes (ch_chunk c))) devices →
  ∃ ti' pm' calls w',
    TransportForwarder.releaseOrWrite (getClassHash s) devices mutex subscriber c ti pm w =
      Ok (ti', pm', calls, w') ∧ transports_wf ti' ∧ unchanged d0 r0 w' ∧
    pending_grows (ch_userPayloadSize c) (chunk_userPayload (ch_chunk c)) (getUid subscriber) pm pm'.
Proof.
  intros Hti Hu Hpm Hall. unfold TransportForwarder.releaseOrWrite.
  destruct devices as [|i devices]; [eexists _, _, _, _; split_and!; [done..|]; split; [done|by left]|].
  pose proof (unchanged_hash d0 r0 w Hu) as Hu1. pose proof (generateHash_u32 w) as Hh.
  destruct (generateHash w) as [messageHash w1]. cbn [fst snd] in Hu1, Hh.
  destruct (writeSegmented_returns (ch_chunk c) (i :: devices) mutex (getUid subscriber)
    (mkWriter (datagramHeaderOf (getClassHash s) messageHash c) ti pm [] w1)) as (s' & -> & ? & ? & ?);
    [done..| |ostep; by eexists _, _, _, _].
  eapply Forall_impl; [exact Hall|]. intros j [? Hj]. split; [done|]. by apply Hj.
Qed.
End writing.

(** ** Writing leaves the rest of the gateway alone *)

Section untouched_by_sending.
Context `{IoxSpec} `{TransportLayer} `{NetWorld W} {A : Type} (view : W → A).
Context (view_sent : ∀ t header payload device w, view (set_net (net w ++ [UserData t header payload device]) w) = view w).
Implicit Types (w : W) (s : Sending W).

Lemma send_submessage_view t maxPayload src position device remaining s s' remaining' :
  send_submessage t maxPayload src position device remaining s = Ok (s', remaining') →
  view (world s') = view (world s).
Proof.
  intros ([hd n] & _ & (payload & _ & Hrest)%bind_Ok)%bind_Ok. unfold sendUserData in Hrest.
  destruct (sendUserData_outcome _ _ _ _ _) as [pend fails]. injection Hrest as <- _. apply view_sent.
Qed.

Lemma header_loop_view fuel t maxPayload src device remaining s s' :
  header_loop fuel t maxPayload src device remaining s = Ok s' → view (world s') = view (world s).
Proof.
  revert remaining s. induction fuel as [|fuel IH]; intros remaining s; cbn [header_loop];
    (case_match; [by intros [= <-]|]); [done|].
  intros ([s1 r1] & Hsend & Hloop)%bind_Ok. apply IH in Hloop as ->.
  by apply send_submessage_view in Hsend.
Qed.

Lemma payload_loop_view fuel t maxPayload src device remaining s s' :
  payload_loop fuel t maxPayload src device remaining s = Ok s' → view (world s') = view (world s).
Proof.
  revert remaining s. induction fuel as [|fuel IH]; intros remaining s; cbn [payload_loop];
    (case_match; [by intros [= <-]|]); [done|].
  intros ([s1 r1] & Hsend & Hloop)%bind_Ok. apply IH in Hloop as ->.
  by apply send_submessage_view in Hsend.
Qed.

Lemma send_segments_view header payload device t (v v' : IoxChunkDatagramHeader_t * Z * W) fails :
  send_segments header payload device t v = Ok (fails, v') → view v'.2 = view v.2.
Proof.
  destruct v as [[h count] w]. intros (a & _ & (b & _ & (s1 & Hh & (s2 & Hp & Hrest)%bind_Ok)%bind_Ok)%bind_Ok)%bind_Ok.
  injection Hrest as _ <-. cbn [snd]. apply payload_loop_view in Hp as ->. by apply header_loop_view in Hh.
Qed.

Lemma push_if_pending_view size p mutex u t
    (v v' : bool * bool * PendingMessages.PendingMessageManager * W) fails :
  push_if_pending size p mutex u t v = Ok (fails, v') → view v'.2 = view v.2.
Proof.
  destruct v as [[[b1 b2] pm] w]. unfold push_if_pending. case_match; [|by intros [= _ <-]].
  destruct (PendingMessages.push _ _ _ _). by intros [= _ <-].
Qed.

End untouched_by_sending.

(** Writing a chunk leaves what the transports, their failures and the random numbers
    do not change. *)
Section untouched_by_writing.
Context `{IoxSpec} `{TransportLayer} `{DiscoveryState W} {A : Type} (view : W → A).
Context (view_sent : ∀ t header payload device w, view (set_net (net w ++ [UserData t header payload device]) w) = view w).
Context (view_failed : ∀ s s', failCallback failFuel s = Ok s' → view s'.2 = view s.2).
Context (view_hash : ∀ w, view (generateHash w).2 = view w).
Implicit Types (w : W).

Lemma doFor_locals_view {L : Type} fn t ti (locals : L) w ti' locals' w' :
  (∀ t v fails v', fn t v = Ok (fails, v') → view v'.2 = view v.2) →
  doFor (with_locals registeredCallback) t fn (ti, (locals, w)) = Ok (ti', (locals', w')) → view w' = view w.
Proof.
  intros Hfn Hdo.
  refine (doFor_view (fun v : L * W => view v.2) fn Hfn _ _ t (ti, (locals, w)) (ti', (locals', w')) Hdo).
  intros [ti1 [l1 w1]] s' ([ti2 w2] & Hcb & [= <-])%bind_Ok. by apply view_failed in Hcb.
Qed.

Lemma writeSegmented_view chunk devices mutex u (s s' : Writer W) :
  writeSegmented registeredCallback chunk devices mutex u s = Ok s' → view (w_world s') = view (w_world s).
Proof.
  revert s. induction devices as [|i devices IH]; intros s; [by intros [= <-]|].
  intros ([ti1 [[[b1 b2] pm1] w1]] & Hpush & Hrest)%bind_Ok.
  apply (doFor_locals_view _ _ _ (false, false, w_pending s) (w_world s)) in Hpush;
    [|intros ????; apply (push_if_pending_view view)].
  destruct b2; [injection Hrest as <-; exact Hpush|].
  apply bind_Ok in Hrest as ([[[isPending h2] ti2] w2] & Hw & Hrest).
  apply bind_Ok in Hw as ([ti3 [[h3 c3] w3]] & Hw & [= _ _ -> ->]).
  apply doFor_locals_view in Hw; [|intros ????; by apply (send_segments_view view)].
  apply bind_Ok in Hrest as (s2 & Hs2 & Hrest). rewrite (IH s2 Hrest), <-Hpush, <-Hw. f_equal.
  destruct isPending; [by injection Hs2 as <-|]. destruct b1; [|by injection Hs2 as <-]. cbn [negb] in Hs2.
  apply bind_Ok in Hs2 as ([pm calls] & _ & Hs2). by injection Hs2 as <-.
Qed.

Lemma releaseOrWrite_view hash devices mutex subscriber c ti pm w ti' pm' calls w' :
  TransportForwarder.releaseOrWrite hash devices mutex subscriber c ti pm w = Ok (ti', pm', calls, w') →
  view w' = view w.
Proof.
  unfold TransportForwarder.releaseOrWrite. destruct devices; [by intros [= _ _ _ <-]|].
  pose proof (view_hash w) as Hd. destruct (generateHash w) as [messageHash w1]. cbn [snd] in Hd.
  intros (s & Hw & [= _ _ _ <-])%bind_Ok. apply writeSegmented_view in Hw. by rewrite Hw.
Qed.
End untouched_by_writing.

Lemma releaseOrWrite_rest `{IoxSpec} `{TransportLayer} `{DiscoveryState W} hash devices mutex subscriber c ti pm
    (w : W) ti' pm' calls w' :
  TransportForwarder.releaseOrWrite hash devices mutex subscriber c ti pm w = Ok (ti', pm', calls, w') →
  rest w' = rest w.
Proof.
  apply releaseOrWrite_view; [intros; apply rest_set_net|intros ??; apply failCallback_rest|apply rest_generateHash].
Qed.

Section coherent_writing.
Context `{IoxSpec} `{TransportLayer} `{DiscoveryState W}.
Implicit Types (w : W).

Abbreviation coherent := (coherent_in (discovery : W → DiscoveryManager)).

(** The registered callback, with locals of the caller, leaves the cache coherent. *)
Lemma with_locals_coherent {L : Type} (s s' : TransportInfo * (L * W)) :
  ('(ti, (locals, w)) ← Ok s; '(ti, w) ← failCallback failFuel (ti, w); Ok (ti, (locals, w))) = Ok s' →
  coherent_in (fun v : L * W => discovery v.2) s'.
Proof.
  destruct s as [ti [locals w]]. ostep. intros ([ti' w'] & Hcb & [= <-])%bind_Ok.
  by apply failCallback_coherent in Hcb.
Qed.

Lemma doFor_locals_coherent {L : Type} fn t ti (locals : L) w ti' locals' w' :
  (∀ t v fails v', fn t v = Ok (fails, v') → discovery v'.2 = discovery v.2) →
  doFor (with_locals registeredCallback) t fn (ti, (locals, w)) = Ok (ti', (locals', w')) →
  coherent (ti, w) → coherent (ti', w').
Proof.
  intros Hfn Hdo Hs.
  refine (doFor_coherent_in (fun v : L * W => discovery v.2) fn Hfn _ _ t (ti, (locals, w)) (ti', (locals', w')) Hdo Hs).
  intros s s' Hcb. apply (with_locals_coherent s). by destruct s as [? []].
Qed.

Lemma writeSegmented_coherent chunk devices mutex u (s s' : Writer W) :
  writeSegmented registeredCallback chunk devices mutex u s = Ok s' →
  coherent (w_transports s, w_world s) → coherent (w_transports s', w_world s').
Proof.
  revert s. induction devices as [|i devices IH]; intros s; [by intros [= <-]|].
  intros ([ti1 [[[b1 b2] pm1] w1]] & Hpush & Hrest)%bind_Ok Hs.
  apply (doFor_locals_coherent _ _ _ (false, false, w_pending s) (w_world s)) in Hpush;
    [|intros ????; apply (push_if_pending_view discovery)|exact Hs].
  destruct b2; [injection Hrest as <-; exact Hpush|].
  apply bind_Ok in Hrest as ([[[isPending h2] ti2] w2] & Hw & Hrest).
  apply bind_Ok in Hw as ([ti3 [[h3 c3] w3]] & Hw & [= _ _ -> ->]).
  apply doFor_locals_coherent in Hw; [|intros ????; apply (send_segments_view discovery); intros; apply discovery_set_net|exact Hpush].
  apply bind_Ok in Hrest as (s2 & Hs2 & Hrest). apply (IH s2 Hrest).
  enough (w_transports s2 = ti2 ∧ w_world s2 = w2) as [-> ->] by exact Hw.
  destruct isPending; [by injection Hs2 as <-|]. destruct b1; [|by injection Hs2 as <-]. cbn [negb] in Hs2.
  apply bind_Ok in Hs2 as ([pm calls] & _ & Hs2). by injection Hs2 as <-.
Qed.

Lemma releaseOrWrite_coherent hash devices mutex subscriber c ti pm w ti' pm' calls w' :
  TransportForwarder.releaseOrWrite hash devices mutex subscriber c ti pm w = Ok (ti', pm', calls, w') →
  coherent (ti, w) → coherent (ti', w').
Proof.
  unfold TransportForwarder.releaseOrWrite. destruct devices; [by intros [= <- _ _ <-]|].
  pose proof (discovery_generateHash w) as Hd. destruct (generateHash w) as [messageHash w1]. cbn [snd] in Hd.
  intros (s & Hw & [= <- _ _ <-])%bind_Ok Hs. eapply writeSegmented_coherent; [exact Hw|].
  unfold coherent_in in *. cbn [fst snd w_transports w_world] in *. by rewrite Hd.
Qed.
End coherent_writing.
