(* ===== verification/EndToEnd.v ===== *)
(** * EndToEnd: from the sending gateway to the receiving one

    data_writer.cpp cuts a message into datagrams, a transport delivers them in
    any order, and transport_to_iox.cpp and data_reader.cpp reassemble them.
    The relation [reassembly] follows one message at the receiving gateway:
    its datagrams are received one by one, and between two of them anything may
    happen that leaves the message's channel, entry and chunk alone. *)

From stdpp Require Import base list gmap.
From S2P Require Import Prelude.
From S2P Require Import Iox.
From S2P Require Import Types.
From S2P Require Import VectorMap.
From S2P Require Import Serialization.
From S2P Require Import TransportInfo.
From S2P Require Import DataWriter.
From S2P Require Import Discovery.
From S2P Require Import Gateway.
From S2P Require Import Chunks.
From S2P Require Import TransportToIox.
From S2P Require TransportForwarder.
From S2P Require SegmentedMessages.
From Stdlib Require Import Permutation.

Open Scope Z_scope.

(** A datagram: the serialised header and the segment. *)
Definition datagrams_of (events : list NetEvent) : list (bytes * bytes) :=
  omap (fun e => match e with UserData _ header data _ => Some (header, data) | _ => None end) events.

(** The publications of the chunk [p]. *)
Definition publications_of (p : Ptr) (s : T2I) : list Published :=
  filter (fun pub => pub_userPayload pub = p) (t_published s).

Section reassembly.
Context `{Iox} `{IoxPosh}.
Context (messageHash : hash_t) (hash : ClassHash) (publisher : Endpoint) (l : Loan).

Local Abbreviation p := (loan_userPayload l).

(** What other activity of the gateway leaves unchanged. *)
Definition undisturbed (s s' : T2I) : Prop :=
  channels_wf s' ∧ channel_at s' hash publisher ∧
  SegmentedMessages.segmented_wf (t_segmented s') ∧
  to_map (t_segmented s') !! messageHash = to_map (t_segmented s) !! messageHash ∧
  t_memory s' !! p = t_memory s !! p ∧
  t_memory s' !! userHeaderOf p = t_memory s !! userHeaderOf p ∧
  publications_of p s' = publications_of p s.

(** [reassembly s ds s']: from [s], the datagrams [ds] were received in this
    order, the first of them with [l] as the chunk that was loaned for the
    message, and the gateway is in state [s'].  [rest] is the memory behind the
    datagram. *)
Inductive reassembly (s : T2I) : list (bytes * bytes) → T2I → Prop :=
  | reassembly_first d rest deviceIndex now s' :
      receive (d.1 ++ d.2 ++ rest) (length d.1 + length d.2) deviceIndex (Some l) now s = Ok s' →
      reassembly s [d] s'
  | reassembly_other ds s1 s2 :
      reassembly s ds s1 → undisturbed s1 s2 → reassembly s ds s2
  | reassembly_next ds s1 d rest deviceIndex loan now s2 :
      reassembly s ds s1 →
      receive (d.1 ++ d.2 ++ rest) (length d.1 + length d.2) deviceIndex loan now s1 = Ok s2 →
      reassembly s (ds ++ [d]) s2.
End reassembly.

(** ** Lemmas: filling the chunk *)

Section filling.
Context `{IoxSpec} `{TransportLayer} `{IoxPosh}.
Context (t : TransportType) (h : IoxChunkDatagramHeader_t) (header payload : bytes).
Context (sendable_h : sendable t h header payload) (publisher : Endpoint) (l : Loan).

Local Abbreviation segments := (message_segments (piece_of t) header payload).
Local Abbreviation count := (Z.of_nat (length segments)).
Local Abbreviation p := (loan_userPayload l).
Local Abbreviation userHeader := (userHeaderPtr (hasUserHeader h) p).
Implicit Types (s : T2I) (ds : list (Z * bytes)) (mem : Memory).

(** The position [i] of the user header, or of the payload, is in a segment of [ds]. *)
Definition header_covered ds (i : nat) : Prop :=
  ∃ o q, (o, q) ∈ ds ∧ o < userHeaderSize h ∧ o ≤ Z.of_nat i < o + Z.of_nat (length q).
Definition payload_covered ds (i : nat) : Prop :=
  ∃ o q, (o, q) ∈ ds ∧ userHeaderSize h ≤ o ∧
         o ≤ userHeaderSize h + Z.of_nat i < o + Z.of_nat (length q).

(** The chunk has its size and holds the message wherever [ds] covers it. *)
Definition filled ds mem : Prop :=
  ∃ pb hb, mem !! p = Some pb ∧ length pb = length payload ∧
    mem !! userHeaderOf p = (if hasUserHeader h then Some hb else None) ∧ length hb = length header ∧
    (∀ i, header_covered ds i → hb !! i = header !! i) ∧
    (∀ i, payload_covered ds i → pb !! i = payload !! i).

Lemma covered_app_header ds o q i :
  header_covered (ds ++ [(o, q)]) i → header_covered ds i ∨
  (o < userHeaderSize h ∧ o ≤ Z.of_nat i < o + Z.of_nat (length q)).
Proof.
  intros (o' & q' & [Hin|Heq%list_elem_of_singleton]%elem_of_app & Hr); [left; by exists o', q'|].
  right. by simplify_eq.
Qed.

Lemma covered_app_payload ds o q i :
  payload_covered (ds ++ [(o, q)]) i → payload_covered ds i ∨
  (userHeaderSize h ≤ o ∧ o ≤ userHeaderSize h + Z.of_nat i < o + Z.of_nat (length q)).
Proof.
  intros (o' & q' & [Hin|Heq%list_elem_of_singleton]%elem_of_app & Hr); [left; by exists o', q'|].
  right. by simplify_eq.
Qed.

Lemma hasUserHeader_true o : 0 ≤ o → o < userHeaderSize h → hasUserHeader h = true.
Proof. intros. unfold hasUserHeader. rewrite (proj2 (Z.eqb_neq _ _)); [done|lia]. Qed.

Lemma segment_target_eq o q :
  segment_target (segment_header h count (o, q)) userHeader p =
    if o <? userHeaderSize h then (userHeader, o) else (p, o - userHeaderSize h).
Proof. done. Qed.

(** Overwriting part of [buf], which agrees with [orig] on [cov], with the
    bytes of [orig] at [k]. *)
Lemma overwritten_agree (buf buf' orig q : bytes) (k : nat) (cov cov' : nat → Prop) :
  overwritten buf buf' k q → q = take (length q) (drop k orig) →
  (∀ i, cov i → buf !! i = orig !! i) →
  (∀ i, cov' i → cov i ∨ (k ≤ i < k + length q)%nat) →
  ∀ i, cov' i → buf' !! i = orig !! i.
Proof.
  intros [Hl Ho] Hq Hb Hc i Hi. rewrite Ho. case_decide as Hd.
  - rewrite Hq, lookup_take_lt, lookup_drop by lia. f_equal. lia.
  - apply Hc in Hi as [Hi|Hi]; [by apply Hb|done].
Qed.

(** The place of a segment lies in the chunk, and filling it in is progress. *)
Lemma filled_segment ds mem o q :
  filled ds mem → (o, q) ∈ segments → p ≠ nullptr → userHeaderOf p ≠ nullptr → userHeaderOf p ≠ p →
  ∃ ptr offset buf,
    segment_target (segment_header h count (o, q)) userHeader p = (ptr, offset) ∧
    ptr ≠ nullptr ∧ mem !! ptr = Some buf ∧
    offset + Z.of_nat (length q) ≤ Z.of_nat (length buf) ∧
    ∀ buf', overwritten buf buf' (Z.to_nat offset) q → filled (ds ++ [(o, q)]) (<[ptr := buf']> mem).
Proof.
  intros (pb & hb & Hp & Hpl & Hh & Hhl & Hch & Hcp) Hin Hpn Hun Hup. rewrite segment_target_eq.
  destruct (segments_elem t h header payload sendable_h o q Hin) as (Hq & Ho & Hplace).
  pose proof sendable_h as (_ & Hhs & Hps & _).
  destruct Hplace as [(Hfit & Heq)|(Hge & Hfit & Heq)].
  - rewrite (proj2 (Z.ltb_lt _ _)) by lia. rewrite (hasUserHeader_true o) in * by lia. simpl.
    exists (userHeaderOf p), o, hb. split_and!; [done..|lia|].
    intros buf' Hover. exists pb, buf'. rewrite (hasUserHeader_true o) by lia.
    rewrite lookup_insert_ne, lookup_insert_eq by done.
    split_and!; [done..|by rewrite (proj1 Hover)| |].
    + apply (overwritten_agree _ _ _ _ _ (header_covered ds) _ Hover Heq Hch).
      intros i [Hi|Hi]%covered_app_header; [by left|right; lia].
    + intros i [Hi|Hi]%covered_app_payload; [by apply Hcp|lia].
  - rewrite (proj2 (Z.ltb_ge _ _)) by lia.
    exists p, (o - userHeaderSize h), pb. split_and!; [done..|lia|].
    intros buf' Hover. exists buf', hb. rewrite lookup_insert_eq, lookup_insert_ne by done.
    split_and!; [done|by rewrite (proj1 Hover)|done..| |].
    + intros i [Hi|Hi]%covered_app_header; [by apply Hch|lia].
    + apply (overwritten_agree _ _ _ _ _ (payload_covered ds) _ Hover Heq Hcp).
      intros i [Hi|Hi]%covered_app_payload; [by left|right; lia].
Qed.

Lemma filled_nil mem :
  loan_ok (userPayloadSize h) (userHeaderSize h) l mem → filled [] (allocate (hasUserHeader h) l mem).
Proof.
  intros (Hp & Hup & Hne & Hfresh & Hfresh' & Hlen & Hlenh).
  pose proof sendable_h as (_ & Hhs & Hps & _).
  exists (loan_payloadBytes l), (loan_headerBytes l). unfold allocate.
  split_and!; [|lia| |lia|..].
  - destruct (hasUserHeader h); [rewrite lookup_insert_ne by done|]; apply lookup_insert_eq.
  - destruct (hasUserHeader h); [apply lookup_insert_eq|by rewrite lookup_insert_ne].
  - intros i (o & q & Hin & _). by apply elem_of_nil in Hin.
  - intros i (o & q & Hin & _). by apply elem_of_nil in Hin.
Qed.

(** Once all segments are in, the chunk is the message. *)
Lemma filled_all ds mem :
  ds ≡ₚ segments → filled ds mem →
  mem !! p = Some payload ∧ default [] (mem !! userHeaderOf p) = header.
Proof.
  intros Hds (pb & hb & -> & Hpl & -> & Hhl & Hch & Hcp).
  assert (∀ (a b : bytes), length a = length b → (∀ i, (i < length b)%nat → a !! i = b !! i) → a = b)
    as Hext.
  { intros a b Hl Hi. apply list_eq. intros i. destruct (decide (i < length b)%nat); [by apply Hi|].
    rewrite !lookup_ge_None_2 by lia. done. }
  assert (hb = header) as ->.
  { apply Hext; [done|]. intros i Hi. apply Hch.
    destruct (segments_cover_header t h header payload sendable_h i Hi) as (o & q & Hin & Hr).
    exists o, q. by rewrite Hds. }
  split.
  - f_equal. apply Hext; [done|]. intros i Hi. apply Hcp.
    destruct (segments_cover_payload t h header payload sendable_h i Hi) as (o & q & Hin & Hr).
    exists o, q. by rewrite Hds.
  - unfold hasUserHeader. destruct (Z.eqb_spec (userHeaderSize h) 0) as [Hz|Hz]; [|done]. simpl.
    destruct sendable_h as (_ & Hhs & _). destruct header; [done|]. simpl in Hhs. lia.
Qed.
End filling.

(** ** Lemmas: receiving the segments *)

Section receiving.
Context `{IoxSpec} `{TransportLayer} `{IoxPosh}.
Context (t : TransportType) (h : IoxChunkDatagramHeader_t) (header payload : bytes).
Context (sendable_h : sendable t h header payload) (publisher : Endpoint) (l : Loan).
Context (small : headerSize + maxTransportPayloadSize t < 2 ^ 32).

Local Abbreviation segments := (message_segments (piece_of t) header payload).
Local Abbreviation count := (Z.of_nat (length segments)).
Local Abbreviation p := (loan_userPayload l).
Local Abbreviation userHeader := (userHeaderPtr (hasUserHeader h) p).
Implicit Types (s : T2I) (ds : list (Z * bytes)) (mem : Memory) (seg : Z * bytes).

Definition segment_datagram seg : bytes * bytes := (header_bytes (segment_header h count seg), seg.2).

(** The publication that completes the message. *)
Definition completed : Published := mkPublished (getUid publisher) p header payload.

(** The gateway can take the message in: its channel exists, it is not known
    yet, there is room for it and [l] is a chunk for it. *)
Definition ready s : Prop :=
  channels_wf s ∧ channel_at s (serviceHash h) publisher ∧
  SegmentedMessages.segmented_wf (t_segmented s) ∧ to_map (t_segmented s) !! messageHash h = None ∧
  (vm_size (t_segmented s) < SegmentedMessages.MAX_SEGMENTED_MESSAGE_COUNT)%nat ∧
  loan_ok (userPayloadSize h) (userHeaderSize h) l (t_memory s).

(** Some but not all segments are in. *)
Definition partial ds s : Prop :=
  channels_wf s ∧ channel_at s (serviceHash h) publisher ∧
  SegmentedMessages.segmented_wf (t_segmented s) ∧
  (∃ msg, to_map (t_segmented s) !! messageHash h = Some msg ∧
     SegmentedMessages.sm_userHeader msg = userHeader ∧ SegmentedMessages.sm_userPayload msg = p ∧
     SegmentedMessages.remainingSegments msg = count - Z.of_nat (length ds)) ∧
  filled h header payload l ds (t_memory s).

Lemma receive_segment o q rest deviceIndex loan now s :
  (o, q) ∈ segments → channels_wf s → channel_at s (serviceHash h) publisher →
  let d := segment_datagram (o, q) in
  receive (d.1 ++ d.2 ++ rest) (length d.1 + length d.2) deviceIndex loan now s =
  receive_in_channel (segment_header h count (o, q)) (q ++ rest) deviceIndex loan now publisher s.
Proof.
  intros Hin Hs Hc d. pose proof (segment_header_valid t h header payload sendable_h o q Hin) as Hv.
  destruct (segments_elem t h header payload sendable_h o q Hin) as ([_ Hq] & _).
  pose proof sendable_h as (_ & _ & _ & _ & HM & _).
  destruct (serialize_header_bytes _ Hv) as [_ Hl]. unfold d, segment_datagram. cbn [fst snd].
  rewrite Hl, receive_datagram; [|done|done|unfold piece_of in Hq; lia].
  by rewrite (doForChannel_found _ publisher).
Qed.

Context (pointers : p ≠ nullptr ∧ userHeaderOf p ≠ nullptr ∧ userHeaderOf p ≠ p).

(** Copying one more segment, and publishing when it is the last. *)
Lemma store_progress ds o q rest deviceIndex s :
  filled h header payload l ds (t_memory s) → (o, q) ∈ segments →
  let store := store_segment publisher (segment_header h count (o, q)) (q ++ rest) deviceIndex
                 userHeader p in
  (∃ mem, store false s = Ok (t_set_memory mem s) ∧ filled h header payload l (ds ++ [(o, q)]) mem) ∧
  (ds ++ [(o, q)] ≡ₚ segments →
   ∃ s', store true s = Ok s' ∧ t_published s' = t_published s ++ [completed]).
Proof.
  intros Hf Hin store. destruct pointers as (Hpn & Hun & Hup).
  destruct (filled_segment t h header payload sendable_h l ds _ o q Hf Hin Hpn Hun Hup)
    as (ptr & offset & buf & Htarget & Hptr & Hbuf & Hfit & Hfill).
  destruct (segments_elem t h header payload sendable_h o q Hin) as (_ & Ho & _).
  destruct (store_segment_spec publisher (segment_header h count (o, q)) q rest deviceIndex
    userHeader p s ptr offset buf) as (buf' & Hover & Hfalse & Htrue); [done..|].
  specialize (Hfill buf' Hover). split; [by eexists|]. intros Hall.
  destruct (filled_all t h header payload sendable_h l _ _ Hall Hfill) as [Hp Hh].
  unfold store. rewrite Htrue. unfold publish. cbn [t_memory t_set_memory t_set_forwarder].
  rewrite Hp. ostep. rewrite Hh. eexists. split; [done|]. done.
Qed.

Lemma publications_completed s s' :
  t_published s' = t_published s ++ [completed] →
  publications_of p s' = publications_of p s ++ [completed].
Proof.
  intros He. unfold publications_of. rewrite He, filter_app. f_equal.
  rewrite filter_cons, filter_nil. by rewrite decide_True.
Qed.

(** What holds after the segments [ds]: nothing was published for the message,
    or, when they are all in, the message was. *)
Definition progress ds s s' : Prop :=
  publications_of p s' =
    publications_of p s ++ (if decide (length ds = length segments) then [completed] else []) ∧
  ((length ds < length segments)%nat → partial ds s').

Lemma first_segment o q rest deviceIndex now s :
  ready s → (o, q) ∈ segments →
  let d := segment_datagram (o, q) in
  ∃ s', receive (d.1 ++ d.2 ++ rest) (length d.1 + length d.2) deviceIndex (Some l) now s = Ok s' ∧
        progress [(o, q)] s s'.
Proof.
  intros (Hs & Hc & Hseg & Hnew & Hroom & Hloan) Hin d. unfold d. rewrite receive_segment by done.
  unfold receive_in_channel. cbn [messageHash segment_header submessage].
  destruct (SegmentedMessages.findAndDecrement_spec (t_segmented s) (messageHash h) Hseg)
    as (m' & _ & Hf). rewrite Hnew in Hf. destruct Hf as [-> ->]. ostep.
  change (hasUserHeader (segment_header h count (o, q))) with (hasUserHeader h).
  change (submessageCount (segment_header h count (o, q))) with count.
  set (s1 := t_set_memory (allocate (hasUserHeader h) l _) (t_set_segmented (t_segmented s) s)).
  pose proof (filled_nil t h header payload sendable_h l (t_memory s) Hloan) as Hfill.
  destruct (message_segments_length t h header payload sendable_h) as [_ Hu].
  assert (0 < length segments)%nat by (destruct segments; [by apply elem_of_nil in Hin|simpl; lia]).
  unfold progress. cbn [length].
  destruct (Z.ltb_spec 1 count) as [Hlt|Hge].
  - rewrite wrap32_small by (unfold is_u32 in *; lia).
    unfold push_segmented. cbn [messageHash segment_header submessage].
    set (msg := SegmentedMessages.mkSegmented _ _ _ _ _ _).
    pose proof (SegmentedMessages.segmented_push_spec (t_segmented s) (messageHash h) msg Hseg Hnew) as Hp.
    change (t_segmented s1) with (t_segmented s).
    destruct (SegmentedMessages.push _ _ msg) as [m1 calls]. destruct Hp as [Hwf1 Hp].
    rewrite decide_True in Hp by done. destruct Hp as [Hm1 ->].
    destruct (store_progress [] o q rest deviceIndex (record_calls [] (t_set_segmented m1 s1)))
      as [(mem & -> & Hmem) _]; [done..|].
    eexists. split; [done|]. split; [rewrite decide_False by lia; by rewrite app_nil_r|].
    intros _. split_and!; [done..| |done]. exists msg. cbn [t_segmented t_set_memory record_calls t_set_segmented].
    rewrite Hm1. split_and!; [apply lookup_insert_eq|done..].
  - destruct (store_progress [] o q rest deviceIndex s1) as [_ Hlast]; [done..|].
    destruct Hlast as (s' & -> & Hpub).
    { destruct segments as [|seg [|seg' segs]]; simpl in *; [lia| |lia].
      by apply list_elem_of_singleton in Hin as ->. }
    eexists. split; [done|]. split; [|lia].
    rewrite decide_True by lia. by apply publications_completed.
Qed.

Lemma next_segment ds o q rest deviceIndex loan now s :
  partial ds s → ds ++ [(o, q)] ⊆+ segments → 
  let d := segment_datagram (o, q) in
  ∃ s', receive (d.1 ++ d.2 ++ rest) (length d.1 + length d.2) deviceIndex loan now s = Ok s' ∧
        progress (ds ++ [(o, q)]) s s'.
Proof.
  intros (Hs & Hc & Hseg & (msg & Hmsg & Huh & Hup & Hrem) & Hfill) Hsub d.
  assert ((o, q) ∈ segments) as Hin by (eapply elem_of_submseteq; [|exact Hsub]; set_solver).
  unfold d. rewrite receive_segment by done.
  unfold receive_in_channel. cbn [messageHash segment_header submessage].
  destruct (SegmentedMessages.findAndDecrement_spec (t_segmented s) (messageHash h) Hseg)
    as (m1 & Hwf1 & Hf). rewrite Hmsg in Hf. destruct Hf as [-> Hm1]. ostep. rewrite Huh, Hup.
  destruct (message_segments_length t h header payload sendable_h) as [_ Hu].
  pose proof (submseteq_length _ _ Hsub) as Hlen. rewrite length_app in Hlen. simpl in Hlen.
  rewrite Hrem, wrap32_small in Hm1 |- * by (unfold is_u32 in *; lia).
  unfold progress. rewrite length_app. cbn [length].
  destruct (store_progress ds o q rest deviceIndex (t_set_segmented m1 s))
    as [(mem & Hfalse & Hmem) Hlast]; [done..|].
  destruct (Z.eqb_spec (count - Z.of_nat (length ds) - 1) 0) as [Hz|Hz].
  - destruct Hlast as (s' & -> & Hpub).
    { apply submseteq_length_Permutation; [done|]. rewrite length_app. simpl. lia. }
    eexists. split; [done|]. rewrite decide_True by lia. split; [|lia].
    by apply publications_completed.
  - rewrite Hfalse. eexists. split; [done|]. rewrite decide_False by lia.
    split; [by rewrite app_nil_r|]. intros _. split_and!; [done..| |done].
    exists (SegmentedMessages.set_remaining msg (count - Z.of_nat (length ds) - 1)).
    cbn [t_segmented t_set_memory t_set_segmented]. rewrite Hm1, lookup_insert_eq.
    split_and!; [done..|]. simpl. rewrite length_app. simpl. lia.
Qed.
End receiving.

Lemma submseteq_fmap {A B} (f : A → B) (l : list A) (k : list B) :
  k ⊆+ f <$> l → ∃ k', k = f <$> k' ∧ k' ⊆+ l.
Proof.
  intros (r & Hp)%submseteq_Permutation. symmetry in Hp.
  apply Permutation_map_inv in Hp as (l' & Heq & Hp).
  symmetry in Heq. apply fmap_app_inv in Heq as (k1 & k2 & -> & -> & ->).
  exists k1. split; [done|]. rewrite Hp. by apply submseteq_inserts_r.
Qed.

Section delivering.
Context `{IoxSpec} `{TransportLayer} `{IoxPosh}.
Context (t : TransportType) (h : IoxChunkDatagramHeader_t) (header payload : bytes).
Context (sendable_h : sendable t h header payload) (publisher : Endpoint) (l : Loan).
Context (small : headerSize + maxTransportPayloadSize t < 2 ^ 32).

Local Abbreviation segments := (message_segments (piece_of t) header payload).
Local Abbreviation datagram := (segment_datagram t h header payload).
Local Abbreviation reassembled := (reassembly (messageHash h) (serviceHash h) publisher l).

Lemma datagrams_of_wire device : datagrams_of (wire_message t device h header payload) = datagram <$> segments.
Proof.
  unfold wire_message, datagrams_of, segment_datagram.
  generalize (Z.of_nat (length segments)). intros n.
  induction segments as [|seg segs IH]; csimpl; [done|]. by rewrite IH.
Qed.

Lemma undisturbed_partial ds s s' :
  undisturbed (messageHash h) (serviceHash h) publisher l s s' →
  partial t h header payload publisher l ds s → partial t h header payload publisher l ds s'.
Proof.
  intros (Hs & Hc & Hseg & Hmsg & Hp & Hup & _) (_ & _ & _ & Hentry & Hfill).
  split_and!; [done..| |].
  - by rewrite Hmsg.
  - unfold filled. by rewrite Hp, Hup.
Qed.

Lemma reassembly_progress s ds s' segs :
  ready h publisher l s → reassembled s ds s' → ds = datagram <$> segs → segs ⊆+ segments →
  progress t h header payload publisher l segs s s'.
Proof.
  intros Hready Hr. pose proof Hready as (_ & _ & _ & _ & _ & Hpn & Hup & Hne & _).
  revert segs. induction Hr as [d rest dev now s' He|ds s1 s2 Hr IH Hun|ds s1 d rest dev loan now s2 Hr IH He];
    intros segs Hds Hsub.
  - destruct segs as [|[o q] [|]]; simplify_eq/=.
    assert ((o, q) ∈ segments) as Hin by (eapply elem_of_submseteq; [|exact Hsub]; by left).
    destruct (first_segment t h header payload sendable_h publisher l small (conj Hpn (conj Hup Hne))
      o q rest dev now s Hready Hin) as (s'' & He' & Hpr).
    cbn [segment_datagram fst snd] in He'. rewrite He in He'. by injection He' as ->.
  - destruct (IH segs Hds Hsub) as [Hpub Hpart]. split.
    + destruct Hun as (_ & _ & _ & _ & _ & _ & ->). done.
    + intros Hlt. eapply undisturbed_partial; [done|]. by apply Hpart.
  - symmetry in Hds. apply fmap_app_inv in Hds as (segs1 & segs2 & -> & Hd & ->).
    destruct segs2 as [|[o q] [|]]; simplify_eq/=.
    pose proof (submseteq_length _ _ Hsub) as Hlen. rewrite length_app in Hlen. simpl in Hlen.
    destruct (IH segs1 eq_refl) as [Hpub Hpart]; [etransitivity; [|exact Hsub]; by apply submseteq_inserts_r|].
    destruct (next_segment t h header payload sendable_h publisher l small (conj Hpn (conj Hup Hne))
      segs1 o q rest dev loan now s1) as (s'' & He' & Hpub' & Hpart'); [apply Hpart; lia|done|].
    cbn [segment_datagram fst snd] in He'. rewrite He in He'. injection He' as ->.
    split; [|done]. rewrite Hpub', Hpub. by rewrite decide_False, app_nil_r by lia.
Qed.
End delivering.

(** ** Lemma: the size of the datagrams *)

(** No datagram is larger than what the transport sends. *)
Lemma message_fits `{IoxSpec} `{TransportLayer} (t : TransportType) (device : Z) h header payload :
  sendable t h header payload → headerSize ≤ maxMessageSize t < 2 ^ 32 →
  Forall (fun d => Z.of_nat (length (d.1 ++ d.2)) ≤ maxMessageSize t)
    (datagrams_of (wire_message t device h header payload)).
Proof.
  intros Hs [Hsmall Hbig]. rewrite datagrams_of_wire. apply Forall_forall.
  intros d ([o q] & -> & Hin)%list_elem_of_fmap.
  pose proof (segment_header_valid t h header payload Hs o q Hin) as Hv.
  destruct (segments_elem t h header payload Hs o q Hin) as ([_ Hq] & _).
  destruct (serialize_header_bytes _ Hv) as [_ Hl]. unfold segment_datagram. cbn [fst snd].
  rewrite length_app, Hl. unfold piece_of, maxTransportPayloadSize in Hq. unfold headerSize in *.
  rewrite wrap32_small in Hq by (unfold is_u32; lia). lia.
Qed.

(** ** Lemma: a message arrives *)

Section properties.
Context `{IoxSpec} `{TransportLayer} `{NetWorld G} `{IoxPosh}.
Context (s_failCallback : option (TransportInfo * G → Outcome (TransportInfo * G))).

(** Whoever wrote the datagrams. *)
Lemma segments_arrive (t : TransportType) (device : Z) (h : IoxChunkDatagramHeader_t)
    (header payload : bytes) (publisher : Endpoint) (l : Loan) (s : T2I) :
  sendable t h header payload → headerSize + maxTransportPayloadSize t < 2 ^ 32 →
  let p := loan_userPayload l in
  let sent := datagrams_of (wire_message t device h header payload) in
  ready h publisher l s →
  (∀ d rest from now, d ∈ sent → ∃ s',
     receive (d.1 ++ d.2 ++ rest) (length d.1 + length d.2) from (Some l) now s = Ok s') ∧
  ∀ ds s', reassembly (messageHash h) (serviceHash h) publisher l s ds s' → ds ⊆+ sent →
    publications_of p s' = publications_of p s ++
      (if decide (length ds = length sent)
       then [mkPublished (getUid publisher) p header payload] else []) ∧
    ∀ d rest from loan now, ds ++ [d] ⊆+ sent → ∃ s'',
      receive (d.1 ++ d.2 ++ rest) (length d.1 + length d.2) from loan now s' = Ok s''.
Proof.
  intros Hs Hsmall p sent Hready. unfold sent. rewrite datagrams_of_wire. clear sent.
  pose proof Hready as (_ & _ & _ & _ & _ & Hpn & Hup & Hne & _).
  split.
  - intros d rest from now ([o q] & -> & Hin)%list_elem_of_fmap.
    destruct (first_segment t h header payload Hs publisher l Hsmall (conj Hpn (conj Hup Hne))
      o q rest from now s Hready Hin) as (s' & He & _). by exists s'.
  - intros ds s' Hr Hsub. rewrite length_fmap.
    apply submseteq_fmap in Hsub as (segs & -> & Hsub).
    destruct (reassembly_progress t h header payload Hs publisher l Hsmall s _ s' segs Hready Hr eq_refl Hsub)
      as [Hpub Hpart]. rewrite length_fmap. split; [exact Hpub|].
    intros d rest from loan now Hsub'. apply submseteq_fmap in Hsub' as (segs' & Heq & Hsub').
    symmetry in Heq. apply fmap_app_inv in Heq as (k1 & k2 & Hk1 & Hk2 & ->).
    destruct k2 as [|[o q] [|]]; simplify_eq/=.
    pose proof (submseteq_length _ _ Hsub') as Hlen. rewrite length_app in Hlen. simpl in Hlen.
    pose proof (f_equal length Hk1) as Hl. rewrite !length_fmap in Hl.
    (* the same datagrams, in the same order, are also those of [k1] *)
    destruct (reassembly_progress t h header payload Hs publisher l Hsmall s
      (segment_datagram t h header payload <$> segs) s' k1 Hready Hr) as [_ Hpart1]; [done| |].
    { etransitivity; [|exact Hsub']. by apply submseteq_inserts_r. }
    destruct (next_segment t h header payload Hs publisher l Hsmall (conj Hpn (conj Hup Hne))
      k1 o q rest from loan now s') as (s'' & He & _); [apply Hpart1; lia|done|]. by exists s''.
Qed.

Lemma message_arrives (t : TransportType) (device : Z) (h : IoxChunkDatagramHeader_t)
    (header payload : bytes) (ti : TransportInfo) (g : G) :
  sendable t h header payload → good_transport ti t → never_fails t device →
  headerSize + maxTransportPayloadSize t < 2 ^ 32 →
  let events := wire_message t device h header payload in
  ∃ isPending h' g',
    writeSegmentedInternal s_failCallback h header payload (mkDeviceIndex t device) ti g =
      Ok (isPending, h', ti, g') ∧ net g' = net g ++ events ∧
    ∀ publisher l s, ready h publisher l s →
      let p := loan_userPayload l in
      let sent := datagrams_of events in
      (∀ d rest from now, d ∈ sent → ∃ s',
         receive (d.1 ++ d.2 ++ rest) (length d.1 + length d.2) from (Some l) now s = Ok s') ∧
      ∀ ds s', reassembly (messageHash h) (serviceHash h) publisher l s ds s' → ds ⊆+ sent →
        publications_of p s' = publications_of p s ++
          (if decide (length ds = length sent)
           then [mkPublished (getUid publisher) p header payload] else []) ∧
        ∀ d rest from loan now, ds ++ [d] ⊆+ sent → ∃ s'',
          receive (d.1 ++ d.2 ++ rest) (length d.1 + length d.2) from loan now s' = Ok s''.
Proof.
  intros Hs Hg Hnf Hsmall events.
  destruct (writeSegmentedInternal_spec s_failCallback t device h header payload ti g Hs Hg Hnf)
    as (isPending & sz & Hw & _).
  eexists isPending, _, _.
  split; [exact Hw|]. split; [by rewrite net_set_net|].
  intros publisher l s Hready. by apply segments_arrive.
Qed.

(** ** Property *)

(** A message arrives as it was sent: when a gateway has written a chunk and
    another, which has a channel for the service and room for the message, receives its
    datagrams in any order and interleaved with anything else, then every datagram is
    taken without error, nothing is published for the message before its last datagram
    is in, and with it the chunk is published once, with exactly the user header and the
    user payload of the sender. *)
Theorem message_delivered (t : TransportType) (device : Z) (h : IoxChunkDatagramHeader_t)
    (header payload : bytes) (ti : TransportInfo) (g : G) :
  sendable t h header payload → good_transport ti t → never_fails t device →
  headerSize + maxTransportPayloadSize t < 2 ^ 32 →
  ∃ isPending h' g' events,
    writeSegmentedInternal s_failCallback h header payload (mkDeviceIndex t device) ti g =
      Ok (isPending, h', ti, g') ∧ net g' = net g ++ events ∧
    ∀ publisher l s, ready h publisher l s →
      let p := loan_userPayload l in
      let sent := datagrams_of events in
      (∀ d rest from now, d ∈ sent → ∃ s',
         receive (d.1 ++ d.2 ++ rest) (length d.1 + length d.2) from (Some l) now s = Ok s') ∧
      ∀ ds s', reassembly (messageHash h) (serviceHash h) publisher l s ds s' → ds ⊆+ sent →
        publications_of p s' = publications_of p s ++
          (if decide (length ds = length sent)
           then [mkPublished (getUid publisher) p header payload] else []) ∧
        ∀ d rest from loan now, ds ++ [d] ⊆+ sent → ∃ s'',
          receive (d.1 ++ d.2 ++ rest) (length d.1 + length d.2) from loan now s' = Ok s''.
Proof.
  intros Hs Hg Hnf Hsmall.
  destruct (message_arrives t device h header payload ti g Hs Hg Hnf Hsmall) as (isPending & h' & g' & Hmsg).
  by exists isPending, h', g', (wire_message t device h header payload).
Qed.
End properties.

(** ** Witnesses *)

Definition delivered_message : IoxChunkDatagramHeader_t :=
  mkHeader (hash_of Init.Byte.x41) 77 0 0 0 12 8 20.

Definition delivered_events : list NetEvent :=
  @wire_message ref_iox (example_layer []) UDP 3 delivered_message
    (replicate 20 Init.Byte.xaa) (replicate 12 Init.Byte.xbb).

(** The three datagrams, the last one first. *)
Definition delivered_datagrams : list (bytes * bytes) :=
  match datagrams_of delivered_events with [d1; d2; d3] => [d3; d1; d2] | _ => [] end.

Definition delivered_loan : Loan := mkLoan 640 (replicate 12 Init.Byte.x00) (replicate 20 Init.Byte.x00).

Definition receive_all (ds : list (bytes * bytes)) (s : T2I) : Outcome T2I :=
  foldl (fun s d => s ← s; @receive ref_iox example_posh (d.1 ++ d.2 ++ []) (length d.1 + length d.2)
                             (mkDeviceIndex UDP 0) (Some delivered_loan) 0 s) (Ok s) ds.

Lemma delivered_reassembly :
  ∃ s', @reassembly ref_iox example_posh 77 (hash_of Init.Byte.x41) example_publisher delivered_loan
          example_t2i delivered_datagrams s' ∧
        delivered_datagrams ⊆+ datagrams_of delivered_events ∧ length delivered_datagrams = 3%nat.
Proof.
  destruct (receive_all (take 1 delivered_datagrams) example_t2i) as [s1| | |] eqn:E1;
    [|by vm_compute in E1..].
  destruct (receive_all (take 1 (drop 1 delivered_datagrams)) s1) as [s2| | |] eqn:E2;
    [|vm_compute in E1; injection E1 as <-; by vm_compute in E2..].
  destruct (receive_all (drop 2 delivered_datagrams) s2) as [s3| | |] eqn:E3;
    [|vm_compute in E1; injection E1 as <-; vm_compute in E2; injection E2 as <-; by vm_compute in E3..].
  exists s3. split; [|split; [|reflexivity]].
  - destruct delivered_datagrams as [|d1 [|d2 [|d3 [|]]]] eqn:Hd; try by vm_compute in Hd.
    exact (reassembly_next _ _ _ _ _ [d1; d2] s2 d3 [] (mkDeviceIndex UDP 0) (Some delivered_loan) 0 s3
      (reassembly_next _ _ _ _ _ [d1] s1 d2 [] (mkDeviceIndex UDP 0) (Some delivered_loan) 0 s2
        (reassembly_first _ _ _ _ _ d1 [] (mkDeviceIndex UDP 0) 0 s1 E1) E2) E3).
  - unfold delivered_datagrams.
    destruct (datagrams_of delivered_events) as [|d1 [|d2 [|d3 [|]]]]; try apply submseteq_nil_l.
    apply Permutation_submseteq. apply (Permutation_app_comm [d3] [d1; d2]).
Qed.

Lemma delivered_ready : @ready ref_iox example_posh delivered_message example_publisher delivered_loan example_t2i.
Proof.
  split; [exact example_t2i_channels|]. split; [exact example_t2i_channel|].
  split; [apply SegmentedMessages.segmented_empty_wf|]. split; [reflexivity|].
  split; [vm_compute; lia|]. split_and!; done.
Qed.

Lemma message_delivered_witness :
  ∃ s', @reassembly ref_iox example_posh 77 (hash_of Init.Byte.x41) example_publisher delivered_loan
          example_t2i delivered_datagrams s' ∧
    publications_of 640 s' =
      [mkPublished 50 640 (replicate 20 Init.Byte.xaa) (replicate 12 Init.Byte.xbb)].
Proof.
  destruct (@message_delivered ref_iox ref_iox_spec (example_layer []) (list NetEvent) _ example_posh
    None UDP 3 delivered_message (replicate 20 Init.Byte.xaa) (replicate 12 Init.Byte.xbb)
    example_pcie_ti []) as (isPending & h' & g' & events & Hw & Hnet & Hdel).
  - apply (bool_decide_unpack _). vm_compute. exact I.
  - reflexivity.
  - intros hist hd pl. reflexivity.
  - vm_compute. reflexivity.
  - assert (events = delivered_events) as ->.
    { vm_compute in Hw. injection Hw as _ _ Hg. rewrite <-Hg in Hnet. simpl in Hnet.
      rewrite <-Hnet. vm_compute. reflexivity. }
    destruct delivered_reassembly as (s' & Hr & Hsub & Hl).
    exists s'. split; [exact Hr|].
    destruct (Hdel example_publisher delivered_loan example_t2i delivered_ready) as [_ Hrun].
    destruct (Hrun delivered_datagrams s' Hr Hsub) as [Hpub _].
    simpl loan_userPayload in Hpub. rewrite Hpub, Hl. vm_compute. reflexivity.
Defined.
