(* ===== verification/BufferTransfer.v ===== *)
(** * BufferTransfer: segments that a transport writes into the chunk itself

    [loanBuffer] and [releaseBuffer] of source/p3com/gateway/transport_to_iox.cpp
    as a protocol.  A transport with direct memory access asks for the buffer
    of a segment, lets the hardware fill it and reports that it is done; no
    lock is held meanwhile and several segments may be under way at once.  What
    the transport does is a hypothesis of the relation [transfers]: between the
    two calls it has put the segment, and nothing else, at the segment's place
    in the buffer ([overwritten]). *)

From stdpp Require Import base list gmap.
From S2P Require Import Prelude.
From S2P Require Import Iox.
From S2P Require Import Types.
From S2P Require Import VectorMap.
From S2P Require Import Serialization.
From S2P Require Import TransportInfo.
From S2P Require Import DataWriter.
From S2P Require Import Discovery.
From S2P Require Import Gateway.
From S2P Require Import Chunks.
From S2P Require Import TransportToIox.
From S2P Require Import EndToEnd.
From S2P Require TransportForwarder.
From S2P Require SegmentedMessages.
From Stdlib Require Import Permutation.

Open Scope Z_scope.

Section calls.
Context `{IoxSpec} `{IoxPosh}.
Implicit Types (s : T2I) (h : IoxChunkDatagramHeader_t).

(** The callbacks on the serialised header of [h]. *)
Lemma loanBuffer_header h rest loan now publisher s :
  valid_Header h → channels_wf s → channel_at s (serviceHash h) publisher →
  loanBuffer (header_bytes h ++ rest) maxIoxChunkDatagramHeaderSerializationSize loan now s =
  loan_in_channel h loan now publisher (s, nullptr).
Proof.
  intros Hv Hs Hc. unfold loanBuffer. rewrite deserialize_header_bytes by done. ostep.
  by rewrite (doForChannel_found _ publisher).
Qed.

Lemma releaseBuffer_header h rest shouldRelease deviceIndex publisher s :
  valid_Header h → channels_wf s → channel_at s (serviceHash h) publisher →
  releaseBuffer (header_bytes h ++ rest) maxIoxChunkDatagramHeaderSerializationSize shouldRelease deviceIndex s =
  release_in_channel h shouldRelease deviceIndex publisher s.
Proof.
  intros Hv Hs Hc. unfold releaseBuffer. rewrite deserialize_header_bytes by done. ostep.
  by rewrite (doForChannel_found _ publisher).
Qed.

(** The buffer of a segment of a message that is known. *)
Lemma loan_known h loan now publisher s buffer msg :
  SegmentedMessages.segmented_wf (t_segmented s) → to_map (t_segmented s) !! messageHash h = Some msg →
  loan_in_channel h loan now publisher (s, buffer) =
    Ok (s, (segment_target h (SegmentedMessages.sm_userHeader msg) (SegmentedMessages.sm_userPayload msg)).1).
Proof.
  intros Hseg Hmsg. unfold loan_in_channel. rewrite SegmentedMessages.segmented_find_spec, Hmsg by done.
  ostep. cbn. unfold segment_target. by case_match.
Qed.

(** Registering a new message when there is room. *)
Lemma push_segmented_room publisher n h now userHeader userPayload s :
  let msg := SegmentedMessages.mkSegmented n userHeader userPayload Transport2IceoryxEndpoints
               (getUid publisher) (deadlineOf now h) in
  let m := (SegmentedMessages.push (t_segmented s) (messageHash h) msg).1 in
  SegmentedMessages.segmented_wf (t_segmented s) → to_map (t_segmented s) !! messageHash h = None →
  (vm_size (t_segmented s) < SegmentedMessages.MAX_SEGMENTED_MESSAGE_COUNT)%nat →
  push_segmented publisher n h now userHeader userPayload s = record_calls [] (t_set_segmented m s) ∧
  SegmentedMessages.segmented_wf m ∧ to_map m = <[messageHash h := msg]> (to_map (t_segmented s)).
Proof.
  intros msg m Hseg Hnew Hroom. unfold push_segmented. fold msg. subst m.
  pose proof (SegmentedMessages.segmented_push_spec (t_segmented s) (messageHash h) msg Hseg Hnew) as Hp.
  destruct (SegmentedMessages.push _ _ _) as [m calls]. destruct Hp as [Hm Hp].
  rewrite decide_True in Hp by done. by destruct Hp as [Hmap ->].
Qed.

(** The state after the first call for the message [h], and the new entry. *)
Definition loaned_entry (publisher : Endpoint) h (l : Loan) (now : Z) : SegmentedMessages.SegmentedMessage_t :=
  SegmentedMessages.mkSegmented (submessageCount h) (userHeaderPtr (hasUserHeader h) (loan_userPayload l))
    (loan_userPayload l) Transport2IceoryxEndpoints (getUid publisher) (deadlineOf now h).

Definition loaned (publisher : Endpoint) h (l : Loan) (now : Z) s : T2I :=
  record_calls [] (t_set_segmented
    (SegmentedMessages.push (t_segmented s) (messageHash h) (loaned_entry publisher h l now)).1
    (t_set_memory (allocate (hasUserHeader h) l (t_memory s)) s)).

Lemma loan_new h l now publisher s buffer :
  SegmentedMessages.segmented_wf (t_segmented s) → to_map (t_segmented s) !! messageHash h = None →
  (vm_size (t_segmented s) < SegmentedMessages.MAX_SEGMENTED_MESSAGE_COUNT)%nat →
  loan_in_channel h (Some l) now publisher (s, buffer) =
    Ok (loaned publisher h l now s,
        (segment_target h (userHeaderPtr (hasUserHeader h) (loan_userPayload l)) (loan_userPayload l)).1) ∧
  SegmentedMessages.segmented_wf (t_segmented (loaned publisher h l now s)) ∧
  to_map (t_segmented (loaned publisher h l now s)) =
    <[messageHash h := loaned_entry publisher h l now]> (to_map (t_segmented s)).
Proof.
  intros Hseg Hnew Hroom. unfold loan_in_channel, loaned.
  rewrite SegmentedMessages.segmented_find_spec, Hnew by done. ostep. cbn [fmap option_fmap option_map].
  match goal with |- context [push_segmented _ ?n _ _ ?uh ?up ?s1] =>
    destruct (push_segmented_room publisher n h now uh up s1) as (-> & Hm & Hmap); [done..|] end.
  split; [|by split]. unfold segment_target. by case_match.
Qed.
End calls.

(** ** Many transfers at once *)

Section transfers.
Context `{Iox} `{TransportLayer} `{IoxPosh}.
Context (t : TransportType) (h : IoxChunkDatagramHeader_t) (header payload : bytes).
Context (publisher : Endpoint) (l : Loan).

Local Abbreviation p := (loan_userPayload l).
Local Abbreviation count := (Z.of_nat (length (message_segments (piece_of t) header payload))).
Local Abbreviation size := maxIoxChunkDatagramHeaderSerializationSize.

(** The first argument of both callbacks. *)
Definition buffer_header (seg : Z * bytes) : bytes := header_bytes (segment_header h count seg).

(** [transfers s fs rs s']: from [s], the transport has asked for buffers, the
    first time with [l] as the chunk that was loaned; it has filled in the
    segments [fs] and reported those of [rs]; the gateway is in state [s'].
    Between the steps anything may happen that leaves the message alone. *)
Inductive transfers (s : T2I) : list (Z * bytes) → list (Z * bytes) → T2I → Prop :=
  | transfers_first seg rest now s' buffer :
      seg ∈ message_segments (piece_of t) header payload →
      loanBuffer (buffer_header seg ++ rest) size (Some l) now s = Ok (s', buffer) →
      transfers s [] [] s'
  | transfers_next fs rs s1 seg rest loan now s2 buffer :
      transfers s fs rs s1 → seg ∈ message_segments (piece_of t) header payload →
      loanBuffer (buffer_header seg ++ rest) size loan now s1 = Ok (s2, buffer) →
      transfers s fs rs s2
  | transfers_filled fs rs s1 seg ptr offset buf buf' :
      transfers s fs rs s1 →
      segment_target (segment_header h count seg) (userHeaderPtr (hasUserHeader h) p) p = (ptr, offset) →
      t_memory s1 !! ptr = Some buf → overwritten buf buf' (Z.to_nat offset) seg.2 →
      transfers s (fs ++ [seg]) rs (t_set_memory (<[ptr := buf']> (t_memory s1)) s1)
  | transfers_released fs rs s1 seg rest deviceIndex s2 :
      transfers s fs rs s1 → rs ++ [seg] ⊆+ fs →
      releaseBuffer (buffer_header seg ++ rest) size false deviceIndex s1 = Ok s2 →
      transfers s fs (rs ++ [seg]) s2
  | transfers_other fs rs s1 s2 :
      transfers s fs rs s1 → undisturbed (messageHash h) (serviceHash h) publisher l s1 s2 →
      transfers s fs rs s2.
End transfers.

Section transferring.
Context `{IoxSpec} `{TransportLayer} `{IoxPosh}.
Context (t : TransportType) (h : IoxChunkDatagramHeader_t) (header payload : bytes).
Context (sendable_h : sendable t h header payload) (publisher : Endpoint) (l : Loan).

Local Abbreviation segments := (message_segments (piece_of t) header payload).
Local Abbreviation count := (Z.of_nat (length segments)).
Local Abbreviation p := (loan_userPayload l).
Local Abbreviation userHeader := (userHeaderPtr (hasUserHeader h) p).
Implicit Types (s : T2I) (fs rs : list (Z * bytes)) (seg : Z * bytes).
Context (pointers : p ≠ nullptr ∧ userHeaderOf p ≠ nullptr ∧ userHeaderOf p ≠ p).

(** The message is known, [rs] segments have been reported and [fs] are in. *)
Definition transferring fs rs s : Prop :=
  channels_wf s ∧ channel_at s (serviceHash h) publisher ∧
  SegmentedMessages.segmented_wf (t_segmented s) ∧
  (∃ msg, to_map (t_segmented s) !! messageHash h = Some msg ∧
     SegmentedMessages.sm_userHeader msg = userHeader ∧ SegmentedMessages.sm_userPayload msg = p ∧
     SegmentedMessages.remainingSegments msg = count - Z.of_nat (length rs)) ∧
  filled h header payload l fs (t_memory s).

Lemma transferring_undisturbed fs rs s s' :
  undisturbed (messageHash h) (serviceHash h) publisher l s s' →
  transferring fs rs s → transferring fs rs s'.
Proof.
  intros (Hs & Hc & Hseg & Hmsg & Hp & Hup & _) (_ & _ & _ & Hentry & Hfill).
  split_and!; [done..|by rewrite Hmsg|]. unfold filled. by rewrite Hp, Hup.
Qed.

(** The first request loans the chunk. *)
Lemma transfer_first seg rest now s :
  ready h publisher l s → seg ∈ segments →
  ∃ s', loanBuffer (buffer_header t h header payload seg ++ rest) maxIoxChunkDatagramHeaderSerializationSize
          (Some l) now s = Ok (s', (segment_target (segment_header h count seg) userHeader p).1) ∧
    transferring [] [] s' ∧ t_published s' = t_published s.
Proof.
  intros (Hs & Hc & Hseg & Hnew & Hroom & Hloan) Hin. destruct seg as [o q].
  pose proof (segment_header_valid t h header payload sendable_h o q Hin) as Hv.
  unfold buffer_header. rewrite (loanBuffer_header _ rest _ now publisher) by done.
  destruct (loan_new (segment_header h count (o, q)) l now publisher s nullptr) as (-> & Hm & Hmap); [done..|].
  eexists. split; [done|]. split; [|done]. split_and!; [done..| |].
  - eexists. rewrite Hmap. split_and!; [apply lookup_insert_eq|done|done|]. simpl. lia.
  - exact (filled_nil t h header payload sendable_h l (t_memory s) Hloan).
Qed.

(** A further request finds it, and says where the segment goes. *)
Lemma transfer_request fs rs seg rest loan now s :
  transferring fs rs s → seg ∈ segments →
  loanBuffer (buffer_header t h header payload seg ++ rest) maxIoxChunkDatagramHeaderSerializationSize loan now s =
    Ok (s, (segment_target (segment_header h count seg) userHeader p).1).
Proof.
  intros (Hs & Hc & Hseg & (msg & Hmsg & <- & <- & _) & _) Hin. destruct seg as [o q].
  pose proof (segment_header_valid t h header payload sendable_h o q Hin) as Hv.
  unfold buffer_header. rewrite (loanBuffer_header _ rest _ now publisher) by done.
  by rewrite (loan_known _ _ _ _ _ _ msg).
Qed.

(** The place of a segment lies within the buffer, and filling it in is progress. *)
Lemma transfer_fill fs rs o q s :
  transferring fs rs s → (o, q) ∈ segments →
  ∃ ptr offset buf,
    segment_target (segment_header h count (o, q)) userHeader p = (ptr, offset) ∧
    t_memory s !! ptr = Some buf ∧ offset + Z.of_nat (length q) ≤ Z.of_nat (length buf) ∧
    ∀ buf', overwritten buf buf' (Z.to_nat offset) q →
      transferring (fs ++ [(o, q)]) rs (t_set_memory (<[ptr := buf']> (t_memory s)) s).
Proof.
  intros (Hs & Hc & Hseg & Hentry & Hfill) Hin. destruct pointers as (Hpn & Hun & Hup).
  destruct (filled_segment t h header payload sendable_h l fs _ o q Hfill Hin Hpn Hun Hup)
    as (ptr & offset & buf & Htarget & Hptr & Hbuf & Hfit & Hnext).
  exists ptr, offset, buf. split_and!; [done..|]. intros buf' Hover. split_and!; try done. by apply Hnext.
Qed.

(** What holds once [rs] were reported. *)
Definition reported fs rs s s' : Prop :=
  publications_of p s' = publications_of p s ++
    (if decide (length rs = length segments) then [completed header payload publisher l] else []) ∧
  ((length rs < length segments)%nat → transferring fs rs s').

Lemma transfer_release fs rs seg rest deviceIndex s :
  transferring fs rs s → rs ++ [seg] ⊆+ fs → fs ⊆+ segments →
  ∃ s', releaseBuffer (buffer_header t h header payload seg ++ rest) maxIoxChunkDatagramHeaderSerializationSize
          false deviceIndex s = Ok s' ∧ reported fs (rs ++ [seg]) s s'.
Proof.
  intros (Hs & Hc & Hseg & (msg & Hmsg & Huh & Hup & Hrem) & Hfill) Hrs Hfs.
  assert (seg ∈ segments) as Hin.
  { eapply elem_of_submseteq; [|exact Hfs]. eapply elem_of_submseteq; [|exact Hrs]. set_solver. }
  destruct seg as [o q]. pose proof (segment_header_valid t h header payload sendable_h o q Hin) as Hv.
  unfold buffer_header. rewrite (releaseBuffer_header _ rest _ _ publisher) by done.
  unfold release_in_channel. cbn [messageHash segment_header submessage].
  destruct (SegmentedMessages.findAndDecrement_spec (t_segmented s) (messageHash h) Hseg)
    as (m1 & Hwf1 & Hf). rewrite Hmsg in Hf. destruct Hf as [-> Hm1]. ostep. rewrite Hup.
  destruct (message_segments_length t h header payload sendable_h) as [_ Hu].
  pose proof (submseteq_length _ _ Hrs) as Hl1. pose proof (submseteq_length _ _ Hfs) as Hl2.
  unfold reported. rewrite length_app in *. cbn [length] in *.
  rewrite Hrem, wrap32_small in Hm1 |- * by (unfold is_u32 in *; lia).
  destruct (Z.eqb_spec (count - Z.of_nat (length rs) - 1) 0) as [Hz|Hz].
  - assert (fs ≡ₚ segments) as Hall by (apply submseteq_length_Permutation; [done|]; lia).
    destruct (filled_all t h header payload sendable_h l _ _ Hall Hfill) as [Hp Hh].
    unfold publish. cbn [t_memory t_set_segmented t_set_forwarder]. rewrite Hp. ostep. rewrite Hh.
    eexists. split; [done|]. rewrite decide_True by lia. split; [|lia].
    by apply publications_completed.
  - eexists. split; [done|]. rewrite decide_False by lia. split; [by rewrite app_nil_r|].
    intros _. split_and!; [done..| |done].
    exists (SegmentedMessages.set_remaining msg (count - Z.of_nat (length rs) - 1)).
    cbn [t_segmented t_set_segmented]. rewrite Hm1, lookup_insert_eq.
    split_and!; [done..|]. simpl. rewrite length_app. simpl. lia.
Qed.

(** Asking for a buffer publishes nothing. *)
Lemma loanBuffer_published mem size loan now s s' buffer :
  loanBuffer mem size loan now s = Ok (s', buffer) → t_published s' = t_published s.
Proof.
  intros ([h' n] & _ & Hrest)%bind_Ok. unfold doForChannel in Hrest. case_match; [|by injection Hrest as <- _].
  apply bind_Ok in Hrest as (e & _ & Hrest). apply bind_Ok in Hrest as (found & _ & Hrest).
  destruct found as [[]|]; [by injection Hrest as <- _|].
  destruct loan; [|by injection Hrest as <- _]. unfold push_segmented in Hrest.
  destruct (SegmentedMessages.push _ _ _). by injection Hrest as <- _.
Qed.

Lemma reported_published fs rs s s1 s2 :
  publications_of p s2 = publications_of p s1 → ((length rs < length segments)%nat → transferring fs rs s2) →
  reported fs rs s s1 → reported fs rs s s2.
Proof. intros He Ht [Hpub _]. split; [by rewrite He|done]. Qed.

Lemma transfers_progress s fs rs s' :
  ready h publisher l s → transfers t h header payload publisher l s fs rs s' → fs ⊆+ segments →
  rs ⊆+ fs ∧ (0 < length segments)%nat ∧ reported fs rs s s'.
Proof.
  intros Hready Hr. induction Hr as [seg rest now s' buffer Hin He
    |fs rs s1 seg rest loan now s2 buffer Hr IH Hin He|fs rs s1 seg ptr offset buf buf' Hr IH Ht Hb Hover
    |fs rs s1 seg rest dev s2 Hr IH Hrs He|fs rs s1 s2 Hr IH Hun]; intros Hfs.
  - destruct (transfer_first seg rest now s Hready Hin) as (s1 & He1 & Ht & Hpub).
    rewrite He in He1. injection He1 as <- _.
    assert (0 < length segments)%nat by (destruct segments; [by apply elem_of_nil in Hin|simpl; lia]).
    split_and!; [done..|]. split; [|done]. cbn [length]. rewrite decide_False by lia.
    unfold publications_of. by rewrite Hpub, app_nil_r.
  - destruct (IH Hfs) as (Hrs & Hpos & Hrep). split_and!; [done..|].
    apply (reported_published fs rs s s1 s2); [|intros Hlt|done].
    + unfold publications_of. by rewrite (loanBuffer_published _ _ _ _ _ _ _ He).
    + destruct Hrep as [_ Ht]. rewrite (transfer_request fs rs seg rest loan now s1) in He; [|by apply Ht|done].
      injection He as <- _. by apply Ht.
  - assert (fs ⊆+ segments) as Hfs1 by (etransitivity; [|exact Hfs]; by apply submseteq_inserts_r).
    destruct (IH Hfs1) as (Hrs & Hpos & [Hpub Htr]).
    split_and!; [by apply submseteq_inserts_r|done|]. split; [exact Hpub|]. intros Hlt.
    destruct seg as [o q]. destruct (transfer_fill fs rs o q s1) as (ptr' & offset' & b & Ht' & Hb' & _ & Hnext);
      [by apply Htr|eapply elem_of_submseteq; [|exact Hfs]; set_solver|].
    rewrite Ht in Ht'. injection Ht' as <- <-. rewrite Hb in Hb'. injection Hb' as <-. by apply Hnext.
  - destruct (IH Hfs) as (Hrs1 & Hpos & [Hpub Htr]). split_and!; [done..|].
    pose proof (submseteq_length _ _ Hrs) as Hl1. pose proof (submseteq_length _ _ Hfs) as Hl2.
    rewrite length_app in Hl1. cbn [length] in Hl1.
    destruct (transfer_release fs rs seg rest dev s1) as (s3 & He3 & [Hpub3 Ht3]); [apply Htr; lia|done..|].
    rewrite He in He3. injection He3 as <-. split; [|done].
    rewrite Hpub3, Hpub. by rewrite (decide_False (P := length rs = _)), app_nil_r by lia.
  - destruct (IH Hfs) as (Hrs & Hpos & Hrep). split_and!; [done..|].
    apply (reported_published fs rs s s1 s2); [by destruct Hun as (_ & _ & _ & _ & _ & _ & ->)|intros Hlt|done].
    eapply transferring_undisturbed; [exact Hun|]. by apply Hrep.
Qed.

Lemma list_nonempty_elem {A} (k : list A) : k ≠ [] → ∃ x, x ∈ k.
Proof. destruct k as [|x k]; [done|]. intros _. exists x. by left. Qed.

(** A transport can fill in the segments one after the other ... *)
Lemma transfers_fill s fs :
  ready h publisher l s → segments ≠ [] → fs `prefix_of` segments →
  ∃ s', transfers t h header payload publisher l s fs [] s'.
Proof.
  intros Hready Hne. induction fs as [|[o q] fs IH] using rev_ind; intros Hpre.
  - destruct (list_nonempty_elem segments) as [seg Hin]; [done|].
    destruct (transfer_first seg [] 0 s Hready Hin) as (s1 & He & _).
    exists s1. by eapply transfers_first.
  - destruct IH as [s1 Hs1]; [by eapply prefix_app_l|].
    assert (fs ++ [(o, q)] ⊆+ segments) as Hsub by (destruct Hpre as [k ->]; by apply submseteq_inserts_r).
    assert (fs ⊆+ segments) as Hsub1 by (etransitivity; [by apply (submseteq_inserts_r [(o, q)])|exact Hsub]).
    assert ((o, q) ∈ segments) as Hin by (eapply elem_of_submseteq; [|exact Hsub]; set_solver).
    destruct (transfers_progress s fs [] s1 Hready Hs1 Hsub1) as (_ & Hpos & _ & Htr).
    destruct (transfer_fill fs [] o q s1 (Htr Hpos) Hin) as (ptr & offset & buf & Ht & Hb & Hfit & _).
    destruct (memcpy_overwritten buf (Z.to_nat offset) q []) as (buf' & _ & Hover);
      [|by eexists; eapply transfers_filled].
    assert (0 ≤ offset); [|lia]. rewrite segment_target_eq in Ht.
    destruct (segments_elem t h header payload sendable_h o q Hin) as (_ & ? & _).
    destruct (Z.ltb_spec o (userHeaderSize h)); injection Ht as <- <-; lia.
Qed.

(** ... and then report them. *)
Lemma transfers_complete s :
  ready h publisher l s → segments ≠ [] →
  ∃ s', transfers t h header payload publisher l s segments segments s'.
Proof.
  intros Hready Hne.
  enough (∀ rs, rs `prefix_of` segments → ∃ s', transfers t h header payload publisher l s segments rs s')
    as Hall by by apply Hall.
  intros rs. induction rs as [|seg rs IH] using rev_ind; intros Hpre; [by apply transfers_fill|].
  destruct IH as [s1 Hs1]; [by eapply prefix_app_l|].
  assert (rs ++ [seg] ⊆+ segments) as Hsub by (destruct Hpre as [k ->]; by apply submseteq_inserts_r).
  destruct (transfers_progress s segments rs s1 Hready Hs1) as (_ & _ & _ & Htr); [done|].
  pose proof (submseteq_length _ _ Hsub) as Hl. rewrite length_app in Hl. cbn in Hl.
  destruct (transfer_release segments rs seg [] (mkDeviceIndex UDP 0) s1) as (s2 & He & _); [apply Htr; lia|done..|].
  exists s2. by eapply transfers_released.
Qed.
End transferring.

(** ** One transfer compared with one datagram *)

Lemma overwritten_unique buf b1 b2 offset data :
  overwritten buf b1 offset data → overwritten buf b2 offset data → b1 = b2.
Proof. intros [_ Ho1] [_ Ho2]. apply list_eq. intros i. by rewrite Ho1, Ho2. Qed.

(** Counting down the entry that was just pushed. *)
Lemma push_decrement `{IoxSpec} m (h : hash_t) msg :
  SegmentedMessages.segmented_wf m → to_map m !! h = None →
  (vm_size m < SegmentedMessages.MAX_SEGMENTED_MESSAGE_COUNT)%nat →
  let n := wrap32 (SegmentedMessages.remainingSegments msg - 1) in
  SegmentedMessages.findAndDecrement (SegmentedMessages.push m h msg).1 h =
    Ok (if n =? 0 then m else (SegmentedMessages.push m h (SegmentedMessages.set_remaining msg n)).1,
        Some (SegmentedMessages.sm_userHeader msg, SegmentedMessages.sm_userPayload msg, n =? 0)).
Proof.
  intros [Hm Hnd] Hh Hroom n. pose proof Hm as [Hl _].
  rewrite (to_map_None SegmentedMessages.MAX_SEGMENTED_MESSAGE_COUNT) in Hh by done.
  unfold SegmentedMessages.push. rewrite !vm_emplace_spec, !decide_True by done. cbn [fst].
  unfold SegmentedMessages.findAndDecrement.
  assert (vm_find (mkMap (m_keys m ++ [h]) (m_elems m ++ [msg])) h = length (m_elems m)) as Hfind.
  { unfold vm_find, std_find. cbn [m_keys]. rewrite find_if_app, decide_True by (by apply std_find_end).
    cbn. rewrite bool_decide_true by done. rewrite length_app, Hl. cbn. by rewrite (proj2 (Nat.eqb_neq _ _)) by lia. }
  rewrite Hfind. unfold vm_end, vm_at, vm_erase, vm_set. cbn [m_elems m_keys].
  rewrite length_app, (proj2 (Nat.eqb_neq _ _)), lookup_app_r, Nat.sub_diag by (cbn; lia). cbn [lookup list_lookup].
  cbn [negb deref mbind Outcome_bind]. fold n. cbn [SegmentedMessages.remainingSegments].
  destruct (n =? 0).
  - rewrite !vector_erase_at by (rewrite length_app; cbn; lia).
    rewrite <-Hl at 1. rewrite !delete_middle, !app_nil_r. by destruct m.
  - rewrite <-(Nat.add_0_r (length (m_elems m))), insert_app_r. done.
Qed.

Section one_transfer.
Context `{IoxSpec} `{IoxPosh}.
Implicit Types (s : T2I) (h : IoxChunkDatagramHeader_t).

(** Publishing a chunk that is complete. *)
Definition hand_on (publisher : Endpoint) h (deviceIndex : DeviceIndex_t) (userPayload : Ptr) s : Outcome T2I :=
  publish publisher userPayload
    (t_set_forwarder (TransportForwarder.push (t_forwarder s) userPayload (serviceHash h) deviceIndex) s).

(** Storing a segment when the same segment put in place gives [buf']. *)
Lemma store_overwritten publisher h data rest deviceIndex userHeader userPayload s ptr offset buf buf'
    (shouldPublish : bool) :
  segment_target h userHeader userPayload = (ptr, offset) →
  0 ≤ submessageOffset h → submessageSize h = Z.of_nat (length data) →
  userPayload ≠ nullptr → ptr ≠ nullptr → t_memory s !! ptr = Some buf →
  offset + Z.of_nat (length data) ≤ Z.of_nat (length buf) → overwritten buf buf' (Z.to_nat offset) data →
  let s' := t_set_memory (<[ptr := buf']> (t_memory s)) s in
  store_segment publisher h (data ++ rest) deviceIndex userHeader userPayload shouldPublish s =
    if shouldPublish then hand_on publisher h deviceIndex userPayload s' else Ok s'.
Proof.
  intros Ht Ho Hs Hne Hpne Hbuf Hfit Hover s'.
  destruct (store_segment_spec publisher h data rest deviceIndex userHeader userPayload s ptr offset buf)
    as (b & Hb & Hfalse & Htrue); [done..|]. rewrite <-(overwritten_unique _ _ _ _ _ Hover Hb) in Hfalse, Htrue.
  by destruct shouldPublish.
Qed.

(** The result of counting a segment, in the order of the transfer. *)
Lemma release_counted h deviceIndex publisher s m userHeader userPayload last :
  SegmentedMessages.findAndDecrement (t_segmented s) (messageHash h) = Ok (m, Some (userHeader, userPayload, last)) →
  release_in_channel h false deviceIndex publisher s =
    if last : bool then hand_on publisher h deviceIndex userPayload (t_set_segmented m s)
    else Ok (t_set_segmented m s).
Proof. intros Hf. unfold release_in_channel. rewrite Hf. ostep. by destruct last. Qed.

Lemma transfer_known publisher h data rest deviceIndex loan now s msg ptr offset buf buf' :
  SegmentedMessages.segmented_wf (t_segmented s) → to_map (t_segmented s) !! messageHash h = Some msg →
  segment_target h (SegmentedMessages.sm_userHeader msg) (SegmentedMessages.sm_userPayload msg) = (ptr, offset) →
  0 ≤ submessageOffset h → submessageSize h = Z.of_nat (length data) →
  SegmentedMessages.sm_userPayload msg ≠ nullptr → ptr ≠ nullptr → t_memory s !! ptr = Some buf →
  offset + Z.of_nat (length data) ≤ Z.of_nat (length buf) → overwritten buf buf' (Z.to_nat offset) data →
  release_in_channel h false deviceIndex publisher (t_set_memory (<[ptr := buf']> (t_memory s)) s) =
  receive_in_channel h (data ++ rest) deviceIndex loan now publisher s.
Proof.
  intros Hseg Hmsg Ht Ho Hs Hne Hpne Hbuf Hfit Hover.
  destruct (SegmentedMessages.findAndDecrement_spec (t_segmented s) (messageHash h) Hseg)
    as (m & _ & Hf). rewrite Hmsg in Hf. destruct Hf as [Hf _].
  rewrite (release_counted _ _ _ (t_set_memory _ s) _ _ _ _ Hf). unfold receive_in_channel. rewrite Hf. ostep.
  by rewrite (store_overwritten _ _ _ _ _ _ _ (t_set_segmented m s) ptr offset buf buf').
Qed.

Lemma transfer_new publisher h data rest deviceIndex l now s ptr offset buf buf' :
  SegmentedMessages.segmented_wf (t_segmented s) → to_map (t_segmented s) !! messageHash h = None →
  (vm_size (t_segmented s) < SegmentedMessages.MAX_SEGMENTED_MESSAGE_COUNT)%nat →
  0 < submessageCount h < 2 ^ 32 →
  let userHeader := userHeaderPtr (hasUserHeader h) (loan_userPayload l) in
  segment_target h userHeader (loan_userPayload l) = (ptr, offset) →
  0 ≤ submessageOffset h → submessageSize h = Z.of_nat (length data) →
  loan_userPayload l ≠ nullptr → ptr ≠ nullptr →
  let s1 := loaned publisher h l now s in
  t_memory s1 !! ptr = Some buf →
  offset + Z.of_nat (length data) ≤ Z.of_nat (length buf) → overwritten buf buf' (Z.to_nat offset) data →
  release_in_channel h false deviceIndex publisher (t_set_memory (<[ptr := buf']> (t_memory s1)) s1) =
  receive_in_channel h (data ++ rest) deviceIndex (Some l) now publisher s.
Proof.
  intros Hseg Hnew Hroom Hcount userHeader Ht Ho Hs Hne Hpne s1 Hbuf Hfit Hover.
  pose proof (push_decrement (t_segmented s) (messageHash h) (loaned_entry publisher h l now) Hseg Hnew Hroom) as Hf.
  cbv zeta in Hf. cbn [SegmentedMessages.remainingSegments loaned_entry SegmentedMessages.sm_userHeader
    SegmentedMessages.sm_userPayload] in Hf. rewrite wrap32_small in Hf by (unfold is_u32; lia).
  rewrite (release_counted _ _ _ (t_set_memory _ s1) _ _ _ _ Hf). unfold receive_in_channel.
  destruct (SegmentedMessages.findAndDecrement_spec (t_segmented s) (messageHash h) Hseg)
    as (m' & _ & Hf'). rewrite Hnew in Hf'. destruct Hf' as [-> ->]. ostep.
  rewrite wrap32_small by (unfold is_u32; lia). fold userHeader.
  set (s2 := t_set_memory (allocate _ l _) _).
  destruct (Z.ltb_spec 1 (submessageCount h)) as [Hlt|Hge].
  - rewrite (proj2 (Z.eqb_neq _ _)) by lia.
    destruct (push_segmented_room publisher (submessageCount h - 1) h now userHeader (loan_userPayload l) s2)
      as (-> & _); [done..|].
    by rewrite (store_overwritten _ _ _ _ _ _ _ (record_calls _ _) ptr offset buf buf').
  - rewrite (proj2 (Z.eqb_eq _ _)) by lia.
    rewrite (store_overwritten _ _ _ _ _ _ _ s2 ptr offset buf buf') by done.
    unfold s1, loaned, hand_on, s2. f_equal. unfold t_set_forwarder, t_set_segmented, t_set_memory, record_calls.
    cbn. by rewrite app_nil_r.
Qed.
End one_transfer.

(** ** Lemmas: released chunks *)

Lemma free_lookup_None `{IoxPosh} q k mem : mem !! k = None → free q mem !! k = None.
Proof. intros Hk. unfold free. by rewrite !lookup_delete_None; auto. Qed.

Lemma freed_stays `{IoxPosh} calls k mem : mem !! k = None → free_released calls mem !! k = None.
Proof.
  revert mem. induction calls as [|c calls IH]; intros mem Hk; [done|]. simpl. apply IH.
  destruct c; [done|by apply free_lookup_None|done].
Qed.

Lemma released_freed `{IoxPosh} calls u q mem :
  PublisherRelease u q ∈ calls →
  free_released calls mem !! q = None ∧ free_released calls mem !! userHeaderOf q = None.
Proof.
  revert mem. induction calls as [|c calls IH]; intros mem Hc; [by apply elem_of_nil in Hc|]. simpl.
  apply elem_of_cons in Hc as [<-|Hc]; [|by apply IH]. split; apply freed_stays; unfold free.
  - apply lookup_delete_None. right. apply lookup_delete_eq.
  - apply lookup_delete_eq.
Qed.

(** The check of the main loop gives the chunk of an expired message back. *)
Lemma check_expires `{IoxSpec} `{IoxPosh} (k : hash_t) msg (later : Z) s :
  SegmentedMessages.segmented_wf (t_segmented s) → to_map (t_segmented s) !! k = Some msg →
  SegmentedMessages.sm_deadline msg < later →
  ∃ m calls, checkSegmentedMessages later s = Ok (record_calls calls (t_set_segmented m s)) ∧
    SegmentedMessages.segmented_wf m ∧ to_map m !! k = None ∧
    PublisherRelease (SegmentedMessages.sm_publisher msg) (SegmentedMessages.sm_userPayload msg) ∈ calls.
Proof.
  intros [Hm Hnd] Hk Hlate. unfold checkSegmentedMessages.
  destruct (SegmentedMessages.check_spec (S (vm_size (t_segmented s))) later (t_segmented s) Hm)
    as (m & -> & Hm' & Hent); [lia|]. ostep.
  assert (SegmentedMessages.segmented_wf m) as Hwf
    by (eapply (SegmentedMessages.keys_filter_NoDup _ (t_segmented s)); [by split|done|exact Hent]).
  assert (Is_true (SegmentedMessages.expired later msg)) as Hexp.
  { unfold SegmentedMessages.expired. by rewrite (proj2 (Z.ltb_lt _ _)). }
  eexists m, _. split_and!; [done..| |].
  - destruct (to_map m !! k) as [msg'|] eqn:Hk'; [|done].
    apply (to_map_Some SegmentedMessages.MAX_SEGMENTED_MESSAGE_COUNT) in Hk'; [|apply Hwf..].
    rewrite Hent in Hk'. apply list_elem_of_filter in Hk' as [Hno Hk'].
    apply (to_map_Some SegmentedMessages.MAX_SEGMENTED_MESSAGE_COUNT) in Hk'; [|done..].
    rewrite Hk in Hk'. by injection Hk' as <-.
  - apply (list_elem_of_fmap_2 SegmentedMessages.release_call _ msg), (list_elem_of_fmap_2 snd _ (k, msg)).
    apply list_elem_of_filter. split; [done|].
    by apply (to_map_Some SegmentedMessages.MAX_SEGMENTED_MESSAGE_COUNT).
Qed.

Lemma takeNext_released h data userHeader userPayload mem ptr offset :
  segment_target h userHeader userPayload = (ptr, offset) → ptr ≠ nullptr → mem !! ptr = None →
  takeNext h data userHeader userPayload mem = UndefinedBehaviour.
Proof.
  unfold segment_target, takeNext. intros Ht Hne Hnone.
  case_match; injection Ht as -> _; by rewrite (proj2 (Z.eqb_neq _ _)), Hnone.
Qed.

(** Registering a new message when there is no room. *)
Lemma push_segmented_full `{IoxSpec} `{IoxPosh} publisher n h now userHeader userPayload s :
  SegmentedMessages.segmented_wf (t_segmented s) → to_map (t_segmented s) !! messageHash h = None →
  vm_size (t_segmented s) = SegmentedMessages.MAX_SEGMENTED_MESSAGE_COUNT →
  push_segmented publisher n h now userHeader userPayload s =
    record_calls [PublisherRelease (getUid publisher) userPayload] s.
Proof.
  intros Hseg Hnew Hfull. unfold push_segmented. set (msg := SegmentedMessages.mkSegmented _ _ _ _ _ _).
  pose proof (SegmentedMessages.segmented_push_spec (t_segmented s) (messageHash h) msg Hseg Hnew) as Hp.
  destruct (SegmentedMessages.push _ _ _) as [m calls]. destruct Hp as [_ Hp].
  rewrite decide_False in Hp by lia. by destruct Hp as [-> ->].
Qed.

(** Where a segment goes is part of its message's chunk. *)
Lemma target_in_chunk `{IoxPosh} h q :
  0 ≤ submessageOffset h →
  (segment_target h (userHeaderPtr (hasUserHeader h) q) q).1 = q ∨
  hasUserHeader h = true ∧ (segment_target h (userHeaderPtr (hasUserHeader h) q) q).1 = userHeaderOf q.
Proof.
  intros Hoff. unfold segment_target, userHeaderPtr, hasUserHeader. case_match eqn:Ho; [|by left].
  apply Z.ltb_lt in Ho. right. by rewrite (proj2 (Z.eqb_neq _ _)) by lia.
Qed.

Lemma allocated `{IoxPosh} b l mem :
  userHeaderOf (loan_userPayload l) ≠ loan_userPayload l →
  is_Some (allocate b l mem !! loan_userPayload l) ∧
  (b = true → is_Some (allocate b l mem !! userHeaderOf (loan_userPayload l))).
Proof.
  intros Hne. unfold allocate. destruct b; (split; [|done || by rewrite lookup_insert_eq]).
  - by rewrite lookup_insert_ne, lookup_insert_eq by done.
  - by rewrite lookup_insert_eq.
Qed.

(** ** Properties *)

Section properties.
Context `{IoxSpec} `{TransportLayer} `{IoxPosh}.

Local Abbreviation headerBytes := maxIoxChunkDatagramHeaderSerializationSize.

(** C11: A transport that writes into the chunks itself delivers a message as it was
    sent, with any number of its segments under way at once and other activity in
    between: until all segments are reported, every request is answered with the object
    the segment belongs to, the segment's place lies within it, and every report is
    taken; nothing is published before the last report, and with it the chunk is
    published once, with exactly the user header and the user payload of the sender. *)
Theorem buffer_transfers_publish (t : TransportType) (h : IoxChunkDatagramHeader_t) (header payload : bytes)
    (publisher : Endpoint) (l : Loan) (s : T2I) (fs rs : list (Z * bytes)) (s' : T2I) :
  let segments := message_segments (piece_of t) header payload in
  let count := Z.of_nat (length segments) in
  let p := loan_userPayload l in
  let target seg := segment_target (segment_header h count seg) (userHeaderPtr (hasUserHeader h) p) p in
  sendable t h header payload → ready h publisher l s →
  transfers t h header payload publisher l s fs rs s' → fs ⊆+ segments →
  publications_of p s' = publications_of p s ++
    (if decide (length rs = length segments) then [mkPublished (getUid publisher) p header payload] else []) ∧
  ((length rs < length segments)%nat →
   (∀ seg rest loan now, seg ∈ segments →
      loanBuffer (buffer_header t h header payload seg ++ rest) headerBytes loan now s' =
        Ok (s', (target seg).1)) ∧
   (∀ seg, fs ++ [seg] ⊆+ segments →
      ∃ buf, t_memory s' !! (target seg).1 = Some buf ∧
        0 ≤ (target seg).2 ∧ (target seg).2 + Z.of_nat (length seg.2) ≤ Z.of_nat (length buf)) ∧
   (∀ seg rest deviceIndex, rs ++ [seg] ⊆+ fs →
      ∃ s'', releaseBuffer (buffer_header t h header payload seg ++ rest) headerBytes false deviceIndex s' = Ok s'')).
Proof.
  intros segments count p target Hs Hready Hr Hfs.
  pose proof Hready as (_ & _ & _ & _ & _ & Hpn & Hup & Hne & _).
  pose proof (conj Hpn (conj Hup Hne)) as Hptr.
  destruct (transfers_progress t h header payload Hs publisher l Hptr s fs rs s' Hready Hr Hfs)
    as (_ & _ & Hpub & Htr). split; [exact Hpub|]. intros Hlt. specialize (Htr Hlt). split_and!.
  - intros seg rest loan now Hin. by apply (transfer_request t h header payload Hs publisher l fs rs).
  - intros [o q] Hsub. assert ((o, q) ∈ segments) as Hin by (eapply elem_of_submseteq; [|exact Hsub]; set_solver).
    destruct (transfer_fill t h header payload Hs publisher l Hptr fs rs o q s' Htr Hin)
      as (ptr & offset & buf & Ht & Hb & Hfit & _).
    destruct (segments_elem t h header payload Hs o q Hin) as (_ & Ho & _).
    exists buf. unfold target, count, segments, p. rewrite Ht. cbn [fst snd]. split_and!; [done| |done].
    rewrite segment_target_eq in Ht.
    destruct (Z.ltb_spec o (userHeaderSize h)); injection Ht as <- <-; lia.
  - intros seg rest deviceIndex Hrs.
    destruct (transfer_release t h header payload Hs publisher l Hptr fs rs seg rest deviceIndex s' Htr Hrs Hfs)
      as (s'' & He & _). by exists s''.
Qed.

(** C23: Writing into the chunk and copying from a datagram come to the same: when a
    transport asks for the buffer of a segment, puts the segment at its place and
    reports it, the gateway is in exactly the state in which [receive] leaves it for the
    same segment in a datagram, whatever that is, publication, forwarding and memory
    included. *)
Theorem buffer_transfer_is_receive (h : IoxChunkDatagramHeader_t) (data rest rest' : bytes)
    (deviceIndex : DeviceIndex_t) (loan : option Loan) (now : Z) (publisher : Endpoint) (s s1 : T2I)
    (buffer : Ptr) (buf buf' : bytes) (offset : Z) :
  valid_Header h → submessageSize h = Z.of_nat (length data) → headerSize + Z.of_nat (length data) < 2 ^ 32 →
  0 < submessageCount h → channels_wf s → channel_at s (serviceHash h) publisher →
  SegmentedMessages.segmented_wf (t_segmented s) →
  (∀ msg, to_map (t_segmented s) !! messageHash h = Some msg → SegmentedMessages.sm_userPayload msg ≠ nullptr) →
  (vm_size (t_segmented s) < SegmentedMessages.MAX_SEGMENTED_MESSAGE_COUNT)%nat →
  (∀ l, loan = Some l → loan_userPayload l ≠ nullptr) →
  loanBuffer (header_bytes h ++ rest) headerBytes loan now s = Ok (s1, buffer) →
  buffer ≠ nullptr → t_memory s1 !! buffer = Some buf →
  offset = (if submessageOffset h <? userHeaderSize h then submessageOffset h
            else submessageOffset h - userHeaderSize h) →
  offset + Z.of_nat (length data) ≤ Z.of_nat (length buf) → overwritten buf buf' (Z.to_nat offset) data →
  releaseBuffer (header_bytes h ++ rest') headerBytes false deviceIndex
    (t_set_memory (<[buffer := buf']> (t_memory s1)) s1) =
  receive (header_bytes h ++ data ++ rest) (headerBytes + length data) deviceIndex loan now s.
Proof.
  intros Hv Hs Hlim Hcount Hwf Hc Hseg Hknown Hroom Hloan He Hne Hbuf Hoff Hfit Hover.
  rewrite receive_datagram, (doForChannel_found _ publisher) by done.
  rewrite (loanBuffer_header _ _ _ _ publisher) in He by done.
  assert (∀ uh up, buffer = (segment_target h uh up).1 → segment_target h uh up = (buffer, offset)) as Ht.
  { intros uh up ->. unfold segment_target. rewrite Hoff. by case_match. }
  assert (0 ≤ submessageOffset h ∧ submessageCount h < 2 ^ 32) as [Ho Hu]
    by (unfold valid_Header, is_u32 in Hv; lia).
  destruct (to_map (t_segmented s) !! messageHash h) as [msg|] eqn:Hmsg.
  - rewrite (loan_known _ _ _ _ _ _ msg) in He by done. injection He as <- Hb. symmetry in Hb.
    rewrite (releaseBuffer_header _ _ _ _ publisher) by done.
    apply (transfer_known _ _ _ _ _ _ _ _ msg buffer offset buf buf'); try done; [by apply Ht|by apply Hknown].
  - destruct loan as [l|].
    + destruct (loan_new h l now publisher s nullptr) as (Hl & _ & _); [done..|].
      rewrite Hl in He. injection He as <- Hb. symmetry in Hb.
      rewrite (releaseBuffer_header _ _ _ _ publisher) by done.
      apply (transfer_new _ _ _ _ _ _ _ _ buffer offset buf buf'); try done; [by apply Ht|by apply Hloan].
    + unfold loan_in_channel in He. rewrite SegmentedMessages.segmented_find_spec, Hmsg in He by done.
      revert He. ostep. intros [= _ Hb]. by subst buffer.
Qed.

(** The deadline of a message does not wait for a transport that is filling its
    buffer: when it has passed, the next check of the main loop returns the chunk to
    iceoryx although the transport still holds the buffer, which is then written after
    it was released; the report of the transport is ignored and the message is lost. *)
Theorem expired_buffer_released (t : TransportType) (h : IoxChunkDatagramHeader_t) (header payload : bytes)
    (publisher : Endpoint) (l : Loan) (s : T2I) (seg : Z * bytes) (rest : bytes) (now later : Z)
    (deviceIndex : DeviceIndex_t) :
  sendable t h header payload → ready h publisher l s →
  seg ∈ message_segments (piece_of t) header payload → deadlineOf now h < later →
  let mem := buffer_header t h header payload seg ++ rest in
  ∃ s1 buffer s2,
    loanBuffer mem headerBytes (Some l) now s = Ok (s1, buffer) ∧ is_Some (t_memory s1 !! buffer) ∧
    checkSegmentedMessages later s1 = Ok s2 ∧
    PublisherRelease (getUid publisher) (loan_userPayload l) ∈ t_calls s2 ∧ t_memory s2 !! buffer = None ∧
    releaseBuffer mem headerBytes false deviceIndex s2 = Ok s2.
Proof.
  intros Hs (Hwf & Hc & Hseg & Hnew & Hroom & Hloan) Hin Hlate mem. destruct seg as [o q].
  pose proof (segment_header_valid t h header payload Hs o q Hin) as Hv.
  destruct (segments_elem t h header payload Hs o q Hin) as (_ & Ho & _).
  unfold mem, buffer_header. clear mem. set (hd := segment_header h _ (o, q)) in *.
  destruct (loan_new hd l now publisher s nullptr) as (He & Hm & Hmap); [done..|].
  set (s1 := loaned publisher hd l now s) in *.
  destruct (check_expires (messageHash h) (loaned_entry publisher hd l now) later s1)
    as (m & calls & Hcheck & Hwfm & Hnone & Hcall); [done|rewrite Hmap; apply lookup_insert_eq|exact Hlate|].
  destruct (released_freed _ _ _ (t_memory s1) Hcall) as [Hfp Hfh].
  eexists s1, _, _. rewrite (loanBuffer_header _ _ _ _ publisher) by done.
  split; [exact He|]. split; [|split; [exact Hcheck|split; [|split]]].
  - destruct Hloan as (_ & _ & Hne & _).
    destruct (allocated (hasUserHeader hd) l (t_memory s) Hne) as [Hap Hah].
    destruct (target_in_chunk hd (loan_userPayload l) Ho) as [->|[Hb ->]]; [exact Hap|exact (Hah Hb)].
  - cbn. apply elem_of_app. by right.
  - destruct (target_in_chunk hd (loan_userPayload l) Ho) as [->|[_ ->]]; [exact Hfp|exact Hfh].
  - rewrite (releaseBuffer_header _ _ _ _ publisher) by done. unfold release_in_channel.
    destruct (SegmentedMessages.findAndDecrement_spec m (messageHash hd) Hwfm) as (m' & _ & Hf).
    change (messageHash hd) with (messageHash h) in Hf at 1.
    rewrite Hnone in Hf. destruct Hf as [Hf ->]. cbn [t_segmented record_calls t_set_segmented].
    rewrite Hf. by ostep.
Qed.

(** C38: The list of messages under way holds 64.  When it is full, the first segment of
    a further message is written to a chunk that was returned to iceoryx a moment
    before: [push] releases the chunk and the callers go on with its pointers. *)
Theorem message_beyond_limit_undefined (h : IoxChunkDatagramHeader_t) (data rest : bytes)
    (deviceIndex : DeviceIndex_t) (l : Loan) (now : Z) (s : T2I) (publisher : Endpoint) :
  valid_Header h → submessageSize h = Z.of_nat (length data) → 1 < submessageCount h →
  headerSize + Z.of_nat (length data) < 2 ^ 32 →
  channels_wf s → channel_at s (serviceHash h) publisher →
  SegmentedMessages.segmented_wf (t_segmented s) → to_map (t_segmented s) !! messageHash h = None →
  vm_size (t_segmented s) = SegmentedMessages.MAX_SEGMENTED_MESSAGE_COUNT →
  loan_ok (userPayloadSize h) (userHeaderSize h) l (t_memory s) →
  receive (header_bytes h ++ data ++ rest) (headerBytes + length data) deviceIndex (Some l) now s
    = UndefinedBehaviour ∧
  ∃ s' buffer, loanBuffer (header_bytes h ++ rest) headerBytes (Some l) now s = Ok (s', buffer) ∧
    buffer ≠ nullptr ∧ t_memory s' !! buffer = None.
Proof.
  intros Hv Hsize Hcount Hlim Hwf Hc Hseg Hnew Hfull (Hp & Hup & Hne & _).
  assert (0 ≤ submessageOffset h) as Ho by (unfold valid_Header, is_u32 in Hv; lia).
  rewrite receive_datagram, (doForChannel_found _ publisher), (loanBuffer_header _ _ _ _ publisher) by done.
  unfold receive_in_channel, loan_in_channel.
  destruct (SegmentedMessages.findAndDecrement_spec (t_segmented s) (messageHash h) Hseg) as (m' & _ & Hf).
  rewrite Hnew in Hf. destruct Hf as [-> ->].
  rewrite SegmentedMessages.segmented_find_spec, Hnew by done. ostep. cbn [fmap option_fmap option_map].
  rewrite (proj2 (Z.ltb_lt 1 (submessageCount h)) Hcount), !push_segmented_full by done.
  set (p := loan_userPayload l) in *. set (target := segment_target h (userHeaderPtr (hasUserHeader h) p) p).
  destruct (released_freed [PublisherRelease (getUid publisher) p] (getUid publisher) p
    (allocate (hasUserHeader h) l (t_memory s))) as [Hfp Hfh]; [by left|].
  assert (target.1 ≠ nullptr ∧ free_released [PublisherRelease (getUid publisher) p]
    (allocate (hasUserHeader h) l (t_memory s)) !! target.1 = None) as [Htn Hfree].
  { unfold target. by destruct (target_in_chunk h p Ho) as [->|[_ ->]]. }
  split.
  - unfold store_segment. rewrite (proj2 (Z.eqb_neq _ _)) by done. cbn [negb].
    by rewrite (takeNext_released _ _ _ _ _ target.1 target.2) by (done || apply surjective_pairing).
  - eexists _, target.1. split; [|split; [exact Htn|]].
    + subst target. unfold segment_target. by destruct (submessageOffset h <? userHeaderSize h).
    + exact Hfree.
Qed.
End properties.

(** ** Witnesses *)

Local Abbreviation delivered_header := (replicate 20 Init.Byte.xaa).
Local Abbreviation delivered_payload := (replicate 12 Init.Byte.xbb).

Definition delivered_segments : list (Z * bytes) :=
  message_segments (@piece_of ref_iox (example_layer []) UDP) delivered_header delivered_payload.

Lemma delivered_sendable :
  @sendable ref_iox (example_layer []) UDP delivered_message delivered_header delivered_payload.
Proof. apply (bool_decide_unpack _). vm_compute. exact I. Qed.

Lemma buffer_transfers_publish_witness :
  ∃ s', @transfers ref_iox (example_layer []) example_posh UDP delivered_message delivered_header delivered_payload
          example_publisher delivered_loan example_t2i delivered_segments delivered_segments s' ∧
    publications_of 640 s' = [mkPublished 50 640 delivered_header delivered_payload].
Proof.
  destruct (@transfers_complete ref_iox ref_iox_spec (example_layer []) example_posh UDP delivered_message
    delivered_header delivered_payload delivered_sendable example_publisher delivered_loan) with (s := example_t2i)
    as (s' & Hr); [split_and!; done|exact delivered_ready|by vm_compute|].
  exists s'. split; [exact Hr|].
  destruct (@buffer_transfers_publish ref_iox ref_iox_spec (example_layer []) example_posh UDP delivered_message
    delivered_header delivered_payload example_publisher delivered_loan example_t2i _ _ s' delivered_sendable
    delivered_ready Hr) as [Hpub _]; [done|].
  simpl loan_userPayload in Hpub. rewrite Hpub. rewrite decide_True by done. reflexivity.
Defined.

Lemma overwritten_app (a b c d : bytes) :
  length b = length d → overwritten (a ++ b ++ c) (a ++ d ++ c) (length a) d.
Proof.
  intros Hl. split; [by rewrite !length_app, Hl|]. intros i. case_decide as Hi.
  - by rewrite lookup_app_r, lookup_app_l by lia.
  - destruct (decide (i < length a)%nat); [by rewrite !lookup_app_l by lia|].
    by rewrite !(lookup_app_r a), !lookup_app_r, Hl by lia.
Qed.

Definition transferred_loaned : T2I :=
  @loaned ref_iox example_posh example_publisher (single_segment 4) example_loan 0 example_t2i.

Lemma buffer_transfer_is_receive_witness :
  let h := single_segment 4 in
  let buf' := replicate 4 Init.Byte.x00 ++ replicate 8 Init.Byte.xcc ++ replicate 4 Init.Byte.x00 in
  @loanBuffer ref_iox example_posh (@header_bytes ref_iox h ++ []) 44 (Some example_loan) 0 example_t2i =
    Ok (transferred_loaned, 640) ∧
  @releaseBuffer ref_iox example_posh (@header_bytes ref_iox h ++ []) 44 false (mkDeviceIndex UDP 0)
    (t_set_memory (<[640 := buf']> (t_memory transferred_loaned)) transferred_loaned) =
  @receive ref_iox example_posh (@header_bytes ref_iox h ++ replicate 8 Init.Byte.xcc ++ []) 52
    (mkDeviceIndex UDP 0) (Some example_loan) 0 example_t2i.
Proof.
  intros h buf'.
  assert (@loanBuffer ref_iox example_posh (@header_bytes ref_iox h ++ []) 44 (Some example_loan) 0 example_t2i =
    Ok (transferred_loaned, 640)) as He by (vm_compute; reflexivity).
  split; [exact He|].
  apply (@buffer_transfer_is_receive ref_iox ref_iox_spec example_posh h (replicate 8 Init.Byte.xcc) [] []
    (mkDeviceIndex UDP 0) (Some example_loan) 0 example_publisher example_t2i transferred_loaned 640
    (replicate 4 Init.Byte.x00 ++ replicate 8 Init.Byte.x00 ++ replicate 4 Init.Byte.x00) buf' 4).
  - apply (bool_decide_unpack _). vm_compute. exact I.
  - reflexivity.
  - vm_compute. reflexivity.
  - reflexivity.
  - exact example_t2i_channels.
  - exact example_t2i_channel.
  - apply SegmentedMessages.segmented_empty_wf.
  - by intros msg.
  - vm_compute. lia.
  - by intros l [= <-].
  - exact He.
  - done.
  - vm_compute. reflexivity.
  - reflexivity.
  - vm_compute. discriminate.
  - apply (overwritten_app (replicate 4 _) (replicate 8 _) _ (replicate 8 _)). reflexivity.
Defined.

(** 32 bytes may take 16000 nanoseconds. *)
Lemma expired_buffer_released_witness :
  let mem := @buffer_header ref_iox (example_layer []) UDP delivered_message delivered_header delivered_payload
               (32 - 12, delivered_payload) ++ [] in
  deadlineOf 0 delivered_message = 16000 ∧
  ∃ s1 buffer s2,
    @loanBuffer ref_iox example_posh mem 44 (Some delivered_loan) 0 example_t2i = Ok (s1, buffer) ∧
    is_Some (t_memory s1 !! buffer) ∧
    @checkSegmentedMessages ref_iox example_posh 16001 s1 = Ok s2 ∧
    PublisherRelease 50 640 ∈ t_calls s2 ∧ t_memory s2 !! buffer = None ∧
    @releaseBuffer ref_iox example_posh mem 44 false (mkDeviceIndex UDP 0) s2 = Ok s2.
Proof.
  intros mem. split; [reflexivity|].
  apply (@expired_buffer_released ref_iox ref_iox_spec (example_layer []) example_posh UDP delivered_message
    delivered_header delivered_payload example_publisher delivered_loan example_t2i (32 - 12, delivered_payload) []
    0 16001 (mkDeviceIndex UDP 0)).
  - exact delivered_sendable.
  - exact delivered_ready.
  - apply (bool_decide_unpack _). vm_compute. exact I.
  - reflexivity.
Defined.

(** 64 messages are under way in the channel. *)
Definition full_t2i : T2I :=
  t_set_segmented
    (mkMap (seqZ 100 64)
       (replicate 64 (SegmentedMessages.mkSegmented 2 0 900 Transport2IceoryxEndpoints 50 1000)))
    example_t2i.

Lemma message_beyond_limit_undefined_witness :
  @receive ref_iox example_posh (@header_bytes ref_iox first_of_two ++ replicate 8 Init.Byte.xcc ++ []) 52
    (mkDeviceIndex UDP 0) (Some example_loan) 0 full_t2i = UndefinedBehaviour ∧
  ∃ s' buffer, @loanBuffer ref_iox example_posh (@header_bytes ref_iox first_of_two ++ []) 44
      (Some example_loan) 0 full_t2i = Ok (s', buffer) ∧
    buffer ≠ nullptr ∧ t_memory s' !! buffer = None.
Proof.
  apply (@message_beyond_limit_undefined ref_iox ref_iox_spec example_posh first_of_two
    (replicate 8 Init.Byte.xcc) [] (mkDeviceIndex UDP 0) example_loan 0 full_t2i example_publisher).
  - apply (bool_decide_unpack _). vm_compute. exact I.
  - reflexivity.
  - reflexivity.
  - vm_compute. reflexivity.
  - exact example_t2i_channels.
  - exact example_t2i_channel.
  - split; [split; vm_compute; lia|]. apply (bool_decide_unpack _). vm_compute. exact I.
  - vm_compute. reflexivity.
  - reflexivity.
  - split_and!; try done; lia.
Defined.
