(* ===== verification/Bystanders.v ===== *)
(** * Bystanders: what leaves a message under way alone

    Between two datagrams of a message the receiving gateway does other things.
    The lemmas here say which of them leave the message's entry, its chunk and
    its publications as they are: whatever concerns other messages, whose
    chunks iceoryx keeps disjoint from this one. *)

From stdpp Require Import base list gmap.
From S2P Require Import Prelude.
From S2P Require Import Iox.
From S2P Require Import Types.
From S2P Require Import VectorMap.
From S2P Require Import Serialization.
From S2P Require Import Gateway.
From S2P Require Import Discovery.
From S2P Require Import DataWriter.
From S2P Require Import Chunks.
From S2P Require SegmentedMessages.
From S2P Require Import TransportToIox.
From S2P Require Import Traffic.
From S2P Require Import EndToEnd.
From Stdlib Require Import Permutation.

Open Scope Z_scope.

Section bystanders.
Context `{IoxSpec} `{IoxPosh}.
Context (mh : hash_t) (hash : ClassHash) (publisher : Endpoint) (l : Loan).

Local Abbreviation p := (loan_userPayload l).
Implicit Types (s : T2I) (h : IoxChunkDatagramHeader_t) (mem : Memory).

(** The chunk at [q] is disjoint from the message's. *)
Definition apart (q : Ptr) : Prop :=
  q ≠ p ∧ q ≠ userHeaderOf p ∧ userHeaderOf q ≠ p ∧ userHeaderOf q ≠ userHeaderOf p.

(** The message belongs to its publisher, and the others have other chunks. *)
Definition in_flight (k : hash_t) (msg : SegmentedMessages.SegmentedMessage_t) : Prop :=
  (k = mh → SegmentedMessages.sm_publisher msg = getUid publisher) ∧
  (k ≠ mh → apart (SegmentedMessages.sm_userPayload msg) ∧
     ∃ b, SegmentedMessages.sm_userHeader msg = userHeaderPtr b (SegmentedMessages.sm_userPayload msg)).

Lemma in_flight_uncounted : uncounted in_flight.
Proof. by intros k msg n Hk. Qed.

Definition same_chunk mem mem' : Prop :=
  mem' !! p = mem !! p ∧ mem' !! userHeaderOf p = mem !! userHeaderOf p.

(** Nothing of the message changes. *)
Definition frame s s' : Prop :=
  to_map (t_segmented s') !! mh = to_map (t_segmented s) !! mh ∧
  same_chunk (t_memory s) (t_memory s') ∧ publications_of p s' = publications_of p s.

#[export] Instance same_chunk_preorder : PreOrder same_chunk.
Proof.
  split; [done|]. intros m1 m2 m3 [H12 H12'] [H23 H23']. split; congruence.
Qed.

#[export] Instance frame_preorder : PreOrder frame.
Proof.
  split; [by intros s; split_and!|].
  intros s1 s2 s3 (H12 & Hm12 & Hp12) (H23 & Hm23 & Hp23). unfold frame.
  split_and!; [congruence|by transitivity (t_memory s2)|congruence].
Qed.

(** ** The memory *)

Lemma free_same q mem : apart q → same_chunk mem (free q mem).
Proof. intros (? & ? & ? & ?). unfold same_chunk, free. by rewrite !lookup_delete_ne. Qed.

Lemma free_released_same calls mem :
  (∀ u q, PublisherRelease u q ∈ calls → apart q) → same_chunk mem (free_released calls mem).
Proof.
  revert mem. induction calls as [|c calls IH]; intros mem Hc; [done|]. simpl.
  transitivity (match c with PublisherRelease _ q => free q mem | _ => mem end).
  - destruct c as [|u q|]; [done| |done]. apply free_same, (Hc u). by left.
  - apply IH. intros u q Hq. apply (Hc u). by right.
Qed.

Lemma allocate_same b l' mem : apart (loan_userPayload l') → same_chunk mem (allocate b l' mem).
Proof.
  intros (? & ? & ? & ?). unfold same_chunk, allocate. destruct b; by rewrite ?lookup_insert_ne.
Qed.

Lemma takeNext_same h data b q mem mem' :
  apart q → takeNext h data (userHeaderPtr b q) q mem = Ok mem' → same_chunk mem mem'.
Proof.
  intros (? & ? & ? & ?). unfold takeNext. case_match; (case_match; [|by intros [= <-]]);
    intros (buf & _ & (buf' & _ & [= <-])%bind_Ok)%bind_Ok.
  - destruct b; [|done]. unfold same_chunk. by rewrite !lookup_insert_ne.
  - unfold same_chunk. by rewrite !lookup_insert_ne.
Qed.

Lemma publications_snoc s s' pub :
  pub_userPayload pub ≠ p → t_published s' = t_published s ++ [pub] → publications_of p s' = publications_of p s.
Proof.
  intros Hne He. unfold publications_of. by rewrite He, filter_app, filter_cons_False, app_nil_r.
Qed.

Lemma publish_frame e q s s' : apart q → publish e q s = Ok s' → frame s s'.
Proof.
  intros Hq (payload & _ & [= <-])%bind_Ok. split_and!; [done|by apply free_same|].
  eapply publications_snoc; [|done]. apply Hq.
Qed.

Lemma store_segment_frame e h data deviceIndex b q shouldPublish s s' :
  apart q → store_segment e h data deviceIndex (userHeaderPtr b q) q shouldPublish s = Ok s' → frame s s'.
Proof.
  intros Hq. unfold store_segment. case_match; [|by intros [= <-]].
  intros (mem & Htake & Hrest)%bind_Ok. apply takeNext_same in Htake; [|done].
  transitivity (t_set_memory mem s); [done|].
  destruct shouldPublish; [|by injection Hrest as <-].
  etransitivity; [|by eapply publish_frame]. done.
Qed.

(** ** The callbacks of the transports *)

Lemma findAndDecrement_other m (k : hash_t) m' found :
  k ≠ mh → SegmentedMessages.segmented_wf m → SegmentedMessages.findAndDecrement m k = Ok (m', found) →
  to_map m' !! mh = to_map m !! mh ∧
  ∀ userHeader userPayload b, found = Some (userHeader, userPayload, b) →
    ∃ msg, to_map m !! k = Some msg ∧ SegmentedMessages.sm_userHeader msg = userHeader ∧
           SegmentedMessages.sm_userPayload msg = userPayload.
Proof.
  intros Hk Hm Hf. destruct (SegmentedMessages.findAndDecrement_spec m k Hm) as (m1 & _ & Hspec).
  destruct (to_map m !! k) as [msg|] eqn:Hmsg; destruct Hspec as [He Hmap]; rewrite He in Hf;
    injection Hf as <- <-; [|by split].
  split; [|intros ??? [= <- <- _]; by exists msg]. rewrite Hmap.
  case_match; [by rewrite lookup_delete_ne|by rewrite lookup_insert_ne].
Qed.

Lemma push_segmented_frame e n h now l' s :
  messageHash h ≠ mh → apart (loan_userPayload l') →
  SegmentedMessages.segmented_wf (t_segmented s) → to_map (t_segmented s) !! messageHash h = None →
  frame s (push_segmented e n h now (userHeaderPtr (hasUserHeader h) (loan_userPayload l')) (loan_userPayload l') s).
Proof.
  intros Hk Hl Hm Hnone. unfold push_segmented. fold (pushed_message e n h now l').
  pose proof (SegmentedMessages.segmented_push_spec _ _ (pushed_message e n h now l') Hm Hnone) as Hspec.
  destruct (SegmentedMessages.push (t_segmented s) _ _) as [m calls]. destruct Hspec as [_ Hspec].
  split_and!; [| |done]; cbn [t_segmented t_memory record_calls t_set_segmented].
  - case_decide; destruct Hspec as [Hmap _]; [by rewrite Hmap, lookup_insert_ne|by subst].
  - apply free_released_same. intros u q Hq. case_decide; destruct Hspec as [_ ->].
    + by apply elem_of_nil in Hq.
    + apply list_elem_of_singleton in Hq. by injection Hq as -> ->.
Qed.

Lemma receive_frame (mem : bytes) size deviceIndex loan now s s' :
  channels_wf s → SegmentedMessages.segmented_wf (t_segmented s) → each in_flight (t_segmented s) →
  (∀ h n, deserialize_Header mem size = Ok (h, n) → messageHash h ≠ mh) →
  (∀ l', loan = Some l' → apart (loan_userPayload l')) →
  receive mem size deviceIndex loan now s = Ok s' → frame s s'.
Proof.
  intros Hs Hm Hall Hh Hl ([h n] & Hdes & Hrest)%bind_Ok. specialize (Hh h n Hdes).
  case_match; [by injection Hrest as <-|].
  apply doForChannel_cases in Hrest as [->|(e & He & Hrest)]; [done| |done].
  apply bind_Ok in Hrest as ([m found] & Hf & Hrest).
  pose proof Hf as Hf2. apply findAndDecrement_each with (P := in_flight) in Hf2 as (Hm' & _ & Hnone);
    [|apply in_flight_uncounted|done..].
  apply findAndDecrement_other in Hf as [Hmh Hfound]; [|done..].
  assert (frame s (t_set_segmented m s)) as Hframe by done. etransitivity; [exact Hframe|].
  destruct found as [[[userHeader userPayload] shouldPublish]|].
  - destruct (Hfound _ _ _ eq_refl) as (msg & Hmsg & <- & <-).
    destruct (proj2 (Hall _ _ Hmsg) Hh) as (Hap & b & Hb). rewrite Hb in Hrest. by eapply store_segment_frame.
  - destruct loan as [l'|]; [|by injection Hrest as <-]. specialize (Hl l' eq_refl).
    destruct (Hnone eq_refl) as [-> Hn].
    etransitivity; [|case_match; [|by eapply store_segment_frame]; etransitivity; [|by eapply store_segment_frame];
      apply push_segmented_frame; done].
    split_and!; [done|by apply allocate_same|done].
Qed.

Lemma loanBuffer_frame (mem : bytes) size loan now s s' buffer :
  channels_wf s → SegmentedMessages.segmented_wf (t_segmented s) →
  (∀ h n, deserialize_Header mem size = Ok (h, n) → messageHash h ≠ mh) →
  (∀ l', loan = Some l' → apart (loan_userPayload l')) →
  loanBuffer mem size loan now s = Ok (s', buffer) → frame s s'.
Proof.
  intros Hs Hm Hh Hl ([h n] & Hdes & Hrest)%bind_Ok. specialize (Hh h n Hdes).
  apply doForChannel_cases in Hrest as [[= -> ->]|(e & He & Hrest)]; [done| |done].
  apply bind_Ok in Hrest as (found & Hf & Hrest).
  rewrite SegmentedMessages.segmented_find_spec in Hf by done. injection Hf as <-.
  destruct (to_map (t_segmented s) !! messageHash h) as [msg|] eqn:Hmsg; [by injection Hrest as <- _|]. simpl in Hrest.
  destruct loan as [l'|]; [|by injection Hrest as <- _]. injection Hrest as <- _. specialize (Hl l' eq_refl).
  etransitivity; [|by apply push_segmented_frame]. split_and!; [done|by apply allocate_same|done].
Qed.

Lemma releaseBuffer_frame (mem : bytes) size shouldRelease deviceIndex s s' :
  channels_wf s → SegmentedMessages.segmented_wf (t_segmented s) → each in_flight (t_segmented s) →
  (∀ h n, deserialize_Header mem size = Ok (h, n) → messageHash h ≠ mh) →
  releaseBuffer mem size shouldRelease deviceIndex s = Ok s' → frame s s'.
Proof.
  intros Hs Hm Hall Hh ([h n] & Hdes & Hrest)%bind_Ok. specialize (Hh h n Hdes).
  apply doForChannel_cases in Hrest as [->|(e & He & Hrest)]; [done| |done].
  destruct shouldRelease; apply bind_Ok in Hrest as ([m x] & Hf & Hrest).
  - injection Hrest as <-.
    destruct (SegmentedMessages.segmented_release_spec (t_segmented s) (messageHash h) Hm) as (m' & Hr & _ & Hmap).
    rewrite Hr in Hf. injection Hf as <- <-.
    split_and!; [| |done]; cbn [t_segmented t_memory record_calls t_set_segmented].
    + by rewrite Hmap, lookup_delete_ne.
    + apply free_released_same. intros u q Hq. destruct (to_map (t_segmented s) !! messageHash h) as [msg|] eqn:Hmsg.
      * apply list_elem_of_singleton in Hq. injection Hq as _ ->. by apply (Hall _ _ Hmsg).
      * by apply elem_of_nil in Hq.
  - apply findAndDecrement_other in Hf as [Hmh Hfound]; [|done..].
    assert (frame s (t_set_segmented m s)) as Hframe by done. etransitivity; [exact Hframe|].
    destruct x as [[[userHeader userPayload] []]|]; [|by injection Hrest as <-..].
    destruct (Hfound _ _ _ eq_refl) as (msg & Hmsg & _ & <-).
    etransitivity; [|eapply publish_frame; [|exact Hrest]; by apply (Hall _ _ Hmsg)]. done.
Qed.

(** ** Expired messages and channels that go *)

Lemma to_map_filter (P : hash_t * SegmentedMessages.SegmentedMessage_t → Prop) `{∀ e, Decision (P e)} m m' :
  SegmentedMessages.segmented_wf m → SegmentedMessages.segmented_wf m' → entries m' = filter P (entries m) →
  (∀ msg, to_map m !! mh = Some msg → P (mh, msg)) → to_map m' !! mh = to_map m !! mh.
Proof.
  intros [Hm Hnd] [Hm' Hnd'] He HP. apply option_eq. intros msg.
  rewrite !(to_map_Some SegmentedMessages.MAX_SEGMENTED_MESSAGE_COUNT) by done.
  rewrite He, list_elem_of_filter. split; [tauto|]. intros Hin. split; [|done]. apply HP.
  by apply (to_map_Some SegmentedMessages.MAX_SEGMENTED_MESSAGE_COUNT).
Qed.

(** Removing the messages that satisfy [P], when this one does not. *)
Lemma remove_frame (P : hash_t * SegmentedMessages.SegmentedMessage_t → Prop) `{∀ e, Decision (P e)} m calls s :
  SegmentedMessages.segmented_wf (t_segmented s) → each in_flight (t_segmented s) →
  SegmentedMessages.smm_wf m → entries m = filter (fun e => ¬ P e) (entries (t_segmented s)) →
  (∀ c, c ∈ calls → ∃ e, e ∈ entries (t_segmented s) ∧ P e ∧ c = SegmentedMessages.release_call e.2) →
  (∀ msg, to_map (t_segmented s) !! mh = Some msg → ¬ P (mh, msg)) →
  frame s (record_calls calls (t_set_segmented m s)) ∧ SegmentedMessages.segmented_wf m ∧ each in_flight m.
Proof.
  intros Hseg Hall Hm He Hcalls Hmh. pose proof Hseg as [Hwf Hnd].
  pose proof (SegmentedMessages.keys_filter_NoDup (fun e => ¬ P e) _ _ Hseg Hm He) as Hm'.
  split; [split_and!; [|apply free_released_same|done]|split; [done|]].
  - by apply (to_map_filter (fun e => ¬ P e)).
  - intros u q ([k msg] & Hin & HP & [= _ ->])%Hcalls. apply (to_map_Some SegmentedMessages.MAX_SEGMENTED_MESSAGE_COUNT) in Hin; [|done..].
    apply (Hall _ _ Hin). intros ->. by apply (Hmh msg).
  - eapply each_subset; [|exact Hall]. intros k msg.
    rewrite !(to_map_Some SegmentedMessages.MAX_SEGMENTED_MESSAGE_COUNT) by (done || apply Hm').
    rewrite He. by intros [_ ?]%list_elem_of_filter.
Qed.

Lemma check_frame checked s s' :
  SegmentedMessages.segmented_wf (t_segmented s) → each in_flight (t_segmented s) →
  (∀ msg, to_map (t_segmented s) !! mh = Some msg → SegmentedMessages.expired checked msg = false) →
  checkSegmentedMessages checked s = Ok s' →
  frame s s' ∧ SegmentedMessages.segmented_wf (t_segmented s') ∧ each in_flight (t_segmented s').
Proof.
  intros Hseg Hall Hmh. unfold checkSegmentedMessages.
  destruct (SegmentedMessages.check_spec (S (vm_size (t_segmented s))) checked (t_segmented s) (proj1 Hseg))
    as (m & -> & Hm & He); [lia|]. intros [= <-].
  apply (remove_frame (fun e => SegmentedMessages.expired checked e.2)); try done.
  - intros c (msg & -> & (e & -> & [HP Hin]%list_elem_of_filter)%list_elem_of_fmap)%list_elem_of_fmap. exists e. split_and!; [done|exact HP|done].
  - intros msg Hmsg HP. simpl in HP. by rewrite (Hmh msg Hmsg) in HP.
Qed.

(** Two channels with the same port are the same channel. *)
Context (enough_publishers : (MAX_TOPICS ≤ MAX_PUBLISHERS)%nat) (d0 : DiscoveryManager) (s0 : T2I).

(** While the message's channel is there, nothing of the message changes. *)
Definition message_kept s : Prop :=
  ports_of d0 s ∧ getUid publisher < t_nextPort s ∧
  (channel_at s hash publisher → frame s0 s ∧ each in_flight (t_segmented s)).

Lemma setupChannel_same service s s' :
  setupChannel service s = Ok s' →
  t_segmented s' = t_segmented s ∧ t_memory s' = t_memory s ∧ t_published s' = t_published s.
Proof.
  unfold setupChannel, addChannel. cbn [make_endpoint T2I_gateway].
  destruct (vm_emplace _ _ _ _) as [m emplaced]. destruct (negb emplaced); [by intros [= <-]|].
  by intros (e & _ & [= <-])%bind_Ok.
Qed.

Lemma setup_kept service s :
  channels_wf s → message_kept s → getClassHash service ∉ m_keys (m_endpoints s) →
  (length (channels s) < MAX_TOPICS)%nat →
  ∃ s' endpoint, setupChannel service s = Ok s' ∧ channels_wf s' ∧ message_kept s' ∧
    getServiceDescription endpoint = service ∧ channels s' = channels s ++ [(getClassHash service, endpoint)].
Proof.
  intros Hs (Hports & Hlt & Hkept) Hk Hl.
  destruct (setupChannel_spec enough_publishers d0 service s Hs Hports Hk Hl)
    as (s' & endpoint & He & Hs' & Hports' & Hserv & Hch & Hu & Hn).
  exists s', endpoint. split_and!; [done..| |done|done]. split; [done|]. split; [lia|].
  intros Hat. unfold channel_at in Hat. rewrite Hch in Hat.
  apply elem_of_app in Hat as [Hat|Hat%list_elem_of_singleton]; [|injection Hat as _ Heq; subst; lia].
  destruct (Hkept Hat) as [Hframe Hall]. destruct (setupChannel_same service s s' He) as (Hseg & Hmem & Hpub).
  split; [|by rewrite Hseg]. etransitivity; [exact Hframe|].
  unfold frame, same_chunk, publications_of. by rewrite Hseg, Hmem, Hpub.
Qed.

Lemma delete_kept service s :
  channels_wf s → message_kept s → getClassHash service ∈ m_keys (m_endpoints s) →
  ∃ s', deleteChannel service s = Ok s' ∧ channels_wf s' ∧ message_kept s' ∧
    channels s' = filter (fun c => c.1 ≠ getClassHash service) (channels s).
Proof.
  intros Hs (Hports & Hlt & Hkept) Hk.
  destruct (deleteChannel_spec d0 service s Hs Hports Hk) as (s' & He & Hs' & Hports' & Hch & _).
  exists s'. split_and!; [done..| |done]. split; [done|].
  unfold deleteChannel in He.
  match type of He with discardChannel service ?f s = _ =>
    destruct (discardChannel_eq f service s Hs Hk) as (endpoint & it & Hin & _ & _ & Hd & _) end.
  rewrite Hd in He. clear Hd. pose proof Hports as ((Hseg & _ & Hnd & _) & _).
  destruct (SegmentedMessages.releaseAll_spec (t_segmented s) (getUid endpoint) (proj1 Hseg)) as (m & Hr & Hm & Hent).
  rewrite Hr in He. injection He as <-. split; [done|]. intros Hat.
  unfold channel_at in Hat. rewrite Hch in Hat. apply list_elem_of_filter in Hat as [Hne Hat]. simpl in Hne.
  destruct (Hkept Hat) as [Hframe Hall].
  destruct (remove_frame (fun e => SegmentedMessages.sm_publisher e.2 = getUid endpoint) m
    (reverse (SegmentedMessages.release_call <$>
      (filter (fun e => SegmentedMessages.sm_publisher e.2 = getUid endpoint) (entries (t_segmented s))).*2)) s)
    as (Hf & _ & Hall'); try done.
  - intros c Hc. rewrite elem_of_reverse in Hc.
    apply list_elem_of_fmap in Hc as (msg & -> & (e & -> & [HP Hine]%list_elem_of_filter)%list_elem_of_fmap). by exists e.
  - intros msg Hmsg Heq. simpl in Heq. apply Hne.
    assert ((hash, publisher) = (getClassHash service, endpoint)) as Hc; [|by injection Hc].
    apply (channel_uid_inj s); [done|exact Hat|exact Hin|]. cbn. rewrite <-Heq. symmetry. by apply (Hall _ _ Hmsg).
  - split; [by etransitivity|exact Hall'].
Qed.

#[local] Instance message_channel_functions : ChannelFunctions message_kept setupChannel deleteChannel.
Proof.
  split.
  - intros. by apply setup_kept.
  - intros. by apply delete_kept.
Qed.

(** Updating the channels keeps the message when its service is still needed. *)
Lemma update_frame services s' :
  channels_wf s0 → ports_of d0 s0 → channel_at s0 hash publisher → each in_flight (t_segmented s0) →
  NoDup services → (length services ≤ MAX_TOPICS)%nat → no_collisions (services ++ channel_services s0) →
  getServiceDescription publisher ∈ services → updateChannels services s0 = Ok s' →
  frame s0 s' ∧ channels_wf s' ∧ channel_at s' hash publisher ∧ each in_flight (t_segmented s').
Proof.
  intros Hs Hports Hat Hall Hnd Hl Hcol Hserv He.
  assert (message_kept s0) as Hkept.
  { split; [done|]. split; [|done]. destruct Hports as ((_ & _ & _ & Hlt & _) & _).
    apply (proj1 (Forall_forall _ _) Hlt). by apply (channel_uid s0 hash). }
  destruct (update_channels_spec message_kept setupChannel deleteChannel services s0 Hs Hkept Hnd Hl Hcol)
    as (s1 & new & He1 & Hs1 & (_ & _ & Hk1) & Hch & _).
  unfold updateChannels in He. rewrite He1 in He. injection He as <-.
  assert (channel_at s1 hash publisher) as Hat1.
  { unfold channel_at. rewrite Hch. apply elem_of_app. left. by apply list_elem_of_filter. }
  destruct (Hk1 Hat1) as [Hf Hall1]. by split_and!.
Qed.
End bystanders.
