(* ===== verification/UdpEndToEnd.v ===== *)
(** * UdpEndToEnd: a message over the UDP transport

    The end-to-end theorem of file EndToEnd holds for every transport; here it
    is composed with the UDP transport of file Udp, down to the datagrams on
    the sockets: the bytes a gateway hands to asio are the bytes the other
    gateway's user data callback is called with.  The second part does the same
    for the discovery of two gateways. *)

From stdpp Require Import base list gmap.
From S2P Require Import Prelude.
From S2P Require Import Iox.
From S2P Require Import Types.
From S2P Require Import Serialization.
From S2P Require Import TransportInfo.
From S2P Require Import DataWriter.
From S2P Require Import Discovery.
From S2P Require Import DiscoveryFailure.
From S2P Require Import Gateway.
From S2P Require Import Chunks.
From S2P Require Import TransportToIox.
From S2P Require Import EndToEnd.
From S2P Require Import Udp.
From Stdlib Require Import Permutation.

Open Scope Z_scope.

Section over_udp.
Context `{IoxSpec} `{Sockets} `{IoxPosh} `{NetWorld G}.
Context (quiet : ∀ sent d, send_to_throws sent d = false).
Implicit Types (u : UDPTransport) (ds : list (bytes * bytes)).

(** The datagrams of a message to the device with the endpoint [ep]. *)
Definition datagrams_to (ep : ip_endpoint) ds : list Datagram :=
  (fun d => mkDatagram DATA_PORT (mkEp (address ep) DATA_PORT) (d.1 ++ d.2)) <$> ds.

Lemma sent_for_user_data u (i : nat) ep history events :
  m_devices (m_broadcast u) !! i = Some ep →
  (∀ e, e ∈ events → ∃ header payload, e = UserData UDP header payload (Z.of_nat i)) →
  sent_for u (history ++ events) = sent_for u history ++ datagrams_to ep (datagrams_of events).
Proof.
  intros Hi. revert history. induction events as [|e events IH]; intros history He.
  { by rewrite !app_nil_r. }
  destruct (He e) as (header & payload & ->); [by left|].
  rewrite cons_middle, (app_assoc history), IH by (intros; apply He; by right).
  unfold sent_for at 1. rewrite foldl_snoc. fold (sent_for u history). cbv zeta. rewrite quiet.
  unfold user_datagram, device_endpoint. rewrite Nat2Z.id, Hi. csimpl. by rewrite <-app_assoc.
Qed.

(** C9: Between two gateways that have found each other over UDP, a message the one sends
    is received by the other: it goes out as datagrams to the other's data port, each of
    which fits the receive buffer and reaches the user data callback with the sender's
    index; and when the receiving gateway takes them in, in any order, the chunk is
    published once, with exactly the user header and the user payload of the sender. *)
Theorem message_over_udp (s_failCallback : option (TransportInfo * G → Outcome (TransportInfo * G)))
    (u peer : UDPTransport) (i j : nat) (to from : ip_endpoint)
    (h : IoxChunkDatagramHeader_t) (header payload : bytes) (ti : TransportInfo) (g : G) :
  m_devices (m_broadcast u) !! i = Some to →
  udp_wf peer → m_devices (m_broadcast peer) !! j = Some from → u_callback peer = true →
  let L := udp_layer u in
  sendable UDP h header payload → good_transport ti UDP → headerSize ≤ MAX_DATAGRAM_SIZE →
  ∃ isPending h' g' ds,
    writeSegmentedInternal s_failCallback h header payload (mkDeviceIndex UDP (Z.of_nat i)) ti g =
      Ok (isPending, h', ti, g') ∧
    sent_for u (net g') = sent_for u (net g) ++ datagrams_to to ds ∧
    Forall (fun d => Z.of_nat (length (d.1 ++ d.2)) ≤ MAX_DATAGRAM_SIZE) ds ∧
    (∀ d p sent, d ∈ ds →
       (dataSocketCallback false (mkEp (address from) p) (d.1 ++ d.2) sent peer).2 =
         [(d.1 ++ d.2, mkDeviceIndex UDP (Z.of_nat j))]) ∧
    ∀ publisher l s ds' s', ready h publisher l s →
      reassembly (messageHash h) (serviceHash h) publisher l s ds' s' → ds' ≡ₚ ds →
      publications_of (loan_userPayload l) s' = publications_of (loan_userPayload l) s ++
        [mkPublished (getUid publisher) (loan_userPayload l) header payload].
Proof.
  intros Hi Hpeer Hj Hcb L Hs Hg Hsmall.
  assert (never_fails UDP (Z.of_nat i)) as Hnf.
  { intros history hd pl. cbn [sendUserData_outcome L udp_layer snd]. apply quiet. }
  assert (headerSize + maxTransportPayloadSize UDP < 2 ^ 32) as Hsum.
  { pose proof headerSize_small. unfold maxTransportPayloadSize. cbn [maxMessageSize L udp_layer].
    unfold headerSize, u_maxMessageSize, MAX_DATAGRAM_SIZE in *. rewrite wrap32_small by (unfold is_u32; lia). lia. }
  destruct (message_arrives s_failCallback UDP (Z.of_nat i) h header payload ti g Hs Hg Hnf Hsum)
    as (isPending & h' & g' & Hw & Hnet & Hdel).
  eexists isPending, h', g', _. split; [exact Hw|]. rewrite Hnet.
  rewrite (sent_for_user_data u i to) by
    (done || intros e (seg & -> & _)%list_elem_of_fmap; by eexists _, _).
  split; [done|]. split; [exact (@message_fits _ _ L UDP (Z.of_nat i) h header payload Hs (conj Hsmall eq_refl))|]. split.
  - intros d p sent _. unfold dataSocketCallback. cbn [snd m_broadcast u_set_receiving address].
    rewrite (getIndex_spec _ _ _ Hpeer Hj). cbn [u_callback u_set_receiving]. by rewrite Hcb.
  - intros publisher l s ds' s' Hready Hr Hperm.
    destruct (Hdel publisher l s Hready) as [_ Hall].
    destruct (Hall ds' s' Hr) as [Hpub _]; [by rewrite Hperm|].
    by rewrite Hpub, (Permutation_length Hperm), decide_True.
Qed.
End over_udp.

(** ** How two gateways find each other *)

Section first_contact.
Context `{IoxSpec} `{Sockets}.
Context (quiet : ∀ sent d, send_to_throws sent d = false).
Context (u : UDPTransport) {G W' : Type} `{DiscoveryState G} `{DiscoveryState W'}.

(** C21: Two gateways find each other over UDP: the announcement of the remote gateway goes
    out on each of its interfaces as one datagram that holds its serialized information;
    a gateway that does not know the remote one and gets such a datagram numbers the
    sender and hands the message to its discovery manager under that number; and when UDP
    is the matching transport, the messages of every service the remote users subscribe
    to go to that number, which is the data port of the address the announcement came
    from. *)
Theorem first_contact_over_udp (update : option (list ServiceDescription → TransportInfo * G → Outcome (TransportInfo * G)))
    (remote : UDPTransport) (ti_remote : TransportInfo) (w_remote : W') (from : ip_endpoint)
    (sent sent_remote : list Datagram) (behind : bytes) (ti : TransportInfo) (w : G) :
  let L := udp_layer u in
  transports_wf ti → discovery_wf (discovery w) →
  transports_wf ti_remote → local_wf (discovery w_remote) →
  cache_wf (deviceIndicesCache (m_remoteState (discovery w_remote))) →
  udp_wf u → port from = DISCOVERY_PORT → b_callback (m_broadcast u) = true →
  from ∉ m_interfaceEndpoints (m_broadcast u) → (length (m_devices (m_broadcast u)) < MAX_DEVICE_COUNT)%nat →
  let i := (generateDiscoveryInfo (ti_remote, w_remote)).1 in
  let rs := records (m_remoteState (discovery w)) in
  ¬ (findRecord rs (gatewayHash i) < length rs)%nat → (length rs < MAX_DEVICE_COUNT)%nat →
  ∃ data n (device : nat) b ti' w',
    serialize_PubSubInfo i = Ok (data, n) ∧
    u_sendBroadcast data sent_remote remote = (remote, sent_remote ++
      ((fun ep => mkDatagram DISCOVERY_PORT ep data) <$> m_broadcastEndpoints (m_broadcast remote))) ∧
    u_discoverySocketCallback false from data sent u =
      (set_broadcast b u, [(data, mkDeviceIndex UDP (Z.of_nat device))]) ∧
    receiveRemoteDiscoveryInfo update (data ++ behind) (length data) (mkDeviceIndex UDP (Z.of_nat device)) (ti, w) =
      Discovery.update update (updateNeededChannels (discovery w')) (ti', w') ∧
    (∀ service, service ∈ localSubscribers (m_localState (discovery w_remote)) →
       findMatchingType ti' (s_bitset ti_remote) (m_preferredType (discovery w')) = UDP →
       mkDeviceIndex UDP (Z.of_nat device) ∈ computeDeviceIndices ti' (discovery w') (getClassHash service)) ∧
    ∀ header payload,
      u_sendUserData header payload (Z.of_nat device) sent (set_broadcast b u) =
        Ok (set_broadcast b u,
            sent ++ [mkDatagram DATA_PORT (mkEp (address from) DATA_PORT) (header ++ payload)], false).
Proof.
  intros L Hti Hd Htr Hlr Hcr Hu Hport Hcb Hnin Hroom i rs Hnew Hrs.
  (* the number of the sender does not depend on the message *)
  destruct (device_numbered u sent from [] Hu Hport Hcb Hnin (or_intror Hroom)) as (device & b & Hnum & _ & Hu1 & Hlook).
  destruct (discovery_connects update ti_remote w_remote behind (mkDeviceIndex UDP (Z.of_nat device)) ti w)
    as (data & n & ti' & w' & Hser & _ & Hrecv & Hconn); [done..|].
  exists data, n, device, b, ti', w'. split; [exact Hser|]. split; [|split; [|split; [exact Hrecv|split]]].
  - unfold u_sendBroadcast, sendBroadcast. rewrite send_each_quiet by done. by destruct remote.
  - unfold u_discoverySocketCallback, discoverySocketCallback in *.
    destruct (std_find _ _ =? _)%nat; [|done]. cbv zeta in *.
    destruct (findDevice from (b_set_receiving false (m_broadcast u))) as [b' k].
    destruct (b_callback b'); [|done]. injection Hnum as -> ->. done.
  - intros service Hs Hm. by apply Hconn.
  - intros header payload. unfold u_sendUserData. cbn [m_broadcast set_broadcast].
    rewrite (getEndpoint_spec _ _ _ Hlook). ostep. by rewrite quiet.
Qed.
End first_contact.

(** ** Witness *)

Lemma message_over_udp_witness :
  let L := @udp_layer quiet_sockets (example_udp 3) in
  ∃ isPending h' g' ds,
    @writeSegmentedInternal ref_iox L (list NetEvent) _ None delivered_message (replicate 20 Init.Byte.xaa)
      (replicate 12 Init.Byte.xbb) (mkDeviceIndex UDP 1) example_pcie_ti [] = Ok (isPending, h', example_pcie_ti, g') ∧
    @sent_for quiet_sockets (example_udp 3) (net g') = datagrams_to (gateway_at 2) ds.
Proof.
  intros L.
  destruct (@message_over_udp ref_iox ref_iox_spec quiet_sockets example_posh (list NetEvent) _
    (fun _ _ => eq_refl) None (example_udp 3) (example_udp 5) 1 4 (gateway_at 2) (gateway_at 5) delivered_message
    (replicate 20 Init.Byte.xaa) (replicate 12 Init.Byte.xbb) example_pcie_ti [])
    as (isPending & h' & g' & ds & Hw & Hsent & _).
  - reflexivity.
  - apply example_udp_wf. lia.
  - reflexivity.
  - reflexivity.
  - apply (bool_decide_unpack _). vm_compute. exact I.
  - reflexivity.
  - vm_compute. intros [=].
  - exists isPending, h', g', ds. split; [exact Hw|exact Hsent].
Defined.

Lemma first_contact_over_udp_witness :
  ∃ data (device : nat) b ti' w',
    @u_discoverySocketCallback ref_iox quiet_sockets false (gateway_at 7) data [] (example_udp 2) =
      (set_broadcast b (example_udp 2), [(data, mkDeviceIndex UDP (Z.of_nat device))]) ∧
    @receiveRemoteDiscoveryInfo ref_iox (@udp_layer quiet_sockets (example_udp 2)) ExampleWorld _ _ None (data ++ [])
      (length data) (mkDeviceIndex UDP (Z.of_nat device)) (both_ti, example_world) = Ok (ti', w') ∧
    mkDeviceIndex UDP (Z.of_nat device) ∈ @computeDeviceIndices ref_iox ti' (discovery w') (hash_of Init.Byte.x44).
Proof.
  destruct (@first_contact_over_udp ref_iox ref_iox_spec quiet_sockets (fun _ _ => eq_refl) (example_udp 2)
    ExampleWorld ExampleWorld ExampleWorld_net ExampleWorld_discovery ExampleWorld_net ExampleWorld_discovery None
    (example_udp 1) both_ti remote_world (gateway_at 7) [] [] [] both_ti example_world
    both_ti_wf example_discovery_wf both_ti_wf) as (data & n & device & b & ti' & w' & Hser & _ & Hrep & Hrecv & Hconn & _).
  - split; [split; simpl; lia|]. split; [|unfold MAX_TOPICS; simpl; lia].
    apply (bool_decide_unpack _). vm_compute. exact I.
  - split; [split; simpl; unfold MAX_TOPICS; lia|constructor].
  - apply example_udp_wf. lia.
  - reflexivity.
  - reflexivity.
  - match goal with |- ?G => refine (@bool_decide_unpack G _ _) end. vm_compute. exact I.
  - vm_compute. lia.
  - vm_compute. lia.
  - vm_compute. lia.
  - exists data, device, b, ti', w'. split; [exact Hrep|]. split; [exact Hrecv|]. apply Hconn; [by left|].
    vm_compute in Hser. injection Hser as <- <-.
    apply (f_equal (fun r => match r.2 with [(_, i)] => di_device i | _ => 0 end)) in Hrep.
    change (2 = Z.of_nat device) in Hrep. assert (device = 2%nat) as -> by lia.
    vm_compute in Hrecv. injection Hrecv as <- <-. vm_compute. reflexivity.
Defined.
