(* ===== verification/TcpEndToEnd.v ===== *)
(** * TcpEndToEnd: a message over the TCP transport

    The end-to-end theorem of file EndToEnd composed with the TCP transport of
    file Tcp and the framing of file TcpSession, down to the bytes of the
    connection. *)

From stdpp Require Import base list gmap.
From S2P Require Import Prelude.
From S2P Require Import Iox.
From S2P Require Import Types.
From S2P Require Import Serialization.
From S2P Require Import TransportInfo.
From S2P Require Import Udp.
From S2P Require Import TcpSession.
From S2P Require Import Tcp.
From S2P Require Import DataWriter.
From S2P Require Import Discovery.
From S2P Require Import DiscoveryFailure.
From S2P Require Import Gateway.
From S2P Require Import Chunks.
From S2P Require Import TransportToIox.
From S2P Require Import EndToEnd.
From Stdlib Require Import Permutation.

Open Scope Z_scope.

(** What the gateway sees of a TCP transport: no operation ever fails it. *)
Definition tcp_layer `{TcpSockets} : TransportLayer := {|
  maxMessageSize := fun _ => t_maxMessageSize;
  willBePending := fun _ _ => false;
  sendBroadcast_fails := fun _ _ _ => false;
  sendUserData_outcome := fun _ _ _ _ _ => (false, false);
  constructor_fails := fun _ => listen_throws
|}.

Section over_tcp.
Context `{IoxSpec} `{Sockets} `{TcpSockets} `{IoxPosh} `{NetWorld G}.
Context (quiet : ∀ out data, write_accepts out data = None).
Implicit Types (t : TCPTransport) (ds : list (bytes * bytes)).

(** The calls of [sendUserData] a history stands for. *)
Definition tcp_send (e : NetEvent) t : Outcome TCPTransport :=
  match e with
  | UserData TCP header payload device => '(t, _) ← t_sendUserData header payload device t; Ok t
  | _ => Ok t
  end.

(** The bytes of the messages on a connection. *)
Definition stream_of ds : bytes := concat ((fun d => frame (d.1 ++ d.2)) <$> ds).

Lemma stream_of_cons d ds : stream_of (d :: ds) = frame (d.1 ++ d.2) ++ stream_of ds.
Proof. done. Qed.

Lemma tcp_sends events (i : nat) s t :
  m_transportSessions t !! i = Some s →
  (∀ e, e ∈ events → ∃ header payload, e = UserData TCP header payload (Z.of_nat i)) →
  ∃ t', for_each tcp_send events t = Ok t' ∧ t_status t' = t_status t ∧
    m_transportSessions t' =
      <[i := set_out (s_out s ++ stream_of (datagrams_of events)) s]> (m_transportSessions t).
Proof.
  revert s t. induction events as [|e events IH]; intros s t Hi He.
  { exists t. split_and!; [done..|]. unfold stream_of. csimpl. rewrite app_nil_r. symmetry. apply list_insert_id. by destruct s. }
  destruct (He e) as (header & payload & ->); [by left|]. cbn [for_each tcp_send].
  destruct (t_sendUserData_at t i s header payload Hi) as (out & -> & Hout). ostep.
  rewrite (Hout quiet).
  set (t1 := set_sessions _ t).
  destruct (IH (set_out (s_out s ++ frame (header ++ payload)) s) t1) as (t' & Hr & Hst & Hl).
  - unfold t1. cbn [m_transportSessions set_sessions]. apply list_lookup_insert_eq. by eapply lookup_lt_Some.
  - intros e' Hin. apply He. by right.
  - exists t'. split; [exact Hr|]. split; [by rewrite Hst|]. rewrite Hl. unfold t1.
    cbn [m_transportSessions set_sessions s_out set_out]. rewrite list_insert_insert_eq.
    change (datagrams_of (_ :: events)) with ((header, payload) :: datagrams_of events).
    rewrite stream_of_cons, app_assoc. done.
Qed.

(** C8: Between two gateways connected over TCP, a message the one sends is received by
    the other: all of it is written to the connection of the device, whatever else is on
    it stays in front; however the connection cuts these bytes up, the receiver is called
    with the segments in the order they were sent, as user data of the sender; and taking
    them in publishes the chunk once, with exactly the user header and the user payload of
    the sender.  Sending leaves the status of the transport alone. *)
Theorem message_over_tcp (s_failCallback : option (TransportInfo * G → Outcome (TransportInfo * G)))
    (t peer : TCPTransport) (i j : nat) (s : Session) (from : ip_endpoint)
    (h : IoxChunkDatagramHeader_t) (header payload : bytes) (ti : TransportInfo) (g : G) :
  m_transportSessions t !! i = Some s →
  tcp_wf peer → m_devices (t_broadcast peer) !! j = Some from → t_userDataCallback peer = true →
  let L := tcp_layer in
  sendable TCP h header payload → good_transport ti TCP → headerSize ≤ MAX_PACKET_SIZE →
  ∃ isPending h' g' events ds t',
    writeSegmentedInternal s_failCallback h header payload (mkDeviceIndex TCP (Z.of_nat i)) ti g =
      Ok (isPending, h', ti, g') ∧
    net g' = net g ++ events ∧ ds = datagrams_of events ∧
    for_each tcp_send events t = Ok t' ∧ t_status t' = t_status t ∧
    s_out <$> m_transportSessions t' !! i = Some (s_out s ++ stream_of ds) ∧
    (∀ chunks, concat chunks = stream_of ds →
       on_chunks receiveTcpData chunks = (receiveTcpData, (fun d => d.1 ++ d.2) <$> ds)) ∧
    (∀ d, d ∈ ds → handleUserDataCallback (d.1 ++ d.2) (address from) peer =
       [UserDataCall (d.1 ++ d.2) (mkDeviceIndex TCP (Z.of_nat j))]) ∧
    ∀ publisher l r r', ready h publisher l r →
      reassembly (messageHash h) (serviceHash h) publisher l r ds r' →
      publications_of (loan_userPayload l) r' = publications_of (loan_userPayload l) r ++
        [mkPublished (getUid publisher) (loan_userPayload l) header payload].
Proof.
  intros Hi [_ Hpeer] Hj Hcb L Hs Hg Hsmall.
  assert (never_fails TCP (Z.of_nat i)) as Hnf by done.
  assert (headerSize + maxTransportPayloadSize TCP < 2 ^ 32) as Hsum.
  { pose proof headerSize_small. unfold maxTransportPayloadSize. cbn [maxMessageSize L tcp_layer].
    unfold headerSize, t_maxMessageSize, MAX_PACKET_SIZE in *. rewrite wrap32_small by (unfold is_u32; lia). lia. }
  pose proof (@message_fits _ _ L TCP (Z.of_nat i) h header payload Hs (conj Hsmall eq_refl)) as Hfit.
  destruct (message_arrives s_failCallback TCP (Z.of_nat i) h header payload ti g Hs Hg Hnf Hsum)
    as (isPending & h' & g' & Hw & Hnet & Hdel).
  set (events := wire_message TCP (Z.of_nat i) h header payload) in *.
  destruct (tcp_sends events i s t Hi) as (t' & Hsend & Hst & Hl).
  { intros e (seg & -> & _)%list_elem_of_fmap. by eexists _, _. }
  exists isPending, h', g', events, (datagrams_of events), t'. split_and!; [exact Hw|exact Hnet|done..| | | |].
  - rewrite Hl, list_lookup_insert_eq by (by eapply lookup_lt_Some). done.
  - intros chunks Hc. eapply (proj2 (stream_round_trip _ chunks [] _ _)); [done].
    Unshelve. 1: by apply Forall_fmap. rewrite app_nil_r, Hc. unfold stream_of. by rewrite <-list_fmap_compose.
  - intros d _. unfold handleUserDataCallback. rewrite (getIndex_spec _ _ _ Hpeer Hj). by rewrite Hcb.
  - intros publisher l r r' Hready Hr.
    destruct (Hdel publisher l r Hready) as [_ Hall]. destruct (Hall _ r' Hr) as [Hpub _]; [done|].
    by rewrite Hpub, decide_True.
Qed.
End over_tcp.

Section first_contact.
Context `{IoxSpec} `{Sockets} `{TcpSockets}.
Context (quiet : ∀ sent d, send_to_throws sent d = false) (quiet_tcp : ∀ out data, write_accepts out data = None).
Context {G W' : Type} `{DiscoveryState G} `{DiscoveryState W'}.

(** C22: Two gateways find each other over TCP: the announcement of the remote gateway goes
    out on each of its interfaces as one datagram that holds its serialized information;
    a gateway that does not know the remote one keeps it and opens a connection, and when
    that is established, and not before, hands the message to its discovery manager under
    the index of the new session; and when TCP is the matching transport, the messages of
    every service the remote users subscribe to go to that index, whose connection is the
    one to the address the announcement came from. *)
Theorem first_contact_over_tcp (update : option (list ServiceDescription → TransportInfo * G → Outcome (TransportInfo * G)))
    (remote : TCPTransport) (ti_remote : TransportInfo) (w_remote : W') (from : ip_endpoint)
    (sent_remote : list Datagram) (behind : bytes) (t : TCPTransport) (ti : TransportInfo) (w : G) :
  let L := tcp_layer in
  transports_wf ti → discovery_wf (discovery w) →
  transports_wf ti_remote → local_wf (discovery w_remote) →
  cache_wf (deviceIndicesCache (m_remoteState (discovery w_remote))) →
  tcp_wf t → port from = DISCOVERY_PORT → b_receiving (t_broadcast t) = true → b_callback (t_broadcast t) = true →
  t_discoveryCallback t = true → from ∉ m_interfaceEndpoints (t_broadcast t) →
  (length (m_devices (t_broadcast t)) < MAX_DEVICE_COUNT)%nat →
  address from ∉ s_remote <$> m_transportSessions t → address from ∉ fst <$> m_infoToReport t →
  (length (m_transportSessions t) < MAX_DEVICE_COUNT)%nat → (length (m_infoToReport t) < MAX_DEVICE_COUNT)%nat →
  let i := (generateDiscoveryInfo (ti_remote, w_remote)).1 in
  let rs := records (m_remoteState (discovery w)) in
  ¬ (findRecord rs (gatewayHash i) < length rs)%nat → (length rs < MAX_DEVICE_COUNT)%nat →
  let index := Z.of_nat (length (m_transportSessions t)) in
  ∃ data n t1 t2 ti' w',
    serialize_PubSubInfo i = Ok (data, n) ∧
    t_sendBroadcast data sent_remote remote = (remote, sent_remote ++
      ((fun ep => mkDatagram DISCOVERY_PORT ep data) <$> m_broadcastEndpoints (t_broadcast remote))) ∧
    tcp_step (DiscoveryReceived false from data) t = Ok (t1, []) ∧
    tcp_step (ConnectCompleted false (t_next t)) t1 = Ok (t2, [DiscoveryCall data (mkDeviceIndex TCP index)]) ∧
    receiveRemoteDiscoveryInfo update (data ++ behind) (length data) (mkDeviceIndex TCP index) (ti, w) =
      Discovery.update update (updateNeededChannels (discovery w')) (ti', w') ∧
    (∀ service, service ∈ localSubscribers (m_localState (discovery w_remote)) →
       findMatchingType ti' (s_bitset ti_remote) (m_preferredType (discovery w')) = TCP →
       mkDeviceIndex TCP index ∈ computeDeviceIndices ti' (discovery w') (getClassHash service)) ∧
    ∀ header payload, ∃ t3 s, t_sendUserData header payload index t2 = Ok (t3, false) ∧
      m_transportSessions t3 !! length (m_transportSessions t) = Some s ∧
      s_remote s = address from ∧ s_out s = frame (header ++ payload).
Proof.
  intros L Hti Hd Htr Hlr Hcr Ht Hport Hrecv Hcb Htcb Hnin Hdev Hnew Hinfo Hroom Hroomi i rs Hnr Hrs index.
  destruct (discovery_connects update ti_remote w_remote behind (mkDeviceIndex TCP index) ti w)
    as (data & n & ti' & w' & Hser & Hlen & Hin & Hconn); [done..|].
  pose proof Ht as [Hsess Hdevs].
  destruct (broadcast_numbered (t_broadcast t) [] from data Hdevs Hport Hcb Hnin (or_intror Hdev))
    as (d & b & Hnum & _ & Hwfb & Hlook).
  assert (tcp_wf (t_set_broadcast b t)) as Hwf by by split.
  destruct (session_opens data d from (t_set_broadcast b t)) as (t1 & t2 & He & Hopen & Hl2 & _); [done..|].
  exists data, n, t1, t2, ti', w'. split; [exact Hser|]. split; [|split; [|split; [exact Hopen|split; [exact Hin|split]]]].
  - unfold t_sendBroadcast, sendBroadcast. rewrite send_each_quiet by done. by destruct remote.
  - cbn [tcp_step]. rewrite Hrecv. unfold t_discoverySocketCallback. by rewrite Hnum.
  - intros service Hs Hm. by apply Hconn.
  - intros header payload. pose proof (list_lookup_middle (m_transportSessions t) [] (mkSession (t_next t) (address from)
      (TCPClientTransportSession max_reconnection_attempts) Connected 1 []) _ eq_refl) as Hs.
    cbn [m_transportSessions t_set_broadcast t_next] in Hl2. rewrite <-Hl2 in Hs. destruct (t_sendUserData_at t2 _ _ header payload Hs) as (out & Hsend & Hout).
    eexists _, _. split; [exact Hsend|]. cbn [m_transportSessions set_sessions].
    split; [apply list_lookup_insert_eq; by eapply lookup_lt_Some|]. split; [done|]. exact (Hout quiet_tcp).
Qed.
End first_contact.

(** ** Witness *)

Definition tcp_ti : TransportInfo :=
  mkTransportInfo [None; None; None; Some (mkTransport TCP GOOD)] 8.

Lemma message_over_tcp_witness :
  let L := @tcp_layer quiet_tcp in
  ∃ isPending h' g' events t',
    @writeSegmentedInternal ref_iox L (list NetEvent) _ None delivered_message (replicate 20 Init.Byte.xaa)
      (replicate 12 Init.Byte.xbb) (mkDeviceIndex TCP 1) tcp_ti [] = Ok (isPending, h', tcp_ti, g') ∧
    for_each (@tcp_send quiet_tcp) events (example_tcp (gateways 1 3) (gateways 1 3)) = Ok t' ∧
    s_out <$> m_transportSessions t' !! 1%nat = Some (stream_of (datagrams_of events)).
Proof.
  intros L.
  destruct (@message_over_tcp ref_iox ref_iox_spec quiet_tcp example_posh (list NetEvent) _
    (fun _ _ => eq_refl) None (example_tcp (gateways 1 3) (gateways 1 3)) (example_tcp (gateways 5 1) (gateways 1 5)) 1 4
    (mkSession 1 (address (gateway_at 2)) TCPServerTransportSession Connected 1 []) (gateway_at 5) delivered_message
    (replicate 20 Init.Byte.xaa) (replicate 12 Init.Byte.xbb) tcp_ti [])
    as (isPending & h' & g' & events & ds & t' & Hw & _ & Hds & Hsend & _ & Hout & _).
  - reflexivity.
  - split; split_and!; (match goal with |- ?G => refine (@bool_decide_unpack G _ _) end); vm_compute; exact I.
  - reflexivity.
  - reflexivity.
  - apply (bool_decide_unpack _). vm_compute. exact I.
  - reflexivity.
  - vm_compute. intros [=].
  - exists isPending, h', g', events, t'. rewrite Hds in Hout. split; [exact Hw|]. split; [exact Hsend|exact Hout].
Defined.

Lemma tcp_ti_wf : transports_wf tcp_ti.
Proof.
  split_and!; [reflexivity| |by vm_compute]. intros [|[|[|[|i]]]] t [=]; subst;
    (split_and!; [set_solver|reflexivity|reflexivity]).
Qed.

Lemma first_contact_over_tcp_witness :
  ∃ data t1 t2 ti' w',
    let t := example_tcp (gateways 1 1) (gateways 1 1) in
    @tcp_step ref_iox quiet_sockets quiet_tcp (DiscoveryReceived false (gateway_at 2) data) t = Ok (t1, []) ∧
    @tcp_step ref_iox quiet_sockets quiet_tcp (ConnectCompleted false 2) t1 =
      Ok (t2, [DiscoveryCall data (mkDeviceIndex TCP 1)]) ∧
    @receiveRemoteDiscoveryInfo ref_iox (@tcp_layer quiet_tcp) ExampleWorld _ _ None (data ++ [])
      (length data) (mkDeviceIndex TCP 1) (tcp_ti, example_world) = Ok (ti', w') ∧
    mkDeviceIndex TCP 1 ∈ @computeDeviceIndices ref_iox ti' (discovery w') (hash_of Init.Byte.x44).
Proof.
  set (t := example_tcp (gateways 1 1) (gateways 1 1)).
  destruct (@first_contact_over_tcp ref_iox ref_iox_spec quiet_sockets quiet_tcp (fun _ _ => eq_refl)
    (fun _ _ => eq_refl) ExampleWorld ExampleWorld ExampleWorld_net ExampleWorld_discovery ExampleWorld_net
    ExampleWorld_discovery None t both_ti remote_world (gateway_at 2) [] [] t tcp_ti example_world
    tcp_ti_wf example_discovery_wf both_ti_wf)
    as (data & n & t1 & t2 & ti' & w' & Hser & _ & Hheard & Hopen & Hrecv & Hconn & _).
  - split; [split; simpl; lia|]. split; [|unfold MAX_TOPICS; simpl; lia].
    apply (bool_decide_unpack _). vm_compute. exact I.
  - split; [split; simpl; unfold MAX_TOPICS; lia|constructor].
  - split; split_and!; (match goal with |- ?G => refine (@bool_decide_unpack G _ _) end); vm_compute; exact I.
  - reflexivity.
  - reflexivity.
  - reflexivity.
  - reflexivity.
  - match goal with |- ?G => refine (@bool_decide_unpack G _ _) end. vm_compute. exact I.
  - vm_compute. lia.
  - match goal with |- ?G => refine (@bool_decide_unpack G _ _) end. vm_compute. exact I.
  - match goal with |- ?G => refine (@bool_decide_unpack G _ _) end. vm_compute. exact I.
  - vm_compute. lia.
  - vm_compute. lia.
  - vm_compute. lia.
  - vm_compute. lia.
  - exists data, t1, t2, ti', w'. split; [exact Hheard|]. split; [exact Hopen|]. split; [exact Hrecv|].
    apply Hconn; [by left|].
    vm_compute in Hser. injection Hser as <- <-. vm_compute in Hrecv. injection Hrecv as <- <-.
    vm_compute. reflexivity.
Defined.
