(* ===== verification/Introspection.v ===== *)
(** * Introspection: asking whether the gateway knows a port

    include/p3com/introspection/gw_introspection.hpp and
    source/p3com/introspection/gw_introspection.cpp.

    A user application subscribes to the introspection service of the gateway
    and looks for its publisher, or for a service, in the sample the gateway
    published ([Discovery.gwIntrospection]).  The functions spin until the
    subscription state is as wanted; the waiting variants then sleep on a
    WaitSet until a sample shows the registration or the timeout is over.

    What the application observes is class [Introspection]: the answers of the
    subscriber, of the WaitSet and of the clock as functions of the number of
    calls made so far.  [c_taken] collects the samples.  The loops run on fuel;
    the theorems show how much is enough. *)

From stdpp Require Import base list.
From S2P Require Import Prelude.
From S2P Require Import Iox.
From S2P Require Import Types.
From S2P Require Import TransportInfo.
From S2P Require Import Discovery.

Open Scope Z_scope.

Inductive SubscribeState := NOT_SUBSCRIBED | SUBSCRIBE_REQUESTED | SUBSCRIBED | UNSUBSCRIBE_REQUESTED.

#[export] Instance SubscribeState_eq_dec : EqDecision SubscribeState.
Proof. solve_decision. Defined.

(** [getSubscriptionState] is told whether [unsubscribe] was called; the
    notifications of [timedWait] are whether they originate from the subscriber. *)
Class Introspection := {
  getSubscriptionState : bool → nat → SubscribeState;
  hasData : nat → bool;
  take_sample : nat → option GwRegisteredData;
  attachState : nat → bool;
  timedWait : Z → nat → list bool;
  steady_clock_now : nat → Z
}.

Record Client := mkClient {
  c_time : nat;
  c_unsubscribed : bool;
  c_taken : list GwRegisteredData
}.

Definition tick (c : Client) : Client := mkClient (S (c_time c)) (c_unsubscribed c) (c_taken c).
Definition unsubscribe (c : Client) : Client := mkClient (S (c_time c)) true (c_taken c).
Definition taken (data : GwRegisteredData) (c : Client) : Client :=
  mkClient (c_time c) (c_unsubscribed c) (c_taken c ++ [data]).

(** A subscriber that was just constructed. *)
Definition new_subscriber : Client := mkClient 0 false [].

(** [std::chrono::nanoseconds] is a signed 64-bit count. *)
Definition is_i64 (z : Z) : Prop := - 2 ^ 63 ≤ z < 2 ^ 63.
Definition to_i64 (z : Z) : Z := (z + 2 ^ 63) mod 2 ^ 64 - 2 ^ 63.

#[export] Instance is_i64_dec z : Decision (is_i64 z).
Proof. unfold is_i64. apply _. Defined.

Section operations.
Context `{Introspection}.
Implicit Types (c : Client) (registered : GwRegisteredData → bool).

(** [while (sub.getSubscriptionState() != state) {}] *)
Fixpoint wait_for_state (fuel : nat) (state : SubscribeState) c : Outcome Client :=
  match fuel with
  | O => OutOfFuel
  | S fuel =>
      let c' := tick c in
      if bool_decide (getSubscriptionState (c_unsubscribed c) (c_time c) = state) then Ok c'
      else wait_for_state fuel state c'
  end.

(** [sub.take().and_then(takeLambda)] *)
Definition take_then registered (hasRegistered : bool) c : bool * Client :=
  match take_sample (c_time c) with
  | Some data => (registered data, taken data (tick c))
  | None => (hasRegistered, tick c)
  end.

(** The loop over the notifications. *)
Fixpoint notified registered (notifications : list bool) (hasRegistered : bool) c : bool * Client :=
  match notifications with
  | [] => (hasRegistered, c)
  | originates :: notifications =>
      if originates : bool then
        let '(hasRegistered, c) := take_then registered hasRegistered c in
        if hasRegistered : bool then (hasRegistered, c) else notified registered notifications hasRegistered c
      else notified registered notifications hasRegistered c
  end.

(** [while (!hasRegistered && now < end)]; [end] is the argument [deadline]. *)
Fixpoint wait_loop (fuel : nat) registered (deadline now : Z) (hasRegistered : bool) c : Outcome (bool * Client) :=
  if negb hasRegistered && (now <? deadline) then
    match fuel with
    | O => OutOfFuel
    | S fuel =>
        let remaining := deadline - now in
        let notificationVector := timedWait remaining (c_time c) in
        let c := tick c in
        if bool_decide (notificationVector = []) then Ok (hasRegistered, c)
        else
          let '(hasRegistered, c) := notified registered notificationVector hasRegistered c in
          let now := steady_clock_now (c_time c) in
          wait_loop fuel registered deadline now hasRegistered (tick c)
    end
  else Ok (hasRegistered, c).

(** [now + std::chrono::nanoseconds{nanoseconds}]: signed overflow is undefined. *)
Definition time_after (now nanoseconds : Z) : Outcome Z :=
  let t := now + to_i64 nanoseconds in if bool_decide (is_i64 t) then Ok t else UndefinedBehaviour.

(** The bodies of [hasGwRegistered] and [hasServiceRegistered]. *)
Definition has_registered (fuel : nat) registered c : Outcome (bool * Client) :=
  c ← wait_for_state fuel SUBSCRIBED c;
  let '(hasRegistered, c) := take_then registered false c in
  c ← wait_for_state fuel NOT_SUBSCRIBED (unsubscribe c);
  Ok (hasRegistered, c).

(** The bodies of [waitForGwRegistration] and [waitForServiceRegistration];
    [timeout] is what [timeout.toNanoseconds()] returns.  The first result is
    [None] when [attachState] failed: [false] is returned at once. *)
Definition wait_registered (fuel : nat) registered (timeout : Z) c : Outcome (option bool * Client) :=
  c ← wait_for_state fuel SUBSCRIBED c;
  let '(hasRegistered, c) :=
    if hasData (c_time c) then take_then registered false (tick c) else (false, tick c) in
  '(hasRegistered, c) ← (
    if hasRegistered : bool then Ok (Some hasRegistered, c)
    else if attachState (c_time c) then
      let c := tick c in
      let now := steady_clock_now (c_time c) in
      deadline ← time_after now timeout;
      '(hasRegistered, c) ← wait_loop fuel registered deadline now hasRegistered (tick c);
      Ok (Some hasRegistered, c)
    else Ok (None, tick c));
  match hasRegistered with
  | Some hasRegistered =>
      c ← wait_for_state fuel NOT_SUBSCRIBED (unsubscribe c);
      Ok (Some hasRegistered, c)
  | None => Ok (None, c)
  end.

(** [std::find] in the vectors of the sample. *)
Definition publisher_registered (publisherUid : Z) (data : GwRegisteredData) : bool :=
  negb (std_find publisherUid (publisherUids data) =? length (publisherUids data))%nat.

Definition service_registered (service : ServiceDescription) (data : GwRegisteredData) : bool :=
  negb (std_find service (subscriberServices data) =? length (subscriberServices data))%nat.

(** [findService] calls its callable for every service that matches. *)
Definition isGwRunning (services : list ServiceDescription) : bool :=
  fold_left (fun found service => true) services false.

Definition hasGwRegistered (fuel : nat) (publisherUid : Z) : Outcome bool :=
  '(res, _) ← has_registered fuel (publisher_registered publisherUid) new_subscriber; Ok res.

Definition hasServiceRegistered (fuel : nat) (service : ServiceDescription) : Outcome bool :=
  '(res, _) ← has_registered fuel (service_registered service) new_subscriber; Ok res.

Definition waitForGwRegistration (fuel : nat) (publisherUid timeout : Z) : Outcome bool :=
  '(res, _) ← wait_registered fuel (publisher_registered publisherUid) timeout new_subscriber;
  Ok (default false res).

Definition waitForServiceRegistration (fuel : nat) (service : ServiceDescription) (timeout : Z) : Outcome bool :=
  '(res, _) ← wait_registered fuel (service_registered service) timeout new_subscriber;
  Ok (default false res).
End operations.

(** [units::Duration::max().toNanoseconds()] is clamped to the largest
    unsigned 64-bit number. *)
Definition MAX_DURATION_NANOSECONDS : Z := 2 ^ 64 - 1.

(** ** Lemmas *)

Section lemmas.
Context `{Introspection}.
Implicit Types (c : Client) (registered : GwRegisteredData → bool).

(** The answer is what the samples taken so far say. *)
Definition agrees registered (hasRegistered : bool) c : Prop := existsb registered (c_taken c) = hasRegistered.

(** [c'] is a later state of the same subscription. *)
Definition later c c' : Prop := (c_time c < c_time c')%nat ∧ c_unsubscribed c' = c_unsubscribed c.

Lemma later_trans c1 c2 c3 : later c1 c2 → later c2 c3 → later c1 c3.
Proof. unfold later. intuition (lia || congruence). Qed.

Lemma wait_for_state_spec state c by_time :
  (∀ t, (by_time ≤ t)%nat → getSubscriptionState (c_unsubscribed c) t = state) →
  ∃ c', later c c' ∧ (c_time c' ≤ S (Nat.max by_time (c_time c)))%nat ∧ c_taken c' = c_taken c ∧
    getSubscriptionState (c_unsubscribed c') (c_time c' - 1) = state ∧
    ∀ fuel, (by_time < fuel)%nat → wait_for_state fuel state c = Ok c'.
Proof.
  intros Hby. enough (∀ n, (by_time - c_time c ≤ n)%nat →
    ∃ c', later c c' ∧ (c_time c' ≤ S (Nat.max by_time (c_time c)))%nat ∧ c_taken c' = c_taken c ∧
      getSubscriptionState (c_unsubscribed c') (c_time c' - 1) = state ∧
      ∀ fuel, (n < fuel)%nat → wait_for_state fuel state c = Ok c') as Hn.
  { destruct (Hn by_time) as (c' & ? & ? & ? & ? & ?); [lia|]. by exists c'. }
  assert (∀ c, getSubscriptionState (c_unsubscribed c) (c_time c) = state →
    getSubscriptionState (c_unsubscribed (tick c)) (c_time (tick c) - 1) = state) as Htick.
  { intros c' Hs. simpl. by replace (c_time c' - 0)%nat with (c_time c') by lia. }
  intros n. revert c Hby. induction n as [|n IH]; intros c Hby Hn;
    (destruct (decide (getSubscriptionState (c_unsubscribed c) (c_time c) = state)) as [Hs|Hs];
      [exists (tick c); split_and!; [split; simpl; [lia|done]|simpl; lia|done|by apply Htick|];
       intros [|fuel] ?; [lia|]; simpl; by rewrite bool_decide_true|]).
  - exfalso. apply Hs, Hby. lia.
  - destruct (IH (tick c)) as (c' & Hl & Ht & Htk & Hst & Hf); [done|simpl; lia|].
    exists c'. split_and!; [| |done..|].
    + destruct Hl as [Hl Hu]. simpl in *. split; [lia|done].
    + assert (c_time c < by_time)%nat by (destruct (decide (by_time ≤ c_time c)%nat); [exfalso; auto|lia]).
      simpl in Ht. lia.
    + intros [|fuel] ?; [lia|]. simpl. rewrite bool_decide_false by done. apply Hf. lia.
Qed.

Lemma take_then_spec registered c :
  agrees registered false c →
  let '(r, c') := take_then registered false c in agrees registered r c' ∧ later c c' ∧ c_time c' = S (c_time c).
Proof.
  unfold agrees, take_then, later. intros Hc. destruct (take_sample (c_time c)) as [data|]; simpl.
  - rewrite existsb_app, Hc. simpl. rewrite orb_false_r. split_and!; (done || lia).
  - split_and!; (done || lia).
Qed.

Lemma notified_spec registered notifications c :
  agrees registered false c →
  let '(r, c') := notified registered notifications false c in
  agrees registered r c' ∧ (c_time c ≤ c_time c')%nat ∧ c_unsubscribed c' = c_unsubscribed c.
Proof.
  revert c. induction notifications as [|[] notifications IH]; intros c Hc; simpl; [done| |by apply IH].
  pose proof (take_then_spec registered c Hc) as Ht. destruct (take_then registered false c) as [[] c1].
  - destruct Ht as (Ha & [Hl Hu] & _). split_and!; [done|lia|done].
  - destruct Ht as (Ha & [Hl Hu] & _). specialize (IH c1 Ha). destruct (notified registered notifications false c1).
    destruct IH as (? & ? & ?). split_and!; [done|lia|congruence].
Qed.

(** Why a wait ended without the registration. *)
Definition timed_out (deadline : Z) c : Prop :=
  ∃ t, (t < c_time c)%nat ∧
    ((∃ now, now < deadline ∧ timedWait (deadline - now) t = []) ∨ deadline ≤ steady_clock_now t).

Lemma wait_loop_spec registered deadline c t0 by_time :
  (∀ t, (by_time ≤ t)%nat → deadline ≤ steady_clock_now t) →
  agrees registered false c → (t0 < c_time c)%nat →
  ∃ r c', (∀ fuel, (by_time < fuel)%nat →
      wait_loop fuel registered deadline (steady_clock_now t0) false c = Ok (r, c')) ∧
    agrees registered r c' ∧ c_unsubscribed c' = c_unsubscribed c ∧ (r = false → timed_out deadline c').
Proof.
  intros Hby Hc Ht0. enough (∀ n, (by_time - c_time c ≤ n)%nat →
    ∃ r c', (∀ fuel, (n < fuel)%nat →
        wait_loop fuel registered deadline (steady_clock_now t0) false c = Ok (r, c')) ∧
      agrees registered r c' ∧ c_unsubscribed c' = c_unsubscribed c ∧ (r = false → timed_out deadline c')) as Hn
    by (apply Hn; lia).
  intros n. revert c t0 Hc Ht0. induction n as [n IH] using lt_wf_ind. intros c t0 Hc Ht0 Hn.
  destruct (Z.ltb_spec (steady_clock_now t0) deadline) as [Hlt|Hge].
  2: { exists false, c. split_and!; [|done|done|].
       - intros [|fuel] ?; [lia|]. simpl. by rewrite (proj2 (Z.ltb_ge _ _)).
       - intros _. exists t0. split; [done|]. by right. }
  destruct (decide (timedWait (deadline - steady_clock_now t0) (c_time c) = [])) as [He|He].
  { exists false, (tick c). split_and!; [|done|done|].
    - intros [|fuel] ?; [lia|]. simpl. rewrite (proj2 (Z.ltb_lt _ _)) by done. simpl. by rewrite bool_decide_true.
    - intros _. exists (c_time c). split; [simpl; lia|]. left. by eexists. }
  pose proof (notified_spec registered (timedWait (deadline - steady_clock_now t0) (c_time c)) (tick c) Hc) as Hno.
  destruct (notified registered _ false (tick c)) as [r c1] eqn:E1. destruct Hno as (Ha & Hl & Hu). simpl in Hl, Hu.
  assert (∀ fuel, wait_loop (S fuel) registered deadline (steady_clock_now t0) false c =
    wait_loop fuel registered deadline (steady_clock_now (c_time c1)) r (tick c1)) as Hstep.
  { intros fuel. simpl. rewrite (proj2 (Z.ltb_lt _ _)) by done. simpl. rewrite bool_decide_false by done.
    by rewrite E1. }
  assert (n = O → deadline ≤ steady_clock_now (c_time c1)) as Hlast by (intros ->; apply Hby; lia).
  destruct r.
  - exists true, (tick c1). split_and!; [|done..]. intros [|fuel] ?; [lia|]. rewrite Hstep. by destruct fuel.
  - destruct n as [|n].
    + exists false, (tick c1). split_and!; [|done..|].
      * intros [|fuel] ?; [lia|]. rewrite Hstep. destruct fuel; simpl;
          rewrite (proj2 (Z.ltb_ge _ _)) by auto; done.
      * intros _. exists (c_time c1). split; [simpl; lia|]. right. auto.
    + destruct (IH n ltac:(lia) (tick c1) (c_time c1)) as (r & c' & Hr & Ha' & Hu' & Hto);
        [done|simpl; lia|simpl; lia|].
      exists r, c'. split_and!; [|done|by rewrite Hu'|done]. intros [|fuel] ?; [lia|]. rewrite Hstep. apply Hr. lia.
Qed.
End lemmas.

(** ** Properties *)

Section properties.
Context `{Introspection}.
Context (subscribed_by unsubscribed_by : nat).
Context (subscribes : ∀ t, (subscribed_by ≤ t)%nat → getSubscriptionState false t = SUBSCRIBED).
Context (unsubscribes : ∀ t, (unsubscribed_by ≤ t)%nat → getSubscriptionState true t = NOT_SUBSCRIBED).
Implicit Types (c : Client) (registered : GwRegisteredData → bool).

(** Calls made before the deadline is computed, at most. *)
Definition first_calls : nat := subscribed_by + 4.

Lemma first_look registered :
  ∃ r c, (∀ fuel, (subscribed_by < fuel)%nat →
      ∃ c0, wait_for_state fuel SUBSCRIBED new_subscriber = Ok c0 ∧
        (if hasData (c_time c0) then take_then registered false (tick c0) else (false, tick c0)) = (r, c)) ∧
    agrees registered r c ∧ c_unsubscribed c = false ∧ (c_time c + 1 ≤ first_calls)%nat ∧
    (length (c_taken c) ≤ 1)%nat ∧ ((∀ t, hasData t = false) → r = false).
Proof.
  destruct (wait_for_state_spec SUBSCRIBED new_subscriber subscribed_by subscribes) as (c0 & [_ Hu] & Ht & Htk & _ & Hf).
  assert (agrees registered false (tick c0)) as Ha by (unfold agrees; simpl; by rewrite Htk).
  pose proof (take_then_spec registered (tick c0) Ha) as Hs.
  destruct (take_then registered false (tick c0)) as [r c] eqn:E. destruct Hs as (Ha' & [_ Hu'] & Ht').
  assert (length (c_taken c) ≤ 1)%nat as Hlen.
  { unfold take_then in E. destruct (take_sample _); injection E as _ <-; simpl; rewrite Htk; simpl; lia. }
  simpl in Ht, Hu, Ht', Hu'. rewrite Nat.max_0_r in Ht. unfold first_calls.
  destruct (hasData (c_time c0)) eqn:Hd.
  - exists r, c. split_and!; [|done|congruence|lia|done|intros Hn; by rewrite Hn in Hd].
    intros fuel Hfuel. exists c0. by rewrite Hf, Hd, E.
  - exists false, (tick c0). split_and!; [|done|done|simpl; lia|simpl; rewrite Htk; simpl; lia|done].
    intros fuel Hfuel. exists c0. by rewrite Hf, Hd.
Qed.

Lemma leave c :
  ∃ c', (∀ fuel, (unsubscribed_by < fuel)%nat → wait_for_state fuel NOT_SUBSCRIBED (unsubscribe c) = Ok c') ∧
    c_unsubscribed c' = true ∧ getSubscriptionState true (c_time c' - 1) = NOT_SUBSCRIBED ∧
    c_taken c' = c_taken c ∧ (c_time c < c_time c')%nat.
Proof.
  destruct (wait_for_state_spec NOT_SUBSCRIBED (unsubscribe c) unsubscribed_by unsubscribes)
    as (c' & [Ht Hu] & _ & Htk & Hst & Hf).
  exists c'. simpl in *. rewrite Hu in Hst. split_and!; [exact Hf|done..|lia].
Qed.

(** C30: A wait for a registration ends when the port is attached, the state of the
    subscription follows the requests and the clock reaches the timeout.  Its answer is
    whether one of the samples taken shows the registration; when there is none, a
    wait on the WaitSet timed out or the deadline has passed.  The subscription is over
    when it returns, except that a failure to attach returns at once and leaves it. *)
Theorem registration_wait_ends registered (timeout : Z) (passed_by : nat) :
  0 ≤ timeout < 2 ^ 63 →
  (∀ t, (t ≤ first_calls)%nat → 0 ≤ steady_clock_now t ∧ steady_clock_now t + timeout < 2 ^ 63) →
  (∀ t t', (t ≤ first_calls)%nat → (passed_by ≤ t')%nat → steady_clock_now t + timeout ≤ steady_clock_now t') →
  ∃ res c,
    (∀ fuel, (Nat.max subscribed_by (Nat.max passed_by unsubscribed_by) < fuel)%nat →
      wait_registered fuel registered timeout new_subscriber = Ok (res, c)) ∧
    match res with
    | Some r => r = existsb registered (c_taken c) ∧
        c_unsubscribed c = true ∧ getSubscriptionState true (c_time c - 1) = NOT_SUBSCRIBED ∧
        (r = false → ∃ t, (t ≤ first_calls)%nat ∧ timed_out (steady_clock_now t + timeout) c)
    | None => existsb registered (c_taken c) = false ∧
        c_unsubscribed c = false ∧ ∃ t, attachState t = false
    end.
Proof.
  intros Htime Hclock Hpassed.
  destruct (first_look registered) as (r & c & Hfirst & Ha & Hu & Hfc & _ & _).
  destruct r; [|destruct (attachState (c_time c)) eqn:Hatt].
  - destruct (leave c) as (c' & Hf & Hu' & Hst & Htk & _). exists (Some true), c'. split.
    + intros fuel Hfuel. unfold wait_registered. destruct (Hfirst fuel) as (c0 & -> & E); [lia|].
      ostep. rewrite E. ostep. rewrite Hf by lia. done.
    + rewrite Htk. by split_and!.
  - set (t0 := c_time (tick c)). set (deadline := steady_clock_now t0 + timeout).
    assert (t0 ≤ first_calls)%nat as Ht0 by (subst t0; simpl; lia).
    destruct (wait_loop_spec registered deadline (tick (tick c)) t0 passed_by) as (r & c1 & Hr & Ha1 & Hu1 & Hto);
      [by intros t Ht; apply Hpassed|done|unfold t0; simpl; lia|].
    destruct (leave c1) as (c' & Hf & Hu' & Hst & Htk & Hlt). exists (Some r), c'. split.
    + intros fuel Hfuel. unfold wait_registered. destruct (Hfirst fuel) as (c0 & -> & E); [lia|].
      ostep. rewrite E, Hatt. cbv zeta. fold t0.
      assert (time_after (steady_clock_now t0) timeout = Ok deadline) as ->.
      { unfold time_after. assert (to_i64 timeout = timeout) as ->
          by (unfold to_i64; rewrite Z.mod_small by lia; lia).
        rewrite bool_decide_true; [done|]. destruct (Hclock t0 Ht0). unfold is_i64. lia. }
      ostep. rewrite Hr by lia. ostep. rewrite Hf by lia. done.
    + rewrite Htk. split_and!; [by rewrite <-Ha1|done..|]. intros Hfalse. exists t0. split; [done|].
      destruct (Hto Hfalse) as (t & Ht & Hwhy). exists t. split; [lia|done].
  - exists None, (tick c). split.
    + intros fuel Hfuel. unfold wait_registered. destruct (Hfirst fuel) as (c0 & -> & E); [lia|].
      ostep. rewrite E. ostep. by rewrite Hatt.
    + split_and!; [done..|by eexists].
Qed.

(** The timeouts from 2^63 nanoseconds on, the default timeout among them, become
    negative when they are converted to [std::chrono::nanoseconds]: whatever the WaitSet
    would report, the functions look at no more than one sample, and answer [false] at
    once when none is there yet. *)
Theorem default_timeout_never_waits registered (timeout : Z) :
  2 ^ 63 ≤ timeout < 2 ^ 64 →
  (∀ t, 0 ≤ steady_clock_now t < 2 ^ 63) → (∀ t, attachState t = true) →
  ∃ r c,
    (∀ fuel, (Nat.max subscribed_by unsubscribed_by < fuel)%nat →
      wait_registered fuel registered timeout new_subscriber = Ok (Some r, c)) ∧
    r = existsb registered (c_taken c) ∧ (length (c_taken c) ≤ 1)%nat ∧
    ((∀ t, hasData t = false) → r = false).
Proof.
  intros Htime Hclock Hatt.
  destruct (first_look registered) as (r & c & Hfirst & Ha & _ & _ & Hlen & Hnone).
  destruct (leave (if r then c else tick (tick c))) as (c' & Hf & _ & _ & Htk & _). exists r, c'.
  assert (c_taken c' = c_taken c) as Htk' by (rewrite Htk; by destruct r).
  rewrite Htk'. split_and!; [|by rewrite <-Ha|done..].
  intros fuel Hfuel. unfold wait_registered. destruct (Hfirst fuel) as (c0 & -> & E); [lia|].
  ostep. rewrite E. destruct r; ostep; [by rewrite Hf by lia|]. rewrite Hatt. cbv zeta.
  set (t0 := c_time (tick c)). pose proof (Hclock t0).
  assert (to_i64 timeout = timeout - 2 ^ 64) as Hi.
  { unfold to_i64. replace (timeout + 2 ^ 63) with (timeout - 2 ^ 63 + 1 * 2 ^ 64) by lia.
    rewrite Z.mod_add, Z.mod_small by lia. lia. }
  unfold time_after. rewrite Hi, bool_decide_true by (unfold is_i64; lia). ostep.
  assert (∀ end_, end_ < steady_clock_now t0 → ∀ c,
    wait_loop fuel registered end_ (steady_clock_now t0) false c = Ok (false, c)) as ->.
  { intros end_ Hend c1. destruct fuel; simpl; by rewrite (proj2 (Z.ltb_ge _ _)) by lia. }
  - ostep. by rewrite Hf by lia.
  - lia.
Qed.

(** Asked with a sample the gateway published, [hasServiceRegistered] answers whether
    the gateway knows a local subscriber of the service, and [hasGwRegistered] whether
    it knows the port of the publisher. *)
Theorem registration_queries_exact `{IoxSpec} (d : DiscoveryManager) (service : ServiceDescription) (uid : Z) :
  local_wf d → (∀ t, take_sample t = Some (gwIntrospection d)) →
  ∀ fuel, (Nat.max subscribed_by unsubscribed_by < fuel)%nat →
    hasServiceRegistered fuel service = Ok (bool_decide (service ∈ localSubscribers (m_localState d))) ∧
    hasGwRegistered fuel uid = Ok (bool_decide (uid ∈ userPublisherPorts (m_localState d))).
Proof.
  intros (_ & _ & Hl) Hsample fuel Hfuel.
  assert (∀ registered, ∃ c', has_registered fuel registered new_subscriber =
    Ok (registered (gwIntrospection d), c')) as Hhas.
  { intros registered.
    destruct (wait_for_state_spec SUBSCRIBED new_subscriber subscribed_by subscribes) as (c0 & _ & _ & _ & _ & Hf).
    unfold has_registered. rewrite Hf by lia. ostep. unfold take_then. rewrite Hsample.
    destruct (leave (taken (gwIntrospection d) (tick c0))) as (c' & Hf' & _). exists c'. by rewrite Hf' by lia. }
  assert (∀ {A} `{EqDecision A} (x : A) l, negb (std_find x l =? length l)%nat = bool_decide (x ∈ l)) as Hfind.
  { intros A ? x l. destruct (decide (x ∈ l)) as [Hx|Hx].
    - rewrite bool_decide_true by done. pose proof (std_find_lt x l Hx). by rewrite (proj2 (Nat.eqb_neq _ _)) by lia.
    - rewrite bool_decide_false by done. apply std_find_end in Hx. by rewrite Hx, Nat.eqb_refl. }
  unfold hasServiceRegistered, hasGwRegistered.
  destruct (Hhas (service_registered service)) as [c1 ->], (Hhas (publisher_registered uid)) as [c2 ->]. ostep.
  unfold service_registered, publisher_registered. rewrite !Hfind. split; [|done]. do 2 f_equal.
  apply bool_decide_ext. simpl. rewrite elem_of_pushUnique by (simpl; lia). rewrite elem_of_nil; tauto.
Qed.
End properties.

(** ** Witnesses *)

(** Subscribing takes three calls, unsubscribing until the twelfth; the WaitSet
    wakes up at once, and [sample] is there from the ninth call on. *)
Definition example_introspection (sample : GwRegisteredData) : Introspection := {|
  getSubscriptionState unsubscribed t :=
    if unsubscribed : bool then (if (t <? 12)%nat then UNSUBSCRIBE_REQUESTED else NOT_SUBSCRIBED)
    else (if (t <? 3)%nat then SUBSCRIBE_REQUESTED else SUBSCRIBED);
  hasData t := false;
  take_sample t := if (t <? 9)%nat then None else Some sample;
  attachState t := true;
  timedWait remaining t := [false; true];
  steady_clock_now t := 100 * Z.of_nat (Nat.min t 50)
|}.

Lemma example_subscribes sample t :
  (3 ≤ t)%nat → @getSubscriptionState (example_introspection sample) false t = SUBSCRIBED.
Proof. intros Ht. simpl. by rewrite (proj2 (Nat.ltb_ge _ _)) by done. Qed.

Lemma example_unsubscribes sample t :
  (12 ≤ t)%nat → @getSubscriptionState (example_introspection sample) true t = NOT_SUBSCRIBED.
Proof. intros Ht. cbn -[Nat.ltb]. by rewrite (proj2 (Nat.ltb_ge _ _)) by done. Qed.

Lemma registration_wait_ends_witness :
  let sample := mkGwRegisteredData [7] [] in
  @waitForGwRegistration (example_introspection sample) 30 7 1000 = Ok true ∧
  ∃ res c, @wait_registered (example_introspection sample) 30 (publisher_registered 7) 1000 new_subscriber = Ok (res, c) ∧
    match res with
    | Some r => r = existsb (publisher_registered 7) (c_taken c) ∧ c_unsubscribed c = true
    | None => c_unsubscribed c = false
    end.
Proof.
  intros sample. split; [reflexivity|].
  destruct (@registration_wait_ends (example_introspection sample) 3 12 (example_subscribes sample)
    (example_unsubscribes sample) (publisher_registered 7) 1000 17) as (res & c & Hw & Hres).
  - lia.
  - intros t _. cbn -[Nat.min]. lia.
  - unfold first_calls. intros t t' Ht Ht'. cbn -[Nat.min]. lia.
  - exists res, c. split; [apply Hw; vm_compute; lia|]. destruct res; [split; apply Hres|apply Hres].
Defined.

Lemma default_timeout_never_waits_witness :
  let sample := mkGwRegisteredData [7] [] in
  (∃ r c, @wait_registered (example_introspection sample) 30 (publisher_registered 7) MAX_DURATION_NANOSECONDS new_subscriber
    = Ok (Some r, c) ∧ r = false) ∧
  @waitForGwRegistration (example_introspection sample) 30 7 MAX_DURATION_NANOSECONDS = Ok false.
Proof.
  intros sample. split; [|reflexivity].
  destruct (@default_timeout_never_waits (example_introspection sample) 3 12 (example_subscribes sample)
    (example_unsubscribes sample) (publisher_registered 7) MAX_DURATION_NANOSECONDS) as (r & c & Hw & _ & _ & Hf).
  - unfold MAX_DURATION_NANOSECONDS. lia.
  - intros t. cbn -[Nat.min]. lia.
  - reflexivity.
  - exists r, c. split; [apply Hw; vm_compute; lia|]. apply Hf. reflexivity.
Defined.

Lemma registration_queries_exact_witness :
  let service := mkService [Init.Byte.x41] [Init.Byte.x42] [Init.Byte.x43] in
  let d := set_local (mkLocalState [] [service] [7]) (DiscoveryManager_init 1 NONE) in
  let i := {| getSubscriptionState unsubscribed t := if unsubscribed : bool then NOT_SUBSCRIBED else SUBSCRIBED;
              hasData t := true; take_sample t := Some (@gwIntrospection ref_iox d); attachState t := true;
              timedWait remaining t := []; steady_clock_now t := 0 |} in
  @hasServiceRegistered i 3 service = Ok true ∧ @hasGwRegistered i 3 8 = Ok false.
Proof.
  intros service d i.
  destruct (@registration_queries_exact i 0 0 (fun _ _ => eq_refl) (fun _ _ => eq_refl) ref_iox ref_iox_spec d service 8)
    with (fuel := 3%nat) as [H1 H2].
  - match goal with |- ?G => refine (@bool_decide_unpack G _ _) end. vm_compute. exact I.
  - reflexivity.
  - vm_compute; lia.
  - split; [rewrite H1|rewrite H2]; vm_compute; reflexivity.
Defined.
