(* ===== verification/GatewayApp.v ===== *)
(** * GatewayApp: the running gateway

    [GatewayApp::run] of source/p3com/gateway/gateway_app.cpp puts the parts
    together: the discovery manager decides which channels are needed and its
    update callback hands them to the gateways of both directions; the main
    loop releases expired messages and repeats the announcement over the
    transports that may lose it.

    The state is the transport registry and a [World] with both gateways.  The
    discovery manager lives in [w_tr2iox], since the receiving gateway changes
    it too.  Everything that happens to the running gateway is an event: the
    notifications of its three waitsets, the callbacks of the transports, which
    run on the transports' threads, and the periods of the main loop.  Here
    an event is handled as a whole before the next one; file GatewayRun proves
    what holds in every state that is reached so.  In the code an update of the
    channels is several critical sections, which file Threads interleaves. *)

From stdpp Require Import base list gmap.
From S2P Require Import Prelude.
From S2P Require Import Iox.
From S2P Require Import Types.
From S2P Require Import VectorMap.
From S2P Require Import Serialization.
From S2P Require Import TransportInfo.
From S2P Require Import Startup.
From S2P Require Import Gateway.
From S2P Require Import Discovery.
From S2P Require Import DiscoveryFailure.
From S2P Require Import Chunks.
From S2P Require Import DataWriter.
From S2P Require SegmentedMessages.
From S2P Require PendingMessages.
From S2P Require TransportForwarder.
From S2P Require IoxToTransport.
From S2P Require TransportToIox.
From Stdlib Require Import Permutation.

Open Scope Z_scope.

#[local] Existing Instance TransportToIox.T2I_gateway.
#[local] Existing Instance IoxToTransport.I2T_gateway.
#[local] Existing Instance IoxToTransport.I2T_channel_functions.
#[local] Existing Instance IoxToTransport.event_alive_dec.

(** [w_random] are the numbers the random device will return. *)
Record World := mkWorld {
  w_net : list NetEvent;
  w_random : nat → Z;
  w_tr2iox : TransportToIox.Transport2Iceoryx;
  w_iox2tr : IoxToTransport.Iceoryx2Transport;
  w_lastLossyDiscovery : Z
}.

Definition set_tr2iox (t : TransportToIox.T2I) (w : World) : World :=
  mkWorld (w_net w) (w_random w) t (w_iox2tr w) (w_lastLossyDiscovery w).
Definition set_iox2tr (i : IoxToTransport.I2T) (w : World) : World :=
  mkWorld (w_net w) (w_random w) (w_tr2iox w) i (w_lastLossyDiscovery w).
Definition set_lastLossyDiscovery (now : Z) (w : World) : World :=
  mkWorld (w_net w) (w_random w) (w_tr2iox w) (w_iox2tr w) now.

#[export] Program Instance World_net : NetWorld World := {|
  net := w_net;
  set_net l w := mkWorld l (w_random w) (w_tr2iox w) (w_iox2tr w) (w_lastLossyDiscovery w)
|}.
Solve All Obligations with by try intros [].

Definition no_discovery : DiscoveryManager :=
  mkDiscovery 0 NONE (mkRemoteState [] vm_empty) (mkLocalState [] [] []) [] emptyInfo false.

#[export] Program Instance World_discovery : DiscoveryState World := {|
  discovery w := TransportToIox.t_discovery (w_tr2iox w);
  set_discovery d w := set_tr2iox (TransportToIox.t_set_discovery d (w_tr2iox w)) w;
  generateHash w :=
    (wrap32 (w_random w 0%nat),
     mkWorld (w_net w) (fun n => w_random w (S n)) (w_tr2iox w) (w_iox2tr w) (w_lastLossyDiscovery w));
  Rest := TransportToIox.T2I * IoxToTransport.I2T * Z;
  rest w := (TransportToIox.t_set_discovery no_discovery (w_tr2iox w), w_iox2tr w, w_lastLossyDiscovery w)
|}.
Solve All Obligations with try done.
Next Obligation. intros w. apply wrap32_u32. Qed.

Section operations.
Context `{Iox} `{IoxPosh} `{TransportLayer}.
Abbreviation state := (TransportInfo * World)%type.

(** The lambda [updateCallback] of [run]. *)
Definition updateCallback (neededChannels : list ServiceDescription) (s : state) : Outcome state :=
  let '(ti, w) := s in
  tr2iox ← TransportToIox.updateChannels neededChannels (w_tr2iox w);
  let w := set_tr2iox tr2iox w in
  iox2tr ← IoxToTransport.updateChannels neededChannels (w_iox2tr w);
  Ok (ti, set_iox2tr iox2tr w).

Definition m_updateCallback : option (list ServiceDescription → state → Outcome state) :=
  Some updateCallback.

(** The objects [run] creates, with the ports [forwarded] of the forwarder's
    subscribers and what the transports will report as sent. *)
Definition initial_world (random : nat → Z) (hash : hash_t) (config : GatewayConfig_t)
    (forwarded : list UniquePortId) (upcoming : list (list Ptr)) (nextPort now : Z) : World :=
  mkWorld [] random
    (TransportToIox.mkT2I vm_empty vm_empty
       (TransportForwarder.TransportForwarder_init (forwardedServices config))
       (DiscoveryManager_init hash (preferredTransport config)) ∅ [] [] nextPort)
    (IoxToTransport.mkI2T vm_empty [] [] vm_empty [] [] upcoming forwarded nextPort)
    now.

Definition NS_PER_MS : Z := 1000000.

(** One iteration of the loop of [run] before it sleeps; [checked] is the time
    [checkSegmentedMessages] reads, in nanoseconds like [now]. *)
Definition main_loop_body (checked now : Z) (s : state) : Outcome state :=
  let '(ti, w) := s in
  tr2iox ← TransportToIox.checkSegmentedMessages checked (w_tr2iox w);
  let w := set_tr2iox tr2iox w in
  if w_lastLossyDiscovery w + LOSSY_TRANSPORT_DISCOVERY_PERIOD * NS_PER_MS <? now then
    '(ti, w) ← for_each resendDiscoveryInfoToTransport LOSSY_TRANSPORT_TYPES (ti, w);
    Ok (ti, set_lastLossyDiscovery now w)
  else Ok (ti, w).

(** What a waitset loop leaves behind after it wrote a chunk: the pending
    messages, and the calls it made on subscribers. *)
Definition record_written (pm : PendingMessages.PendingMessageManager) (calls : list IoxEvent) (w : World) : World :=
  let i := w_iox2tr w in
  set_iox2tr (IoxToTransport.mkI2T (IoxToTransport.i_endpoints i) (IoxToTransport.i_waitset i)
    (IoxToTransport.i_subscribed i) pm (IoxToTransport.i_calls i ++ calls) (IoxToTransport.i_blocked i)
    (IoxToTransport.i_upcoming i) (IoxToTransport.i_forwarded i) (IoxToTransport.i_nextPort i)) w.

(** What can happen while the gateway runs.  [LocalMessage] and
    [ForwardedMessage] are notifications of the waitsets of [Iceoryx2Transport]
    and of the forwarder, [PortChange] is one of the discovery manager's; the
    five that follow are the callbacks of the transports. *)
Inductive GatewayEvent :=
  | Period (checked now : Z)
  | PortChange (sample : option PortIntrospection) (loaned : bool)
  | LocalMessage (subscriber : Endpoint) (taken : option ChunkHeader)
  | ForwardedMessage (subscriber : Endpoint) (taken : option ChunkHeader)
  | DiscoveryMessage (mem : bytes) (size : nat) (deviceIndex : DeviceIndex_t)
  | Datagram (mem : bytes) (size : nat) (deviceIndex : DeviceIndex_t) (loan : option Loan) (now : Z)
  | BufferNeeded (mem : bytes) (size : nat) (loan : option Loan) (now : Z)
  | BufferReleased (mem : bytes) (size : nat) (shouldRelease : bool) (deviceIndex : DeviceIndex_t)
  | BufferSent (userPayload : Ptr).

Definition handle (e : GatewayEvent) (s : state) : Outcome state :=
  let '(ti, w) := s in
  match e with
  | Period checked now => main_loop_body checked now s
  | PortChange sample loaned =>
      '(s, _) ← Discovery.waitsetLoop_body m_updateCallback sample loaned s; Ok s
  | LocalMessage subscriber taken =>
      '(ti, pm, calls, w) ← IoxToTransport.waitsetLoop_body subscriber taken ti
                              (IoxToTransport.i_pending (w_iox2tr w)) w;
      Ok (ti, record_written pm calls w)
  | ForwardedMessage subscriber taken =>
      '(f, ti, pm, calls, w) ← TransportForwarder.waitsetLoop_body subscriber taken
                                 (TransportToIox.t_forwarder (w_tr2iox w)) ti
                                 (IoxToTransport.i_pending (w_iox2tr w)) w;
      let w := set_tr2iox (TransportToIox.t_set_forwarder f (w_tr2iox w)) w in
      Ok (ti, record_written pm calls w)
  | DiscoveryMessage mem size deviceIndex =>
      receiveRemoteDiscoveryInfo m_updateCallback mem size deviceIndex s
  | Datagram mem size deviceIndex loan now =>
      tr2iox ← TransportToIox.receive mem size deviceIndex loan now (w_tr2iox w);
      Ok (ti, set_tr2iox tr2iox w)
  | BufferNeeded mem size loan now =>
      '(tr2iox, _) ← TransportToIox.loanBuffer mem size loan now (w_tr2iox w);
      Ok (ti, set_tr2iox tr2iox w)
  | BufferReleased mem size shouldRelease deviceIndex =>
      tr2iox ← TransportToIox.releaseBuffer mem size shouldRelease deviceIndex (w_tr2iox w);
      Ok (ti, set_tr2iox tr2iox w)
  | BufferSent userPayload =>
      '(pm, calls) ← PendingMessages.release (IoxToTransport.i_pending (w_iox2tr w)) userPayload;
      if forallb (fun e => bool_decide (IoxToTransport.event_alive (w_iox2tr w) e)) calls
      then Ok (ti, record_written pm calls w) else UndefinedBehaviour
  end.

(** [run] after the loop: [deinitialize], joining the threads that send, and
    [TransportInfo::terminate]. *)
Definition shutdown (s : state) : Outcome state :=
  '(ti, w) ← deinitialize s;
  Ok (terminate ti, w).

Definition run (events : list GatewayEvent) (s : state) : Outcome state :=
  s ← initialize s;
  s ← for_each handle events s;
  shutdown s.
End operations.

(** ** The invariant *)

Section invariant.
Context `{Iox} `{IoxPosh} `{TransportLayer}.

(** Both gateways are in order, and no hand-back waits for a mutex. *)
Definition channels_sound (w : World) : Prop :=
  channels_wf (w_tr2iox w) ∧ TransportToIox.ports_wf (w_tr2iox w) ∧
  channels_wf (w_iox2tr w) ∧ IoxToTransport.subscribers_wf (w_iox2tr w) (w_iox2tr w) ∧
  IoxToTransport.i_blocked (w_iox2tr w) = [].

(** Both gateways have exactly the channels [services]. *)
Definition have_channels (services : list ServiceDescription) (w : World) : Prop :=
  channel_services (w_tr2iox w) ≡ₚ services ∧ channel_services (w_iox2tr w) ≡ₚ services.

(** Everything is in order, though other channels may be needed; [terminating]
    after [deinitialize]. *)
Definition parts_in (terminating : bool) (s : TransportInfo * World) : Prop :=
  transports_wf s.1 ∧ discovery_wf (discovery s.2) ∧ m_terminateFlag (discovery s.2) = terminating ∧
  channels_sound s.2.

Definition parts_wf : TransportInfo * World → Prop := parts_in false.

Definition app_wf (s : TransportInfo * World) : Prop :=
  transports_wf s.1 ∧ discovery_wf (discovery s.2) ∧ m_terminateFlag (discovery s.2) = false ∧
  channels_sound s.2 ∧ have_channels (updateNeededChannels (discovery s.2)) s.2.

(** An update to [needed] is safe: no two services share a hash, and no message
    of a channel that goes is pending. *)
Definition can_update (needed : list ServiceDescription) (w : World) : Prop :=
  no_collisions (needed ++ channel_services (w_tr2iox w)) ∧
  no_collisions (needed ++ channel_services (w_iox2tr w)) ∧
  ∀ p e, ¬ IoxToTransport.deleted_while_pending needed (w_iox2tr w) p e.

Definition valid_sample (sample : option PortIntrospection) : Prop :=
  match sample with
  | None => True
  | Some sample => Forall (fun port => valid_Service (portService port)) (m_subscriberList sample)
  end.

(** The transport [t] can carry the chunk: the 32-bit sizes do not overflow. *)
Definition carries (c : ChunkHeader) (t : TransportType) : Prop :=
  let headerSize := if ch_hasUserHeader c then ch_userHeaderSize c else 0 in
  t ∈ [PCIE; UDP; TCP] ∧ 0 < maxTransportPayloadSize t ∧
  headerSize + ch_userPayloadSize c < 2 ^ 32 ∧ headerSize + maxTransportPayloadSize t ≤ 2 ^ 32 ∧
  ch_userPayloadSize c + maxTransportPayloadSize t ≤ 2 ^ 32.

(** A chunk that a subscriber took can be written to every known gateway, and
    if a transport keeps it pending, it reports it as sent some time. *)
Definition writable (c : ChunkHeader) (w : World) : Prop :=
  chunk_wf c ∧
  (∀ r i, r ∈ records (m_remoteState (discovery w)) → i ∈ deviceIndices r → carries c (di_type i)) ∧
  ((∃ t, willBePending t (ch_userPayloadSize c) = true) →
   chunk_userPayload (ch_chunk c) ∈ concat (IoxToTransport.i_upcoming (w_iox2tr w))).

(** The events the gateway handles without a loss: a discovery message is
    readable, does not announce a termination and finds room for its record;
    the channels can be updated, and when only the ports of known services
    changed, there is room for another channel; a chunk comes from a subscriber
    of the gateway, and a forwarded one was pushed to the forwarder before; no
    datagram announces a place beyond its chunk. *)
Definition admissible (e : GatewayEvent) (w : World) : Prop :=
  let d := discovery w in
  match e with
  | Period _ _ | BufferSent _ => True
  | PortChange sample _ =>
      valid_sample sample ∧
      if localStateUnchanged (m_localState d) (newLocalState sample)
      then (length (updateNeededChannels d) < MAX_TOPICS)%nat
      else can_update (updateNeededChannels (set_local (newLocalState sample) d)) w
  | LocalMessage subscriber taken =>
      subscriber ∈ (channels (w_iox2tr w)).*2 ∧ ∀ c, taken = Some c → writable c w
  | ForwardedMessage subscriber taken =>
      getUid subscriber ∈ IoxToTransport.i_forwarded (w_iox2tr w) ∧ ∀ c, taken = Some c → writable c w ∧
        ∃ source f, TransportForwarder.sourceDevice (TransportToIox.t_forwarder (w_tr2iox w))
          (chunk_userPayload (ch_chunk c)) (getClassHash (getServiceDescription subscriber)) = Ok (source, f)
  | DiscoveryMessage mem size deviceIndex =>
      ∃ i n, deserialize_PubSubInfo mem size = Ok (i, n) ∧ isTermination i = false ∧
        let rs := records (m_remoteState d) in
        ((findRecord rs (gatewayHash i) < length rs)%nat ∨ (length rs < MAX_DEVICE_COUNT)%nat) ∧
        can_update (updateNeededChannels (set_records (upsert rs i deviceIndex) d)) w
  | Datagram mem size deviceIndex loan now =>
      ∃ t, TransportToIox.receive mem size deviceIndex loan now (w_tr2iox w) = Ok t
  | BufferNeeded mem size loan now =>
      ∃ t, TransportToIox.loanBuffer mem size loan now (w_tr2iox w) = Ok t
  | BufferReleased mem size shouldRelease deviceIndex =>
      ∃ t, TransportToIox.releaseBuffer mem size shouldRelease deviceIndex (w_tr2iox w) = Ok t
  end.
End invariant.

(** ** Lemmas: the update callback *)

Section updating.
Context `{IoxSpec} `{IoxPosh} `{TransportLayer} (enough_publishers : (MAX_TOPICS ≤ MAX_PUBLISHERS)%nat).
Implicit Types (w : World) (ti : TransportInfo) (d : DiscoveryManager).

(** Apart from the publisher identifiers. *)
Definition same_discovery d d' : Prop := set_uids [] d = set_uids [] d'.

Lemma needed_same d d' :
  m_localState d = m_localState d' → records (m_remoteState d) = records (m_remoteState d') →
  updateNeededChannels d = updateNeededChannels d'.
Proof. unfold updateNeededChannels. by intros -> ->. Qed.

Lemma same_discovery_spec d d' :
  same_discovery d d' →
  m_localState d = m_localState d' ∧ m_remoteState d = m_remoteState d' ∧
  m_terminateFlag d = m_terminateFlag d' ∧ (discovery_wf d → discovery_wf d') ∧
  updateNeededChannels d = updateNeededChannels d'.
Proof.
  unfold same_discovery, set_uids. intros [= Hg Hp Hr Hl Hs Ht]. split_and!; [done..| |].
  - unfold discovery_wf, local_wf. by rewrite Hg, Hr, Hl.
  - apply needed_same; [done|by rewrite Hr].
Qed.

Lemma subscribers_wf_restart (s0 s : IoxToTransport.I2T) :
  IoxToTransport.subscribers_wf s0 s →
  let s' := IoxToTransport.mkI2T (IoxToTransport.i_endpoints s) (IoxToTransport.i_waitset s)
    (IoxToTransport.i_subscribed s) (IoxToTransport.i_pending s)
    (IoxToTransport.i_calls s ++ IoxToTransport.i_blocked s) []
    (IoxToTransport.i_upcoming s) (IoxToTransport.i_forwarded s) (IoxToTransport.i_nextPort s) in
  IoxToTransport.subscribers_wf s' s'.
Proof.
  intros (Hw & Hsub & Hnd & Hlt & _ & _ & _ & _ & Hfw & Hb & Hall & Hal) s'.
  unfold IoxToTransport.subscribers_wf. split_and!; try done; [by left|].
  apply IoxToTransport.handed_back_refl, Hb.
Qed.

(** Each direction is updated on its own, under its own mutex. *)
Lemma update_tr2iox_spec needed w :
  channels_wf (w_tr2iox w) → TransportToIox.ports_wf (w_tr2iox w) → NoDup needed → (length needed ≤ MAX_TOPICS)%nat →
  no_collisions (needed ++ channel_services (w_tr2iox w)) →
  ∃ t, TransportToIox.updateChannels needed (w_tr2iox w) = Ok t ∧ channels_wf t ∧ TransportToIox.ports_wf t ∧
    channel_services t ≡ₚ needed ∧ same_discovery (TransportToIox.t_discovery t) (discovery w).
Proof.
  intros Ht Hp Hnd Hl Hc. pose proof (TransportToIox.T2I_channel_functions enough_publishers) as Hfn.
  destruct (update_channels_spec (TransportToIox.ports_of (discovery w)) TransportToIox.setupChannel
    TransportToIox.deleteChannel needed (w_tr2iox w)) as (t & new & He & Ht' & [Hp' Hd'] & _ & _ & Hserv);
    [done..|].
  by exists t.
Qed.

Lemma update_iox2tr_spec needed w :
  channels_wf (w_iox2tr w) → IoxToTransport.subscribers_wf (w_iox2tr w) (w_iox2tr w) →
  NoDup needed → (length needed ≤ MAX_TOPICS)%nat → no_collisions (needed ++ channel_services (w_iox2tr w)) →
  (∀ p e, ¬ IoxToTransport.deleted_while_pending needed (w_iox2tr w) p e) →
  ∃ i, IoxToTransport.updateChannels needed (w_iox2tr w) = Ok i ∧ channels_wf i ∧
    IoxToTransport.subscribers_wf i i ∧ IoxToTransport.i_blocked i = [] ∧ channel_services i ≡ₚ needed ∧
    PendingMessages.pending (IoxToTransport.i_pending i) ⊆
      PendingMessages.pending (IoxToTransport.i_pending (w_iox2tr w)).
Proof.
  intros Hi Hs Hnd Hl Hc Hnone.
  destruct (IoxToTransport.update_internal_spec needed (w_iox2tr w) Hi Hs Hnd Hl Hc)
    as (i' & He2 & Hi' & Hs' & Hserv2 & Hkept).
  pose proof Hs as (_ & _ & _ & _ & _ & _ & _ & _ & _ & _ & _ & Hal0).
  pose proof Hs' as (_ & _ & _ & _ & _ & _ & Hf & _ & _ & (_ & Hsub & _ & Hcalls) & _).
  unfold IoxToTransport.updateChannels. rewrite He2. ostep. rewrite IoxToTransport.hand_back_blocked_ok.
  - eexists. split; [done|]. pose proof (subscribers_wf_restart _ _ Hs') as Hs2. cbv zeta in Hs2. by split_and!.
  - intros u p (p' & u' & [= <- <-] & Hpend & _)%Hcalls. destruct (Hal0 p u Hpend) as [Hu|Hu].
    + apply list_elem_of_fmap in Hu as (e & -> & Hin). left. apply Hkept; [done|].
      apply dec_stable. intros Hn. by apply (Hnone p e).
    + right. by rewrite Hf.
  - intros e (p & u & -> & _)%Hcalls. by eexists _, _.
Qed.

Lemma updateCallback_spec needed ti w :
  channels_sound w → NoDup needed → (length needed ≤ MAX_TOPICS)%nat → can_update needed w →
  ∃ w', updateCallback needed (ti, w) = Ok (ti, w') ∧ channels_sound w' ∧ have_channels needed w' ∧
    same_discovery (discovery w') (discovery w) ∧ net w' = net w.
Proof.
  intros (Ht & Hp & Hi & Hs & Hb) Hnd Hl (Hc1 & Hc2 & Hnone). unfold updateCallback.
  destruct (update_tr2iox_spec needed w) as (t & -> & Ht' & Hp' & Hserv & Hd'); [done..|].
  ostep. cbn [w_iox2tr set_tr2iox].
  destruct (update_iox2tr_spec needed w) as (i & -> & Hi' & Hs' & Hb' & Hserv' & _); [done..|].
  ostep. eexists. split; [done|]. unfold channels_sound, have_channels. by split_and!.
Qed.

(** Neither direction got or lost a channel. *)
Definition same_channels w w' : Prop :=
  channel_services (w_tr2iox w') = channel_services (w_tr2iox w) ∧
  channel_services (w_iox2tr w') = channel_services (w_iox2tr w).

#[export] Instance same_channels_preorder : PreOrder same_channels.
Proof. split; [by intros w|]. intros w1 w2 w3 [E1 E2] [E3 E4]. split; congruence. Qed.

Lemma same_channels_have l w w' : same_channels w w' → have_channels l w → have_channels l w'.
Proof. unfold have_channels. by intros [-> ->]. Qed.

(** The gateways depend on the discovery manager through the publisher identifiers only. *)
Lemma rest_sound w w' :
  rest w' = rest w → m_gatewayPublisherUids (discovery w') = m_gatewayPublisherUids (discovery w) →
  channels_sound w →
  channels_sound w' ∧ same_channels w w' ∧ (∀ needed, can_update needed w → can_update needed w').
Proof.
  destruct w as [n1 r1 [t1 t2 t3 t4 t5 t6 t7 t8] i1 l1], w' as [n2 r2 [u1 u2 u3 u4 u5 u6 u7 u8] i2 l2].
  cbn. unfold TransportToIox.t_set_discovery. cbn. intros [= -> -> -> -> -> -> -> -> ->] Hu Hs.
  split; [|done]. destruct Hs as (Ht & (Hseg & Hperm & Hrest) & Hi).
  split; [exact Ht|]. split; [|exact Hi].
  split; [exact Hseg|]. split; [|exact Hrest]. cbn in Hu, Hperm |- *. by rewrite Hu.
Qed.
End updating.

(** ** Lemmas: the events *)

Section events.
Context `{IoxSpec}.

Lemma collect_ports ports acc :
  (length acc ≤ MAX_TOPICS)%nat →
  let subs := foldl (fun subs port =>
    if isUserPort port then (push_back MAX_TOPICS subs (portService port)).1 else subs) acc ports in
  (length subs ≤ MAX_TOPICS)%nat ∧ ∀ s, s ∈ subs → s ∈ acc ∨ s ∈ portService <$> ports.
Proof.
  revert acc. induction ports as [|port ports IH]; intros acc Hl; csimpl; [split; [done|by left]|].
  destruct (isUserPort port).
  - destruct (IH (push_back MAX_TOPICS acc (portService port)).1) as [Hl' Hin]; [by apply push_back_length|].
    split; [done|]. intros s [Hs|Hs]%Hin; [|right; by right]. revert Hs. rewrite push_back_spec.
    case_decide; simpl; [|by left]. intros [?| ->%list_elem_of_singleton]%elem_of_app; [by left|right; by left].
  - destruct (IH acc Hl) as [Hl' Hin]. split; [done|]. intros s [?|?]%Hin; [by left|right; by right].
Qed.

Lemma newLocalState_wf sample d :
  valid_sample sample → local_wf d → local_wf (set_local (newLocalState sample) d).
Proof.
  intros Hv (Hg & _ & _). split; [exact Hg|]. cbn [m_localState set_local]. destruct sample as [sample|].
  - unfold newLocalState.
    destruct (foldl _ ([], []) (m_publisherList sample)) as [pubs ports]. cbn [localSubscribers].
    destruct (collect_ports (m_subscriberList sample) []) as [Hl Hin]; [simpl; lia|]. split; [|done].
    apply Forall_forall. intros s [Hs%elem_of_nil|(port & -> & Hs)%list_elem_of_fmap]%Hin; [done|].
    by apply (proj1 (Forall_forall _ _) Hv) in Hs.
  - cbn. split; [constructor|lia].
Qed.

Lemma deleteElement_keeps (l : list ServiceDescription) x y : y ∈ l → x ≠ y → y ∈ deleteElement l x.
Proof.
  intros Hy Hne. destruct (decide (x ∈ l)) as [Hx|Hx]; [|by rewrite deleteElement_not_in].
  rewrite <-(deleteElement_perm l x Hx) in Hy. by apply elem_of_cons in Hy as [->|?].
Qed.

Lemma deleteElements_nil (a b : list ServiceDescription) : deleteElements a b = [] → a ⊆ b.
Proof.
  intros Hd y Hy. apply dec_stable. intros Hn. enough (y ∈ deleteElements a b) as Hc
    by (rewrite Hd in Hc; by apply elem_of_nil in Hc). clear Hd.
  revert a Hy. induction b as [|x b IH]; intros a Hy; [done|]. simpl. apply not_elem_of_cons in Hn as [Hne Hn].
  apply IH; [done|]. by apply deleteElement_keeps.
Qed.

(** When no service appeared or vanished, the same channels are needed. *)
Lemma needed_unchanged d new :
  localStateUnchanged (m_localState d) new = true → (length (updateNeededChannels d) < MAX_TOPICS)%nat →
  updateNeededChannels d ≡ₚ updateNeededChannels (set_local new d).
Proof.
  unfold localStateUnchanged. rewrite !andb_true_iff, !bool_decide_eq_true. intros [[[H1 H2] H3] H4] Hl.
  apply deleteElements_nil in H1, H2, H3, H4.
  assert (∀ s, s ∈ services_in_use (set_local new d) ↔ s ∈ services_in_use d) as Hin.
  { intros s. unfold services_in_use. rewrite !elem_of_app. simpl. set_solver. }
  rewrite !updateNeededChannels_pushUnique in *.
  set (a := pushUnique MAX_TOPICS [] (services_in_use d)) in *.
  set (b := pushUnique MAX_TOPICS [] (services_in_use (set_local new d))).
  assert (NoDup a) by (apply pushUnique_NoDup; constructor).
  assert (NoDup b) by (apply pushUnique_NoDup; constructor).
  assert (b ⊆ a) as Hba.
  { intros s [?%elem_of_nil|Hs%Hin]%pushUnique_elem; [done|]. apply pushUnique_not_full; [done|by right]. }
  apply list.NoDup_Permutation; [done..|]. intros s. split; [|apply Hba].
  intros [?%elem_of_nil|Hs%Hin]%pushUnique_elem; [done|]. apply pushUnique_not_full; [|by right].
  eapply Nat.le_lt_trans; [|exact Hl]. by apply submseteq_length, NoDup_submseteq.
Qed.
End events.

Section handling.
Context `{IoxSpec} `{IoxPosh} `{TransportLayer} (enough_publishers : (MAX_TOPICS ≤ MAX_PUBLISHERS)%nat).
Implicit Types (w : World) (ti : TransportInfo).

Lemma app_parts s : app_wf s → parts_wf s.
Proof. intros (? & ? & ? & ? & _). by split_and!. Qed.

(** The same channels are there and are needed. *)
Definition steady w w' : Prop :=
  same_channels w w' ∧
  updateNeededChannels (discovery w') = updateNeededChannels (discovery w).

#[export] Instance steady_preorder : PreOrder steady.
Proof.
  split; [by intros w|]. intros w1 w2 w3 [H12 E12] [H23 E23]. split; [by etransitivity|congruence].
Qed.

Lemma steady_app ti w ti' w' : app_wf (ti, w) → parts_wf (ti', w') → steady w w' → app_wf (ti', w').
Proof.
  intros (_ & _ & _ & _ & Hh) (Hti & Hd & Hterm & Hs) [Hsame Hneed]. cbn [snd] in *.
  refine (conj Hti (conj Hd (conj Hterm (conj Hs _)))). cbn [snd]. rewrite Hneed.
  by apply (same_channels_have _ w).
Qed.

(** What sending may change leaves the invariant as it is. *)
Lemma unchanged_parts b ti w ti' w' :
  parts_in b (ti, w) → transports_wf ti' → unchanged (discovery w) (rest w) w' → parts_in b (ti', w') ∧ steady w w'.
Proof.
  intros (_ & (Hl & Hr & _) & Hterm & Hs) Hti (Hc & Hcache & Hrest). cbn [fst snd] in *.
  destruct (clearCache_fields _ _ Hc) as (Hls & Hg & Ht & Hrec & _ & Hu).
  destruct (rest_sound w w' Hrest Hu Hs) as (Hs' & Hh' & _).
  split; [|split; [exact Hh'|by apply needed_same]].
  split; [done|]. split; [split_and!; cbn [snd]; [|by rewrite Hrec|done]|].
  - unfold local_wf. by rewrite Hls, Hg.
  - cbn [snd]. by rewrite Ht.
Qed.

Lemma unchanged_app w ti' w' :
  discovery_wf (discovery w) → m_terminateFlag (discovery w) = false → channels_sound w →
  have_channels (updateNeededChannels (discovery w)) w →
  transports_wf ti' → unchanged (discovery w) (rest w) w' → app_wf (ti', w').
Proof.
  intros Hd Hterm Hs Hh Hti Hu. destruct (unchanged_parts false ti' w ti' w') as ((_ & Hd' & Hterm' & Hs') & Hh' & Hn);
    [by split_and!; try apply Hd|done..|].
  refine (conj Hti (conj Hd' (conj Hterm' (conj Hs' _)))). cbn [snd] in *. rewrite Hn.
  by apply (same_channels_have _ w).
Qed.

Lemma period_parts checked now ti w :
  parts_wf (ti, w) → ∃ s', main_loop_body checked now (ti, w) = Ok s' ∧ parts_wf s' ∧ steady w s'.2.
Proof.
  intros (Hti & Hd & Hterm & Hs). cbn [fst snd] in *. unfold main_loop_body.
  destruct Hs as (Ht & (Hseg & Hperm & Hnd & Hlt & Hpub) & Hi).
  unfold TransportToIox.checkSegmentedMessages.
  destruct (SegmentedMessages.check_spec (S (vm_size (TransportToIox.t_segmented (w_tr2iox w)))) checked
    (TransportToIox.t_segmented (w_tr2iox w)) (proj1 Hseg)) as (m & -> & Hm & Hent); [lia|]. ostep. ostep.
  match goal with |- context [set_tr2iox ?t w] => set (w1 := set_tr2iox t w) end.
  assert (channels_sound w1) as Hs1.
  { split; [exact Ht|]. split; [|exact Hi]. split; [|split; [exact Hperm|split; [exact Hnd|split; [exact Hlt|]]]].
    - simpl. by eapply SegmentedMessages.keys_filter_NoDup.
    - simpl. rewrite Hent. apply Forall_forall. intros e [_ He]%list_elem_of_filter.
      by apply (proj1 (Forall_forall _ _) Hpub) in He. }
  assert (parts_wf (ti, w1)) as Hparts by done. assert (steady w w1) as Hst by done.
  case_match; [|by eexists]. pose proof Hparts as (_ & Hd1 & Hterm1 & _). cbn [snd] in *.
  assert (∀ ts ti2 w2, ts ⊆ [PCIE; UDP; TCP] → transports_wf ti2 → unchanged (discovery w1) (rest w1) w2 →
    ∃ ti' w', for_each resendDiscoveryInfoToTransport ts (ti2, w2) = Ok (ti', w') ∧ transports_wf ti' ∧
      unchanged (discovery w1) (rest w1) w') as Hloop.
  { induction ts as [|t ts IH]; intros ti2 w2 Hts Hti2 Hu2; [by exists ti2, w2|]. simpl.
    destruct (resend_settles (discovery w1) (proj1 Hd1) (rest w1) t ti2 w2) as (ti3 & w3 & -> & ? & ?);
      [done..|apply Hts; by left|]. ostep. apply IH; [|done..]. intros x Hx. apply Hts. by right. }
  destruct (Hloop LOSSY_TRANSPORT_TYPES ti w1) as (ti' & w' & -> & Hti' & Hu'); [|done|by split_and!; try apply Hd|].
  { intros t. unfold LOSSY_TRANSPORT_TYPES. set_solver. }
  ostep. eexists. split; [done|].
  destruct (unchanged_parts false ti w1 ti' w' Hparts Hti' Hu') as [Hparts' Hst']. split; [exact Hparts'|].
  exact (transitivity (R := steady) Hst Hst').
Qed.

Lemma period_app checked now ti w :
  app_wf (ti, w) → ∃ s', main_loop_body checked now (ti, w) = Ok s' ∧ app_wf s'.
Proof.
  intros Happ. destruct (period_parts checked now ti w (app_parts _ Happ)) as ([ti' w'] & He & Hp & Hs).
  exists (ti', w'). split; [done|]. by eapply steady_app.
Qed.

Lemma set_local_app w new ti :
  parts_wf (ti, w) → local_wf (set_local new (discovery w)) →
  let w1 := set_discovery (set_local new (discovery w)) w in
  discovery_wf (discovery w1) ∧ m_terminateFlag (discovery w1) = false ∧ channels_sound w1 ∧
  same_channels w w1 ∧ (∀ needed, can_update needed w → can_update needed w1).
Proof.
  intros (_ & Hd & Hterm & Hs) Hl w1. cbn [snd] in *. unfold w1. rewrite discovery_set.
  split; [exact (conj Hl (proj2 Hd))|]. split; [exact Hterm|]. by apply (rest_sound w).
Qed.

(** The update callback, then whatever sending leaves unchanged. *)
Lemma update_app ti w :
  transports_wf ti → discovery_wf (discovery w) → m_terminateFlag (discovery w) = false →
  channels_sound w → can_update (updateNeededChannels (discovery w)) w →
  ∃ w', updateCallback (updateNeededChannels (discovery w)) (ti, w) = Ok (ti, w') ∧ app_wf (ti, w').
Proof.
  intros Hti Hd Hterm Hs Hcan.
  destruct (updateCallback_spec enough_publishers (updateNeededChannels (discovery w)) ti w)
    as (w' & He & Hs' & Hh & Hsame & _); try done.
  { rewrite updateNeededChannels_pushUnique. apply pushUnique_NoDup. constructor. }
  { rewrite updateNeededChannels_pushUnique. apply pushUnique_length. simpl. lia. }
  exists w'. split; [done|]. symmetry in Hsame.
  destruct (same_discovery_spec _ _ Hsame) as (_ & _ & Ht & Hwf & Hneed).
  refine (conj Hti (conj (Hwf Hd) (conj _ (conj Hs' _)))); cbn [snd]; [by rewrite <-Ht|by rewrite <-Hneed].
Qed.

Lemma announce_parts ti w :
  parts_wf (ti, w) → ∃ s', sendIfChanged (ti, w) = Ok s' ∧ parts_wf s' ∧ steady w s'.2 ∧
    m_localState (discovery s'.2) = m_localState (discovery w) ∧
    records (m_remoteState (discovery s'.2)) = records (m_remoteState (discovery w)) ∧ rest s'.2 = rest w.
Proof.
  intros Hparts. pose proof Hparts as (Hti & Hd & Hterm & Hs). cbn [fst snd] in *. unfold sendIfChanged.
  destruct (generateDiscoveryInfo_spec (discovery w) (proj1 Hd) (rest w) ti w)
    as (i & w3 & -> & Hann & Hvi & Hu3 & Hd3 & _); [by split_and!; try apply Hd|done|].
  assert (∀ w2, unchanged (discovery w) (rest w) w2 → m_localState (discovery w2) = m_localState (discovery w) ∧
    records (m_remoteState (discovery w2)) = records (m_remoteState (discovery w)) ∧ rest w2 = rest w) as Hkept.
  { intros w2 (Hc & _ & Hr). by destruct (clearCache_fields _ _ Hc) as (? & _ & _ & ? & _). }
  case_match; [|eexists; split; [done|]; cbn [snd];
    destruct (unchanged_parts false ti w ti w3 Hparts Hti Hu3); by specialize (Hkept w3 Hu3)].
  destruct (sendDiscoveryInfo_settles (discovery w) (rest w) (failCallback failFuel)
    failFuel ti w3 i) as ([ti4 w4] & Hsend & (Hti4 & Hu4 & _)); try done.
  { intros. by apply failCallback_settles; try apply Hd. }
  { pose proof (alive_le ti Hti). unfold failFuel. lia. }
  unfold registeredCallback. rewrite Hsend. ostep. eexists. split; [done|]. cbn [fst snd modify] in *.
  destruct (unchanged_parts false ti w ti4 w4 Hparts Hti4 Hu4) as [(Hti5 & Hd5 & Hterm5 & Hs5) Hst]. cbn [fst snd] in *.
  destruct (rest_sound w4 (set_discovery (set_lastSent i (discovery w4)) w4)) as (Hs6 & Hch6 & _);
    [done..|]. split; [|split].
  - split; [done|]. split; [exact Hd5|]. by split.
  - etransitivity; [exact Hst|]. by split.
  - destruct (Hkept w4 Hu4) as (? & ? & ?). rewrite discovery_set, rest_set_discovery. by split_and!.
Qed.

Lemma ports_changed sample ti w :
  parts_wf (ti, w) → admissible (PortChange sample true) w →
  localStateUnchanged (m_localState (discovery w)) (newLocalState sample) = false →
  ∃ s', readPortSubscriber m_updateCallback sample (ti, w) = Ok s' ∧ app_wf s'.
Proof.
  intros Hparts [Hv Hadm] Hsame. rewrite Hsame in Hadm. pose proof Hparts as (Hti & Hd & _). cbn [fst snd] in *.
  pose proof (newLocalState_wf sample (discovery w) Hv (proj1 Hd)) as Hl.
  destruct (set_local_app w _ ti Hparts Hl) as (Hd1 & Ht1 & Hs1 & _ & Hcan1).
  unfold readPortSubscriber. cbn [modify snd]. rewrite Hsame.
  set (w1 := set_discovery (set_local (newLocalState sample) (discovery w)) w) in *.
  assert (discovery w1 = set_local (newLocalState sample) (discovery w)) as Hdw by (unfold w1; by rewrite discovery_set).
  rewrite <-Hdw in Hadm.
  destruct (update_app ti w1 Hti Hd1 Ht1 Hs1) as (w2 & Hu & Happ2); [by apply Hcan1|].
  unfold update, m_updateCallback. rewrite Hu. ostep. clear Hu.
  destruct (announce_parts ti w2 (app_parts _ Happ2)) as ([ti3 w3] & He & Hp3 & Hst & _).
  exists (ti3, w3). split; [exact He|]. by apply (steady_app ti w2).
Qed.

Lemma ports_app sample ti w :
  app_wf (ti, w) → admissible (PortChange sample true) w →
  ∃ s', readPortSubscriber m_updateCallback sample (ti, w) = Ok s' ∧ app_wf s'.
Proof.
  intros Happ Hadm. pose proof (app_parts _ Happ) as Hparts.
  destruct (localStateUnchanged (m_localState (discovery w)) (newLocalState sample)) eqn:Hsame;
    [|by apply ports_changed].
  destruct Hadm as [Hv Hadm]. rewrite Hsame in Hadm. pose proof Happ as (Hti & Hd & _ & _ & Hh). cbn [fst snd] in *.
  pose proof (newLocalState_wf sample (discovery w) Hv (proj1 Hd)) as Hl.
  destruct (set_local_app w _ ti Hparts Hl) as (Hd1 & Ht1 & Hs1 & Hh1 & _).
  unfold readPortSubscriber. cbn [modify snd]. rewrite Hsame. eexists. split; [done|].
  refine (conj Hti (conj Hd1 (conj Ht1 (conj Hs1 _)))). cbn [snd]. apply (same_channels_have _ w); [exact Hh1|].
  rewrite discovery_set.
  unfold have_channels. by rewrite <-needed_unchanged.
Qed.

Lemma message_settles mem size deviceIndex ti w :
  parts_wf (ti, w) → admissible (DiscoveryMessage mem size deviceIndex) w →
  ∃ s', receiveRemoteDiscoveryInfo m_updateCallback mem size deviceIndex (ti, w) = Ok s' ∧ app_wf s'.
Proof.
  intros (Hti & Hd & Hterm & Hs) (i & n & Hdes & Hit & Hroom & Hcan). cbn [fst snd] in *.
  destruct (receive_spec m_updateCallback mem size deviceIndex ti w i n Hti Hd Hdes Hit Hroom)
    as (ti1 & w1 & Hti1 & Hd1 & -> & Hrec & _ & Hloc & Huids & Hflag & Hrest & _).
  destruct (rest_sound w w1 Hrest Huids Hs) as (Hs1 & _ & Hcan1).
  assert (m_terminateFlag (discovery w1) = false) as Hterm1 by (by rewrite Hflag).
  destruct (update_app ti1 w1 Hti1 Hd1 Hterm1 Hs1) as (w2 & He & Happ2).
  { apply Hcan1. by rewrite (needed_same (discovery w1) (set_records (upsert (records (m_remoteState (discovery w)))
      i deviceIndex) (discovery w))). }
  exists (ti1, w2). by split.
Qed.

Lemma message_app mem size deviceIndex ti w :
  app_wf (ti, w) → admissible (DiscoveryMessage mem size deviceIndex) w →
  ∃ s', receiveRemoteDiscoveryInfo m_updateCallback mem size deviceIndex (ti, w) = Ok s' ∧ app_wf s'.
Proof. intros Happ. by apply message_settles, app_parts. Qed.

Lemma initialize_app ti w s : app_wf (ti, w) → initialize (ti, w) = Ok s → app_wf s.
Proof.
  intros (Hti & Hd & Hterm & Hs & Hh). cbn [fst snd] in *. unfold initialize.
  destruct (sendGenerated_settles (discovery w) (proj1 Hd) (rest w) ti w Hterm Hti)
    as ([ti' w'] & -> & Hti' & Hu' & _); [by split_and!; try apply Hd|]. intros [= <-].
  by apply (unchanged_app w).
Qed.
End handling.

(** ** Properties *)

Section properties.
Context `{IoxSpec} `{IoxPosh} `{TransportLayer}.

Lemma initial_app ti random hash config forwarded upcoming nextPort now :
  transports_wf ti → is_u32 hash → Forall (fun u => u < nextPort) forwarded →
  app_wf (ti, initial_world random hash config forwarded upcoming nextPort now).
Proof.
  intros Hti Hh Hf. refine (conj Hti (conj _ (conj eq_refl (conj _ _)))); cbn [snd].
  - split; [split_and!; [apply Hh..|constructor|simpl; lia]|].
    split; [split_and!; [simpl; lia|constructor|constructor]|].
    split; [apply vm_empty_wf|constructor].
  - split; [split; [apply vm_empty_wf|split; constructor]|]. split.
    { split; [split; [apply vm_empty_wf|constructor]|]. split_and!; constructor. }
    split; [split; [apply vm_empty_wf|split; constructor]|]. split; [|done].
    pose proof PendingMessages.pending_empty_wf as Hpend.
    unfold IoxToTransport.subscribers_wf. cbn.
    refine (conj _ (conj _ (conj _ (conj _ (conj _ (conj _ (conj _ (conj _ (conj _ (conj _ (conj _ _)))))))))));
      try done; [constructor|by intros u ?%elem_of_nil|by intros e ?%elem_of_nil| |by apply IoxToTransport.handed_back_refl].
    intros u Hu. split; [apply not_elem_of_nil|]. by apply (proj1 (Forall_forall _ _) Hf) in Hu.
  - done.
Qed.

(** Shutting down returns with all transports destroyed.  Before, every transport that
    does not fail on it was last sent a termination message of this gateway, and a
    gateway that receives it forgets this one and nothing else. *)
Theorem shutdown_announced (ti : TransportInfo) (w : World) :
  parts_wf (ti, w) →
  ∃ ti' w' data,
    deinitialize (ti, w) = Ok (ti', w') ∧ shutdown (ti, w) = Ok (terminate ti', w') ∧
    (∀ k t, s_transports (terminate ti') !! k = Some (Some t) → False) ∧
    (∀ k t, s_transports ti' !! k = Some (Some (mkTransport t GOOD)) →
       s_transports ti !! k = Some (Some (mkTransport t GOOD)) ∧
       last_broadcast t (net w') = Some data) ∧
    ∀ update behind from ti2 w2, discovery_wf (discovery w2) →
      ∃ w2' rs, receiveRemoteDiscoveryInfo update (data ++ behind) (length data) from (ti2, w2) = Ok (ti2, w2') ∧
        discovery w2' = set_records rs (discovery w2) ∧
        (∀ r, r ∈ rs → gatewayHash (info r) ≠ m_gatewayHash (discovery w)) ∧
        rs ⊆ records (m_remoteState (discovery w2)).
Proof.
  intros (Hti & Hd & _). cbn [fst snd] in *.
  destruct (deinitialize_spec ti w Hti Hd) as (ti' & w' & i & data & n & He & Hser & Hv & Hterm & Hg & _ & _ & Hsent).
  exists ti', w', data. split_and!; [done|unfold shutdown; by rewrite He| |exact Hsent|].
  - intros k t. unfold terminate. simpl. rewrite list_lookup_fmap. by destruct (_ !! k).
  - intros update behind from ti2 w2 (_ & (_ & Hnd & _) & _).
    destruct (receive_termination_spec update (data ++ behind) (length data) from ti2 w2 i n)
      as (w2' & rs & ? & ? & Hgone & ?); [by eapply deserialize_PubSubInfo_at|done..|].
    exists w2', rs. split_and!; [done..| |done]. by rewrite <-Hg.
Qed.
End properties.

(** ** Witnesses *)

Definition app_ti : TransportInfo :=
  mkTransportInfo [None; None; Some (mkTransport UDP GOOD); None] 4.

Definition app_world : World :=
  @initial_world ref_iox (fun n => Z.of_nat n) 800 (mkConfig NONE []) [] [] 10 0.

Definition app_started : TransportInfo * World :=
  match @initialize ref_iox (example_layer []) World _ _ (app_ti, app_world) with
  | Ok s => s | _ => (app_ti, app_world)
  end.

(** Another gateway, with a subscriber. *)
Definition app_message : bytes :=
  match @serialize_PubSubInfo ref_iox (mkPubSubInfo [svc Init.Byte.x41] 4 900 1 false) with
  | Ok (data, _) => data | _ => []
  end.

Definition app_event : GatewayEvent :=
  DiscoveryMessage app_message (length app_message) (mkDeviceIndex UDP 0).

Lemma app_ti_wf : transports_wf app_ti.
Proof.
  split_and!; [done| |unfold is_u64; simpl; lia].
  intros [|[|[|[|i]]]] t [=]; subst. split_and!; [right; by left|done|done].
Qed.

Lemma shutdown_announced_witness :
  @app_wf ref_iox (app_ti, app_world) ∧
  ∃ ti' w' data,
    @deinitialize ref_iox (example_layer []) World _ _ (app_ti, app_world) = Ok (ti', w') ∧
    (∀ k t, s_transports ti' !! k = Some (Some (mkTransport t GOOD)) → last_broadcast t (net w') = Some data).
Proof.
  assert (@app_wf ref_iox (app_ti, app_world)) as Happ.
  { refine (@initial_app ref_iox app_ti _ _ _ _ _ _ _ app_ti_wf _ _).
    - split; simpl; lia.
    - constructor. }
  split; [exact Happ|].
  destruct (@shutdown_announced ref_iox ref_iox_spec (example_layer []) app_ti app_world (app_parts _ Happ))
    as (ti' & w' & data & He & _ & _ & Hs & _).
  exists ti', w', data. split; [exact He|]. intros k t Hk. exact (proj2 (Hs k t Hk)).
Defined.
