(* ===== verification/GatewayRun.v ===== *)
(** * GatewayRun: every reachable state of the running gateway

    The events of file GatewayApp, in any order, from the start of the gateway
    on.  [running_wf] is the invariant of the whole gateway: the transport
    registry, the discovery manager with its cache, and the channels, ports,
    segmented and pending messages of both directions. *)

From stdpp Require Import base list gmap.
From S2P Require Import Prelude.
From S2P Require Import Iox.
From S2P Require Import Types.
From S2P Require Import VectorMap.
From S2P Require Import Serialization.
From S2P Require Import TransportInfo.
From S2P Require Import Startup.
From S2P Require Import DataWriter.
From S2P Require Import Gateway.
From S2P Require Import Discovery.
From S2P Require Import DiscoveryFailure.
From S2P Require Import Chunks.
From S2P Require Import Coherence.
From S2P Require Import Traffic.
From S2P Require SegmentedMessages.
From S2P Require PendingMessages.
From S2P Require TransportForwarder.
From S2P Require IoxToTransport.
From S2P Require TransportToIox.
From S2P Require Import GatewayApp.
From Stdlib Require Import Permutation.

Open Scope Z_scope.

#[local] Existing Instance TransportToIox.T2I_gateway.
#[local] Existing Instance IoxToTransport.I2T_gateway.
#[local] Existing Instance IoxToTransport.event_alive_dec.

Section running.
Context `{IoxSpec} `{IoxPosh} `{TransportLayer}.
Implicit Types (ti : TransportInfo) (w : World).

Abbreviation coherent := (coherent_in (discovery : World → DiscoveryManager)).

Definition running_wf (s : TransportInfo * World) : Prop := app_wf s ∧ coherent s.

(** Events after which at least [parts_wf] holds: as the admissible ones, but
    another gateway may announce its termination, after which channels may be left
    that are not needed any more, and cached devices that lead to it. *)
Definition survivable (e : GatewayEvent) w : Prop :=
  let d := discovery w in
  match e with
  | PortChange sample _ =>
      valid_sample sample ∧
      (localStateUnchanged (m_localState d) (newLocalState sample) = false →
       can_update (updateNeededChannels (set_local (newLocalState sample) d)) w)
  | LocalMessage subscriber taken =>
      subscriber ∈ (channels (w_iox2tr w)).*2 ∧ ∀ c, taken = Some c → writable c w ∧
        ∀ (v : list DeviceIndex_t) i,
          to_map (deviceIndicesCache (m_remoteState d)) !! getClassHash (getServiceDescription subscriber) = Some v →
          i ∈ v → carries c (di_type i)
  | DiscoveryMessage mem size deviceIndex =>
      (∃ i n, deserialize_PubSubInfo mem size = Ok (i, n) ∧ isTermination i = true) ∨ admissible e w
  | _ => admissible e w
  end.

Lemma admissible_survivable e ti w : running_wf (ti, w) → admissible e w → survivable e w.
Proof.
  intros [Happ Hco] Hadm. destruct e; try exact Hadm.
  - destruct Hadm as [Hv Hadm]. split; [done|]. intros Hun. by rewrite Hun in Hadm.
  - destruct Hadm as [Hsub Hc]. split; [done|]. intros c Hcc. pose proof (Hc c Hcc) as Hw. split; [done|].
    intros v i Hv Hi. destruct Happ as (_ & (_ & Hrec & _) & _). destruct Hw as (_ & Hcarry & _).
    rewrite (Hco _ _ Hv) in Hi. apply elem_of_computeDeviceIndices in Hi as (r & Hr & _ & Hi & _); [|done].
    by apply (Hcarry r).
  - by right.
Qed.

(** ** Lemmas: user data that arrives *)

Lemma traffic_parts b ti w t :
  parts_in b (ti, w) → traffic_kept (owned (channel_uids (w_tr2iox w))) (w_tr2iox w) t →
  parts_in b (ti, set_tr2iox t w) ∧ steady w (set_tr2iox t w) ∧ discovery (set_tr2iox t w) = discovery w.
Proof.
  intros (Hti & Hd & Hterm & (Ht & Hp & Hi)) Hk. cbn [fst snd] in *.
  destruct (traffic_wf _ _ Hk Ht Hp) as (Ht' & Hp' & Hch). pose proof Hk as (_ & Hdisc & _).
  assert (discovery (set_tr2iox t w) = discovery w) as Hdw by exact Hdisc.
  split; [|split; [|done]].
  - refine (conj Hti _). cbn [snd]. rewrite Hdw. split; [done|]. split; [done|]. exact (conj Ht' (conj Hp' Hi)).
  - split; [|by rewrite Hdw]. split; [|done].
    unfold channel_services. cbn [w_tr2iox set_tr2iox]. by rewrite Hch.
Qed.

(** ** Lemmas: chunks that are written *)

Lemma record_parts b ti w pm calls :
  parts_in b (ti, w) → PendingMessages.pending_wf pm →
  (∀ p u, PendingMessages.pending pm !! p = Some u →
     IoxToTransport.alive (w_iox2tr w) u ∧ p ∈ concat (IoxToTransport.i_upcoming (w_iox2tr w))) →
  parts_in b (ti, record_written pm calls w) ∧ steady w (record_written pm calls w).
Proof.
  intros (Hti & Hd & Hterm & (Ht & Hp & Hi & Hs & Hb)) Hpm Hpend. cbn [fst snd] in *. split; [|done].
  refine (conj Hti (conj Hd (conj Hterm (conj Ht (conj Hp (conj Hi (conj _ Hb))))))).
  destruct Hs as (Hw & Hsub & Hnd & Hlt & Hold & Hn0 & _ & _ & Hfw & _ & _ & _). cbn [snd record_written set_iox2tr w_iox2tr].
  unfold IoxToTransport.subscribers_wf, channel_uids, channels in *. cbn in *.
  refine (conj Hw (conj Hsub (conj Hnd (conj Hlt (conj _ (conj (Z.le_refl _) (conj eq_refl (conj eq_refl (conj Hfw (conj _ (conj _ _))))))))))).
  - by left.
  - rewrite Hb. by apply IoxToTransport.handed_back_refl.
  - intros p u Hpu. by apply (Hpend p u).
  - intros p u Hpu. by apply (Hpend p u).
Qed.

(** The pending messages of a gateway in order. *)
Lemma parts_pending b ti w :
  parts_in b (ti, w) → PendingMessages.pending_wf (IoxToTransport.i_pending (w_iox2tr w)) ∧
  ∀ p u, PendingMessages.pending (IoxToTransport.i_pending (w_iox2tr w)) !! p = Some u →
    IoxToTransport.alive (w_iox2tr w) u ∧ p ∈ concat (IoxToTransport.i_upcoming (w_iox2tr w)).
Proof.
  intros (_ & _ & _ & (_ & _ & _ & Hs & _)). cbn [snd] in *.
  destruct Hs as (_ & _ & _ & _ & _ & _ & _ & _ & _ & (Hwf & _) & Hall & Hal).
  split; [done|]. intros p u Hp. split; [by eapply Hal|by eapply Hall].
Qed.

Lemma written_parts b ti w ti' w' pm calls u c :
  parts_in b (ti, w) → transports_wf ti' → unchanged (discovery w) (rest w) w' →
  pending_grows (ch_userPayloadSize c) (chunk_userPayload (ch_chunk c)) u
    (IoxToTransport.i_pending (w_iox2tr w)) pm →
  IoxToTransport.alive (w_iox2tr w) u → writable c w →
  parts_in b (ti', record_written pm calls w') ∧ steady w (record_written pm calls w').
Proof.
  intros Hparts Hti' Hu [Hpm Hgrows] Hal (_ & _ & Hrep).
  destruct (parts_pending b ti w Hparts) as [_ Hpend].
  assert (w_iox2tr w' = w_iox2tr w) as Heq by (by destruct Hu as (_ & _ & [= _ ? _])).
  destruct (unchanged_parts b ti w ti' w' Hparts Hti' Hu) as [Hparts' Hst].
  destruct (record_parts b ti' w' pm calls Hparts' Hpm) as [Hrec Hst'].
  - rewrite Heq. intros p v Hpv. destruct (Hgrows p v Hpv) as [?|(-> & -> & Hwill)]; [by apply Hpend|].
    split; [done|by apply Hrep].
  - split; [done|]. by etransitivity.
Qed.

(** The devices a chunk is written to can be reached with it. *)
Lemma writable_devices c s (devices : list DeviceIndex_t) :
  chunk_wf c → (∀ i, i ∈ devices → carries c (di_type i)) →
  Forall (fun i => di_type i ∈ [PCIE; UDP; TCP] ∧ ∀ messageHash, is_u32 messageHash →
    sendable (di_type i) (datagramHeaderOf (getClassHash s) messageHash c)
      (chunk_headerBytes (ch_chunk c)) (chunk_payloadBytes (ch_chunk c))) devices.
Proof.
  intros Hc Hcarry. apply Forall_forall. intros i Hi.
  destruct (Hcarry i Hi) as (Ht & ? & ? & ? & ?). split; [done|]. intros messageHash Hm.
  by apply datagramHeaderOf_sendable.
Qed.

Lemma local_parts b subscriber taken ti w :
  parts_in b (ti, w) → survivable (LocalMessage subscriber taken) w →
  ∃ s', handle (LocalMessage subscriber taken) (ti, w) = Ok s' ∧ parts_in b s' ∧ steady w s'.2.
Proof.
  intros Hparts [Hsub Hc]. destruct (parts_pending b ti w Hparts) as [Hpm Hpend].
  pose proof Hparts as (Hti & Hd & Hterm & _). cbn [fst snd handle] in *.
  destruct taken as [c|].
  2:{ eexists. split; [done|]. by apply record_parts. }
  destruct (Hc c eq_refl) as [Hw Hcached]. unfold IoxToTransport.waitsetLoop_body.
  destruct (generateDeviceIndices_returns ti (discovery w) (originId c)
    (getClassHash (getServiceDescription subscriber)) Hd) as (devices & cache & -> & Hcache & Hdev). ostep.
  match goal with |- context [TransportForwarder.releaseOrWrite _ _ _ _ _ _ _ ?w1] => set (w1' := w1) end.
  assert (discovery w1' = set_cache cache (discovery w)) as Hdw by apply discovery_set.
  destruct (releaseOrWrite_returns (discovery w) (proj1 Hd) (rest w) (getServiceDescription subscriber)
    devices Iceoryx2TransportEndpoints subscriber c ti (IoxToTransport.i_pending (w_iox2tr w)) w1')
    as (ti' & pm & calls & w' & He & Hti' & Hu & Hg).
  - done.
  - unfold unchanged. rewrite Hdw. done.
  - done.
  - apply writable_devices; [apply Hw|]. intros i Hi. destruct (Hdev i Hi) as [(r & Hr & Hir)|(v & Hv & Hiv)].
    + destruct Hw as (_ & Hcarry & _). by apply (Hcarry r).
    + by apply (Hcached v).
  - rewrite He. ostep. eexists. split; [done|].
    apply (written_parts b ti w _ _ _ _ (getUid subscriber) c); try done. left. by apply list_elem_of_fmap_2.
Qed.

Lemma forwarded_parts b subscriber taken ti w :
  parts_in b (ti, w) → admissible (ForwardedMessage subscriber taken) w →
  ∃ s', handle (ForwardedMessage subscriber taken) (ti, w) = Ok s' ∧ parts_in b s' ∧ steady w s'.2.
Proof.
  intros Hparts [Hsub Hc]. destruct (parts_pending b ti w Hparts) as [Hpm Hpend].
  pose proof Hparts as (Hti & Hd & Hterm & Hs). cbn [fst snd handle] in *.
  destruct taken as [c|].
  2:{ eexists. split; [done|]. by apply record_parts. }
  destruct (Hc c eq_refl) as (Hw & source & f & Hsource). unfold TransportForwarder.waitsetLoop_body.
  rewrite Hsource. ostep.
  match goal with |- context [TransportForwarder.releaseOrWrite _ ?ds _ _ _ _ _ _] => set (devices := ds) end.
  destruct (releaseOrWrite_returns (discovery w) (proj1 Hd) (rest w) (getServiceDescription subscriber)
    devices ForwardedServiceSubscribers subscriber c ti (IoxToTransport.i_pending (w_iox2tr w)) w)
    as (ti' & pm & calls & w' & He & Hti' & Hu & Hg); [done| |done| |].
  - split_and!; try done; apply Hd.
  - apply writable_devices; [apply Hw|]. intros i (_ & r & (Hr & _ & Hi & _) & _)%elem_of_forwarding; [|apply Hd].
    destruct Hw as (_ & Hcarry & _). by apply (Hcarry r).
  - rewrite He. ostep. eexists. split; [done|].
    assert (parts_in b (ti', record_written pm calls w') ∧ steady w (record_written pm calls w')) as [Hrec Hst].
    { apply (written_parts b ti w _ _ _ _ (getUid subscriber) c); try done. by right. }
    destruct (traffic_parts b _ _ (TransportToIox.t_set_forwarder f (w_tr2iox w')) Hrec) as (Hp & Hst' & _).
    { apply (traffic_refl _ (TransportToIox.t_set_forwarder f (w_tr2iox w'))). }
    split; [exact Hp|]. exact (transitivity (R := steady) Hst Hst').
Qed.

Lemma sent_parts b p ti w :
  parts_in b (ti, w) → ∃ s', handle (BufferSent p) (ti, w) = Ok s' ∧ parts_in b s' ∧ steady w s'.2.
Proof.
  intros Hparts. destruct (parts_pending b ti w Hparts) as [Hpm Hpend]. cbn [handle].
  destruct (IoxToTransport.release_handed_back (IoxToTransport.i_pending (w_iox2tr w)) p Hpm)
    as (pm & calls & -> & (Hpm' & Hsub & _ & Hcalls) & _). ostep.
  assert (forallb (fun e => bool_decide (IoxToTransport.event_alive (w_iox2tr w) e)) calls = true) as ->.
  { apply forallb_forall. intros e He%list_elem_of_In. apply bool_decide_eq_true.
    apply Hcalls in He as (q & u & -> & Hq & _). by apply (Hpend q). }
  eexists. split; [done|]. apply record_parts; [done..|].
  intros q u Hq. apply (Hpend q u). by eapply lookup_weaken.
Qed.

(** The callbacks for user data and buffers. *)
Lemma traffic_event b e ti w :
  parts_in b (ti, w) → admissible e w →
  match e with Datagram _ _ _ _ _ | BufferNeeded _ _ _ _ | BufferReleased _ _ _ _ => True | _ => False end →
  ∃ s', handle e (ti, w) = Ok s' ∧ parts_in b s' ∧ steady w s'.2 ∧ s'.1 = ti ∧ discovery s'.2 = discovery w.
Proof.
  intros Hparts Hadm Hkind. pose proof Hparts as (_ & _ & _ & (Hch & _)). cbn [snd] in Hch.
  destruct e; try done; destruct Hadm as (t & He); cbn [handle];
    [|destruct t as [t buffer]|]; rewrite He; ostep; eexists; (split; [done|]);
    (enough (traffic_kept (owned (channel_uids (w_tr2iox w))) (w_tr2iox w) t) as Hk
      by (by destruct (traffic_parts b ti w t Hparts Hk) as (? & ? & ?)));
    [eapply receive_kept; [apply owned_uncounted|exact Hch|intros ???; apply owned_begins|exact He]
    |eapply loanBuffer_kept; [exact Hch|intros ???; apply owned_begins|exact He]
    |eapply releaseBuffer_kept; [apply owned_uncounted|exact Hch|exact He]].
Qed.

(** ** Lemmas: the events of the discovery manager *)

(** Apart from the publisher identifiers the discovery manager stays as it is. *)
Definition keeps_discovery (t t' : TransportToIox.T2I) : Prop :=
  set_uids [] (TransportToIox.t_discovery t') = set_uids [] (TransportToIox.t_discovery t).

#[export] Instance keeps_discovery_preorder : PreOrder keeps_discovery.
Proof. split; [by intros t|]. unfold keeps_discovery. intros t1 t2 t3 -> ->. done. Qed.

Lemma setupChannel_discovery service (t t' : TransportToIox.T2I) :
  TransportToIox.setupChannel service t = Ok t' → keeps_discovery t t'.
Proof.
  unfold TransportToIox.setupChannel, addChannel. cbn [make_endpoint TransportToIox.T2I_gateway].
  destruct (vm_emplace _ _ _ _) as [m emplaced]. destruct (negb emplaced); [by intros [= <-]|].
  by intros (e & _ & [= <-])%bind_Ok.
Qed.

Lemma deleteChannel_discovery service (t t' : TransportToIox.T2I) :
  TransportToIox.deleteChannel service t = Ok t' → keeps_discovery t t'.
Proof.
  unfold TransportToIox.deleteChannel, discardChannel. case_match; [by intros [= <-]|].
  intros (e & _ & (t1 & ([m calls] & _ & [= <-])%bind_Ok & [= <-])%bind_Ok)%bind_Ok. done.
Qed.

Lemma updateCallback_coherent services s s' :
  Discovery.update m_updateCallback services s = Ok s' → coherent s → coherent s'.
Proof.
  destruct s as [ti w]. cbn [Discovery.update m_updateCallback updateCallback].
  intros (t & (t1 & Hdel & Hset)%bind_Ok & (i & _ & [= <-])%bind_Ok)%bind_Ok. unfold coherent_in. cbn [fst snd].
  apply (for_each_rel keeps_discovery) in Hdel; [|exact deleteChannel_discovery].
  apply (for_each_rel keeps_discovery) in Hset; [|exact setupChannel_discovery].
  unfold keeps_discovery in Hdel, Hset.
  rewrite Hdel in Hset. unfold set_uids in Hset. injection Hset as Hg Hp Hr Hl Hs Ht.
  by apply coherent_fields.
Qed.

Lemma period_coherent checked now s s' : main_loop_body checked now s = Ok s' → coherent s → coherent s'.
Proof.
  destruct s as [ti w]. intros (t & ([m calls] & _ & [= <-])%bind_Ok & Hrest)%bind_Ok Hco.
  cbv beta iota zeta in Hrest.
  match type of Hrest with context [for_each _ _ (_, ?w1)] => set (w1' := w1) in * end.
  assert (coherent (ti, w1')) as Hco1 by exact Hco. clearbody w1'. clear Hco.
  case_match; [|by injection Hrest as <-]. apply bind_Ok in Hrest as ([ti' w'] & Hfor & [= <-]).
  enough (coherent (ti', w')) by done. revert Hfor Hco1. generalize (ti, w1').
  induction LOSSY_TRANSPORT_TYPES as [|t l IH]; intros s; [by intros [= <-]|].
  intros (s1 & Hr & Hrest)%bind_Ok Hs. apply (IH s1 Hrest). by eapply resend_coherent.
Qed.

Lemma ports_coherent sample s s' :
  readPortSubscriber m_updateCallback sample s = Ok s' → coherent s → coherent s'.
Proof.
  destruct s as [ti w]. unfold readPortSubscriber, sendIfChanged. cbn [modify snd].
  set (w1 := set_discovery _ w). intros Hread Hco.
  assert (coherent (ti, w1)) as Hco1 by exact Hco. case_match; [by injection Hread as <-|].
  apply bind_Ok in Hread as (s2 & Hu & Hread). apply updateCallback_coherent in Hu; [|done].
  apply generateDiscoveryInfo_coherent in Hu. destruct (generateDiscoveryInfo s2) as [i s3].
  case_match; [|by injection Hread as <-]. apply bind_Ok in Hread as ([ti4 w4] & Hsend & [= <-]).
  by apply sendRegistered_coherent in Hsend.
Qed.

Lemma local_coherent subscriber taken ti w s' :
  discovery_wf (discovery w) → coherent (ti, w) →
  handle (LocalMessage subscriber taken) (ti, w) = Ok s' → coherent s'.
Proof.
  intros Hd Hco Hh. cbn [handle] in Hh. apply bind_Ok in Hh as ([[[ti' pm] calls] w'] & Hbody & [= <-]).
  enough (coherent (ti', w')) by done. destruct taken as [c|]; [|by injection Hbody as <- _ _ <-].
  unfold IoxToTransport.waitsetLoop_body in Hbody.
  destruct (generateDeviceIndices_spec ti (discovery w) (originId c)
    (getClassHash (getServiceDescription subscriber)) Hd Hco) as (cache & He & _ & Hco1).
  rewrite He in Hbody. cbn [mbind Outcome_bind] in Hbody. apply releaseOrWrite_coherent in Hbody; [exact Hbody|].
  unfold coherent_in. cbn [fst snd]. by rewrite discovery_set.
Qed.

Lemma forwarded_coherent subscriber taken ti w s' :
  coherent (ti, w) → handle (ForwardedMessage subscriber taken) (ti, w) = Ok s' → coherent s'.
Proof.
  intros Hco Hh. cbn [handle] in Hh. apply bind_Ok in Hh as ([[[[f ti'] pm] calls] w'] & Hbody & [= <-]).
  enough (coherent (ti', w')) by done. destruct taken as [c|]; [|by injection Hbody as _ <- _ _ <-].
  unfold TransportForwarder.waitsetLoop_body in Hbody. apply bind_Ok in Hbody as ([source f'] & _ & Hbody).
  apply bind_Ok in Hbody as ([[[ti2 pm2] calls2] w2] & Hbody & [= _ <- _ _ <-]).
  by apply releaseOrWrite_coherent in Hbody.
Qed.

Lemma sent_coherent p ti w s' : coherent (ti, w) → handle (BufferSent p) (ti, w) = Ok s' → coherent s'.
Proof.
  intros Hco Hh. cbn [handle] in Hh. apply bind_Ok in Hh as ([pm calls] & _ & Hh).
  case_match; [|done]. by injection Hh as <-.
Qed.

(** A termination only removes a record. *)
Lemma termination_parts b mem size from ti w i n :
  parts_in b (ti, w) → deserialize_PubSubInfo mem size = Ok (i, n) → isTermination i = true →
  ∃ rs w', handle (DiscoveryMessage mem size from) (ti, w) = Ok (ti, w') ∧ parts_in b (ti, w') ∧
    w' = set_discovery (set_records rs (discovery w)) w ∧ rs `sublist_of` records (m_remoteState (discovery w)).
Proof.
  intros (Hti & (Hl & (Hlen & Hnd & Hall) & Hc) & Hterm & Hs) Hdes Hit. cbn [fst snd handle] in *.
  unfold receiveRemoteDiscoveryInfo. rewrite Hdes. ostep. rewrite Hit.
  set (rs := records (m_remoteState (discovery w))) in *.
  pose proof (find_if_le (fun r => bool_decide (gatewayHash (info r) = gatewayHash i)) rs) as Hle.
  fold (findRecord rs (gatewayHash i)) in Hle.
  destruct (Nat.eqb_spec (findRecord rs (gatewayHash i)) (length rs)) as [He|He]; cbn [negb].
  { exists rs, w. split; [done|]. split; [by split_and!|]. split; [|done].
    destruct w as [? ? [? ? ? [? ? [] ? ? ? ?] ? ? ? ?] ? ?]. done. }
  rewrite vector_erase_at by lia. set (rs' := delete (findRecord rs (gatewayHash i)) rs).
  assert (rs' `sublist_of` rs) as Hsub by apply sublist_delete.
  set (w' := set_discovery (set_records rs' (discovery w)) w). exists rs', w'. split; [done|]. split; [|done].
  destruct (rest_sound w w' (rest_set_discovery _ w) eq_refl Hs) as (Hs' & _).
  refine (conj Hti (conj _ (conj Hterm Hs'))). cbn [snd]. unfold w'. rewrite discovery_set.
  refine (conj Hl (conj _ Hc)). cbn. split; [|split].
  - etransitivity; [by apply sublist_length|exact Hlen].
  - unfold rs'. rewrite list_fmap_delete. by apply NoDup_delete.
  - by apply Forall_delete.
Qed.

(** The messages: what the sending threads and the transports do. *)
Definition message_event (e : GatewayEvent) : Prop :=
  match e with Period _ _ | PortChange _ _ | DiscoveryMessage _ _ _ => False | _ => True end.

(** They leave the channels and what is needed as it is, also while the gateway terminates. *)
Lemma message_steady b e ti w :
  message_event e → parts_in b (ti, w) → survivable e w →
  ∃ s', handle e (ti, w) = Ok s' ∧ parts_in b s' ∧ steady w s'.2.
Proof.
  intros Hkind Hparts Hsv. destruct e; try done.
  1: by apply local_parts.
  1: by apply forwarded_parts.
  4: by apply sent_parts.
  all: by destruct (traffic_event b _ ti w Hparts Hsv I) as (s' & ? & ? & ? & _); exists s'.
Qed.

(** The events other than those of the discovery manager. *)
Definition background (e : GatewayEvent) : Prop :=
  match e with PortChange _ _ | DiscoveryMessage _ _ _ => False | _ => True end.

Lemma background_steady e ti w :
  (MAX_TOPICS ≤ MAX_PUBLISHERS)%nat → background e → parts_wf (ti, w) → survivable e w →
  ∃ s', handle e (ti, w) = Ok s' ∧ parts_wf s' ∧ steady w s'.2.
Proof.
  intros Hpubs Hkind Hparts Hsv. destruct e; try done; [by apply period_parts|..]; by apply message_steady.
Qed.

Lemma background_coherent e ti w s' :
  background e → parts_wf (ti, w) → survivable e w → coherent (ti, w) →
  handle e (ti, w) = Ok s' → coherent s'.
Proof.
  intros Hkind Hparts Hsv Hco He. destruct e; try done.
  1: exact (period_coherent _ _ _ _ He Hco).
  1: exact (local_coherent _ _ _ _ _ (proj1 (proj2 Hparts)) Hco He).
  1: by eapply forwarded_coherent.
  4: by eapply sent_coherent.
  all: destruct (traffic_event false _ ti w Hparts Hsv I) as (s2 & He2 & _ & _ & Het & Hd);
    rewrite He in He2; injection He2 as <-; unfold coherent_in in *; cbn [fst snd] in *; by rewrite Het, Hd.
Qed.

Lemma handle_survives e ti w :
  (MAX_TOPICS ≤ MAX_PUBLISHERS)%nat → parts_wf (ti, w) → survivable e w →
  ∃ s', handle e (ti, w) = Ok s' ∧ parts_wf s'.
Proof.
  intros Hpubs Hparts Hsv. destruct e as [|sample loaned| | |mem size from| | | |].
  1,3,4,6-9: by match goal with |- context [handle ?e _] =>
    destruct (background_steady e ti w Hpubs I Hparts Hsv) as (s' & ? & ? & _) end; exists s'.
  - destruct Hsv as [Hv Hcan]. cbn [handle]. unfold Discovery.waitsetLoop_body.
    destruct (localStateUnchanged (m_localState (discovery w)) (newLocalState sample)) eqn:Hun.
    + pose proof (newLocalState_wf sample (discovery w) Hv (proj1 (proj1 (proj2 Hparts)))) as Hl.
      destruct (set_local_app w _ ti Hparts Hl) as (Hd1 & Ht1 & Hs1 & _).
      unfold readPortSubscriber. cbn [modify snd]. rewrite Hun. ostep. eexists. split; [done|].
      exact (conj (proj1 Hparts) (conj Hd1 (conj Ht1 Hs1))).
    + destruct (ports_changed Hpubs sample ti w Hparts) as (s' & He & Happ); [split; [done|]|done|].
      { rewrite Hun. by apply Hcan. }
      rewrite He. ostep. exists s'. split; [done|]. by apply app_parts.
  - destruct Hsv as [(i & n & Hdes & Hit)|Hadm].
    + destruct (termination_parts false mem size from ti w i n Hparts Hdes Hit) as (rs & w' & ? & ? & _). by exists (ti, w').
    + destruct (message_settles Hpubs mem size from ti w Hparts Hadm) as (s' & He & Happ).
      exists s'. split; [done|]. by apply app_parts.
Qed.

Lemma handle_running e ti w :
  (MAX_TOPICS ≤ MAX_PUBLISHERS)%nat →
  running_wf (ti, w) → admissible e w → ∃ s', handle e (ti, w) = Ok s' ∧ running_wf s'.
Proof.
  intros Hpubs Hrun Hadm. pose proof (admissible_survivable e ti w Hrun Hadm) as Hsv.
  pose proof Hrun as [Happ Hco]. pose proof (app_parts _ Happ) as Hparts.
  destruct e as [|sample loaned| | |mem size from| | | |].
  1,3,4,6-9: match goal with |- context [handle ?e _] =>
    destruct (background_steady e ti w Hpubs I Hparts Hsv) as ([ti' w'] & He & Hp & Hst);
    exists (ti', w'); split; [done|]; split; [by eapply steady_app|]; by apply (background_coherent e ti w) end.
  - destruct (ports_app Hpubs sample ti w Happ Hadm) as (s' & He & Happ'). exists s'.
    cbn [handle]. unfold Discovery.waitsetLoop_body. rewrite He. ostep. split; [done|]. split; [done|].
    by eapply ports_coherent.
  - destruct (message_app Hpubs mem size from ti w Happ Hadm) as (s' & He & Happ'). exists s'.
    split; [done|]. split; [done|]. destruct Hadm as (i & n & Hdes & Hterm & _).
    eapply (receive_coherent m_updateCallback); [|exact Hdes|exact Hterm|exact He].
    intros services s1 s2. apply updateCallback_coherent.
Qed.
End running.

(** ** Properties *)

Section properties.
Context `{IoxSpec} `{IoxPosh} `{TransportLayer}.

(** The states in which the gateway handles an event. *)
Inductive reachable : TransportInfo * World → Prop :=
  | reachable_start random hash config forwarded upcoming nextPort now ti s :
      transports_wf ti → is_u32 hash → Forall (fun u => u < nextPort) forwarded →
      initialize (ti, initial_world random hash config forwarded upcoming nextPort now) = Ok s →
      reachable s
  | reachable_event e s s' :
      reachable s → admissible e s.2 → handle e s = Ok s' → reachable s'.

Lemma start_running random hash config forwarded upcoming nextPort now ti s :
  transports_wf ti → is_u32 hash → Forall (fun u => u < nextPort) forwarded →
  initialize (ti, initial_world random hash config forwarded upcoming nextPort now) = Ok s → running_wf s.
Proof.
  intros Hti Hh Hf Hs.
  pose proof (initial_app ti random hash config forwarded upcoming nextPort now Hti Hh Hf) as Happ.
  split; [eapply initialize_app; [exact Happ|exact Hs]|].
  apply sendGenerated_coherent in Hs; [done|]. by apply coherent_empty.
Qed.

Lemma reachable_running s : (MAX_TOPICS ≤ MAX_PUBLISHERS)%nat → reachable s → running_wf s.
Proof.
  intros Hpubs. induction 1 as [random hash config forwarded upcoming nextPort now ti s Hti Hh Hf Hs|e s s' _ IH Hadm He].
  - by eapply start_running.
  - destruct s as [ti w]. destruct (handle_running e ti w Hpubs IH Hadm) as (s2 & He2 & Hrun). congruence.
Qed.


(** The states in which nothing worse than terminations of other gateways happened. *)
Inductive surviving : TransportInfo * World → Prop :=
  | surviving_start random hash config forwarded upcoming nextPort now ti s :
      transports_wf ti → is_u32 hash → Forall (fun u => u < nextPort) forwarded →
      initialize (ti, initial_world random hash config forwarded upcoming nextPort now) = Ok s →
      surviving s
  | surviving_event e s s' :
      surviving s → survivable e s.2 → handle e s = Ok s' → surviving s'.

Lemma surviving_parts s : (MAX_TOPICS ≤ MAX_PUBLISHERS)%nat → surviving s → parts_wf s.
Proof.
  intros Hpubs. induction 1 as [random hash config forwarded upcoming nextPort now ti s Hti Hh Hf Hs|e s s' _ IH Hsv He].
  - apply app_parts. by eapply (start_running random hash).
  - destruct s as [ti w]. destruct (handle_survives e ti w Hpubs IH Hsv) as (s2 & He2 & Hp). congruence.
Qed.

End properties.

(** ** Witnesses *)

Abbreviation L0 := (example_layer []).

Definition run_events (events : list GatewayEvent) (s : TransportInfo * World) : TransportInfo * World :=
  match for_each (@handle ref_iox TransportToIox.example_posh L0) events s with Ok s => s | _ => s end.

Lemma app_event_admissible : @admissible ref_iox TransportToIox.example_posh (example_layer []) app_event app_started.2.
Proof.
  eexists (mkPubSubInfo [svc Init.Byte.x41] 4 900 1 false), _. split; [vm_compute; reflexivity|].
  split; [done|]. split; [right; vm_compute; lia|].
  split_and!; try (apply no_collisions_Forall, (bool_decide_unpack _); vm_compute; exact I).
  intros p e (Hin & _). vm_compute in Hin. by apply elem_of_nil in Hin.
Qed.


(** The gateway of [app_event] says goodbye. *)
Definition goodbye_message : bytes :=
  match @serialize_PubSubInfo ref_iox (mkPubSubInfo [] 4 900 2 true) with Ok (data, _) => data | _ => [] end.

Definition goodbye_event : GatewayEvent :=
  DiscoveryMessage goodbye_message (length goodbye_message) (mkDeviceIndex UDP 0).

Definition left_alone : TransportInfo * World := run_events [goodbye_event] (run_events [app_event] app_started).

Lemma left_alone_surviving : @surviving ref_iox TransportToIox.example_posh L0 left_alone.
Proof.
  eapply (surviving_event goodbye_event (run_events [app_event] app_started)); [| |vm_compute; reflexivity].
  - eapply (surviving_event app_event app_started); [|right; exact app_event_admissible|vm_compute; reflexivity].
    eapply (surviving_start (fun n => Z.of_nat n) 800 (mkConfig NONE []) [] [] 10 0 app_ti);
      [exact app_ti_wf|split; simpl; lia|constructor|vm_compute; reflexivity].
  - left. eexists (mkPubSubInfo [] 4 900 2 true), _. split; [vm_compute; reflexivity|done].
Qed.

Lemma app_event_again : @admissible ref_iox TransportToIox.example_posh L0 app_event left_alone.2.
Proof.
  eexists (mkPubSubInfo [svc Init.Byte.x41] 4 900 1 false), _. split; [vm_compute; reflexivity|].
  split; [done|]. split; [right; vm_compute; lia|].
  split_and!; try (apply no_collisions_Forall, (bool_decide_unpack _); vm_compute; exact I).
  intros p e (_ & _ & He). vm_compute in He. done.
Qed.

