(* ===== verification/Threads.v ===== *)
(** * Threads: the updates of the channels are not atomic

    A change of the ports and the message of another gateway are handled on
    different threads (discovery.cpp): the waitset thread of the discovery
    manager runs [readPortSubscriber], the threads of the transports run
    [receiveRemoteDiscoveryInfo].  Both compute the needed channels while they
    hold the mutex of the discovery manager, but hand them to the update
    callback after they have released it; the callback locks the channels of
    one direction and then those of the other (gateway_app.cpp, gateway.inl).

    Here every critical section is a step of its own, and the steps of any
    number of threads are interleaved.  The other events of file GatewayApp run
    as a whole.  Uninterrupted, the steps are the operations of files Discovery
    and GatewayApp; interleaved, they keep every part in order, but the
    channels may be those of an older computation. *)

From stdpp Require Import base list gmap.
From S2P Require Import Prelude.
From S2P Require Import Iox.
From S2P Require Import Types.
From S2P Require Import VectorMap.
From S2P Require Import Serialization.
From S2P Require Import TransportInfo.
From S2P Require Import Startup.
From S2P Require Import Gateway.
From S2P Require Import Discovery.
From S2P Require Import DiscoveryFailure.
From S2P Require Import Chunks.
From S2P Require PendingMessages.
From S2P Require IoxToTransport.
From S2P Require TransportToIox.
From S2P Require Import GatewayApp.
From S2P Require Import GatewayRun.
From Stdlib Require Import Permutation.

Open Scope Z_scope.

#[local] Existing Instance TransportToIox.T2I_gateway.
#[local] Existing Instance IoxToTransport.I2T_gateway.

(** What a thread has to do.  A thread of the discovery manager's waitset gets
    [ReadPorts], one of a transport [Receive], and any of them [Event]; the
    others are what is left of the first two: the two halves of the update
    callback, [announce] telling whether [readPortSubscriber] called it, and the
    second critical section of [readPortSubscriber]. *)
Inductive Task :=
  | ReadPorts (sample : option PortIntrospection)
  | Receive (mem : bytes) (size : nat) (deviceIndex : DeviceIndex_t)
  | UpdateTr2iox (neededServices : list ServiceDescription) (announce : bool)
  | UpdateIox2tr (neededServices : list ServiceDescription) (announce : bool)
  | Announce
  | Event (e : GatewayEvent).

Abbreviation Thread := (list Task).

Section operations.
Context `{Iox} `{IoxPosh} `{TransportLayer}.
Abbreviation state := (TransportInfo * World)%type.

(** [readPortSubscriber] until it releases the mutex; [None] when it returns there. *)
Definition readPorts_locked (sample : option PortIntrospection) (s : state)
    : option (list ServiceDescription) * state :=
  let old := m_localState (discovery s.2) in
  let new := newLocalState sample in
  let s := modify (set_local new) s in
  (if localStateUnchanged old new then None else Some (updateNeededChannels (discovery s.2)), s).

(** [receiveRemoteDiscoveryInfo] until it releases the mutex: what it does
    without a callback.  A termination ends there. *)
Definition receive_locked (mem : bytes) (size : nat) (deviceIndex : DeviceIndex_t) (s : state)
    : Outcome (option (list ServiceDescription) * state) :=
  '(i, _) ← deserialize_PubSubInfo mem size;
  s ← receiveRemoteDiscoveryInfo None mem size deviceIndex s;
  Ok (if isTermination i then None else Some (updateNeededChannels (discovery s.2)), s).

(** One critical section, and what the thread goes on with. *)
Definition task_step (t : Task) (s : state) : Outcome (Thread * state) :=
  match t with
  | ReadPorts sample =>
      let '(needed, s) := readPorts_locked sample s in
      Ok (match needed with Some needed => [UpdateTr2iox needed true] | None => [] end, s)
  | Receive mem size deviceIndex =>
      '(needed, s) ← receive_locked mem size deviceIndex s;
      Ok (match needed with Some needed => [UpdateTr2iox needed false] | None => [] end, s)
  | UpdateTr2iox needed announce =>
      let '(ti, w) := s in
      tr2iox ← TransportToIox.updateChannels needed (w_tr2iox w);
      Ok ([UpdateIox2tr needed announce], (ti, set_tr2iox tr2iox w))
  | UpdateIox2tr needed announce =>
      let '(ti, w) := s in
      iox2tr ← IoxToTransport.updateChannels needed (w_iox2tr w);
      Ok (if announce then [Announce] else [], (ti, set_iox2tr iox2tr w))
  | Announce => s ← sendIfChanged s; Ok ([], s)
  | Event e => s ← handle e s; Ok ([], s)
  end.

(** Thread [i] runs one critical section. *)
Definition thread_turn (i : nat) (c : list Thread * state) : Outcome (list Thread * state) :=
  let '(threads, s) := c in
  match threads !! i with
  | Some (t :: later) => '(now, s) ← task_step t s; Ok (<[i := now ++ later]> threads, s)
  | _ => Ok (threads, s)
  end.

(** The threads take turns as [schedule] tells. *)
Definition run_threads (schedule : list nat) (c : list Thread * state) : Outcome (list Thread * state) :=
  for_each thread_turn schedule c.

(** The critical sections that are run. *)
Definition next_task (i : nat) (threads : list Thread) : option Task := threads !! i ≫= head.

Fixpoint steps_run (schedule : list nat) (c : list Thread * state) : list Task :=
  match schedule with
  | [] => []
  | i :: schedule =>
      option_list (next_task i c.1) ++
      match thread_turn i c with Ok c => steps_run schedule c | _ => [] end
  end.

(** The last channels handed to a direction, [before] when there were none. *)
Definition last_tr2iox (before : list ServiceDescription) (tasks : list Task) : list ServiceDescription :=
  default before (last (omap (fun t => match t with UpdateTr2iox l _ => Some l | _ => None end) tasks)).
Definition last_iox2tr (before : list ServiceDescription) (tasks : list Task) : list ServiceDescription :=
  default before (last (omap (fun t => match t with UpdateIox2tr l _ => Some l | _ => None end) tasks)).

(** The critical sections still ahead of a task. *)
Definition work (t : Task) : nat :=
  match t with
  | ReadPorts _ => 4
  | Receive _ _ _ => 3
  | UpdateTr2iox _ announce => if announce then 3 else 2
  | UpdateIox2tr _ announce => if announce then 2 else 1
  | Announce | Event _ => 1
  end.

Definition total_work (thread : Thread) : nat := sum_list (work <$> thread).
End operations.

(** ** Lemmas: work *)

Lemma total_work_cons t (l : Thread) : total_work (t :: l) = (work t + total_work l)%nat.
Proof. done. Qed.

Lemma total_work_app (l1 l2 : Thread) : total_work (l1 ++ l2) = (total_work l1 + total_work l2)%nat.
Proof. unfold total_work. induction l1 as [|t l1 IH]; csimpl; [done|]. lia. Qed.

Lemma total_work_zero (l : Thread) : total_work l = 0%nat → l = [].
Proof. destruct l as [|t l]; [done|]. rewrite total_work_cons. destruct t as [| |? []|? []| |]; simpl; lia. Qed.

(** The work of every thread shrinks with its turns. *)
Definition turns_taken (schedule : list nat) (threads threads' : list Thread) : Prop :=
  length threads' = length threads ∧
  ∀ i l l', threads !! i = Some l → threads' !! i = Some l' →
    (total_work l' ≤ total_work l - count_occ Nat.eq_dec schedule i)%nat.

Lemma turns_taken_nil threads : turns_taken [] threads threads.
Proof. split; [done|]. intros j l l' -> [= ->]. simpl. lia. Qed.

Lemma turns_taken_trans i schedule threads1 threads2 threads3 :
  turns_taken [i] threads1 threads2 → turns_taken schedule threads2 threads3 →
  turns_taken (i :: schedule) threads1 threads3.
Proof.
  intros [Hl1 Ht1] [Hl2 Ht2]. split; [congruence|]. intros j l l' Hl Hl'.
  destruct (lookup_lt_is_Some_2 threads2 j) as [l2 Hj]; [rewrite Hl1; by eapply lookup_lt_Some|].
  specialize (Ht1 j l l2 Hl Hj). specialize (Ht2 j l2 l' Hj Hl'). simpl in *.
  destruct (Nat.eq_dec i j); lia.
Qed.

Lemma turns_taken_done schedule threads threads' :
  turns_taken schedule threads threads' →
  (∀ i l, threads !! i = Some l → (total_work l ≤ count_occ Nat.eq_dec schedule i)%nat) →
  threads' = replicate (length threads) [].
Proof.
  intros [Hlen Hturns] Hwork. symmetry. apply replicate_as_Forall. split; [done|]. apply Forall_lookup.
  intros i l' Hl'. symmetry. apply total_work_zero.
  destruct (lookup_lt_is_Some_2 threads i) as [l Hl]; [rewrite <-Hlen; by eapply lookup_lt_Some|].
  specialize (Hturns i l l' Hl Hl'). specialize (Hwork i l Hl). lia.
Qed.

(** A thread without work, and one with. *)
Lemma idle_turn `{Iox} `{IoxPosh} `{TransportLayer} i threads (s : TransportInfo * World) :
  next_task i threads = None →
  thread_turn i (threads, s) = Ok (threads, s) ∧ turns_taken [i] threads threads.
Proof.
  unfold next_task, thread_turn. intros Hi. destruct (threads !! i) as [[|t later]|] eqn:He; try done.
  all: split; [done|]; split; [done|]; intros j l l' Hl Hl'; rewrite Hl in Hl'; injection Hl' as <-; simpl;
    destruct (Nat.eq_dec i j) as [->|]; [|lia]; rewrite He in Hl; simplify_eq; unfold total_work; simpl; lia.
Qed.

Lemma busy_turn i threads t later now :
  threads !! i = Some (t :: later) → (total_work now < work t)%nat →
  turns_taken [i] threads (<[i := now ++ later]> threads).
Proof.
  intros Hi Hless. split; [apply length_insert|]. intros j l l' Hl Hl'.
  destruct (decide (i = j)) as [->|Hne].
  - rewrite list_lookup_insert_eq in Hl' by (by eapply lookup_lt_Some). rewrite Hi in Hl.
    injection Hl as <-. injection Hl' as <-. rewrite total_work_cons, total_work_app.
    simpl. destruct (Nat.eq_dec j j); [lia|done].
  - rewrite list_lookup_insert_ne in Hl' by done. rewrite Hl in Hl'. injection Hl' as <-. simpl.
    destruct (Nat.eq_dec i j); [done|lia].
Qed.

Lemma next_task_cons i threads t :
  next_task i threads = Some t → ∃ later, threads !! i = Some (t :: later).
Proof. unfold next_task. destruct (threads !! i) as [[|t' later]|]; try done. intros [= ->]. by eexists. Qed.

(** ** The invariant *)

Section invariant.
Context `{Iox} `{IoxPosh} `{TransportLayer}.

(** A list that was computed has room and no repetitions. *)
Definition task_wf (t : Task) : Prop :=
  match t with
  | UpdateTr2iox needed _ | UpdateIox2tr needed _ => NoDup needed ∧ (length needed ≤ MAX_TOPICS)%nat
  | Event e => background e
  | _ => True
  end.

(** What a critical section relies on when it is run, as [survivable] for whole events. *)
Definition fits (t : Task) (w : World) : Prop :=
  match t with
  | ReadPorts sample => valid_sample sample
  | Receive mem size deviceIndex =>
      ∃ i n, deserialize_PubSubInfo mem size = Ok (i, n) ∧
        let rs := records (m_remoteState (discovery w)) in
        (isTermination i = true ∨ (findRecord rs (gatewayHash i) < length rs)%nat ∨ (length rs < MAX_DEVICE_COUNT)%nat)
  | UpdateTr2iox needed _ => no_collisions (needed ++ channel_services (w_tr2iox w))
  | UpdateIox2tr needed _ =>
      no_collisions (needed ++ channel_services (w_iox2tr w)) ∧
      ∀ p e, ¬ IoxToTransport.deleted_while_pending needed (w_iox2tr w) p e
  | Announce => True
  | Event e => survivable e w
  end.

(** Every critical section fits when it is run. *)
Fixpoint all_fit (schedule : list nat) (c : list Thread * (TransportInfo * World)) : Prop :=
  match schedule with
  | [] => True
  | i :: schedule =>
      (∀ t, next_task i c.1 = Some t → fits t c.2.2) ∧
      ∀ c', thread_turn i c = Ok c' → all_fit schedule c'
  end.
End invariant.

(** ** Lemmas: one critical section *)

Section steps.
Context `{IoxSpec} `{IoxPosh} `{TransportLayer} (enough_publishers : (MAX_TOPICS ≤ MAX_PUBLISHERS)%nat).
Implicit Types (w : World) (ti : TransportInfo) (threads : list Thread).

Lemma needed_wf d : NoDup (updateNeededChannels d) ∧ (length (updateNeededChannels d) ≤ MAX_TOPICS)%nat.
Proof.
  rewrite updateNeededChannels_pushUnique. split; [apply pushUnique_NoDup; constructor|].
  apply pushUnique_length. simpl. lia.
Qed.

(** A termination does not reach the callback. *)
Lemma receive_termination_callback update update' mem size from (s : TransportInfo * World) i n :
  deserialize_PubSubInfo mem size = Ok (i, n) → isTermination i = true →
  receiveRemoteDiscoveryInfo update mem size from s = receiveRemoteDiscoveryInfo update' mem size from s.
Proof. intros Hdes Hit. unfold receiveRemoteDiscoveryInfo. rewrite Hdes. ostep. by rewrite Hit. Qed.

(** What a critical section does to the channels of both directions. *)
Definition channels_follow (tasks : list Task) w w' : Prop :=
  channel_services (w_tr2iox w') ≡ₚ last_tr2iox (channel_services (w_tr2iox w)) tasks ∧
  channel_services (w_iox2tr w') ≡ₚ last_iox2tr (channel_services (w_iox2tr w)) tasks.

Lemma same_channels_follow t w w' :
  same_channels w w' → match t with UpdateTr2iox _ _ | UpdateIox2tr _ _ => False | _ => True end →
  channels_follow [t] w w'.
Proof. unfold channels_follow. intros [-> ->]. by destruct t. Qed.

(** What it does to the rest of the gateway, and what it leaves to do. *)
Definition leaves (t : Task) (now : Thread) w w' : Prop :=
  let d := discovery w in let d' := discovery w' in
  match t with
  | ReadPorts sample =>
      m_localState d' = newLocalState sample ∧ m_remoteState d' = m_remoteState d ∧ w_iox2tr w' = w_iox2tr w ∧
      (now = [] ∨ now = [UpdateTr2iox (updateNeededChannels d') true])
  | Receive mem size from =>
      m_localState d' = m_localState d ∧ w_iox2tr w' = w_iox2tr w ∧
      ((now = [] ∧ records (m_remoteState d') `sublist_of` records (m_remoteState d)) ∨
       (now = [UpdateTr2iox (updateNeededChannels d') false] ∧ ∃ i n, deserialize_PubSubInfo mem size = Ok (i, n) ∧
          records (m_remoteState d') = upsert (records (m_remoteState d)) i from))
  | UpdateTr2iox needed announce =>
      same_discovery d d' ∧ w_iox2tr w' = w_iox2tr w ∧ now = [UpdateIox2tr needed announce]
  | UpdateIox2tr _ announce =>
      d' = d ∧ now = (if announce then [Announce] else []) ∧
      PendingMessages.pending (IoxToTransport.i_pending (w_iox2tr w')) ⊆
        PendingMessages.pending (IoxToTransport.i_pending (w_iox2tr w))
  | Announce =>
      m_localState d' = m_localState d ∧ records (m_remoteState d') = records (m_remoteState d) ∧
      w_iox2tr w' = w_iox2tr w ∧ now = []
  | Event _ => now = []
  end.

Definition step_spec (b : bool) (t : Task) ti w : Prop :=
  ∃ now s', task_step t (ti, w) = Ok (now, s') ∧ parts_in b s' ∧ Forall task_wf now ∧
    (total_work now < work t)%nat ∧ channels_follow [t] w s'.2 ∧ leaves t now w s'.2.

Lemma read_ports_step sample ti w :
  parts_wf (ti, w) → valid_sample sample → step_spec false (ReadPorts sample) ti w.
Proof.
  intros Hparts Hv. pose proof Hparts as (Hti & Hd & _).
  pose proof (newLocalState_wf sample (discovery w) Hv (proj1 Hd)) as Hl.
  destruct (set_local_app w _ ti Hparts Hl) as (Hd1 & Ht1 & Hs1 & Hch & _).
  eexists _, _. split; [cbn [task_step readPorts_locked modify]; reflexivity|]. cbn [snd].
  split; [by refine (conj Hti (conj Hd1 (conj Ht1 Hs1)))|].
  split; [|split; [|split; [by apply same_channels_follow|]]].
  - destruct (localStateUnchanged _ _); [apply Forall_nil_2|apply Forall_singleton, needed_wf].
  - destruct (localStateUnchanged _ _); unfold total_work; simpl; lia.
  - unfold leaves. rewrite discovery_set. do 3 (split; [done|]).
    destruct (localStateUnchanged _ _); [by left|by right].
Qed.

Lemma forget_step b mem size from ti w i n :
  parts_in b (ti, w) → deserialize_PubSubInfo mem size = Ok (i, n) → isTermination i = true →
  step_spec b (Receive mem size from) ti w ∧
  ∃ w', task_step (Receive mem size from) (ti, w) = Ok ([], (ti, w')) ∧ net w' = net w.
Proof.
  intros Hparts Hdes Hit. pose proof Hparts as (_ & _ & _ & Hs). cbn [snd] in Hs.
  destruct (termination_parts b mem size from ti w i n Hparts Hdes Hit) as (rs & w' & He & Hp & Hw & Hsub).
  cbn [handle] in He. rewrite (receive_termination_callback _ None mem size from _ i n Hdes Hit) in He.
  assert (task_step (Receive mem size from) (ti, w) = Ok ([], (ti, w'))) as Hstep.
  { cbn [task_step]. unfold receive_locked. rewrite Hdes. ostep. rewrite He, Hit. done. }
  split; [|exists w'; split; [done|rewrite Hw; apply net_set_discovery]].
  exists [], (ti, w'). split; [exact Hstep|]. split_and!; [done|apply Forall_nil_2|unfold total_work; simpl; lia| |].
  - apply same_channels_follow; [|done]. rewrite Hw. by apply (rest_sound w); [apply rest_set_discovery| |].
  - unfold leaves. rewrite Hw. cbn [snd]. rewrite discovery_set. do 2 (split; [done|]). by left.
Qed.

Lemma receive_step mem size from ti w :
  parts_wf (ti, w) → fits (Receive mem size from) w → step_spec false (Receive mem size from) ti w.
Proof.
  intros Hparts (i & n & Hdes & Hroom). pose proof Hparts as (Hti & Hd & Hterm & Hs). cbn [fst snd] in *.
  destruct (isTermination i) eqn:Hit; [by eapply forget_step|].
  unfold step_spec. cbn [task_step]. unfold receive_locked. rewrite Hdes. ostep. rewrite Hit.
  destruct Hroom as [?|Hroom]; [done|].
  destruct (receive_spec None mem size from ti w i n Hti Hd Hdes Hit Hroom)
    as (ti1 & w1 & Hti1 & Hd1 & -> & Hrec & _ & Hloc & Huids & Hflag & Hrest & _).
  destruct (rest_sound w w1 Hrest Huids Hs) as (Hs1 & Hch & _).
  unfold Discovery.update. ostep. eexists _, _. split; [reflexivity|]. split.
  { refine (conj Hti1 (conj Hd1 (conj _ Hs1))). cbn [snd]. by rewrite Hflag. }
  split; [apply Forall_singleton, needed_wf|].
  split; [unfold total_work; simpl; lia|]. split; [by apply same_channels_follow|].
  split; [done|]. split; [by injection Hrest|]. right. split; [done|]. by exists i, n.
Qed.

Lemma update_tr2iox_step b needed announce ti w :
  parts_in b (ti, w) → task_wf (UpdateTr2iox needed announce) → fits (UpdateTr2iox needed announce) w →
  step_spec b (UpdateTr2iox needed announce) ti w.
Proof.
  intros (Hti & Hd & Hterm & (Ht & Hp & Hi)) [Hnd Hl] Hc. cbn [fst snd fits] in *.
  destruct (update_tr2iox_spec enough_publishers needed w) as (t & He & Ht' & Hp' & Hserv & Hd'); [done..|].
  unfold step_spec. cbn [task_step]. rewrite He. ostep. eexists _, _. split; [reflexivity|].
  symmetry in Hd'. destruct (same_discovery_spec _ _ Hd') as (_ & _ & Hflag & Hwf & _). split.
  { refine (conj Hti (conj (Hwf Hd) (conj _ (conj Ht' (conj Hp' Hi))))). cbn [snd]. by rewrite <-Hterm, Hflag. }
  split; [by apply Forall_singleton|].
  split; [unfold total_work; simpl; destruct announce; lia|]. split; [by split|].
  by unfold leaves.
Qed.

Lemma update_iox2tr_step b needed announce ti w :
  parts_in b (ti, w) → task_wf (UpdateIox2tr needed announce) → fits (UpdateIox2tr needed announce) w →
  step_spec b (UpdateIox2tr needed announce) ti w.
Proof.
  intros (Hti & Hd & Hterm & (Ht & Hp & Hi & Hs & Hb)) [Hnd Hl] [Hc Hnone]. cbn [fst snd] in *.
  destruct (update_iox2tr_spec needed w) as (i & He & Hi' & Hs' & Hb' & Hserv & Hpend); [done..|].
  unfold step_spec. cbn [task_step]. rewrite He. ostep. eexists _, _. split; [reflexivity|].
  split; [by repeat (split; [done|])|].
  split; [destruct announce; [by apply Forall_singleton|apply Forall_nil_2]|].
  split; [unfold total_work; destruct announce; simpl; lia|]. split; [by split|].
  by unfold leaves.
Qed.

Lemma task_step_spec t ti w : parts_wf (ti, w) → task_wf t → fits t w → step_spec false t ti w.
Proof.
  intros Hparts Hwf Hfit. destruct t as [sample|mem size from|needed b|needed b| |e].
  - by apply read_ports_step.
  - by apply receive_step.
  - by apply update_tr2iox_step.
  - by apply update_iox2tr_step.
  - destruct (announce_parts enough_publishers ti w Hparts) as (s' & He & Hp & [Hch _] & Hleft). unfold step_spec.
    cbn [task_step]. rewrite He. ostep. eexists _, _. split; [reflexivity|].
    split_and!; [done|apply Forall_nil_2|unfold total_work; simpl; lia|by apply same_channels_follow|].
    destruct Hleft as (? & ? & [= _ ? _]). by unfold leaves.
  - destruct (background_steady e ti w enough_publishers Hwf Hparts Hfit) as (s' & He & Hp & [Hch _]).
    unfold step_spec. cbn [task_step]. rewrite He. ostep. eexists _, _. split; [reflexivity|].
    split_and!; [done|apply Forall_nil_2|unfold total_work; simpl; lia|by apply same_channels_follow|done].
Qed.

(** ** Lemmas: any number of turns *)

Lemma channels_follow_nil w : channels_follow [] w w.
Proof. by split. Qed.

Lemma last_tr2iox_app before l1 l2 : last_tr2iox before (l1 ++ l2) = last_tr2iox (last_tr2iox before l1) l2.
Proof. unfold last_tr2iox. rewrite omap_app, last_app. by destruct (last (omap _ l2)). Qed.

Lemma last_iox2tr_app before l1 l2 : last_iox2tr before (l1 ++ l2) = last_iox2tr (last_iox2tr before l1) l2.
Proof. unfold last_iox2tr. rewrite omap_app, last_app. by destruct (last (omap _ l2)). Qed.

Lemma last_perm before before' l :
  before ≡ₚ before' → last_tr2iox before l ≡ₚ last_tr2iox before' l ∧ last_iox2tr before l ≡ₚ last_iox2tr before' l.
Proof. intros He. unfold last_tr2iox, last_iox2tr. by destruct (last _), (last _). Qed.

Lemma channels_follow_app l1 l2 w1 w2 w3 :
  channels_follow l1 w1 w2 → channels_follow l2 w2 w3 → channels_follow (l1 ++ l2) w1 w3.
Proof.
  unfold channels_follow. rewrite last_tr2iox_app, last_iox2tr_app. intros [E1 E2] [-> ->].
  split; by apply last_perm.
Qed.

Definition threads_wf threads : Prop := Forall (Forall task_wf) threads.

Lemma thread_turn_spec i threads ti w :
  parts_wf (ti, w) → threads_wf threads → (∀ t, next_task i threads = Some t → fits t w) →
  ∃ threads' s', thread_turn i (threads, (ti, w)) = Ok (threads', s') ∧ parts_wf s' ∧ threads_wf threads' ∧
    turns_taken [i] threads threads' ∧ channels_follow (option_list (next_task i threads)) w s'.2.
Proof.
  intros Hparts Hwf Hfit. destruct (next_task i threads) as [t|] eqn:Hn.
  2:{ destruct (idle_turn i threads (ti, w) Hn) as [He Ht]. exists threads, (ti, w).
      do 4 (split; [done|]). apply channels_follow_nil. }
  destruct (next_task_cons i threads t Hn) as [later Hi].
  pose proof (proj1 (Forall_lookup _ _) Hwf i _ Hi) as [Ht Hlater]%Forall_cons.
  destruct (task_step_spec t ti w Hparts Ht (Hfit t eq_refl)) as (now & s' & He & Hp & Hnow & Hless & Hch & _).
  unfold thread_turn. rewrite Hi, He. ostep. eexists _, s'. split; [reflexivity|]. split; [done|].
  split; [apply Forall_insert; [done|by apply Forall_app]|]. split; [by apply (busy_turn i threads t)|exact Hch].
Qed.

Lemma run_threads_spec schedule threads ti w :
  parts_wf (ti, w) → threads_wf threads → all_fit schedule (threads, (ti, w)) →
  ∃ threads' s', run_threads schedule (threads, (ti, w)) = Ok (threads', s') ∧ parts_wf s' ∧ threads_wf threads' ∧
    turns_taken schedule threads threads' ∧ channels_follow (steps_run schedule (threads, (ti, w))) w s'.2.
Proof.
  revert threads ti w. induction schedule as [|i schedule IH]; intros threads ti w Hparts Hwf.
  { intros _. exists threads, (ti, w). do 3 (split; [done|]). split; [apply turns_taken_nil|apply channels_follow_nil]. }
  intros [Hfit Hrest].
  destruct (thread_turn_spec i threads ti w Hparts Hwf Hfit) as (threads1 & [ti1 w1] & He & Hp & Hwf1 & Ht & Hch).
  specialize (Hrest _ He). destruct (IH threads1 ti1 w1 Hp Hwf1 Hrest) as (threads2 & s2 & He2 & Hp2 & Hwf2 & Ht2 & Hch2).
  exists threads2, s2. unfold run_threads in *. cbn [for_each steps_run fst]. rewrite He. ostep.
  split; [exact He2|]. split; [done|]. split; [done|].
  split; [by eapply turns_taken_trans|by eapply channels_follow_app].
Qed.
End steps.

(** ** Lemmas: when every critical section fits *)

(** While no message is pending, it is enough that the services and the gateways
    the threads learn of are among given ones: [U] without collisions, and [G],
    for which there is room. *)
Section quiet.
Context `{IoxSpec} `{IoxPosh} `{TransportLayer} (enough_publishers : (MAX_TOPICS ≤ MAX_PUBLISHERS)%nat).
Context (U : list ServiceDescription) (G : list hash_t).
Context (U_apart : no_collisions U) (G_room : (length G ≤ MAX_DEVICE_COUNT)%nat).
Implicit Types (w : World) (ti : TransportInfo) (threads : list Thread) (l : list ServiceDescription).

Definition known_local (d : LocalState_t) : Prop := localSubscribers d ⊆ U ∧ userPublishers d ⊆ U.
Definition known_info (i : PubSubInfo_t) : Prop := gatewayHash i ∈ G ∧ userSubscribers i ⊆ U.

Definition known (t : Task) : Prop :=
  match t with
  | ReadPorts sample => valid_sample sample ∧ known_local (newLocalState sample)
  | Receive mem size _ =>
      ∃ i n, deserialize_PubSubInfo mem size = Ok (i, n) ∧ known_info i
  | UpdateTr2iox needed _ | UpdateIox2tr needed _ => needed ⊆ U
  | Announce => True
  | Event _ => False
  end.

Definition quiet w : Prop :=
  channel_services (w_tr2iox w) ⊆ U ∧ channel_services (w_iox2tr w) ⊆ U ∧ known_local (m_localState (discovery w)) ∧
  Forall (fun r => known_info (info r)) (records (m_remoteState (discovery w))) ∧
  ∀ p, PendingMessages.pending (IoxToTransport.i_pending (w_iox2tr w)) !! p = None.

Lemma known_needed d :
  known_local (m_localState d) → Forall (fun r => known_info (info r)) (records (m_remoteState d)) →
  updateNeededChannels d ⊆ U.
Proof.
  intros [Hsub Hpub] Hrec s. rewrite updateNeededChannels_pushUnique. intros [?%elem_of_nil|Hs]%pushUnique_elem; [done|].
  unfold services_in_use in Hs. rewrite !elem_of_app in Hs. destruct Hs as [?|[?|Hs]]; [by apply Hsub|by apply Hpub|].
  apply list_elem_of_In, in_concat in Hs as (l & (r & -> & Hr)%list_elem_of_In%list_elem_of_fmap & Hs%list_elem_of_In).
  by apply (proj1 (Forall_forall _ _) Hrec r Hr).
Qed.

Lemma known_upsert rs i from :
  Forall (fun r => known_info (info r)) rs → known_info i → Forall (fun r => known_info (info r)) (upsert rs i from).
Proof.
  intros Hrs Hi. unfold upsert. case_decide.
  - apply Forall_lookup. intros j r. destruct (decide (j = findRecord rs (gatewayHash i))) as [->|Hne].
    + rewrite list_lookup_alter_eq. by intros (r0 & _ & ->)%fmap_Some.
    + rewrite list_lookup_alter_ne by done. by apply (proj1 (Forall_lookup _ _) Hrs).
  - apply Forall_app. split; [done|]. by apply Forall_singleton.
Qed.

(** Gateways that are known have room. *)
Lemma known_room rs i :
  records_wf rs → Forall (fun r => known_info (info r)) rs → known_info i →
  (findRecord rs (gatewayHash i) < length rs)%nat ∨ (length rs < MAX_DEVICE_COUNT)%nat.
Proof.
  intros (_ & Hnd & _) Hrs [Hi _].
  destruct (decide (findRecord rs (gatewayHash i) < length rs)%nat) as [|Hn]; [by left|right].
  apply findRecord_absent in Hn.
  enough (gatewayHash i :: ((fun r => gatewayHash (info r)) <$> rs) ⊆+ G) as Hsub.
  { apply submseteq_length in Hsub. simpl in Hsub. rewrite length_fmap in Hsub. lia. }
  apply NoDup_submseteq; [by constructor|]. intros h [->|(r & -> & Hr)%list_elem_of_fmap]%elem_of_cons; [done|].
  by apply (proj1 (Forall_forall _ _) Hrs r Hr).
Qed.

Lemma known_collisions l l' : l ⊆ U → l' ⊆ U → no_collisions (l ++ l').
Proof. intros Hl Hl' a b Ha Hb. apply U_apart; [set_solver|set_solver]. Qed.

Lemma quiet_fits t ti w : parts_wf (ti, w) → quiet w → known t → fits t w.
Proof.
  intros (_ & Hd & _) (Ht & Hi & _ & Hrec & Hp) Hk. cbn [fst snd] in *. destruct t; cbn [known fits] in *; try done.
  - by destruct Hk.
  - destruct Hk as (i & n & Hdes & Hki). exists i, n. split; [done|]. right. apply known_room; [apply Hd|done..].
  - by apply known_collisions.
  - split; [by apply known_collisions|]. intros p e (_ & _ & He). by rewrite Hp in He.
Qed.

Lemma follow_known tasks w w' :
  channels_follow tasks w w' → quiet w → Forall known tasks →
  channel_services (w_tr2iox w') ⊆ U ∧ channel_services (w_iox2tr w') ⊆ U.
Proof.
  intros [Et Ei] (Ht & Hi & _) Hk. split; intros s; [rewrite Et|rewrite Ei]; unfold last_tr2iox, last_iox2tr;
    (destruct (last _) as [l|] eqn:Hl; simpl; [|by auto]); apply last_Some_elem_of in Hl;
    apply list_elem_of_omap in Hl as (t & Hin & Hl); apply (proj1 (Forall_forall _ _) Hk) in Hin;
    destruct t; try done; injection Hl as <-; apply Hin.
Qed.

Lemma quiet_step t now ti w w' :
  quiet w → known t → channels_follow [t] w w' → leaves t now w w' → quiet w' ∧ Forall known now.
Proof.
  intros Hq Hk Hf Hl.
  destruct (follow_known [t] w w' Hf Hq) as [Ht' Hi']; [by apply Forall_singleton|].
  destruct Hq as (_ & _ & Hloc & Hrec & Hp).
  enough (known_local (m_localState (discovery w')) ∧
    Forall (fun r => known_info (info r)) (records (m_remoteState (discovery w'))) ∧
    (∀ p, PendingMessages.pending (IoxToTransport.i_pending (w_iox2tr w')) !! p = None) ∧
    (now = [] ∨ now = [Announce] ∨ (∃ b, now = [UpdateTr2iox (updateNeededChannels (discovery w')) b]) ∨
     ∃ l b, l ⊆ U ∧ now = [UpdateIox2tr l b])) as (Hloc' & Hrec' & Hp' & Hnow).
  { split; [done|]. destruct Hnow as [->|[->|[[b ->]|(l & b & ? & ->)]]]; apply Forall_nil_2 || apply Forall_singleton; try done.
    by apply known_needed. }
  destruct t as [sample|mem size from|l b|l b| |]; cbn [known leaves] in *; try done.
  - destruct Hk as [_ Hk]. destruct Hl as (-> & -> & -> & [->| ->]); eauto 10.
  - destruct Hk as (i & n & Hdes & Hki). destruct Hl as (-> & -> & [[-> Hsub]|[-> (i' & n' & Hdes' & ->)]]).
    + split; [done|]. split; [rewrite Forall_forall in Hrec |- *; intros r Hr; apply Hrec; by eapply elem_of_sublist|]. eauto 10.
    + rewrite Hdes in Hdes'. injection Hdes' as <- _. split; [done|]. split; [by apply known_upsert|]. eauto 10.
  - destruct Hl as (Hsame & -> & ->). destruct (same_discovery_spec _ _ Hsame) as (<- & <- & _). eauto 10.
  - destruct Hl as (-> & -> & Hsub). do 2 (split; [done|]). split; [|destruct b; auto].
    intros p. apply (lookup_weaken_None _ _ _ (Hp p) Hsub).
  - destruct Hl as (-> & -> & -> & ->). auto.
Qed.

(** One turn of a thread that knows its services. *)
Lemma quiet_turn i t later threads ti w :
  parts_wf (ti, w) → threads_wf threads → quiet w → Forall (Forall known) threads →
  threads !! i = Some (t :: later) →
  ∃ now ti' w', thread_turn i (threads, (ti, w)) = Ok (<[i := now ++ later]> threads, (ti', w')) ∧
    parts_wf (ti', w') ∧ threads_wf (<[i := now ++ later]> threads) ∧ quiet w' ∧
    Forall (Forall known) (<[i := now ++ later]> threads) ∧ fits t w ∧ channels_follow [t] w w' ∧ leaves t now w w'.
Proof.
  intros Hparts Hwf Hq Hk Hi.
  pose proof (proj1 (Forall_lookup _ _) Hwf i _ Hi) as [Ht Hlater]%Forall_cons.
  pose proof (proj1 (Forall_lookup _ _) Hk i _ Hi) as [Hkt Hklater]%Forall_cons.
  pose proof (quiet_fits t ti w Hparts Hq Hkt) as Hfit.
  destruct (task_step_spec enough_publishers t ti w Hparts Ht Hfit) as (now & [ti' w'] & He & Hp & Hnow & _ & Hf & Hl).
  destruct (quiet_step t now ti w w' Hq Hkt Hf Hl) as [Hq' Hknow].
  exists now, ti', w'. unfold thread_turn. rewrite Hi, He. split; [done|]. split; [done|].
  split; [apply Forall_insert; [done|by apply Forall_app]|]. split; [done|].
  split; [apply Forall_insert; [done|by apply Forall_app]|]. done.
Qed.

Lemma quiet_all_fit schedule threads ti w :
  parts_wf (ti, w) → threads_wf threads → quiet w → Forall (Forall known) threads →
  all_fit schedule (threads, (ti, w)).
Proof.
  revert threads ti w. induction schedule as [|i schedule IH]; intros threads ti w Hparts Hwf Hq Hk; [done|].
  cbn [all_fit fst snd]. destruct (next_task i threads) as [t|] eqn:Hn.
  2:{ split; [done|]. intros c' Hc. rewrite (proj1 (idle_turn i threads (ti, w) Hn)) in Hc. injection Hc as <-.
      by apply IH. }
  destruct (next_task_cons i threads t Hn) as [later Hi].
  destruct (quiet_turn i t later threads ti w Hparts Hwf Hq Hk Hi)
    as (now & ti' & w' & He & Hp & Hwf' & Hq' & Hk' & Hfit & _).
  split; [by intros ? [= <-]|]. intros c' Hc. rewrite He in Hc. injection Hc as <-.
  by apply IH.
Qed.

(** What is left of a task of the update callback, and the order in which a
    schedule runs such tasks. *)
Definition advance (t : Task) : Thread :=
  match t with
  | UpdateTr2iox l b => [UpdateIox2tr l b]
  | UpdateIox2tr _ b => if b then [Announce] else []
  | _ => []
  end.

Fixpoint plan (schedule : list nat) threads : list Thread * list Task :=
  match schedule with
  | [] => (threads, [])
  | i :: schedule =>
      match threads !! i with
      | Some (t :: later) =>
          let '(threads, tasks) := plan schedule (<[i := advance t ++ later]> threads) in (threads, t :: tasks)
      | _ => plan schedule threads
      end
  end.

Definition handed (t : Task) : Prop :=
  match t with UpdateTr2iox _ _ | UpdateIox2tr _ _ | Announce => True | _ => False end.

Lemma advance_leaves t now w w' :
  handed t → leaves t now w w' →
  now = advance t ∧ Forall handed now ∧ updateNeededChannels (discovery w') = updateNeededChannels (discovery w).
Proof.
  destruct t as [| |l b|l b| |]; cbn [handed leaves advance]; intros Ht; try done.
  - intros (Hsame & _ & ->). destruct (same_discovery_spec _ _ Hsame) as (_ & _ & _ & _ & ->).
    split_and!; [done|by apply Forall_singleton|done].
  - intros (-> & -> & _). split_and!; [done|destruct b; [by apply Forall_singleton|apply Forall_nil_2]|done].
  - intros (Hl & Hr & _ & ->). split_and!; [done|apply Forall_nil_2|by apply needed_same].
Qed.

Lemma planned schedule threads ti w :
  parts_wf (ti, w) → threads_wf threads → quiet w → Forall (Forall known) threads → Forall (Forall handed) threads →
  ∃ ti' w', run_threads schedule (threads, (ti, w)) = Ok ((plan schedule threads).1, (ti', w')) ∧
    parts_wf (ti', w') ∧ channels_follow (plan schedule threads).2 w w' ∧
    updateNeededChannels (discovery w') = updateNeededChannels (discovery w).
Proof.
  revert threads ti w. induction schedule as [|i schedule IH]; intros threads ti w Hparts Hwf Hq Hk Hh.
  { exists ti, w. split_and!; [done..|apply channels_follow_nil|done]. }
  cbn [plan]. destruct (threads !! i) as [[|t later]|] eqn:Hi.
  1,3: destruct (IH threads ti w Hparts Hwf Hq Hk Hh) as (ti' & w' & He & ?); exists ti', w'; split; [|done];
    unfold run_threads in *; cbn [for_each]; rewrite (proj1 (idle_turn i threads (ti, w) ltac:(unfold next_task; by rewrite Hi)));
    exact He.
  destruct (quiet_turn i t later threads ti w Hparts Hwf Hq Hk Hi)
    as (now & ti1 & w1 & He & Hp & Hwf1 & Hq1 & Hk1 & _ & Hf & Hl).
  pose proof (proj1 (Forall_lookup _ _) Hh i _ Hi) as [Ht Hlater]%Forall_cons.
  destruct (advance_leaves t now w w1 Ht Hl) as (-> & Hadv & Hneed).
  destruct (IH _ ti1 w1 Hp Hwf1 Hq1 Hk1) as (ti' & w' & He' & Hp' & Hf' & Hneed').
  { apply Forall_insert; [done|]. by apply Forall_app. }
  exists ti', w'. destruct (plan schedule _) as [threads' tasks]. cbn [fst snd] in *.
  split; [unfold run_threads in *; cbn [for_each]; rewrite He; exact He'|]. split; [done|].
  split; [|congruence]. exact (channels_follow_app [t] tasks w w1 w' Hf Hf').
Qed.

(** The critical section that computes the needed channels. *)
Lemma computing_step t ti w l b s' :
  parts_wf (ti, w) → quiet w → known t → task_step t (ti, w) = Ok ([UpdateTr2iox l b], s') →
  parts_wf s' ∧ quiet s'.2 ∧ known (UpdateTr2iox l b) ∧ task_wf (UpdateTr2iox l b) ∧
  l = updateNeededChannels (discovery s'.2).
Proof.
  intros Hparts Hq Hk He.
  assert (task_wf t) as Ht.
  { destruct t as [| |l' b'|l' b'| |]; try done; cbn [task_step] in He.
    - by apply bind_Ok in He as (x & _ & [=]).
    - apply bind_Ok in He as (x & _ & [=]). by destruct b'. }
  destruct (task_step_spec enough_publishers t ti w Hparts Ht (quiet_fits t ti w Hparts Hq Hk))
    as (now & s1 & He1 & Hp & Hnow & _ & Hf & Hl).
  rewrite He in He1. injection He1 as <- <-. destruct s' as [ti' w'].
  destruct (quiet_step t _ ti w w' Hq Hk Hf Hl) as [Hq' Hk'].
  apply Forall_cons in Hnow as [Hnow _], Hk' as [Hk' _]. do 4 (split; [done|]).
  destruct t as [| |l' b'|l' b'| |]; cbn [leaves] in Hl; try done.
  - by destruct Hl as (_ & _ & _ & [[=]|[= -> _]]).
  - by destruct Hl as (_ & _ & [[[=] _]|[[= -> _] _]]).
  - by destruct Hl as (_ & _ & [=]).
  - destruct Hl as (_ & Hn & _). by destruct b'.
  - by destruct Hl as (_ & _ & _ & [=]).
Qed.
End quiet.

(** ** Lemmas: critical sections that are not interrupted *)

Section uninterrupted.
Context `{Iox} `{IoxPosh} `{TransportLayer}.
Implicit Types (threads : list Thread).

(** The event of file GatewayApp that a task is the beginning of. *)
Definition whole (t : Task) : GatewayEvent :=
  match t with
  | ReadPorts sample => PortChange sample true
  | Receive mem size deviceIndex => DiscoveryMessage mem size deviceIndex
  | Event e => e
  | _ => Period 0 0
  end.

(** How many critical sections it has. *)
Definition turns_needed (t : Task) (s : TransportInfo * World) : nat :=
  match t with
  | ReadPorts sample => if localStateUnchanged (m_localState (discovery s.2)) (newLocalState sample) then 1 else 4
  | Receive mem size _ =>
      match deserialize_PubSubInfo mem size with Ok (i, _) => if isTermination i then 1 else 3 | _ => 1 end
  | _ => 1
  end.

Lemma bind_assoc {A B C} (m : Outcome A) (f : A → Outcome B) (g : B → Outcome C) :
  (y ← (x ← m; f x); g y) = (x ← m; y ← f x; g y).
Proof. by destruct m. Qed.

(** The callback is called last. *)
Lemma receive_callback update mem size from (s : TransportInfo * World) i n :
  deserialize_PubSubInfo mem size = Ok (i, n) → isTermination i = false →
  receiveRemoteDiscoveryInfo update mem size from s =
    (s1 ← receiveRemoteDiscoveryInfo None mem size from s;
     Discovery.update update (updateNeededChannels (discovery s1.2)) s1).
Proof.
  intros Hdes Hit. unfold receiveRemoteDiscoveryInfo. rewrite Hdes. ostep. rewrite Hit.
  assert (∀ k s, storeRecord update k i from s =
    (s1 ← storeRecord None k i from s; Discovery.update update (updateNeededChannels (discovery s1.2)) s1)) as Hstore.
  { intros k s0. unfold storeRecord. by destruct (deref _). }
  case_match; [|apply Hstore]. rewrite bind_assoc. destruct (if negb _ then _ else _); try done. apply Hstore.
Qed.

Lemma one_turn i schedule threads s t later :
  threads !! i = Some (t :: later) →
  run_threads (i :: schedule) (threads, s) =
    ('(now, s) ← task_step t s; run_threads schedule (<[i := now ++ later]> threads, s)).
Proof.
  intros Hi. unfold run_threads. cbn [for_each].
  assert (thread_turn i (threads, s) = ('(now, s) ← task_step t s; Ok (<[i := now ++ later]> threads, s))) as ->
    by (unfold thread_turn; by rewrite Hi).
  rewrite bind_assoc.
  by destruct (task_step t s) as [[now s1]| | |].
Qed.

Lemma next_turn i schedule threads s t later :
  (i < length threads)%nat →
  run_threads (i :: schedule) (<[i := t :: later]> threads, s) =
    ('(now, s) ← task_step t s; run_threads schedule (<[i := now ++ later]> threads, s)).
Proof.
  intros Hi. rewrite (one_turn i _ _ _ t later) by (by rewrite list_lookup_insert_eq).
  destruct (task_step t s) as [[now s1]| | |]; try done. ostep. by rewrite list_insert_insert_eq.
Qed.

Lemma callback_turns i threads later needed (announce : bool) ti w :
  (i < length threads)%nat →
  run_threads (i :: i :: if announce then [i] else []) (<[i := UpdateTr2iox needed announce :: later]> threads, (ti, w)) =
    (s ← updateCallback needed (ti, w); s ← (if announce then sendIfChanged s else Ok s);
     Ok (<[i := later]> threads, s)).
Proof.
  intros Hi. rewrite next_turn by done. cbn [task_step updateCallback].
  destruct (TransportToIox.updateChannels needed (w_tr2iox w)) as [t| | |]; try done. ostep. cbn [app].
  rewrite next_turn by done. cbn [task_step]. destruct (IoxToTransport.updateChannels needed _) as [i2| | |]; try done. ostep.
  destruct announce; cbn [app]; [|done]. rewrite next_turn by done. cbn [task_step].
  by destruct (sendIfChanged _).
Qed.
End uninterrupted.

(** ** Properties *)

Section properties.
Context `{IoxSpec} `{IoxPosh} `{TransportLayer}.

(** C26: Critical sections that are not interrupted are the whole operation: a thread that
    handles a change of the ports, the message of another gateway or any other event, and
    is given its turns without another thread coming in between, does exactly what the
    event does as a whole, failures included. *)
Theorem uninterrupted_is_whole (threads : list Thread) (s : TransportInfo * World) (i : nat) (t : Task)
    (later : Thread) :
  threads !! i = Some (t :: later) →
  match t with ReadPorts _ | Receive _ _ _ | Event _ => True | _ => False end →
  run_threads (replicate (turns_needed t s) i) (threads, s) =
    (s' ← handle (whole t) s; Ok (<[i := later]> threads, s')).
Proof.
  intros Hi Ht. pose proof (lookup_lt_Some _ _ _ Hi) as Hl. destruct s as [ti w].
  destruct t as [sample|mem size from| | | |e]; try done; clear Ht; cbn [turns_needed whole snd].
  3: { cbn [replicate]. rewrite (one_turn i _ _ _ _ _ Hi). cbn [task_step]. by destruct (handle e (ti, w)). }
  all: cbn [handle].
  - unfold Discovery.waitsetLoop_body, readPortSubscriber. cbn [modify snd].
    destruct (localStateUnchanged (m_localState (discovery w)) (newLocalState sample)) eqn:Hun; cbn [replicate];
      rewrite (one_turn i _ _ _ _ _ Hi); cbn [task_step readPorts_locked modify snd]; rewrite Hun; [done|]. ostep.
    set (w1 := set_discovery _ w). etransitivity; [exact (callback_turns i threads later _ true ti w1 Hl)|].
    unfold update, m_updateCallback. destruct (updateCallback _ _) as [s2| | |]; try done. ostep.
    by destruct (sendIfChanged s2) as [[]| | |].
  - destruct (deserialize_PubSubInfo mem size) as [[info n]| | |] eqn:Hdes.
    2-4: cbn [replicate]; rewrite (one_turn i _ _ _ _ _ Hi); cbn [task_step]; unfold receive_locked,
      receiveRemoteDiscoveryInfo; by rewrite Hdes.
    destruct (isTermination info) eqn:Hit; cbn [replicate]; rewrite (one_turn i _ _ _ _ _ Hi); cbn [task_step];
      unfold receive_locked; rewrite Hdes; ostep; rewrite Hit.
    + rewrite (receive_termination_callback m_updateCallback None mem size from _ info n Hdes Hit).
      by destruct (receiveRemoteDiscoveryInfo None mem size from (ti, w)).
    + rewrite (receive_callback m_updateCallback mem size from _ info n Hdes Hit).
      destruct (receiveRemoteDiscoveryInfo None mem size from (ti, w)) as [[ti1 w1]| | |]; try done. ostep.
      etransitivity; [exact (callback_turns i threads later _ false ti1 w1 Hl)|].
      unfold update, m_updateCallback. by destruct (updateCallback _ _).
Qed.

(** C6: Threads that update the channels may interleave in any way.  Whatever the order of
    their critical sections and of the other events between them, as long as no two
    services share a hash, no channel is removed while a message of it is pending, and the
    events are survivable, all of it is carried out without undefined behaviour, and the
    registry, the records, the ports, the segmented and the pending messages stay in
    order.  A thread is done after as many turns as it has critical sections.  The channels
    of each direction are those of the last computation that was handed to it, so they are
    the needed ones exactly if these two computations agree with the present state; if they
    do not, the next message of another gateway handled without interruption repairs it. *)
Theorem interleaved_updates (schedule : list nat) (threads : list Thread) (s : TransportInfo * World) :
  (MAX_TOPICS ≤ MAX_PUBLISHERS)%nat → parts_wf s → threads_wf threads → all_fit schedule (threads, s) →
  ∃ threads' s', run_threads schedule (threads, s) = Ok (threads', s') ∧ parts_wf s' ∧
    ((∀ i l, threads !! i = Some l → (total_work l ≤ count_occ Nat.eq_dec schedule i)%nat) →
     threads' = replicate (length threads) []) ∧
    let tasks := steps_run schedule (threads, s) in
    let tr2iox := last_tr2iox (channel_services (w_tr2iox s.2)) tasks in
    let iox2tr := last_iox2tr (channel_services (w_iox2tr s.2)) tasks in
    let needed := updateNeededChannels (discovery s'.2) in
    channel_services (w_tr2iox s'.2) ≡ₚ tr2iox ∧ channel_services (w_iox2tr s'.2) ≡ₚ iox2tr ∧
    (app_wf s' ↔ tr2iox ≡ₚ needed ∧ iox2tr ≡ₚ needed) ∧
    ∀ mem size from, admissible (DiscoveryMessage mem size from) s'.2 →
      ∃ s2, handle (DiscoveryMessage mem size from) s' = Ok s2 ∧ app_wf s2.
Proof.
  intros Hpubs Hparts Hwf Hfit. destruct s as [ti w].
  destruct (run_threads_spec Hpubs schedule threads ti w Hparts Hwf Hfit)
    as (threads' & [ti' w'] & He & Hp & _ & Hturns & [Ht Hi]).
  exists threads', (ti', w'). split; [exact He|]. split; [done|]. split; [by apply turns_taken_done|].
  intros tasks tr2iox iox2tr needed. cbn [snd] in *. split; [exact Ht|]. split; [exact Hi|]. split.
  - fold tasks tr2iox in Ht. fold tasks iox2tr in Hi. rewrite <-Ht, <-Hi. split.
    + intros (_ & _ & _ & _ & Hh). exact Hh.
    + intros Hh. destruct Hp as (Hti & Hd & Hterm & Hs). exact (conj Hti (conj Hd (conj Hterm (conj Hs Hh)))).
  - intros mem size from Hadm. by apply message_settles.
Qed.

(** C33: Because the needed channels are handed on after the mutex was released, an update can be
    lost.  Two threads compute the needed channels one after the other; if the first is
    then overtaken by the second, both directions end with the channels of the first
    computation, and if they interleave within the update callback, each direction ends
    with the channels of another one, though the second computation is what is needed all
    along.  So a service of another gateway, or of a local application, that only the
    second computation knows of has no channel when both threads are done. *)
Theorem update_lost (U : list ServiceDescription) (G : list hash_t) (t0 t1 : Task)
    (s s1 s2 : TransportInfo * World) (N0 N1 : list ServiceDescription) (b0 b1 : bool) :
  (MAX_TOPICS ≤ MAX_PUBLISHERS)%nat → no_collisions U → (length G ≤ MAX_DEVICE_COUNT)%nat →
  parts_wf s → quiet U G s.2 → known U G t0 → known U G t1 →
  task_step t0 s = Ok ([UpdateTr2iox N0 b0], s1) → task_step t1 s1 = Ok ([UpdateTr2iox N1 b1], s2) →
  let announce := (if b0 then [0%nat] else []) ++ (if b1 then [1%nat] else []) in
  (∃ s', run_threads ([0; 1]%nat ++ [1; 1; 0; 0]%nat ++ announce) ([[t0]; [t1]], s) = Ok ([[]; []], s') ∧ parts_wf s' ∧
     updateNeededChannels (discovery s'.2) = N1 ∧ have_channels N0 s'.2) ∧
  (∃ s', run_threads ([0; 1]%nat ++ [1; 0; 0; 1]%nat ++ announce) ([[t0]; [t1]], s) = Ok ([[]; []], s') ∧ parts_wf s' ∧
     updateNeededChannels (discovery s'.2) = N1 ∧
     channel_services (w_tr2iox s'.2) ≡ₚ N0 ∧ channel_services (w_iox2tr s'.2) ≡ₚ N1).
Proof.
  intros Hpubs HU HG Hparts Hq Hk0 Hk1 He0 He1 announce. destruct s as [ti w], s1 as [ti1 w1], s2 as [ti2 w2].
  destruct (computing_step Hpubs U G HU HG t0 ti w N0 b0 _ Hparts Hq Hk0 He0) as (Hp1 & Hq1 & Hk1' & Hwf1 & _).
  destruct (computing_step Hpubs U G HU HG t1 ti1 w1 N1 b1 _ Hp1 Hq1 Hk1 He1) as (Hp2 & Hq2 & Hk2 & Hwf2 & Hneed).
  set (threads := [[UpdateTr2iox N0 b0]; [UpdateTr2iox N1 b1]]).
  assert (∀ schedule, run_threads ([0; 1]%nat ++ schedule) ([[t0]; [t1]], (ti, w)) =
    run_threads schedule (threads, (ti2, w2))) as Hstart.
  { intros schedule. unfold run_threads. cbn [app for_each thread_turn lookup list_lookup]. rewrite He0. ostep.
    cbn. by rewrite He1. }
  assert (threads_wf threads ∧ Forall (Forall (known U G)) threads ∧ Forall (Forall handed) threads)
    as (Hwf & Hk & Hh) by (unfold threads_wf, threads; by rewrite !Forall_cons, !Forall_nil).
  split; rewrite Hstart;
    [destruct (planned Hpubs U G HU HG ([1; 1; 0; 0]%nat ++ announce) threads ti2 w2 Hp2 Hwf Hq2 Hk Hh)
      as (ti' & w' & -> & Hp' & [Ht Hi] & Hn)
    |destruct (planned Hpubs U G HU HG ([1; 0; 0; 1]%nat ++ announce) threads ti2 w2 Hp2 Hwf Hq2 Hk Hh)
      as (ti' & w' & -> & Hp' & [Ht Hi] & Hn)];
    exists (ti', w'); (split; [by destruct b0, b1|]); (split; [done|]); cbn [snd] in *;
    (split; [congruence|]); unfold have_channels; by destruct b0, b1.
Qed.
End properties.

(** ** Witnesses *)

(** A local application subscribes to one service while another gateway announces
    a subscriber of another one. *)
Definition port_appeared : Task :=
  ReadPorts (Some (mkPortIntrospection [] [mkPortData [] [Init.Byte.x42] [Init.Byte.x42] [Init.Byte.x42] 7])).

Definition new_gateway : Task := Receive app_message (length app_message) (mkDeviceIndex UDP 0).

Definition services_known : list ServiceDescription := [svc Init.Byte.x41; svc Init.Byte.x42].
Definition gateways_known : list hash_t := [900].

Abbreviation P0 := TransportToIox.example_posh.

Lemma app_started_parts : @parts_wf ref_iox app_started.
Proof.
  apply (@app_parts ref_iox), (@initialize_app ref_iox ref_iox_spec L0 app_ti app_world);
    [|vm_compute; reflexivity].
  refine (@initial_app ref_iox app_ti _ _ _ _ _ _ _ app_ti_wf _ _); [split; simpl; lia|constructor].
Qed.

Lemma services_apart : @no_collisions ref_iox services_known.
Proof. apply no_collisions_Forall, (bool_decide_unpack _). vm_compute. exact I. Qed.

Lemma app_started_quiet : quiet services_known gateways_known app_started.2.
Proof.
  assert (channel_services (w_tr2iox app_started.2) = [] ∧ channel_services (w_iox2tr app_started.2) = [] ∧
    m_localState (discovery app_started.2) = mkLocalState [] [] [] ∧
    records (m_remoteState (discovery app_started.2)) = [] ∧
    PendingMessages.pending (IoxToTransport.i_pending (w_iox2tr app_started.2)) = ∅) as (E1 & E2 & E3 & E4 & E5)
    by (split_and!; vm_compute; reflexivity).
  unfold quiet, known_local. rewrite E1, E2, E3, E4, E5. cbn. split_and!; try apply list_subseteq_nil; [by constructor|].
  intros p. apply lookup_empty.
Qed.

Lemma new_subscriber_known : @known ref_iox services_known gateways_known port_appeared.
Proof.
  split; [apply Forall_singleton; by apply (bool_decide_unpack _); vm_compute|].
  split; [|apply list_subseteq_nil]. intros s Hs. vm_compute in Hs. apply list_elem_of_singleton in Hs as ->.
  right. by left.
Qed.

Lemma new_gateway_known : @known ref_iox services_known gateways_known new_gateway.
Proof.
  eexists (mkPubSubInfo [svc Init.Byte.x41] 4 900 1 false), _. split; [vm_compute; reflexivity|].
  split; [by left|]. intros s ->%list_elem_of_singleton. by left.
Qed.

Lemma uninterrupted_is_whole_witness :
  [[new_gateway]] !! 0%nat = Some [new_gateway] ∧
  @run_threads ref_iox P0 L0 (replicate 3 0%nat) ([[new_gateway]], app_started) =
    (s' ← @handle ref_iox P0 L0 app_event app_started; Ok ([[]], s')).
Proof.
  split; [reflexivity|].
  exact (@uninterrupted_is_whole ref_iox P0 L0 [[new_gateway]] app_started 0 new_gateway [] eq_refl I).
Defined.

(** The ports change while the message is handled. *)
Definition example_schedule : list nat := [0; 1; 1; 0; 0; 1; 0]%nat.

Lemma interleaved_updates_witness :
  @all_fit ref_iox P0 L0 example_schedule ([[port_appeared]; [new_gateway]], app_started) ∧
  ∃ s', @run_threads ref_iox P0 L0 example_schedule ([[port_appeared]; [new_gateway]], app_started) = Ok ([[]; []], s') ∧
    @parts_wf ref_iox s'.
Proof.
  assert (Forall (Forall task_wf) [[port_appeared]; [new_gateway]]) as Hwf by (by rewrite !Forall_cons, !Forall_nil).
  assert (Forall (Forall (@known ref_iox services_known gateways_known)) [[port_appeared]; [new_gateway]]) as Hk.
  { rewrite !Forall_cons, !Forall_nil. split_and!; try done; [exact new_subscriber_known|exact new_gateway_known]. }
  assert (@all_fit ref_iox P0 L0 example_schedule ([[port_appeared]; [new_gateway]], app_started)) as Hfit.
  { destruct app_started as [ti w] eqn:Hs.
    refine (@quiet_all_fit ref_iox ref_iox_spec P0 L0 _ services_known gateways_known services_apart _ _ _ ti w _ Hwf _ Hk).
    - unfold MAX_TOPICS. simpl. lia.
    - unfold gateways_known, MAX_DEVICE_COUNT. simpl. lia.
    - rewrite <-Hs. exact app_started_parts.
    - pose proof app_started_quiet as Hq. by rewrite Hs in Hq. }
  split; [exact Hfit|].
  destruct (@interleaved_updates ref_iox ref_iox_spec P0 L0 example_schedule [[port_appeared]; [new_gateway]] app_started)
    as (threads & s' & He & Hp & Hdone & _); [unfold MAX_TOPICS; simpl; lia|exact app_started_parts|exact Hwf|exact Hfit|].
  exists s'. split; [|exact Hp]. rewrite He. f_equal. f_equal. apply Hdone.
  intros [|[|i]] l Hl; [injection Hl as <-; by apply Nat.leb_le..|done].
Defined.

(** The states after the two computations. *)
Definition state_after (t : Task) (s : TransportInfo * World) : TransportInfo * World :=
  match @task_step ref_iox P0 L0 t s with Ok (_, s) => s | _ => s end.

Definition subscriber_computed : TransportInfo * World := state_after port_appeared app_started.
Definition gateway_computed : TransportInfo * World := state_after new_gateway subscriber_computed.

(** The subscriber is computed first, and the channel of the other gateway is lost. *)
Lemma update_lost_witness :
  ∃ s', @run_threads ref_iox P0 L0 [0; 1; 1; 1; 0; 0; 0]%nat ([[port_appeared]; [new_gateway]], app_started) =
      Ok ([[]; []], s') ∧ @parts_wf ref_iox s' ∧
    svc Init.Byte.x41 ∈ @updateNeededChannels ref_iox (discovery s'.2) ∧ have_channels [svc Init.Byte.x42] s'.2.
Proof.
  destruct (@update_lost ref_iox ref_iox_spec P0 L0 services_known gateways_known port_appeared new_gateway app_started
    subscriber_computed gateway_computed [svc Init.Byte.x42] [svc Init.Byte.x42; svc Init.Byte.x41] true false)
    as [(s' & He & Hp & Hn & Hc) _].
  - unfold MAX_TOPICS. simpl. lia.
  - exact services_apart.
  - unfold gateways_known, MAX_DEVICE_COUNT. simpl. lia.
  - exact app_started_parts.
  - exact app_started_quiet.
  - exact new_subscriber_known.
  - exact new_gateway_known.
  - vm_compute. reflexivity.
  - vm_compute. reflexivity.
  - exists s'. split; [exact He|]. split; [exact Hp|]. split; [|exact Hc]. rewrite Hn. right. by left.
Defined.
