(* ===== verification/PubSub.v ===== *)
(** * PubSub: a message from a publisher to a subscriber

    The running gateways of file GatewayRun on both sides: what a local
    publisher publishes on one of them is published, once and unchanged, by the
    other, if a subscriber there has been discovered.  The first part is the
    receiving gateway between the datagrams of the message, the second the
    composition with the sending gateway. *)

From stdpp Require Import base list gmap.
From S2P Require Import Prelude.
From S2P Require Import Iox.
From S2P Require Import Types.
From S2P Require Import VectorMap.
From S2P Require Import Serialization.
From S2P Require Import TransportInfo.
From S2P Require Import Startup.
From S2P Require Import DataWriter.
From S2P Require Import Gateway.
From S2P Require Import Discovery.
From S2P Require Import DiscoveryFailure.
From S2P Require Import Chunks.
From S2P Require Import Coherence.
From S2P Require SegmentedMessages.
From S2P Require PendingMessages.
From S2P Require TransportForwarder.
From S2P Require IoxToTransport.
From S2P Require Import TransportToIox.
From S2P Require Import Traffic.
From S2P Require Import EndToEnd.
From S2P Require Import Bystanders.
From S2P Require Import GatewayApp.
From S2P Require Import GatewayRun.
From Stdlib Require Import Permutation.

Open Scope Z_scope.

#[local] Existing Instance IoxToTransport.I2T_gateway.

(** ** What the events of the main loop and of the discovery manager consist of *)

Section decomposition.
Context `{Iox} `{IoxPosh} `{TransportLayer}.

(** New ports: nothing, or an update of the channels. *)
Lemma ports_steps sample ti w s' :
  readPortSubscriber m_updateCallback sample (ti, w) = Ok s' →
  let w1 := set_discovery (set_local (newLocalState sample) (discovery w)) w in
  s' = (ti, w1) ∨
  localStateUnchanged (m_localState (discovery w)) (newLocalState sample) = false ∧
  ∃ s2, updateCallback (updateNeededChannels (discovery w1)) (ti, w1) = Ok s2 ∧ rest s'.2 = rest s2.2.
Proof.
  unfold readPortSubscriber, sendIfChanged. cbn [modify snd]. destruct (localStateUnchanged _ _); [intros [= <-]; by left|].
  intros (s2 & Hu & Hrest)%bind_Ok. right. split; [done|]. exists s2. split; [exact Hu|].
  pose proof (generateDiscoveryInfo_rest s2) as Hg.
  destruct (generateDiscoveryInfo s2) as [i s3]. cbn [fst snd] in Hg. rewrite <-Hg.
  case_match; [|by injection Hrest as <-]. apply bind_Ok in Hrest as ([ti4 w4] & Hsend & [= <-]).
  apply sendRegistered_rest in Hsend. rewrite <-Hsend. exact (rest_set_discovery _ w4).
Qed.

(** A period: the check for late messages. *)
Lemma period_steps checked now ti w s' :
  main_loop_body checked now (ti, w) = Ok s' →
  ∃ t w', checkSegmentedMessages checked (w_tr2iox w) = Ok t ∧ rest w' = rest (set_tr2iox t w) ∧
    w_tr2iox s'.2 = w_tr2iox w'.
Proof.
  intros (t & Hcheck & Hrest)%bind_Ok. exists t. cbv beta iota zeta in Hrest.
  case_match; [|injection Hrest as <-; by exists (set_tr2iox t w)].
  apply bind_Ok in Hrest as ([ti' w'] & Hfor & [= <-]). exists w'. split; [done|]. split; [|done].
  revert Hfor. change (rest w') with (rest (ti', w').2).
  change (rest (set_tr2iox t w)) with (rest (ti, set_tr2iox t w).2).
  generalize (ti, set_tr2iox t w) (ti', w'). clear.
  induction LOSSY_TRANSPORT_TYPES as [|tt ts IH]; intros s s'; [by intros [= <-]|].
  intros (s1 & Hr & Hrest)%bind_Ok. rewrite (IH s1 s' Hrest). by eapply resend_rest.
Qed.
End decomposition.

(** ** The receiving gateway *)

Section receiver.
Context `{IoxSpec} `{IoxPosh} `{TransportLayer}.
Context (enough_publishers : (MAX_TOPICS ≤ MAX_PUBLISHERS)%nat).
Context (mh : hash_t) (hash : ClassHash) (publisher : Endpoint) (l : Loan).
Implicit Types (s : TransportInfo * World) (t : T2I) (w : World).

Abbreviation in_flight := (in_flight mh publisher l).
Abbreviation frame := (frame mh l).

(** Another message's datagram or buffer, with a chunk of its own. *)
Definition other_message (mem : bytes) (size : nat) (loan : option Loan) : Prop :=
  (∀ h n, deserialize_Header mem size = Ok (h, n) → messageHash h ≠ mh) ∧
  ∀ l', loan = Some l' → apart l (loan_userPayload l').

(** The events that have nothing to do with the message: it does not expire,
    its channel is still needed after the event, and datagrams and buffers are
    those of other messages. *)
Definition bystander (e : GatewayEvent) w : Prop :=
  admissible e w ∧
  let d := discovery w in
  match e with
  | Period checked _ =>
      ∀ msg, to_map (t_segmented (w_tr2iox w)) !! mh = Some msg → SegmentedMessages.expired checked msg = false
  | PortChange sample _ =>
      getServiceDescription publisher ∈ updateNeededChannels (set_local (newLocalState sample) d)
  | DiscoveryMessage mem size deviceIndex =>
      ∀ i n, deserialize_PubSubInfo mem size = Ok (i, n) →
        getServiceDescription publisher ∈
          updateNeededChannels (set_records (upsert (records (m_remoteState d)) i deviceIndex) d)
  | Datagram mem size _ loan _ | BufferNeeded mem size loan _ => other_message mem size loan
  | BufferReleased mem size _ _ => other_message mem size None
  | LocalMessage _ _ | ForwardedMessage _ _ | BufferSent _ => True
  end.

(** What the lemmas on the events of file GatewayRun do not say. *)
Definition message_safe t t' : Prop :=
  frame t t' ∧ (channel_at t hash publisher → channel_at t' hash publisher) ∧
  (each in_flight (t_segmented t) → each in_flight (t_segmented t')).

#[export] Instance message_safe_preorder : PreOrder message_safe.
Proof.
  split; [by intros t|]. intros t1 t2 t3 (H12 & Hc12 & He12) (H23 & Hc23 & He23).
  split; [by transitivity t2|]. naive_solver.
Qed.

(** The discovery manager and the forwarder do not matter. *)
Lemma message_safe_same t t' :
  t_endpoints t' = t_endpoints t → t_segmented t' = t_segmented t → t_memory t' = t_memory t →
  t_published t' = t_published t → message_safe t t'.
Proof.
  intros He Hs Hm Hp. unfold message_safe, frame, publications_of, channel_at, channels. cbn.
  by rewrite He, Hs, Hm, Hp.
Qed.

Lemma rest_safe w w' : rest w' = rest w → message_safe (w_tr2iox w) (w_tr2iox w').
Proof.
  intros Hr. pose proof (f_equal (fun r => r.1.1) Hr) as Ht. cbn in Ht. unfold t_set_discovery in Ht.
  injection Ht as He Hs Hf Hm Hc Hp Hn. by apply message_safe_same.
Qed.

Lemma traffic_safe t t' :
  traffic_kept in_flight t t' → SegmentedMessages.segmented_wf (t_segmented t) → frame t t' → message_safe t t'.
Proof.
  intros (He & _ & _ & Hk) Hseg Hf. split; [done|]. split.
  - unfold channel_at, channels. cbn. by rewrite He.
  - intros Hall. by apply Hk.
Qed.

(** *** The update of the channels *)

Lemma callback_safe needed ti w s' :
  channels_sound w → channel_at (w_tr2iox w) hash publisher → each in_flight (t_segmented (w_tr2iox w)) →
  NoDup needed → (length needed ≤ MAX_TOPICS)%nat → can_update needed w →
  getServiceDescription publisher ∈ needed →
  updateCallback needed (ti, w) = Ok s' → message_safe (w_tr2iox w) (w_tr2iox s'.2).
Proof.
  intros (Ht & Hp & _) Hat Hall Hnd Hl (Hcol & _) Hin (t' & Hup & (i & _ & [= <-])%bind_Ok)%bind_Ok.
  destruct (update_frame mh hash publisher l enough_publishers (discovery w) (w_tr2iox w) needed t')
    as (Hf & _ & Hat' & Hall'); [done..|]. by split_and!.
Qed.

Lemma needed_bounds (d : DiscoveryManager) :
  NoDup (updateNeededChannels d) ∧ (length (updateNeededChannels d) ≤ MAX_TOPICS)%nat.
Proof.
  rewrite updateNeededChannels_pushUnique. split; [apply pushUnique_NoDup; constructor|].
  apply pushUnique_length. simpl. lia.
Qed.

Definition under_way w : Prop :=
  channel_at (w_tr2iox w) hash publisher ∧ each in_flight (t_segmented (w_tr2iox w)).

Lemma safe_under_way w w' : message_safe (w_tr2iox w) (w_tr2iox w') → under_way w → under_way w'.
Proof. intros (_ & Hc & He) [Hat Hall]. split; [by apply Hc|by apply He]. Qed.

Lemma ports_safe sample ti w s' :
  app_wf (ti, w) → under_way w → admissible (PortChange sample true) w →
  getServiceDescription publisher ∈ updateNeededChannels (set_local (newLocalState sample) (discovery w)) →
  readPortSubscriber m_updateCallback sample (ti, w) = Ok s' → message_safe (w_tr2iox w) (w_tr2iox s'.2).
Proof.
  intros Happ Hway [Hv Hadm] Hin. pose proof Happ as (Hti & Hd & _).
  pose proof (newLocalState_wf sample (discovery w) Hv (proj1 Hd)) as Hl.
  destruct (set_local_app w _ ti (app_parts _ Happ) Hl) as (_ & _ & Hs1 & _ & Hcan1).
  intros Hread. apply ports_steps in Hread. cbv zeta in Hread.
  set (w1 := set_discovery (set_local (newLocalState sample) (discovery w)) w) in *.
  assert (message_safe (w_tr2iox w) (w_tr2iox w1)) as Hsafe1 by (apply rest_safe, rest_set_discovery).
  destruct Hread as [->|(Hun & [ti2 w2] & Hu & Hrest)]; [done|]. rewrite Hun in Hadm.
  destruct (needed_bounds (discovery w1)) as [Hnd Hlen].
  transitivity (w_tr2iox w1); [done|]. transitivity (w_tr2iox w2); [|by apply rest_safe].
  destruct (safe_under_way _ _ Hsafe1 Hway) as [Hat Hall].
  exact (callback_safe _ ti w1 _ Hs1 Hat Hall Hnd Hlen (Hcan1 _ Hadm) Hin Hu).
Qed.

Lemma message_event_safe (mem : bytes) size deviceIndex ti w s' :
  app_wf (ti, w) → under_way w → bystander (DiscoveryMessage mem size deviceIndex) w →
  receiveRemoteDiscoveryInfo m_updateCallback mem size deviceIndex (ti, w) = Ok s' →
  message_safe (w_tr2iox w) (w_tr2iox s'.2).
Proof.
  intros (Hti & Hd & _ & Hs & _) Hway [(i & n & Hdes & Hterm & Hroom & Hcan) Hin]. cbn [fst snd] in *.
  specialize (Hin i n Hdes).
  destruct (receive_spec m_updateCallback mem size deviceIndex ti w i n Hti Hd Hdes Hterm Hroom)
    as (ti1 & w1 & _ & _ & -> & Hrec & _ & Hloc & Huids & _ & Hrest & _).
  destruct (rest_sound w w1 Hrest Huids Hs) as (Hs1 & _ & Hcan1).
  intros Hu. pose proof (rest_safe w w1 Hrest) as Hsafe1. transitivity (w_tr2iox w1); [done|].
  assert (updateNeededChannels (discovery w1) = updateNeededChannels
    (set_records (upsert (records (m_remoteState (discovery w))) i deviceIndex) (discovery w))) as Hneed
    by (by apply needed_same).
  destruct (safe_under_way _ _ Hsafe1 Hway) as [Hat Hall]. destruct (needed_bounds (discovery w1)) as [Hnd Hlen].
  refine (callback_safe _ ti1 w1 s' Hs1 Hat Hall Hnd Hlen _ _ Hu); rewrite Hneed; [|done]. by apply Hcan1.
Qed.

(** *** The other events *)

Lemma period_safe checked now ti w s' :
  app_wf (ti, w) → under_way w → bystander (Period checked now) w →
  main_loop_body checked now (ti, w) = Ok s' → message_safe (w_tr2iox w) (w_tr2iox s'.2).
Proof.
  intros (_ & _ & _ & (_ & (Hseg & _) & _) & _) [Hat Hall] [_ Hmsg] Hbody. cbn [fst snd] in *.
  apply period_steps in Hbody as (t & w' & Hcheck & Hrest & ->).
  destruct (check_frame mh publisher l checked (w_tr2iox w) t Hseg Hall Hmsg Hcheck) as (Hf & _ & Hall').
  transitivity t; [|by apply rest_safe in Hrest].
  split; [done|]. split; [|done]. apply bind_Ok in Hcheck as ([m calls] & _ & [= <-]). done.
Qed.

Lemma written_safe subscriber taken ti w s' :
  (handle (LocalMessage subscriber taken) (ti, w) = Ok s' ∨ handle (ForwardedMessage subscriber taken) (ti, w) = Ok s') →
  message_safe (w_tr2iox w) (w_tr2iox s'.2).
Proof.
  cbn [handle]. unfold IoxToTransport.waitsetLoop_body, TransportForwarder.waitsetLoop_body.
  destruct taken as [c|]; [|intros [[= <-]|[= <-]]; [done|by apply message_safe_same]].
  intros [Hh|Hh]; apply bind_Ok in Hh as (x & Hbody & Hh).
  - apply bind_Ok in Hbody as ([devices d] & _ & Hbody). destruct x as [[[ti' pm] calls] w'].
    injection Hh as <-. apply releaseOrWrite_rest in Hbody.
    rewrite rest_set_discovery in Hbody. by apply (rest_safe w w').
  - apply bind_Ok in Hbody as ([source f] & _ & Hbody).
    apply bind_Ok in Hbody as ([[[ti' pm] calls] w'] & Hbody & [= <-]). injection Hh as <-.
    apply releaseOrWrite_rest in Hbody. transitivity (w_tr2iox w'); [by apply rest_safe|]. by apply message_safe_same.
Qed.

(** A message that begins has another hash and a chunk of its own. *)
Lemma other_begins (mem : bytes) size loan now t h n :
  other_message mem size loan → deserialize_Header mem size = Ok (h, n) → begins in_flight h loan now t.
Proof.
  intros [Hh Hl] Hdes e k l' _ Hloan. specialize (Hh h n Hdes). split; [done|]. intros _.
  split; [by apply Hl|]. by exists (hasUserHeader h).
Qed.

Lemma bystander_safe e ti w s' :
  app_wf (ti, w) → under_way w → bystander e w → handle e (ti, w) = Ok s' →
  message_safe (w_tr2iox w) (w_tr2iox s'.2).
Proof.
  intros Happ Hway Hby Hh. pose proof Hway as [Hat Hall].
  pose proof Happ as (_ & _ & _ & (Ht & (Hseg & _) & _) & _). cbn [snd] in *.
  destruct e as [checked now|sample loaned|subscriber taken|subscriber taken|mem size from|mem size from loan now
    |mem size loan now|mem size release from|q].
  - by eapply period_safe.
  - apply bind_Ok in Hh as ([s1 x] & Hread & [= <-]). destruct Hby as [Hadm Hin].
    apply bind_Ok in Hread as (s2 & Hread & [= <- _]). by eapply ports_safe.
  - eapply written_safe. by left.
  - eapply written_safe. by right.
  - by eapply message_event_safe.
  - apply bind_Ok in Hh as (t & Hrec & [= <-]). destruct Hby as [_ Hother]. apply traffic_safe; [|done|].
    + eapply receive_kept; [apply in_flight_uncounted|done|by eauto using other_begins|exact Hrec].
    + eapply receive_frame; [done..|apply Hother|apply Hother|exact Hrec].
  - apply bind_Ok in Hh as ([t buffer] & Hrec & [= <-]). destruct Hby as [_ Hother]. apply traffic_safe; [|done|].
    + eapply loanBuffer_kept; [done|by eauto using other_begins|exact Hrec].
    + eapply loanBuffer_frame; [done..|apply Hother|apply Hother|exact Hrec].
  - apply bind_Ok in Hh as (t & Hrec & [= <-]). destruct Hby as [_ Hother]. apply traffic_safe; [|done|].
    + eapply releaseBuffer_kept; [apply in_flight_uncounted|done|exact Hrec].
    + eapply releaseBuffer_frame; [done..|apply Hother|exact Hrec].
  - apply bind_Ok in Hh as ([pm calls] & _ & Hh). case_match; [|done]. by injection Hh as <-.
Qed.

(** *** A run of the gateway with the datagrams of the message *)

(** [message_run s ds s']: from [s], the gateway received the datagrams [ds] of
    the message in this order, the first with [l] as the chunk that was loaned,
    with bystanders in between, and is now in [s']. *)
Inductive message_run s : list (bytes * bytes) → TransportInfo * World → Prop :=
  | message_first d rest from now s' :
      handle (Datagram (d.1 ++ d.2 ++ rest) (length d.1 + length d.2) from (Some l) now) s = Ok s' →
      message_run s [d] s'
  | message_bystander ds s1 e s2 :
      message_run s ds s1 → bystander e s1.2 → handle e s1 = Ok s2 → message_run s ds s2
  | message_next ds s1 d rest from loan now s2 :
      message_run s ds s1 →
      handle (Datagram (d.1 ++ d.2 ++ rest) (length d.1 + length d.2) from loan now) s1 = Ok s2 →
      message_run s (ds ++ [d]) s2.

(** A datagram of the message, with whatever behind it. *)
Definition of_message (d : bytes * bytes) : Prop :=
  ∀ rest h n, deserialize_Header (d.1 ++ d.2 ++ rest) (length d.1 + length d.2) = Ok (h, n) →
    messageHash h = mh ∧ serviceHash h = hash.

Lemma channel_at_inj t k e1 e2 : channels_wf t → channel_at t k e1 → channel_at t k e2 → e1 = e2.
Proof.
  unfold channel_at. intros Hs [i Hi]%list_elem_of_lookup [j Hj]%list_elem_of_lookup.
  assert (i = j) as ->; [|by simplify_eq].
  eapply (NoDup_lookup (channels t).*1 _ _ k); [|by rewrite list_lookup_fmap, Hi|by rewrite list_lookup_fmap, Hj].
  rewrite channels_keys by done. by destruct Hs as (_ & ? & _).
Qed.

Lemma own_step d rest from loan now ti w s' :
  running_wf (ti, w) → under_way w → of_message d →
  handle (Datagram (d.1 ++ d.2 ++ rest) (length d.1 + length d.2) from loan now) (ti, w) = Ok s' →
  running_wf s' ∧ under_way s'.2 ∧
  receive (d.1 ++ d.2 ++ rest) (length d.1 + length d.2) from loan now (w_tr2iox w) = Ok (w_tr2iox s'.2).
Proof.
  intros Hrun [Hat Hall] Hd Hh.
  pose proof Hrun as [(_ & _ & _ & (Ht & (Hseg & _) & _) & _) _]. cbn [snd] in *.
  assert (∃ s1, handle (Datagram (d.1 ++ d.2 ++ rest) (length d.1 + length d.2) from loan now) (ti, w) = Ok s1 ∧
    running_wf s1) as (s1 & He & Hrun').
  { apply handle_running; [done..|]. apply bind_Ok in Hh as (t & Hrec & _). by exists t. }
  rewrite He in Hh. injection Hh as ->. split; [done|]. apply bind_Ok in He as (t & Hrec & [= <-]).
  split; [|exact Hrec]. cbn [snd]. unfold under_way. cbn [w_tr2iox set_tr2iox].
  assert (traffic_kept in_flight (w_tr2iox w) t) as (Hends & _ & _ & Hk).
  { eapply receive_kept; [apply in_flight_uncounted|done| |exact Hrec].
    intros h n Hdes e k l' He _. destruct (Hd _ _ _ Hdes) as [Hmh Hsh]. rewrite Hsh in He.
    rewrite (channel_at_inj _ _ _ _ Ht He Hat). by split. }
  split; [|by apply Hk]. unfold channel_at, channels in *. cbn in *. by rewrite Hends.
Qed.

(** The run is a reassembly in the sense of file EndToEnd. *)
Lemma message_run_reassembly s ds s' :
  running_wf s → under_way s.2 → Forall of_message ds → message_run s ds s' →
  running_wf s' ∧ under_way s'.2 ∧ reassembly mh hash publisher l (w_tr2iox s.2) ds (w_tr2iox s'.2).
Proof.
  intros Hrun Hway Hds Hr. induction Hr as [d rest from now s' Hh|ds s1 e s2 Hr IH Hby Hh|ds s1 d rest from loan now s2 Hr IH Hh].
  - apply Forall_cons in Hds as [Hd _]. destruct s as [ti w].
    destruct (own_step d rest from (Some l) now ti w s' Hrun Hway Hd Hh) as (? & ? & Hrec).
    split_and!; [done..|]. by eapply reassembly_first.
  - destruct (IH Hds) as (Hrun1 & Hway1 & Hre). destruct s1 as [ti1 w1].
    pose proof (bystander_safe e ti1 w1 s2 (proj1 Hrun1) Hway1 Hby Hh) as Hsafe.
    destruct (handle_running e ti1 w1 enough_publishers Hrun1 (proj1 Hby)) as (s2' & Hh' & Hrun2).
    rewrite Hh in Hh'. injection Hh' as <-. pose proof (safe_under_way _ _ Hsafe Hway1) as Hway2.
    split_and!; [done..|]. eapply reassembly_other; [exact Hre|].
    destruct Hsafe as ((Hmap & [Hm Hmh] & Hpub) & _). pose proof Hrun2 as [(_ & _ & _ & (Ht & (Hseg & _) & _) & _) _].
    split_and!; [exact Ht|apply Hway2|exact Hseg|exact Hmap|exact Hm|exact Hmh|exact Hpub].
  - apply Forall_app in Hds as [Hds [Hd _]%Forall_cons]. destruct (IH Hds) as (Hrun1 & Hway1 & Hre).
    destruct s1 as [ti1 w1]. destruct (own_step d rest from loan now ti1 w1 s2 Hrun1 Hway1 Hd Hh) as (? & ? & Hrec).
    split_and!; [done..|]. by eapply reassembly_next.
Qed.
End receiver.

(** ** From the publisher to the subscriber *)

Section publish_subscribe.
Context `{IoxSpec} `{IoxPosh} `{TransportLayer}.
Implicit Types (s r : TransportInfo * World).

Lemma message_run_reachable mh publisher l r ds r' :
  reachable r → message_run mh publisher l r ds r' → reachable r'.
Proof.
  assert (∀ mem size from loan now r r', reachable r → handle (Datagram mem size from loan now) r = Ok r' →
    reachable r') as Hstep.
  { intros mem size from loan now [ti w] r1 Hr Hh. eapply reachable_event; [exact Hr| |exact Hh].
    apply bind_Ok in Hh as (t & Hrec & _). by exists t. }
  intros Hreach Hr. induction Hr as [d rest from now r' Hh|ds r1 e r2 Hr IH Hby Hh|ds r1 d rest from loan now r2 Hr IH Hh].
  - by eapply Hstep.
  - eapply reachable_event; [exact IH|apply Hby|exact Hh].
  - by eapply Hstep.
Qed.

(** A service that local users subscribe to has its channel. *)
Lemma subscribed_channel r service :
  app_wf r → service ∈ localSubscribers (m_localState (discovery r.2)) →
  (length (updateNeededChannels (discovery r.2)) < MAX_TOPICS)%nat →
  ∃ publisher, channel_at (w_tr2iox r.2) (getClassHash service) publisher ∧ getServiceDescription publisher = service.
Proof.
  intros (_ & _ & _ & (Ht & _) & (Hserv & _)) Hsub Hroom.
  assert (service ∈ channel_services (w_tr2iox r.2)) as Hin.
  { rewrite Hserv. rewrite updateNeededChannels_pushUnique in *.
    apply pushUnique_not_full; [done|]. right. unfold services_in_use. apply elem_of_app. by left. }
  apply list_elem_of_fmap in Hin as (e & -> & Hin). exists e. split; [|done].
  apply list_elem_of_fmap in Hin as ([k e'] & -> & Hin). cbn [snd].
  by rewrite <-(channel_hash _ e' k Ht Hin).
Qed.

Lemma segment_of_message t h header payload d :
  sendable t h header payload → headerSize + maxTransportPayloadSize t < 2 ^ 32 →
  ∀ device, d ∈ datagrams_of (wire_message t device h header payload) →
  of_message (messageHash h) (serviceHash h) d.
Proof.
  intros Hs Hsmall device Hd. rewrite datagrams_of_wire in Hd.
  apply list_elem_of_fmap in Hd as ([o q] & -> & Hin).
  pose proof (segment_header_valid t h header payload Hs o q Hin) as Hv.
  destruct (serialize_header_bytes _ Hv) as [_ Hl].
  intros rest h' n. unfold segment_datagram. cbn [fst snd]. rewrite Hl, deserialize_header_bytes by (done || lia).
  by intros [= <- _].
Qed.

Lemma handle_local subscriber taken s ti pm calls w :
  IoxToTransport.waitsetLoop_body subscriber taken s.1 (IoxToTransport.i_pending (w_iox2tr s.2)) s.2 =
    Ok (ti, pm, calls, w) →
  handle (LocalMessage subscriber taken) s = Ok (ti, record_written pm calls w).
Proof. destruct s as [ti0 w0]. cbn [fst snd handle]. intros ->. done. Qed.

(** The receiving gateway has room for the message [mh] of the given sizes, [l]
    is a chunk for it, and iceoryx keeps it disjoint from the chunks under way. *)
Definition has_room (mh : hash_t) (payloadSize headerSize : Z) (l : Loan) (w : World) : Prop :=
  let t := w_tr2iox w in
  to_map (t_segmented t) !! mh = None ∧
  (vm_size (t_segmented t) < SegmentedMessages.MAX_SEGMENTED_MESSAGE_COUNT)%nat ∧
  loan_ok payloadSize headerSize l (t_memory t) ∧
  ∀ (k : hash_t) msg, to_map (t_segmented t) !! k = Some msg →
    apart l (SegmentedMessages.sm_userPayload msg) ∧
    ∃ b, SegmentedMessages.sm_userHeader msg = userHeaderPtr b (SegmentedMessages.sm_userPayload msg).

(** What the receiving gateway makes of the datagrams [sent] of a message. *)
Definition delivers (h : IoxChunkDatagramHeader_t) (header payload : bytes) (publisher : Endpoint)
    (sent : list (bytes * bytes)) r : Prop :=
  ∀ l, has_room (messageHash h) (userPayloadSize h) (userHeaderSize h) l r.2 →
  let p := loan_userPayload l in
  (∀ d rest from now, d ∈ sent →
     ∃ r', handle (Datagram (d.1 ++ d.2 ++ rest) (length d.1 + length d.2) from (Some l) now) r = Ok r') ∧
  ∀ ds r', message_run (messageHash h) publisher l r ds r' → ds ⊆+ sent →
    reachable r' ∧
    publications_of p (w_tr2iox r'.2) = publications_of p (w_tr2iox r.2) ++
      (if decide (length ds = length sent) then [mkPublished (getUid publisher) p header payload] else []) ∧
    ∀ d rest from loan now, ds ++ [d] ⊆+ sent →
      ∃ r'', handle (Datagram (d.1 ++ d.2 ++ rest) (length d.1 + length d.2) from loan now) r' = Ok r''.

Lemma message_delivers t device h header payload r publisher :
  (MAX_TOPICS ≤ MAX_PUBLISHERS)%nat → sendable t h header payload →
  headerSize + maxTransportPayloadSize t < 2 ^ 32 →
  reachable r → channel_at (w_tr2iox r.2) (serviceHash h) publisher →
  delivers h header payload publisher (datagrams_of (wire_message t device h header payload)) r.
Proof.
  intros Hpubs Hs Hsmall Hreach Hat l (Hnone & Hroom & Hloan & Hothers) p.
  pose proof (reachable_running r Hpubs Hreach) as Hrun.
  pose proof Hrun as [(_ & _ & _ & (Ht & (Hseg & _) & _) & _) _].
  destruct (segments_arrive t device h header payload publisher l (w_tr2iox r.2) Hs Hsmall) as [Hfirst Hrest];
    [by split_and!|].
  assert (∀ t' mem size from loan now ti w, receive mem size from loan now (w_tr2iox w) = Ok t' →
    ∃ r', handle (Datagram mem size from loan now) (ti, w) = Ok r') as Hhandle.
  { intros t' mem size from loan now ti' w Hrec. cbn [handle]. rewrite Hrec. ostep. by eexists. }
  split.
  { intros d rest from now Hd. destruct r as [tir wr]. destruct (Hfirst d rest from now Hd) as [t' Hrec]. by eapply Hhandle. }
  intros ds r' Hmr Hsub. split; [by eapply message_run_reachable|].
  destruct (message_run_reassembly Hpubs (messageHash h) (serviceHash h) publisher l r ds r') as (_ & _ & Hre); try done.
  - split; [done|]. intros k msg Hk. split; [intros ->; congruence|]. intros _. by apply (Hothers k).
  - apply Forall_forall. intros d Hd. eapply segment_of_message; [done..|]. by eapply elem_of_submseteq.
  - destruct (Hrest ds _ Hre Hsub) as [Hpub Hnext]. split; [exact Hpub|]. intros d rest from loan now Hd.
    destruct r' as [tir' wr']. destruct (Hnext d rest from loan now Hd) as [t' Hrec]. by eapply Hhandle.
Qed.

End publish_subscribe.


(** ** Witness: a publisher on gateway 800, a subscriber on gateway 900 *)

Definition port_at (s : ServiceDescription) (id : Z) : PortData :=
  mkPortData [] (getServiceIDString s) (getInstanceIDString s) (getEventIDString s) id.

(** The events of the publishing gateway: its user's port appears, the other
    gateway announces itself. *)
Definition publisher_appears : GatewayEvent :=
  PortChange (Some (mkPortIntrospection [port_at (svc Init.Byte.x41) 70] [])) true.

Definition publishing : TransportInfo * World := run_events [publisher_appears; app_event] app_started.

(** The other gateway, with the user's subscriber. *)
Definition subscriber_appears : GatewayEvent :=
  PortChange (Some (mkPortIntrospection [] [port_at (svc Init.Byte.x41) 71])) true.

Definition subscribing_started : TransportInfo * World :=
  match @initialize ref_iox L0 World _ _
    (app_ti, @initial_world ref_iox (fun n => Z.of_nat n) 900 (mkConfig NONE []) [] [] 10 0) with
  | Ok s => s | _ => (app_ti, app_world)
  end.

Definition subscribing : TransportInfo * World := run_events [subscriber_appears] subscribing_started.

Lemma can_update_quiet `{Iox} needed w :
  no_collisions (needed ++ channel_services (w_tr2iox w)) → no_collisions (needed ++ channel_services (w_iox2tr w)) →
  PendingMessages.pending (IoxToTransport.i_pending (w_iox2tr w)) = ∅ → can_update needed w.
Proof. intros H1 H2 Hp. split_and!; [done..|]. intros p e (_ & _ & He). by rewrite Hp, lookup_empty in He. Qed.

Lemma example_reachable_start hash ti random s :
  transports_wf ti → is_u32 hash →
  @initialize ref_iox L0 World _ _ (ti, @initial_world ref_iox random hash (mkConfig NONE []) [] [] 10 0) = Ok s →
  @reachable ref_iox example_posh L0 s.
Proof.
  intros Hti Hh He.
  exact (@reachable_start ref_iox example_posh L0 random hash (mkConfig NONE []) [] [] 10 0 ti s Hti Hh (Forall_nil_2 _) He).
Qed.

Ltac solve_can_update :=
  apply can_update_quiet;
    [apply no_collisions_Forall, (bool_decide_unpack _); vm_compute; exact I..|vm_compute; reflexivity].

Lemma publishing_reachable : @reachable ref_iox example_posh L0 publishing.
Proof.
  assert (@reachable ref_iox example_posh L0 (run_events [publisher_appears] app_started)) as Hr.
  { eapply (reachable_event publisher_appears app_started); [|split|vm_compute; reflexivity].
    - apply (example_reachable_start 800 app_ti (fun n => Z.of_nat n)); [exact app_ti_wf|split; simpl; lia|vm_compute; reflexivity].
    - constructor.
    - match goal with |- if ?b then _ else _ => assert (b = false) as -> by (vm_compute; reflexivity) end. solve_can_update. }
  eapply (reachable_event app_event); [exact Hr| |vm_compute; reflexivity].
  eexists (mkPubSubInfo [svc Init.Byte.x41] 4 900 1 false), _. split; [vm_compute; reflexivity|].
  split; [done|]. split; [right; vm_compute; lia|]. solve_can_update.
Qed.

Lemma subscribing_reachable : @reachable ref_iox example_posh L0 subscribing.
Proof.
  eapply (reachable_event subscriber_appears subscribing_started); [|split|vm_compute; reflexivity].
  - apply (example_reachable_start 900 app_ti (fun n => Z.of_nat n)); [exact app_ti_wf|split; simpl; lia|vm_compute; reflexivity].
  - apply Forall_singleton. apply (bool_decide_unpack _). vm_compute. exact I.
  - match goal with |- if ?b then _ else _ => assert (b = false) as -> by (vm_compute; reflexivity) end. solve_can_update.
Qed.

Definition subscriber_loan : Loan := mkLoan 640 (replicate 12 Init.Byte.x00) [].

(** A message of one datagram, delivered there. *)
Lemma example_delivered h publisher sent d :
  @delivers ref_iox example_posh L0 h [] (replicate 12 Init.Byte.xbb) publisher sent subscribing →
  userPayloadSize h = 12 → userHeaderSize h = 0 → sent = [d] →
  ∃ r', @message_run ref_iox example_posh L0 (messageHash h) publisher subscriber_loan subscribing [d] r' ∧
    publications_of 640 (w_tr2iox r'.2) = [mkPublished (getUid publisher) 640 [] (replicate 12 Init.Byte.xbb)].
Proof.
  intros Hdel Hp Hh ->. destruct (Hdel subscriber_loan) as [Hfirst Hrun].
  { rewrite Hp, Hh. split; [vm_compute; reflexivity|]. split; [vm_compute; lia|]. split; [split_and!; done|].
    intros k msg Hk. vm_compute in Hk. done. }
  destruct (Hfirst d [] (mkDeviceIndex UDP 0) 0) as [r' Hr']; [by left|].
  pose proof (@message_first ref_iox example_posh L0 (messageHash h) publisher subscriber_loan subscribing
    d [] (mkDeviceIndex UDP 0) 0 r' Hr') as Hmr.
  destruct (Hrun [d] r' Hmr) as (_ & Hpub & _); [done|]. exists r'. split; [exact Hmr|exact Hpub].
Qed.

(** The datagrams of a message of one segment. *)
Lemma single_datagram t device h header payload seg :
  @message_segments (@piece_of ref_iox L0 t) header payload = [seg] →
  ∃ d, datagrams_of (@wire_message ref_iox L0 t device h header payload) = [d].
Proof. intros Hseg. rewrite datagrams_of_wire, Hseg. by eexists. Qed.

