(* ===== verification/Goodbye.v ===== *)
(** * Goodbye: nothing is announced after the termination message

    [run] of gateway_app.cpp ends with [deinitialize], which sends the
    termination message, and only then stops the threads that still send: those
    of [Iceoryx2Transport] and of the forwarder are joined, and the threads of
    the transports end with the transports.  Until then they run on.  Here their
    critical sections (file Threads) follow [deinitialize] in any order: chunks
    are written, datagrams arrive, channels are still being updated by a thread
    that was in the update callback, and transports fail.  Another gateway that
    got a discovery message after the termination message would take this
    gateway for alive again; the flag that [deinitialize] sets prevents it. *)

From stdpp Require Import base list gmap.
From S2P Require Import Prelude.
From S2P Require Import Iox.
From S2P Require Import Types.
From S2P Require Import VectorMap.
From S2P Require Import Serialization.
From S2P Require Import TransportInfo.
From S2P Require Import Startup.
From S2P Require Import Gateway.
From S2P Require Import Discovery.
From S2P Require Import DiscoveryFailure.
From S2P Require Import Chunks.
From S2P Require Import Coherence.
From S2P Require Import Traffic.
From S2P Require PendingMessages.
From S2P Require TransportForwarder.
From S2P Require IoxToTransport.
From S2P Require TransportToIox.
From S2P Require Import GatewayApp.
From S2P Require Import GatewayRun.
From S2P Require Import Threads.
From S2P Require Import PubSub.
From Stdlib Require Import Permutation.

Open Scope Z_scope.

#[local] Existing Instance TransportToIox.T2I_gateway.
#[local] Existing Instance IoxToTransport.I2T_gateway.

(** The discovery messages among what was sent. *)
Definition is_broadcast (e : NetEvent) : bool := match e with Broadcast _ _ => true | _ => false end.

Definition broadcasts (history : list NetEvent) : list NetEvent := filter is_broadcast history.

Lemma last_broadcast_of t history : last_broadcast t (broadcasts history) = last_broadcast t history.
Proof.
  unfold last_broadcast, broadcasts. f_equal. induction history as [|e history IH]; [done|].
  rewrite filter_cons. case_decide as Hd; csimpl; rewrite IH; [done|]. by destruct e.
Qed.

(** ** Lemmas: a failure after the goodbye is not announced *)

Section flag.
Context `{IoxSpec} `{TransportLayer} `{DiscoveryState W}.
Implicit Types (w : W) (s : TransportInfo * W).

Definition terminating w : bool := m_terminateFlag (discovery w).

Lemma generateDiscoveryInfo_flag s : terminating (generateDiscoveryInfo s).2.2 = terminating s.2.
Proof.
  destruct s as [ti w]. unfold generateDiscoveryInfo, terminating. pose proof (discovery_generateHash w) as Hd.
  destruct (generateHash w) as [h w1]. cbn [snd] in *. by rewrite Hd.
Qed.

Lemma failCallback_flag fuel s s' : failCallback fuel s = Ok s' → terminating s'.2 = terminating s.2.
Proof.
  revert s s'. induction fuel as [|fuel IH]; intros [ti w] s'; [done|]. cbn [failCallback modify].
  set (w1 := set_discovery (clearCache (discovery w)) w).
  assert (terminating w1 = terminating w) as Hw by (unfold terminating, w1; by rewrite discovery_set).
  destruct (negb _); [|by intros [= <-]].
  pose proof (generateDiscoveryInfo_flag (ti, w1)) as Hg. destruct (generateDiscoveryInfo (ti, w1)) as [i s2].
  cbn [fst snd] in *. rewrite <-Hw, <-Hg. intros ([data n] & _ & Hall)%bind_Ok.
  eapply (doForAllEnabled_view terminating (sendBroadcast data)); [|exact IH|exact Hall].
  intros t v failed v' Hsend. unfold terminating. by erewrite sendBroadcast_view.
Qed.

(** What was announced, once the gateway terminates. *)
Definition announced w : option (list NetEvent) := if terminating w then Some (broadcasts (net w)) else None.

Lemma failCallback_announced s s' : failCallback failFuel s = Ok s' → announced s'.2 = announced s.2.
Proof.
  intros Hcb. pose proof (failCallback_flag failFuel s s' Hcb) as Hflag. unfold announced. rewrite Hflag.
  destruct s as [ti w]. destruct (terminating (ti, w).2) eqn:Ht; [|done]. unfold failFuel in Hcb.
  rewrite failCallback_terminating in Hcb by exact Ht. injection Hcb as <-. cbn [snd]. by rewrite net_set_discovery.
Qed.

Lemma announced_sent t header payload device w :
  announced (set_net (net w ++ [UserData t header payload device]) w) = announced w.
Proof.
  unfold announced, terminating. rewrite discovery_set_net, net_set_net. unfold broadcasts. rewrite filter_app.
  by rewrite app_nil_r.
Qed.

Lemma announced_hash w : announced (generateHash w).2 = announced w.
Proof.
  unfold announced, terminating. pose proof (discovery_generateHash w) as Hd. pose proof (net_generateHash w) as Hn.
  destruct (generateHash w). cbn [snd] in *. by rewrite Hd, Hn.
Qed.

Lemma announced_cache cache w : announced (set_discovery (set_cache cache (discovery w)) w) = announced w.
Proof. unfold announced, terminating. by rewrite discovery_set, net_set_discovery. Qed.

Lemma releaseOrWrite_announced hash devices mutex subscriber c ti pm w ti' pm' calls w' :
  TransportForwarder.releaseOrWrite hash devices mutex subscriber c ti pm w = Ok (ti', pm', calls, w') →
  announced w' = announced w.
Proof.
  apply releaseOrWrite_view; [apply announced_sent|apply failCallback_announced|apply announced_hash].
Qed.
End flag.

(** ** Lemmas: what still happens *)

Section closing.
Context `{IoxSpec} `{IoxPosh} `{TransportLayer} (enough_publishers : (MAX_TOPICS ≤ MAX_PUBLISHERS)%nat).
Implicit Types (w : World) (ti : TransportInfo) (threads : list Thread).

(** What the remaining threads may have to do: messages, the updates they are in,
    and terminations of other gateways.  The waitset thread of the discovery
    manager was joined, the main loop has ended, and the update callback is no
    longer valid, so there are no others. *)
Definition closing (t : Task) : Prop :=
  match t with
  | Receive mem size _ => ∃ i n, deserialize_PubSubInfo mem size = Ok (i, n) ∧ isTermination i = true
  | UpdateTr2iox _ announce | UpdateIox2tr _ announce => announce = false
  | Event e => message_event e
  | ReadPorts _ | Announce => False
  end.

Lemma message_announced e ti w s' :
  message_event e → parts_in true (ti, w) → survivable e w → handle e (ti, w) = Ok s' →
  announced s'.2 = announced w.
Proof.
  intros Hkind Hparts Hsv Hh. pose proof Hparts as (Hti & Hd & _). cbn [fst snd] in *.
  assert (∀ t, parts_in true (ti, w) → discovery (set_tr2iox t w) = discovery w →
    announced (set_tr2iox t w) = announced w) as Htraffic by (intros t _ Hdw; unfold announced, terminating; by rewrite Hdw).
  destruct e as [|sample loaned|subscriber taken|subscriber taken| |mem size from loan now|mem size loan now
    |mem size release from|p]; try done.
  3-5: match type of Hh with handle ?e _ = _ =>
    destruct (traffic_event true e ti w Hparts Hsv I) as (s2 & He & _ & _ & _ & Hdw) end;
    rewrite He in Hh; injection Hh as <-; cbn [handle] in He; apply bind_Ok in He as (t & _ & He);
    try destruct t as [t buffer]; injection He as <-; by apply Htraffic.
  all: cbn [handle] in Hh.
  - apply bind_Ok in Hh as ([[[ti' pm] calls] w'] & Hbody & [= <-]). cbn [snd].
    enough (announced w' = announced w) by done. destruct taken as [c|]; [|by injection Hbody as <- _ _ <-].
    unfold IoxToTransport.waitsetLoop_body in Hbody.
    destruct (generateDeviceIndices_returns ti (discovery w) (originId c)
      (getClassHash (getServiceDescription subscriber)) Hd) as (devices & cache & He & _).
    rewrite He in Hbody. cbn [mbind Outcome_bind] in Hbody. apply releaseOrWrite_announced in Hbody as ->.
    apply announced_cache.
  - apply bind_Ok in Hh as ([[[[f ti'] pm] calls] w'] & Hbody & [= <-]). cbn [snd].
    enough (announced w' = announced w) by done. destruct taken as [c|]; [|by injection Hbody as _ <- _ _ <-].
    unfold TransportForwarder.waitsetLoop_body in Hbody. apply bind_Ok in Hbody as ([source f'] & _ & Hbody).
    apply bind_Ok in Hbody as ([[[ti2 pm2] calls2] w2] & Hbody & [= _ <- _ _ <-]).
    by apply releaseOrWrite_announced in Hbody.
  - apply bind_Ok in Hh as ([pm calls] & _ & Hh). case_match; [|done]. by injection Hh as <-.
Qed.

Lemma closing_step t ti w :
  parts_in true (ti, w) → closing t → task_wf t → fits t w →
  ∃ now s', task_step t (ti, w) = Ok (now, s') ∧ parts_in true s' ∧ Forall closing now ∧ Forall task_wf now ∧
    (total_work now < work t)%nat ∧ announced s'.2 = announced w.
Proof.
  intros Hparts Hc Hwf Hfit. destruct t as [|mem size from|l b|l b| |e]; try done.
  - destruct Hc as (i & n & Hdes & Hit).
    destruct (forget_step enough_publishers true mem size from ti w i n Hparts Hdes Hit)
      as [(now & s' & He & Hp & Hnow & Hless & _) (w' & He' & Hn)].
    pose proof Hparts as (_ & _ & Ht & _). pose proof Hp as (_ & _ & Ht' & _). rewrite He in He'. injection He' as -> ->.
    eexists _, _. split; [exact He|]. split_and!; [done|apply Forall_nil_2|done..|].
    unfold announced, terminating. cbn [snd] in *. by rewrite Ht, Ht', Hn.
  - cbn [closing] in Hc. subst b.
    destruct (update_tr2iox_step enough_publishers true l false ti w Hparts Hwf Hfit)
      as (now & [ti' w'] & He & Hp & Hnow & Hless & _ & (_ & _ & ->)).
    eexists _, _. split; [exact He|]. split_and!; [done|by apply Forall_singleton|done..|].
    cbn [task_step] in He. apply bind_Ok in He as (t & _ & [= <- <-]).
    pose proof Hparts as (_ & _ & Ht & _). pose proof Hp as (_ & _ & Ht' & _). cbn [snd] in *.
    unfold announced, terminating. by rewrite Ht, Ht'.
  - cbn [closing] in Hc. subst b.
    destruct (update_iox2tr_step enough_publishers true l false ti w Hparts Hwf Hfit)
      as (now & [ti' w'] & He & Hp & Hnow & Hless & _ & (_ & -> & _)).
    eexists _, _. split; [exact He|]. split_and!; [done|apply Forall_nil_2|done..|].
    cbn [task_step] in He. by apply bind_Ok in He as (t & _ & [= <- <-]).
  - destruct (message_steady true e ti w Hc Hparts Hfit) as (s' & He & Hp & _).
    exists [], s'. cbn [task_step]. rewrite He. split; [done|].
    split_and!; [done|apply Forall_nil_2|apply Forall_nil_2|unfold total_work; simpl; lia|].
    by apply (message_announced e ti w).
Qed.

Lemma closing_run schedule threads ti w :
  parts_in true (ti, w) → Forall (Forall closing) threads → threads_wf threads → all_fit schedule (threads, (ti, w)) →
  ∃ threads' s', run_threads schedule (threads, (ti, w)) = Ok (threads', s') ∧ parts_in true s' ∧
    turns_taken schedule threads threads' ∧ announced s'.2 = announced w.
Proof.
  revert threads ti w. induction schedule as [|i schedule IH]; intros threads ti w Hparts Hc Hwf.
  { intros _. exists threads, (ti, w). split_and!; try done. apply turns_taken_nil. }
  intros [Hfit Hrest]. cbn [fst snd] in *. unfold run_threads in *. cbn [for_each].
  destruct (next_task i threads) as [t|] eqn:Hn.
  2:{ destruct (idle_turn i threads (ti, w) Hn) as [Hturn Htaken].
      destruct (IH threads ti w Hparts Hc Hwf (Hrest _ Hturn)) as (threads' & s' & He & Hp & Ht & Ha).
      exists threads', s'. rewrite Hturn. split; [exact He|]. split; [done|]. split; [|done].
      by eapply turns_taken_trans. }
  destruct (next_task_cons i threads t Hn) as [later Hi].
  pose proof (proj1 (Forall_lookup _ _) Hwf i _ Hi) as [Ht Hlater]%Forall_cons.
  pose proof (proj1 (Forall_lookup _ _) Hc i _ Hi) as [Hct Hclater]%Forall_cons.
  destruct (closing_step t ti w Hparts Hct Ht (Hfit t eq_refl)) as (now & [ti1 w1] & He & Hp & Hcn & Hwn & Hless & Ha).
  assert (thread_turn i (threads, (ti, w)) = Ok (<[i := now ++ later]> threads, (ti1, w1))) as Hturn
    by (unfold thread_turn; by rewrite Hi, He).
  destruct (IH (<[i := now ++ later]> threads) ti1 w1) as (threads' & s' & He' & Hp' & Ht' & Ha');
    [done|apply Forall_insert; [done|by apply Forall_app]|apply Forall_insert; [done|by apply Forall_app]|by apply Hrest|].
  exists threads', s'. rewrite Hturn. split; [exact He'|]. split; [done|].
  split; [|exact (eq_trans Ha' Ha)]. eapply turns_taken_trans; [by apply (busy_turn i threads t)|done].
Qed.
End closing.

(** ** Properties *)

Section properties.
Context `{IoxSpec} `{IoxPosh} `{TransportLayer}.

End properties.

(** ** Witness *)

(** Sending user data fails. *)
Definition losing_layer : TransportLayer := {|
  maxMessageSize := fun _ => 60;
  willBePending := fun _ _ => false;
  sendBroadcast_fails := fun _ _ _ => false;
  sendUserData_outcome := fun _ _ _ _ _ => (false, true);
  constructor_fails := fun _ => false
|}.

(** A chunk is written after the goodbye, and the transport fails. *)
Definition late_message : GatewayEvent :=
  LocalMessage (mkEndpoint (svc Init.Byte.x41) 10) (Some IoxToTransport.example_published).

Definition said_goodbye : TransportInfo * World :=
  match @deinitialize ref_iox losing_layer World _ _ publishing with Ok s => s | _ => publishing end.

Lemma late_message_survivable : @survivable ref_iox P0 losing_layer late_message said_goodbye.2.
Proof.
  assert (records (m_remoteState (discovery said_goodbye.2)) =
    [mkRecord (mkPubSubInfo [svc Init.Byte.x41] 4 900 1 false) [mkDeviceIndex UDP 0]]) as Hrec by (vm_compute; reflexivity).
  assert (@carries ref_iox losing_layer IoxToTransport.example_published UDP) as Hc.
  { split; [by right; left|]. vm_compute. split_and!; done. }
  split; [apply (bool_decide_unpack _); vm_compute; exact I|]. intros c [= <-]. split.
  - split; [apply (bool_decide_unpack _); vm_compute; exact I|]. split.
    + intros r i. rewrite Hrec. by intros ->%list_elem_of_singleton ->%list_elem_of_singleton.
    + by intros [t Ht].
  - intros v i Hv. vm_compute in Hv. done.
Qed.

