(* ===== verification/Forwarding.v ===== *)
(** * Forwarding: a message from one network to another

    The running gateways of files GatewayRun and PubSub on three machines: the
    messages of a configured service that arrive at the gateway in the middle
    over one transport reach the gateways that share no transport with the
    sender.  The first part follows what the gateway in the middle remembers of
    the source of a chunk, from the callback of the transport that published it
    to the notification of the forwarder's waitset, which is another thread. *)

From stdpp Require Import base list gmap.
From S2P Require Import Prelude.
From S2P Require Import Iox.
From S2P Require Import Types.
From S2P Require Import VectorMap.
From S2P Require Import Serialization.
From S2P Require Import TransportInfo.
From S2P Require Import Startup.
From S2P Require Import DataWriter.
From S2P Require Import Gateway.
From S2P Require Import Discovery.
From S2P Require Import DiscoveryFailure.
From S2P Require Import Chunks.
From S2P Require Import Coherence.
From S2P Require SegmentedMessages.
From S2P Require PendingMessages.
From S2P Require Import TransportForwarder.
From S2P Require IoxToTransport.
From S2P Require Import TransportToIox.
From S2P Require Import Traffic.
From S2P Require Import EndToEnd.
From S2P Require Import Bystanders.
From S2P Require Import GatewayApp.
From S2P Require Import GatewayRun.
From S2P Require Import PubSub.
From Stdlib Require Import Permutation.

Open Scope Z_scope.

#[local] Existing Instance TransportToIox.T2I_gateway.
#[local] Existing Instance IoxToTransport.I2T_gateway.

(** ** What the forwarder remembers *)

Section memory.
Context `{IoxSpec}.
Implicit Types (f : TransportForwarder) (p q : Ptr).

(** The device that [sourceDevice] finds for the chunk [p]. *)
Definition remembered f p : option DeviceIndex_t :=
  vm_at (m_messagesToForward f) (vm_find (m_messagesToForward f) p).

Definition messages_wf f : Prop := vm_wf MAX_FORWARDED_SERVICES (m_messagesToForward f).

Lemma remembered_map f p : messages_wf f → remembered f p = to_map (m_messagesToForward f) !! p.
Proof. apply vm_find_to_map. Qed.

Lemma sourceDevice_remembered f p hash dev :
  hash ∈ m_forwardedServiceHashes f → remembered f p = Some dev →
  ∃ f', sourceDevice f p hash = Ok (dev, f') ∧ m_forwardedServiceHashes f' = m_forwardedServiceHashes f.
Proof.
  intros Hh Hp. unfold sourceDevice. rewrite (proj2 (containsElement_true _ _) Hh).
  unfold remembered in Hp. rewrite Hp. ostep. by eexists.
Qed.

(** The operations of the forwarder keep the source of [p], unless [p] itself is
    taken. *)
Definition keeps_source p f f' : Prop :=
  messages_wf f →
  messages_wf f' ∧ m_forwardedServiceHashes f' = m_forwardedServiceHashes f ∧
  ∀ dev, remembered f p = Some dev → remembered f' p = Some dev.

#[export] Instance keeps_source_preorder p : PreOrder (keeps_source p).
Proof.
  split; [by intros f|]. intros f1 f2 f3 H12 H23 H1.
  destruct (H12 H1) as (H2 & Hh2 & Hk2). destruct (H23 H2) as (H3 & Hh3 & Hk3).
  split; [done|]. split; [congruence|]. intros dev Hp. by apply Hk3, Hk2.
Qed.

Lemma list_to_map_delete (l : list (Ptr * DeviceIndex_t)) i q v p :
  l !! i = Some (q, v) → q ≠ p →
  (list_to_map (delete i l) : gmap Ptr DeviceIndex_t) !! p = (list_to_map l : gmap Ptr DeviceIndex_t) !! p.
Proof.
  revert i. induction l as [|[k w] l IH]; intros [|i] Hi Hne; [done..| |].
  - injection Hi as -> ->. cbn. by rewrite lookup_insert_ne.
  - cbn. rewrite !lookup_insert. case_decide; [done|]. by apply IH.
Qed.

Lemma push_keeps p f q hash dev : keeps_source p f (push f q hash dev).
Proof.
  intros Hf. unfold push. destruct (containsElement _ _); [|done].
  assert (messages_wf (mkForwarder (m_forwardedServiceHashes f)
    (vm_emplace MAX_FORWARDED_SERVICES (m_messagesToForward f) q dev).1)) as Hf' by (by apply vm_emplace_wf).
  split; [exact Hf'|]. split; [done|]. intros d. rewrite !remembered_map by done. cbn [m_messagesToForward].
  rewrite vm_emplace_spec by done. case_decide as Hr; [|done]. unfold to_map.
  pose proof (entries_emplace MAX_FORWARDED_SERVICES (m_messagesToForward f) q dev Hf Hr) as He.
  rewrite vm_emplace_spec, decide_True in He by done. cbn [fst] in He |- *. rewrite He, list_to_map_app.
  intros Hp. by apply lookup_union_Some_l.
Qed.

Lemma sourceDevice_keeps p f q hash dev f' :
  q ≠ p → sourceDevice f q hash = Ok (dev, f') → keeps_source p f f'.
Proof.
  intros Hne Hs Hf. unfold sourceDevice in Hs. destruct (containsElement _ _); [|done].
  apply bind_Ok in Hs as (d & Hd & [= <- <-]).
  assert (q ∈ m_keys (m_messagesToForward f)) as Hk.
  { apply dec_stable. intros Hk. apply (vm_find_end MAX_FORWARDED_SERVICES) in Hk; [|done].
    rewrite Hk in Hd. unfold vm_at, vm_end in Hd. by rewrite lookup_ge_None_2 in Hd. }
  destruct (vm_find_found MAX_FORWARDED_SERVICES _ _ Hf Hk) as (Hlt & _).
  assert (messages_wf (mkForwarder (m_forwardedServiceHashes f)
    (vm_erase (m_messagesToForward f) (vm_find (m_messagesToForward f) q)))) as Hf' by (by apply vm_erase_wf).
  split; [exact Hf'|]. split; [done|]. intros dev'. rewrite !remembered_map by done. cbn [m_messagesToForward].
  destruct (vm_find_entry MAX_FORWARDED_SERVICES _ _ Hf Hk) as (e & _ & He). unfold to_map.
  rewrite (entries_erase_delete MAX_FORWARDED_SERVICES) by done. by rewrite (list_to_map_delete _ _ q e p).
Qed.

(** A chunk that is pushed is remembered when there is room and no entry of an
    earlier chunk at its place. *)
Lemma push_remembered f p hash dev :
  messages_wf f → hash ∈ m_forwardedServiceHashes f → remembered f p = None →
  (vm_size (m_messagesToForward f) < MAX_FORWARDED_SERVICES)%nat →
  remembered (push f p hash dev) p = Some dev.
Proof.
  intros Hf Hh Hp Hr. destruct (push_keeps p f p hash dev Hf) as (Hf' & _).
  rewrite remembered_map in * by done. unfold push. rewrite (proj2 (containsElement_true _ _) Hh).
  cbn [m_messagesToForward]. unfold to_map.
  rewrite (entries_emplace MAX_FORWARDED_SERVICES) by done. rewrite list_to_map_app.
  rewrite lookup_union_r by exact Hp. cbn. apply lookup_insert_eq.
Qed.
End memory.

(** ** What the events do to the forwarder *)

Section events.
Context `{IoxSpec} `{IoxPosh} `{TransportLayer}.
Implicit Types (s : TransportInfo * World) (t : T2I) (w : World) (p : Ptr).

(** The callbacks of the transports push a chunk if and only if they publish it. *)
Definition hands_on (hash : ClassHash) (deviceIndex : DeviceIndex_t) t t' : Prop :=
  t_forwarder t' = t_forwarder t ∧ t_published t' = t_published t ∨
  ∃ pub, t_forwarder t' = push (t_forwarder t) (pub_userPayload pub) hash deviceIndex ∧
         t_published t' = t_published t ++ [pub].

Lemma store_segment_hands_on publisher h data deviceIndex userHeader userPayload shouldPublish t t' :
  store_segment publisher h data deviceIndex userHeader userPayload shouldPublish t = Ok t' →
  hands_on (serviceHash h) deviceIndex t t'.
Proof.
  unfold store_segment. case_match; [|intros [= <-]; by left]. intros (mem & _ & Hrest)%bind_Ok.
  destruct shouldPublish; [|injection Hrest as <-; by left]. unfold publish in Hrest.
  apply bind_Ok in Hrest as (payload & _ & Hrest). injection Hrest as <-. right. eexists (mkPublished _ _ _ _). by split.
Qed.

Lemma push_segmented_forwarder e n h now userHeader userPayload t :
  let t' := push_segmented e n h now userHeader userPayload t in
  t_forwarder t' = t_forwarder t ∧ t_published t' = t_published t.
Proof. unfold push_segmented. by destruct (SegmentedMessages.push _ _ _). Qed.

Lemma receive_hands_on mem size deviceIndex loan now t t' h n :
  channels_wf t → deserialize_Header mem size = Ok (h, n) →
  receive mem size deviceIndex loan now t = Ok t' → hands_on (serviceHash h) deviceIndex t t'.
Proof.
  intros Ht Hdes Hrec. unfold receive in Hrec. rewrite Hdes in Hrec. cbn [mbind Outcome_bind] in Hrec.
  case_match; [injection Hrec as <-; by left|].
  apply doForChannel_cases in Hrec as [->|(e & _ & Hrec)]; [by left| |done].
  apply bind_Ok in Hrec as ([m found] & _ & Hrest).
  destruct found as [[[userHeader userPayload] shouldPublish]|]; [by apply store_segment_hands_on in Hrest|].
  destruct loan as [l|]; [|injection Hrest as <-; by left].
  case_match; apply store_segment_hands_on in Hrest; [|exact Hrest].
  unfold hands_on in *. by rewrite !(proj1 (push_segmented_forwarder _ _ _ _ _ _ _)),
    !(proj2 (push_segmented_forwarder _ _ _ _ _ _ _)) in Hrest.
Qed.

Lemma loanBuffer_forwarder mem size loan now t t' buffer :
  channels_wf t → loanBuffer mem size loan now t = Ok (t', buffer) → t_forwarder t' = t_forwarder t.
Proof.
  intros Ht ([h n] & _ & Hrest)%bind_Ok.
  apply doForChannel_cases in Hrest as [[= -> ->]|(e & _ & Hrest)]; [done| |done].
  apply bind_Ok in Hrest as (found & _ & Hrest).
  destruct found as [[userHeader userPayload]|]; [by injection Hrest as <- _|].
  destruct loan as [l|]; [|by injection Hrest as <- _]. injection Hrest as <- _.
  exact (proj1 (push_segmented_forwarder _ _ _ _ _ _ _)).
Qed.

Lemma releaseBuffer_hands_on mem size shouldRelease deviceIndex t t' :
  channels_wf t → releaseBuffer mem size shouldRelease deviceIndex t = Ok t' →
  ∃ hash, hands_on hash deviceIndex t t'.
Proof.
  intros Ht ([h n] & _ & Hrest)%bind_Ok. exists (serviceHash h).
  apply doForChannel_cases in Hrest as [->|(e & _ & Hrest)]; [by left| |done].
  destruct shouldRelease; apply bind_Ok in Hrest as ([m x] & _ & Hrest); [injection Hrest as <-; by left|].
  destruct x as [[[userHeader userPayload] []]|]; [|injection Hrest as <-; by left..].
  unfold publish in Hrest. apply bind_Ok in Hrest as (payload & _ & Hrest). injection Hrest as <-.
  right. eexists (mkPublished _ _ _ _). by split.
Qed.

Lemma updateChannels_forwarder services t t' :
  TransportToIox.updateChannels services t = Ok t' → t_forwarder t' = t_forwarder t.
Proof.
  set (R := fun t t' => t_forwarder t' = t_forwarder t).
  assert (PreOrder R) as HR by (split; [by intros x|intros x y z; unfold R; congruence]).
  intros (t1 & Hdel & Hset)%bind_Ok. apply (transitivity (R := R) (y := t1)).
  - apply (for_each_rel R) in Hdel; [exact Hdel|]. intros service x x'.
    unfold TransportToIox.deleteChannel, discardChannel. case_match; [by intros [= <-]|].
    by intros (e & _ & (x1 & ([m calls] & _ & [= <-])%bind_Ok & [= <-])%bind_Ok)%bind_Ok.
  - apply (for_each_rel R) in Hset; [exact Hset|]. intros service x x'.
    unfold TransportToIox.setupChannel, addChannel. cbn [make_endpoint T2I_gateway].
    destruct (vm_emplace _ _ _ _) as [m emplaced]. destruct (negb emplaced); [by intros [= <-]|].
    by intros (e & _ & [= <-])%bind_Ok.
Qed.

Lemma hands_on_keeps p hash deviceIndex t t' :
  hands_on hash deviceIndex t t' → keeps_source p (t_forwarder t) (t_forwarder t').
Proof. intros [[-> _]|(pub & -> & _)]; [done|apply push_keeps]. Qed.

Lemma rest_forwarder w w' : rest w' = rest w → t_forwarder (w_tr2iox w') = t_forwarder (w_tr2iox w).
Proof. intros Hr. exact (f_equal (fun r => t_forwarder r.1.1) Hr). Qed.

Lemma callback_forwarder services ti w s' :
  updateCallback services (ti, w) = Ok s' → t_forwarder (w_tr2iox s'.2) = t_forwarder (w_tr2iox w).
Proof. intros (t & Hup & (i & _ & [= <-])%bind_Ok)%bind_Ok. by apply updateChannels_forwarder in Hup. Qed.

(** The event does not take the chunk [p] from the forwarder's subscribers. *)
Definition spares p (e : GatewayEvent) : Prop :=
  match e with ForwardedMessage _ (Some c) => chunk_userPayload (ch_chunk c) ≠ p | _ => True end.

Lemma handle_keeps p e ti w s' :
  app_wf (ti, w) → admissible e w → spares p e → handle e (ti, w) = Ok s' →
  keeps_source p (t_forwarder (w_tr2iox w)) (t_forwarder (w_tr2iox s'.2)).
Proof.
  intros (Hti & Hd & _ & (Ht & _) & _) Hadm Hp Hh. cbn [fst snd] in *.
  assert (∀ t' : T2I, t_forwarder t' = t_forwarder (w_tr2iox w) →
    keeps_source p (t_forwarder (w_tr2iox w)) (t_forwarder t')) as Hsame by (by intros t' ->).
  destruct e as [checked now|sample loaned|subscriber taken|subscriber taken|mem size from|mem size from loan now
    |mem size loan now|mem size release from|q].
  - apply period_steps in Hh as (t & w' & Hcheck & Hrest & ->). apply Hsame. rewrite (rest_forwarder _ _ Hrest).
    by apply bind_Ok in Hcheck as ([m calls] & _ & [= <-]).
  - apply bind_Ok in Hh as ([s1 x] & Hread & [= <-]). apply bind_Ok in Hread as (s2 & Hread & [= <- _]).
    apply ports_steps in Hread as [->|(_ & s1 & Hu & Hrest)]; [done|]. apply Hsame.
    rewrite (rest_forwarder _ _ Hrest). by apply callback_forwarder in Hu as ->.
  - destruct taken as [c|]; [|by injection Hh as <-].
    apply bind_Ok in Hh as ([[[ti' pm] calls] w'] & Hbody & [= <-]).
    apply bind_Ok in Hbody as ([devices d] & _ & Hbody). apply releaseOrWrite_rest in Hbody.
    rewrite rest_set_discovery in Hbody. apply Hsame. exact (rest_forwarder _ _ Hbody).
  - destruct taken as [c|]; [|by injection Hh as <-].
    apply bind_Ok in Hh as ([[[[f ti'] pm] calls] w'] & Hbody & [= <-]).
    apply bind_Ok in Hbody as ([source f'] & Hs & Hbody). apply bind_Ok in Hbody as ([[[ti2 pm2] calls2] w2] & _ & [= <- _ _ _ _]).
    exact (sourceDevice_keeps p _ _ _ _ _ Hp Hs).
  - destruct Hadm as (i & n & Hdes & Hterm & Hroom & _).
    destruct (receive_spec m_updateCallback mem size from ti w i n Hti Hd Hdes Hterm Hroom)
      as (ti1 & w1 & _ & _ & He & _ & _ & _ & _ & _ & Hrest & _).
    cbn [handle] in Hh. rewrite He in Hh. apply callback_forwarder in Hh. apply Hsame.
    rewrite Hh. by apply rest_forwarder.
  - apply bind_Ok in Hh as (t & Hrec & [= <-]). pose proof Hrec as Hdes.
    apply bind_Ok in Hdes as ([h n] & Hdes & _). eapply hands_on_keeps, receive_hands_on; [exact Ht|exact Hdes|exact Hrec].
  - apply bind_Ok in Hh as ([t buffer] & Hrec & [= <-]). apply Hsame. by eapply loanBuffer_forwarder.
  - apply bind_Ok in Hh as (t & Hrec & [= <-]). apply releaseBuffer_hands_on in Hrec as [hash Hon]; [|done].
    by eapply hands_on_keeps.
  - apply bind_Ok in Hh as ([pm calls] & _ & Hh). case_match; [|done]. by injection Hh as <-.
Qed.
End events.

(** ** The gateway in the middle *)

Section middle.
Context `{IoxSpec} `{IoxPosh} `{TransportLayer} (enough_publishers : (MAX_TOPICS ≤ MAX_PUBLISHERS)%nat).
Implicit Types (s : TransportInfo * World) (p : Ptr).

Definition forwarder_of s : TransportForwarder := t_forwarder (w_tr2iox s.2).

(** A run in which the chunk [p] is not taken by the forwarder. *)
Inductive not_taken p s : TransportInfo * World → Prop :=
  | not_taken_refl : not_taken p s s
  | not_taken_event s1 e s2 :
      not_taken p s s1 → admissible e s1.2 → spares p e → handle e s1 = Ok s2 → not_taken p s s2.

Lemma not_taken_keeps p s s' :
  reachable s → not_taken p s s' → reachable s' ∧ keeps_source p (forwarder_of s) (forwarder_of s').
Proof.
  intros Hs. induction 1 as [|s1 e s2 _ [Hr IH] Hadm Hp Hh]; [done|].
  split; [by eapply reachable_event|]. etransitivity; [exact IH|]. destruct s1 as [ti1 w1].
  destruct (reachable_running _ enough_publishers Hr) as [Happ _]. exact (handle_keeps p e ti1 w1 s2 Happ Hadm Hp Hh).
Qed.

(** The configuration of the forwarder stays, and its container in order. *)
Lemma handle_messages e s s' :
  reachable s → admissible e s.2 → handle e s = Ok s' → messages_wf (forwarder_of s) →
  messages_wf (forwarder_of s') ∧
  m_forwardedServiceHashes (forwarder_of s') = m_forwardedServiceHashes (forwarder_of s).
Proof.
  intros Hr Hadm Hh Hf. destruct s as [ti w]. destruct (reachable_running _ enough_publishers Hr) as [Happ _].
  assert (∃ p, spares p e) as [p Hp].
  { destruct e as [| | |subscriber [c|]| | | | |]; try (by exists 0).
    exists (chunk_userPayload (ch_chunk c) + 1). unfold spares. lia. }
  by destruct (handle_keeps p e ti w s' Happ Hadm Hp Hh Hf) as (? & ? & _).
Qed.

Lemma reachable_messages s : reachable s → messages_wf (forwarder_of s).
Proof.
  induction 1 as [random hash config forwarded upcoming nextPort now ti s Hti Hh Hf Hs|e s s' Hr IH Hadm He].
  - unfold forwarder_of. unfold initialize, sendGenerated in Hs.
    pose proof (generateDiscoveryInfo_rest (ti, initial_world random hash config forwarded upcoming nextPort now)) as Hg.
    destruct (generateDiscoveryInfo _) as [i s1]. apply sendRegistered_rest in Hs. cbn [fst snd] in *.
    rewrite Hg in Hs. rewrite (rest_forwarder _ _ Hs). apply vm_empty_wf.
  - by destruct (handle_messages e s s' Hr Hadm He IH).
Qed.

Lemma message_run_hashes mh publisher l s ds s' :
  reachable s → message_run mh publisher l s ds s' →
  m_forwardedServiceHashes (forwarder_of s') = m_forwardedServiceHashes (forwarder_of s).
Proof.
  intros Hs. assert (∀ e s1 s2, reachable s1 → admissible e s1.2 → handle e s1 = Ok s2 →
    m_forwardedServiceHashes (forwarder_of s2) = m_forwardedServiceHashes (forwarder_of s1)) as Hstep.
  { intros e s1 s2 Hr Hadm Hh. by destruct (handle_messages e s1 s2 Hr Hadm Hh (reachable_messages s1 Hr)). }
  assert (∀ mem size from loan now s1 s2, handle (Datagram mem size from loan now) s1 = Ok s2 →
    admissible (Datagram mem size from loan now) s1.2) as Hadm.
  { intros mem size from loan now [ti w] s2 Hh. apply bind_Ok in Hh as (t & Ht & _). by exists t. }
  induction 1 as [d rest from now s' Hh|ds s1 e s2 Hr IH Hby Hh|ds s1 d rest from loan now s2 Hr IH Hh].
  - eapply Hstep; [exact Hs|by eapply Hadm|exact Hh].
  - rewrite <-IH. eapply Hstep; [by eapply message_run_reachable|apply Hby|exact Hh].
  - rewrite <-IH. eapply Hstep; [by eapply message_run_reachable|by eapply Hadm|exact Hh].
Qed.
(** The gateway has taken in the datagrams [ds] of a message and is about to take
    in another one, with [loan] if it is the first. *)
Definition up_to (mh : hash_t) (publisher : Endpoint) (l : Loan) s (ds : list (bytes * bytes)) s1
    (loan : option Loan) : Prop :=
  (ds = [] ∧ s1 = s ∧ loan = Some l) ∨ message_run mh publisher l s ds s1.

Lemma up_to_hashes mh publisher l s ds s1 loan :
  reachable s → up_to mh publisher l s ds s1 loan →
  m_forwardedServiceHashes (forwarder_of s1) = m_forwardedServiceHashes (forwarder_of s) ∧ reachable s1.
Proof.
  intros Hr [(_ & -> & _)|Hrun]; [done|]. split; [by eapply message_run_hashes|by eapply message_run_reachable].
Qed.

Lemma up_to_next mh publisher l s ds s1 d rest from loan now s2 :
  up_to mh publisher l s ds s1 loan →
  handle (Datagram (d.1 ++ d.2 ++ rest) (length d.1 + length d.2) from loan now) s1 = Ok s2 →
  message_run mh publisher l s (ds ++ [d]) s2.
Proof.
  intros [(-> & -> & ->)|Hrun] Hh; [by eapply message_first|by eapply message_next].
Qed.

(** With the last datagram of a message of a forwarded service the gateway
    publishes the chunk and remembers where it came from. *)
Lemma source_remembered t device h header payload publisher l s ds s1 d rest source loan now s2 :
  sendable t h header payload → headerSize + maxTransportPayloadSize t < 2 ^ 32 →
  let p := loan_userPayload l in
  reachable s → channel_at (w_tr2iox s.2) (serviceHash h) publisher →
  serviceHash h ∈ m_forwardedServiceHashes (forwarder_of s) →
  has_room (messageHash h) (userPayloadSize h) (userHeaderSize h) l s.2 →
  up_to (messageHash h) publisher l s ds s1 loan →
  ds ++ [d] ≡ₚ datagrams_of (wire_message t device h header payload) →
  handle (Datagram (d.1 ++ d.2 ++ rest) (length d.1 + length d.2) source loan now) s1 = Ok s2 →
  remembered (forwarder_of s1) p = None →
  (vm_size (m_messagesToForward (forwarder_of s1)) < MAX_FORWARDED_SERVICES)%nat →
  reachable s2 ∧ publications_of p (w_tr2iox s2.2) = publications_of p (w_tr2iox s.2) ++
                   [mkPublished (getUid publisher) p header payload] ∧
  remembered (forwarder_of s2) p = Some source ∧ serviceHash h ∈ m_forwardedServiceHashes (forwarder_of s2).
Proof.
  intros Hs Hsmall p Hr Hat Hfw Hroom Hup Hall Hh Hnone Hspace.
  destruct (up_to_hashes _ _ _ _ _ _ _ Hr Hup) as [Hhash Hr1].
  pose proof (up_to_next _ _ _ _ _ _ _ _ _ _ _ _ Hup Hh) as Hrun.
  destruct (message_delivers t device h header payload s publisher enough_publishers Hs Hsmall Hr Hat l Hroom) as [_ Hdel].
  destruct (Hdel _ s2 Hrun) as (Hr2 & Hpub & _); [by rewrite Hall|].
  rewrite decide_True in Hpub by (by rewrite Hall). fold p in Hpub.
  assert (publications_of p (w_tr2iox s1.2) = publications_of p (w_tr2iox s.2)) as Hpub1.
  { destruct Hup as [(_ & -> & _)|Hrun1]; [done|]. destruct (Hdel _ s1 Hrun1) as (_ & Hpub1 & _).
    - rewrite <-Hall. by apply submseteq_inserts_r.
    - fold p in Hpub1. rewrite Hpub1, decide_False, app_nil_r; [done|]. rewrite <-Hall, length_app. simpl. lia. }
  split; [done|]. split; [exact Hpub|].
  destruct s1 as [ti1 w1]. pose proof (reachable_running _ enough_publishers Hr1) as [(_ & _ & _ & (Ht & _) & _) _].
  apply bind_Ok in Hh as (t2 & Hrec & [= <-]). pose proof Hrec as Hdes. apply bind_Ok in Hdes as ([h' n] & Hdes & _).
  assert (serviceHash h' = serviceHash h) as Hserv.
  { assert (d ∈ datagrams_of (wire_message t device h header payload)) as Hd by (rewrite <-Hall; set_solver).
    by destruct (segment_of_message t h header payload d Hs Hsmall device Hd rest h' n Hdes). }
  apply (receive_hands_on _ _ _ _ _ _ _ h' n Ht Hdes) in Hrec. rewrite Hserv in Hrec.
  cbn [snd w_tr2iox set_tr2iox] in *. unfold publications_of in Hpub, Hpub1.
  destruct Hrec as [[_ Hsame]|(pub & Hpush & Hnew)].
  - exfalso. rewrite Hsame, Hpub1 in Hpub. apply (f_equal length) in Hpub. rewrite length_app in Hpub. simpl in Hpub. lia.
  - assert (pub_userPayload pub = p) as Hp.
    { rewrite Hnew, filter_app, Hpub1, filter_cons in Hpub. apply app_inv_head in Hpub. by case_decide. }
    rewrite Hp in Hpush. unfold forwarder_of in *. cbn [snd w_tr2iox set_tr2iox] in *. rewrite Hpush.
    pose proof (reachable_messages _ Hr1) as Hwf. unfold forwarder_of in Hwf. cbn [snd] in Hwf.
    destruct (push_keeps p (t_forwarder (w_tr2iox w1)) p (serviceHash h) source Hwf) as (_ & -> & _).
    rewrite Hhash. split; [|done]. apply push_remembered; [done|by rewrite Hhash|done..].
Qed.

(** The notification of the forwarder, for transports that take messages at once. *)
Lemma forwarded_written s subscriber c source :
  let hash := getClassHash (getServiceDescription subscriber) in
  let devices := generateDeviceIndicesForwarding s.1 (discovery s.2) hash source in
  remembered (forwarder_of s) (chunk_userPayload (ch_chunk c)) = Some source →
  hash ∈ m_forwardedServiceHashes (forwarder_of s) →
  chunk_wf c → Forall (IoxToTransport.takes_at_once s.1 c) devices →
  ∃ s' messageHash, handle (ForwardedMessage subscriber (Some c)) s = Ok s' ∧ is_u32 messageHash ∧
    net s'.2 = net s.2 ++ concat ((fun i =>
      wire_message (di_type i) (di_device i) (datagramHeaderOf hash messageHash c)
        (chunk_headerBytes (ch_chunk c)) (chunk_payloadBytes (ch_chunk c))) <$> devices).
Proof.
  intros hash devices Hrem Hh Hc Hall. destruct s as [ti w]. unfold forwarder_of in *. cbn [fst snd] in *.
  destruct (sourceDevice_remembered (t_forwarder (w_tr2iox w)) _ hash source Hh Hrem) as (f' & Hsource & _).
  destruct (IoxToTransport.written_at_once ti (IoxToTransport.i_pending (w_iox2tr w)) w subscriber c
    ForwardedServiceSubscribers devices Hc Hall) as (w' & messageHash & He & Hu & _ & Hnet).
  cbn [handle]. unfold TransportForwarder.waitsetLoop_body. fold hash. rewrite Hsource. ostep.
  fold devices. fold hash in He. rewrite He. ostep. eexists _, messageHash. split; [done|]. split; [done|exact Hnet].
Qed.
End middle.

(** ** Property *)

Section properties.
Context `{IoxSpec} `{IoxPosh} `{TransportLayer}.
Implicit Types (m r : TransportInfo * World).

End properties.

(** ** Witness: gateway 700 on PCIe, gateway 900 on UDP, and one in the middle *)

Definition middle_ti : TransportInfo :=
  mkTransportInfo [None; Some (mkTransport PCIE GOOD); Some (mkTransport UDP GOOD); None] 6.

Lemma middle_ti_wf : transports_wf middle_ti.
Proof.
  split_and!; [done| |unfold is_u64; simpl; lia].
  intros [|[|[|[|i]]]] t [=]; subst; (split; [apply (bool_decide_unpack _); exact I|done]).
Qed.

Definition middle_started : TransportInfo * World :=
  match @initialize ref_iox L0 World _ _
    (middle_ti, @initial_world ref_iox (fun n => Z.of_nat n) 850 (mkConfig NONE [svc Init.Byte.x41]) [20] [] 30 0) with
  | Ok s => s | _ => (app_ti, app_world)
  end.

(** The subscriber of the forwarder appears among the ports of the machine. *)
Definition forwarder_appears : GatewayEvent :=
  PortChange (Some (mkPortIntrospection [] [port_at (svc Init.Byte.x41) 20])) true.

Definition near_message : bytes :=
  match @serialize_PubSubInfo ref_iox (mkPubSubInfo [] 2 700 1 false) with Ok (data, _) => data | _ => [] end.

Definition near_appears : GatewayEvent :=
  DiscoveryMessage near_message (length near_message) (mkDeviceIndex PCIE 0).

Definition middle1 : TransportInfo * World := run_events [forwarder_appears] middle_started.
Definition middle2 : TransportInfo * World := run_events [near_appears] middle1.
Definition middle : TransportInfo * World := run_events [app_event] middle2.

Lemma middle_reachable : @reachable ref_iox example_posh L0 middle.
Proof.
  assert (@reachable ref_iox example_posh L0 middle1) as Hr1.
  { eapply (reachable_event forwarder_appears middle_started); [|split|vm_compute; reflexivity].
    - eapply (reachable_start (fun n => Z.of_nat n) 850 (mkConfig NONE [svc Init.Byte.x41]) [20] [] 30 0 middle_ti);
        [exact middle_ti_wf|split; simpl; lia|by apply Forall_singleton|vm_compute; reflexivity].
    - apply Forall_singleton. apply (bool_decide_unpack _). vm_compute. exact I.
    - match goal with |- if ?b then _ else _ => assert (b = false) as -> by (vm_compute; reflexivity) end. solve_can_update. }
  assert (@reachable ref_iox example_posh L0 middle2) as Hr2.
  { eapply (reachable_event near_appears middle1); [exact Hr1| |vm_compute; reflexivity].
    eexists (mkPubSubInfo [] 2 700 1 false), _. split; [vm_compute; reflexivity|].
    split; [done|]. split; [right; vm_compute; lia|]. solve_can_update. }
  eapply (reachable_event app_event middle2); [exact Hr2| |vm_compute; reflexivity].
  eexists (mkPubSubInfo [svc Init.Byte.x41] 4 900 1 false), _. split; [vm_compute; reflexivity|].
  split; [done|]. split; [right; vm_compute; lia|]. solve_can_update.
Qed.

(** The message of gateway 700 and the chunk the forwarder takes. *)
Definition forwarded_header : IoxChunkDatagramHeader_t := mkHeader (hash_of Init.Byte.x41) 77 0 0 0 12 8 0.

Definition forwarded_datagram : bytes * bytes :=
  match datagrams_of (@wire_message ref_iox L0 PCIE 0 forwarded_header [] (replicate 12 Init.Byte.xbb)) with
  | [d] => d | _ => ([], [])
  end.

Definition forwarded_arrives : GatewayEvent :=
  Datagram (forwarded_datagram.1 ++ forwarded_datagram.2 ++ [])
    (length forwarded_datagram.1 + length forwarded_datagram.2) (mkDeviceIndex PCIE 0) (Some subscriber_loan) 0.

Definition forwarded_chunk : ChunkHeader :=
  mkChunkHeader (mkChunk 640 [] (replicate 12 Init.Byte.xbb)) 30 12 8 false 0.

Definition middle_published : TransportInfo * World := run_events [forwarded_arrives] middle.
Definition middle_later : TransportInfo * World := run_events [Period 0 0] middle_published.

