(* ===== verification/Lifecycle.v ===== *)
(** * Lifecycle: from the command line to the last announcement

    The whole life of the gateway, as main.cpp and [GatewayApp::run] of
    source/p3com/gateway/gateway_app.cpp put it together from the parts in the
    other files: the configuration and the transports (file Startup), the
    constructors that register the callbacks (file Assembly), the events (files
    GatewayApp and GatewayRun) and the shutdown; and the time between the
    constructors and [DiscoveryManager::initialize], in which the callbacks are
    registered but the discovery manager has no update callback yet. *)

From stdpp Require Import base list gmap.
From S2P Require Import Prelude.
From S2P Require Import Iox.
From S2P Require Import Types.
From S2P Require Import Serialization.
From S2P Require Import TransportInfo.
From S2P Require Import Startup.
From S2P Require Import Assembly.
From S2P Require Import DataWriter.
From S2P Require Import Gateway.
From S2P Require Import Discovery.
From S2P Require Import DiscoveryFailure.
From S2P Require Import Chunks.
From S2P Require Import Coherence.
From S2P Require IoxToTransport.
From S2P Require Import TransportToIox.
From S2P Require Import GatewayApp.
From S2P Require Import GatewayRun.
From Stdlib Require Import Permutation.

Open Scope Z_scope.

#[local] Existing Instance TransportToIox.T2I_gateway.
#[local] Existing Instance IoxToTransport.I2T_gateway.

(** ** Lemmas *)

Section runs.
Context `{IoxSpec} `{IoxPosh} `{TransportLayer} (enough_publishers : (MAX_TOPICS ≤ MAX_PUBLISHERS)%nat).
Implicit Types (s : TransportInfo * World) (ti : TransportInfo) (w : World).

(** Every event is survivable when it occurs. *)
Fixpoint all_survivable (events : list GatewayEvent) s : Prop :=
  match events with
  | [] => True
  | e :: events => survivable e s.2 ∧ ∀ s', handle e s = Ok s' → all_survivable events s'
  end.

Lemma events_handled events s :
  surviving s → all_survivable events s → ∃ s', for_each handle events s = Ok s' ∧ surviving s'.
Proof.
  revert s. induction events as [|e events IH]; intros s Hs; [by exists s|]. intros [He Hrest]. cbn [for_each].
  pose proof (surviving_parts s enough_publishers Hs) as Hparts. destruct s as [ti w].
  destruct (handle_survives e ti w enough_publishers Hparts He) as (s1 & Hh & _). rewrite Hh. ostep.
  apply IH; [by eapply surviving_event|by apply Hrest].
Qed.

(** The first announcement goes out whatever fails. *)
Lemma initialize_settles ti w :
  parts_wf (ti, w) →
  ∃ ti' w', initialize (ti, w) = Ok (ti', w') ∧ parts_wf (ti', w') ∧ steady w w'.
Proof.
  intros Hparts. pose proof Hparts as (Hti & Hd & Hterm & _). cbn [fst snd] in *.
  destruct (sendGenerated_settles (discovery w) (proj1 Hd) (rest w) ti w Hterm Hti)
    as ([ti' w'] & He & Hti' & Hu & _); [by split_and!; try apply Hd|].
  exists ti', w'. split; [exact He|]. by eapply unchanged_parts.
Qed.
End runs.

(** ** Properties *)

Section properties.
Context `{IoxSpec} `{IoxPosh} `{TransportLayer}.
Implicit Types (s : TransportInfo * World).


(** The callbacks of the transports are registered before the discovery manager is
    given its update callback.  The announcement of another gateway that arrives in
    between is recorded, and the services its users subscribe to count as needed, but
    no channel is set up for them, neither then nor by [initialize], and a look at the
    ports that finds no change does not do so either.  The next announcement or
    change of the ports sets them up. *)
Theorem early_announcement_caught_up (mem : bytes) (size : nat) (deviceIndex : DeviceIndex_t)
    (i : PubSubInfo_t) (n : Z) (ti : TransportInfo) (random : nat → Z) (hash : hash_t) (config : GatewayConfig_t)
    (forwarded : list UniquePortId) (upcoming : list (list Ptr)) (nextPort now : Z) (service : ServiceDescription) :
  (MAX_TOPICS ≤ MAX_PUBLISHERS)%nat → transports_wf ti → is_u32 hash → Forall (fun u => u < nextPort) forwarded →
  deserialize_PubSubInfo mem size = Ok (i, n) → isTermination i = false →
  service ∈ userSubscribers i → (length (userSubscribers i) < MAX_TOPICS)%nat →
  let s0 := (ti, initial_world random hash config forwarded upcoming nextPort now) in
  ∃ s1 s2, receiveRemoteDiscoveryInfo None mem size deviceIndex s0 = Ok s1 ∧ initialize s1 = Ok s2 ∧
    service ∈ updateNeededChannels (discovery s2.2) ∧ have_channels [] s2.2 ∧
    (∀ sample loaned, localStateUnchanged (m_localState (discovery s2.2)) (newLocalState sample) = true →
       ∃ s3, handle (PortChange sample loaned) s2 = Ok s3 ∧ have_channels [] s3.2) ∧
    ∀ e, match e with DiscoveryMessage _ _ _ => True | PortChange sample _ =>
           localStateUnchanged (m_localState (discovery s2.2)) (newLocalState sample) = false | _ => False end →
      admissible e s2.2 → ∃ s3, handle e s2 = Ok s3 ∧ app_wf s3.
Proof.
  intros Hpubs Hti Hh Hf Hdes Hterm Hin Hlen s0.
  pose proof (initial_app ti random hash config forwarded upcoming nextPort now Hti Hh Hf) as Happ. fold s0 in Happ.
  pose proof Happ as (_ & Hd & Hflag & Hs & _). unfold s0 in Hd, Hflag, Hs. cbn [fst snd] in *.
  destruct (receive_spec None mem size deviceIndex ti _ i n Hti Hd Hdes Hterm) as
    (ti1 & w1 & Hti1 & Hd1 & He & Hrec & _ & Hloc & Huids & Ht1 & Hrest & _); [right; simpl; unfold MAX_DEVICE_COUNT; lia|].
  destruct (rest_sound _ w1 Hrest Huids Hs) as (Hs1 & Hh1 & _).
  assert (parts_wf (ti1, w1)) as Hparts1 by (refine (conj Hti1 (conj Hd1 (conj _ Hs1))); cbn [snd]; by rewrite Ht1).
  destruct (initialize_settles ti1 w1 Hparts1) as (ti2 & w2 & Hinit & Hparts2 & [Hh2 Hneed]).
  exists (ti1, w1), (ti2, w2). split; [exact He|]. split; [exact Hinit|]. cbn [snd].
  split.
  { rewrite Hneed, updateNeededChannels_pushUnique.
    assert (services_in_use (discovery w1) = userSubscribers i) as ->.
    { unfold services_in_use. rewrite Hloc, Hrec. unfold upsert. cbn. rewrite decide_False by lia.
      apply app_nil_r. }
    apply pushUnique_not_full; [|by right]. eapply Nat.le_lt_trans; [apply pushUnique_adds|exact Hlen]. }
  assert (have_channels [] w2) as Hnone by (by apply (same_channels_have _ w1), (same_channels_have _ _ _ Hh1)). split; [exact Hnone|]. split.
  { intros sample loaned Hun. cbn [handle]. unfold Discovery.waitsetLoop_body, readPortSubscriber.
    cbn [modify snd]. rewrite Hun. ostep. eexists. split; [done|exact Hnone]. }
  intros [| | | | | | | |] Hkind Hadm; try done.
  - destruct (ports_changed Hpubs sample ti2 w2 Hparts2 Hadm Hkind) as (s3 & Hs3 & Happ3). exists s3.
    cbn [handle]. unfold Discovery.waitsetLoop_body. rewrite Hs3. ostep. by split.
  - by apply message_settles.
Qed.
End properties.

(** ** Witness *)

